(** * Motor-drive core: space-vector modulation and diagnostics logs

    A shallow embedding of [UpdateSpaceVector] (space-vector PWM) and of
    [Logs.c] (event log, real-time data log, fault latch), with the
    properties of the specification stated and proved over it.

    Conventions of the embedding.
    - A C [float] is an IEEE binary32 number ([Float32.float]): a finite
      value (a rational), an infinity or a NaN.  Every arithmetic operation
      rounds its exact result to the nearest binary32 number, ties to even
      ([Float32.rnd]), and overflows to an infinity.  On the TI C28x that the
      code is written for, [double] is binary32 too, so the literals [1.0],
      [2.0], [0.5] and the calls of [fabs] compute in binary32.  The sign of
      a zero is not kept: it shows only in a division by zero, and
      [UpdateSpaceVector] divides by no zero.
    - Logs.c only stores and copies floats: there a float is its value, a
      rational ([Q]), and the one conversion of an [int] to [float] rounds
      ([float_of_int]).
    - A C [int] is a [Z] kept in the signed range of [INT_BITS] bits by
      [wrap_int]; a C [long] is a [Z] (the program does no arithmetic that
      could take one out of its range).
    - A C array is a list; a store outside the array (undefined in C) leaves
      the list unchanged and a load outside it yields nothing.
    - Globals are the fields of a record that each function takes and
      returns. *)

From Stdlib Require Import ZArith QArith Qabs Qround Qpower Qminmax Lqa Lia.
From Stdlib Require Import Bool List.
From stdpp Require Import base list.
Import ListNotations.

(** ** Rational comparisons as the C code writes them *)

Definition Qlt_bool (x y : Q) : bool := negb (Qle_bool y x).

(** * IEEE binary32 arithmetic *)

Module Float32.

Local Open Scope Q_scope.

(** The binade of a rational that is not zero:
    [2 ^ ilog2 x <= |x| < 2 ^ (ilog2 x + 1)]. *)
Definition ilog2 (x : Q) : Z :=
  let e := (Z.log2 (Z.abs (Qnum x)) - Z.log2 (Zpos (Qden x)))%Z in
  if Qle_bool (2 ^ e) (Qabs x) then e else (e - 1)%Z.

(** The nearest integer, ties to the even one. *)
Definition rne (q : Q) : Z :=
  let f := Qfloor q in
  match Qcompare (q - inject_Z f) (1 # 2) with
  | Lt => f
  | Gt => (f + 1)%Z
  | Eq => if Z.even f then f else (f + 1)%Z
  end.

(** The exponent of the unit in the last place: 24 significant bits, and
    never below the subnormal spacing [2 ^ -149]. *)
Definition ulp_exp (x : Q) : Z := (Z.max (ilog2 x) (-126) - 23)%Z.

(** The nearest multiple of the unit in the last place, ties to even, with
    the exponent not bounded above. *)
Definition rnd (x : Q) : Q :=
  if Qeq_bool x 0 then 0
  else Qred (inject_Z (rne (x / 2 ^ ulp_exp x)) * 2 ^ ulp_exp x).

(** [x] is the value of a finite binary32 number. *)
Definition binary32 (x : Q) : Prop := rnd x == x /\ Qabs x < 2 ^ 128.

(** A float: a finite value, an infinity or a NaN. *)
Inductive float : Type :=
  | Fin (q : Q)
  | Inf (negative : bool)
  | NaN.

(** The float that an exact result [q] is rounded to: an infinity when the
    rounded value does not fit the largest exponent. *)
Definition fl (q : Q) : float :=
  if Qle_bool (2 ^ 128) (Qabs (rnd q)) then Inf (Qlt_bool q 0)
  else Fin (rnd q).

Definition fneg (x : float) : float :=
  match x with
  | Fin a => Fin (- a)
  | Inf s => Inf (negb s)
  | NaN => NaN
  end.

Definition fabs (x : float) : float :=
  match x with
  | Fin a => Fin (Qabs a)
  | Inf _ => Inf false
  | NaN => NaN
  end.

Definition fadd (x y : float) : float :=
  match x, y with
  | Fin a, Fin b => fl (a + b)
  | Fin _, Inf s => Inf s
  | Inf s, Fin _ => Inf s
  | Inf s, Inf t => if Bool.eqb s t then Inf s else NaN
  | _, _ => NaN
  end.

Definition fsub (x y : float) : float := fadd x (fneg y).

Definition fmul (x y : float) : float :=
  match x, y with
  | Fin a, Fin b => fl (a * b)
  | Fin a, Inf s => if Qeq_bool a 0 then NaN else Inf (xorb (Qlt_bool a 0) s)
  | Inf s, Fin b => if Qeq_bool b 0 then NaN else Inf (xorb s (Qlt_bool b 0))
  | Inf s, Inf t => Inf (xorb s t)
  | _, _ => NaN
  end.

(** A division by zero gives the infinity of the sign of the dividend, as
    for a divisor [+0]. *)
Definition fdiv (x y : float) : float :=
  match x, y with
  | Fin a, Fin b =>
    if Qeq_bool b 0 then
      if Qeq_bool a 0 then NaN else Inf (Qlt_bool a 0)
    else fl (a / b)
  | Fin _, Inf _ => Fin 0
  | Inf s, Fin b => Inf (xorb s (Qlt_bool b 0))
  | _, _ => NaN
  end.

(** [x < y] and [x >= y]: false when an operand is a NaN. *)
Definition flt (x y : float) : bool :=
  match x, y with
  | Fin a, Fin b => Qlt_bool a b
  | Fin _, Inf t => negb t
  | Inf s, Fin _ => s
  | Inf s, Inf t => s && negb t
  | _, _ => false
  end.

Definition fge (x y : float) : bool :=
  match x, y with
  | Fin a, Fin b => Qle_bool b a
  | Fin _, Inf t => t
  | Inf s, Fin _ => negb s
  | Inf s, Inf t => negb s || t
  | _, _ => false
  end.

End Float32.

(** * Space-vector modulation *)

Module Svm.

Import Float32.
Local Open Scope Q_scope.

(** The globals read and written by [UpdateSpaceVector].  Their
    declarations are in a header that is not part of the sources: the
    voltages, times, period and on-times are floats, the sector, the method
    and the clip flag are integers. *)
Record Vars := mkVars {
  SvmAlpha : float;
  SvmBeta : float;
  SvmPeriod : float;
  SvmMethod : Z;
  SvmBetaSqrt3 : float;
  SvmAlphaAbs : float;
  SvmSector : Z;
  SvmTx : float;
  SvmTy : float;
  SvmT0 : float;
  SvmT02 : float;
  SvmClip : Z;
  SvmK : float;
  SvmOnA : float;
  SvmOnB : float;
  SvmOnC : float
}.

Definition set_SvmBetaSqrt3 (v : float) (s : Vars) : Vars :=
  mkVars (SvmAlpha s) (SvmBeta s) (SvmPeriod s) (SvmMethod s) v
         (SvmAlphaAbs s) (SvmSector s) (SvmTx s) (SvmTy s) (SvmT0 s)
         (SvmT02 s) (SvmClip s) (SvmK s) (SvmOnA s) (SvmOnB s) (SvmOnC s).

Definition set_SvmAlphaAbs (v : float) (s : Vars) : Vars :=
  mkVars (SvmAlpha s) (SvmBeta s) (SvmPeriod s) (SvmMethod s)
         (SvmBetaSqrt3 s) v (SvmSector s) (SvmTx s) (SvmTy s) (SvmT0 s)
         (SvmT02 s) (SvmClip s) (SvmK s) (SvmOnA s) (SvmOnB s) (SvmOnC s).

Definition set_SvmSector (v : Z) (s : Vars) : Vars :=
  mkVars (SvmAlpha s) (SvmBeta s) (SvmPeriod s) (SvmMethod s)
         (SvmBetaSqrt3 s) (SvmAlphaAbs s) v (SvmTx s) (SvmTy s) (SvmT0 s)
         (SvmT02 s) (SvmClip s) (SvmK s) (SvmOnA s) (SvmOnB s) (SvmOnC s).

Definition set_SvmTx (v : float) (s : Vars) : Vars :=
  mkVars (SvmAlpha s) (SvmBeta s) (SvmPeriod s) (SvmMethod s)
         (SvmBetaSqrt3 s) (SvmAlphaAbs s) (SvmSector s) v (SvmTy s) (SvmT0 s)
         (SvmT02 s) (SvmClip s) (SvmK s) (SvmOnA s) (SvmOnB s) (SvmOnC s).

Definition set_SvmTy (v : float) (s : Vars) : Vars :=
  mkVars (SvmAlpha s) (SvmBeta s) (SvmPeriod s) (SvmMethod s)
         (SvmBetaSqrt3 s) (SvmAlphaAbs s) (SvmSector s) (SvmTx s) v (SvmT0 s)
         (SvmT02 s) (SvmClip s) (SvmK s) (SvmOnA s) (SvmOnB s) (SvmOnC s).

Definition set_SvmT0 (v : float) (s : Vars) : Vars :=
  mkVars (SvmAlpha s) (SvmBeta s) (SvmPeriod s) (SvmMethod s)
         (SvmBetaSqrt3 s) (SvmAlphaAbs s) (SvmSector s) (SvmTx s) (SvmTy s) v
         (SvmT02 s) (SvmClip s) (SvmK s) (SvmOnA s) (SvmOnB s) (SvmOnC s).

Definition set_SvmT02 (v : float) (s : Vars) : Vars :=
  mkVars (SvmAlpha s) (SvmBeta s) (SvmPeriod s) (SvmMethod s)
         (SvmBetaSqrt3 s) (SvmAlphaAbs s) (SvmSector s) (SvmTx s) (SvmTy s)
         (SvmT0 s) v (SvmClip s) (SvmK s) (SvmOnA s) (SvmOnB s) (SvmOnC s).

Definition set_SvmClip (v : Z) (s : Vars) : Vars :=
  mkVars (SvmAlpha s) (SvmBeta s) (SvmPeriod s) (SvmMethod s)
         (SvmBetaSqrt3 s) (SvmAlphaAbs s) (SvmSector s) (SvmTx s) (SvmTy s)
         (SvmT0 s) (SvmT02 s) v (SvmK s) (SvmOnA s) (SvmOnB s) (SvmOnC s).

Definition set_SvmK (v : float) (s : Vars) : Vars :=
  mkVars (SvmAlpha s) (SvmBeta s) (SvmPeriod s) (SvmMethod s)
         (SvmBetaSqrt3 s) (SvmAlphaAbs s) (SvmSector s) (SvmTx s) (SvmTy s)
         (SvmT0 s) (SvmT02 s) (SvmClip s) v (SvmOnA s) (SvmOnB s) (SvmOnC s).

(** The three duty registers are always assigned together. *)
Definition set_SvmOn (a b c : float) (s : Vars) : Vars :=
  mkVars (SvmAlpha s) (SvmBeta s) (SvmPeriod s) (SvmMethod s)
         (SvmBetaSqrt3 s) (SvmAlphaAbs s) (SvmSector s) (SvmTx s) (SvmTy s)
         (SvmT0 s) (SvmT02 s) (SvmClip s) (SvmK s) a b c.

Section Modulator.

(** [RECIP_SQRT3] is a macro of the missing header: the float constant
    closest to 1/sqrt(3). *)
Variable RECIP_SQRT3 : float.

(** Lines 25-53: scaled values and sector selection. *)
Definition select_sector (s : Vars) : Vars :=
  let s := set_SvmBetaSqrt3 (fmul (SvmBeta s) RECIP_SQRT3) s in
  let s := set_SvmAlphaAbs (fabs (SvmAlpha s)) s in
  let s := set_SvmSector 0 s in
  if fge (SvmBeta s) (Fin 0) then
    if flt (SvmAlphaAbs s) (fabs (SvmBetaSqrt3 s)) then
      set_SvmSector 2 s
    else if fge (SvmAlpha s) (Fin 0) then set_SvmSector 1 s
    else set_SvmSector 3 s
  else
    if flt (SvmAlphaAbs s) (fabs (SvmBetaSqrt3 s)) then
      set_SvmSector 5 s
    else if fge (SvmAlpha s) (Fin 0) then set_SvmSector 6 s
    else set_SvmSector 4 s.

(** Lines 55-63: on-times of the active vectors X and Y. *)
Definition active_times (s : Vars) : Vars :=
  if (SvmSector s =? 2)%Z || (SvmSector s =? 5)%Z then
    let s := set_SvmTx (fadd (SvmAlpha s) (fabs (SvmBetaSqrt3 s))) s in
    set_SvmTy (fadd (fneg (SvmAlpha s)) (fabs (SvmBetaSqrt3 s))) s
  else
    let s := set_SvmTx (fsub (fabs (SvmAlpha s)) (fabs (SvmBetaSqrt3 s))) s in
    set_SvmTy (fmul (Fin 2) (fabs (SvmBetaSqrt3 s))) s.

(** Lines 65-77: zero time, and rescaling of Tx and Ty in overmodulation. *)
Definition zero_time (s : Vars) : Vars :=
  let s := set_SvmT0 (fsub (fsub (Fin 1) (SvmTx s)) (SvmTy s)) s in
  if flt (SvmT0 s) (Fin 0) then
    let s := set_SvmT0 (Fin 0) s in
    let s := set_SvmClip 1 s in
    let s := set_SvmK (fdiv (Fin 1) (fadd (SvmTx s) (SvmTy s))) s in
    let s := set_SvmTx (fmul (SvmK s) (SvmTx s)) s in
    set_SvmTy (fmul (SvmK s) (SvmTy s)) s
  else
    let s := set_SvmClip 0 s in
    set_SvmK (Fin 1) s.

(** Lines 79-120: the symmetric placement, the only method compiled in. *)
Definition assign_on_times (s : Vars) : Vars :=
  if (SvmMethod s =? 1)%Z then
    let s := set_SvmT02 (fmul (SvmT0 s) (Fin (1 # 2))) s in
    let P := SvmPeriod s in
    let Tx := SvmTx s in
    let Ty := SvmTy s in
    let T02 := SvmT02 s in
    let all := fmul P (fadd (fadd Tx Ty) T02) in
    match SvmSector s with
    | 1%Z => set_SvmOn all (fmul P (fadd Ty T02)) (fmul P T02) s
    | 2%Z => set_SvmOn (fmul P (fadd Tx T02)) all (fmul P T02) s
    | 3%Z => set_SvmOn (fmul P T02) all (fmul P (fadd Tx T02)) s
    | 4%Z => set_SvmOn (fmul P T02) (fmul P (fadd Tx T02)) all s
    | 5%Z => set_SvmOn (fmul P (fadd Tx T02)) (fmul P T02) all s
    | 6%Z => set_SvmOn all (fmul P T02) (fmul P (fadd Ty T02)) s
    | _ => set_SvmOn (Fin 0) (Fin 0) (Fin 0) s
    end
  else s.

Definition UpdateSpaceVector (s : Vars) : Vars :=
  assign_on_times (zero_time (active_times (select_sector s))).

(** The state just before the clamp of lines 67-77: its [SvmTx] and [SvmTy]
    are the times "before clamping". *)
Definition before_clamp (s : Vars) : Vars := active_times (select_sector s).

End Modulator.

(** The value of [RECIP_SQRT3] for the worked examples: the float literal
    [0.577350269]. *)
Definition R3 : float := fl (577350269 # 1000000000).

(** The globals on entry with the four inputs given and every other
    variable zero. *)
Definition inputs (alpha beta period : float) (method : Z) : Vars :=
  mkVars alpha beta period method (Fin 0) (Fin 0) 0 (Fin 0) (Fin 0) (Fin 0)
         (Fin 0) 0 (Fin 0) (Fin 0) (Fin 0) (Fin 0).

End Svm.

(** * Event log, data log and fault latch (Logs.c) *)

Module Logs.

Local Open Scope Z_scope.

(** Event codes (Logs.h). *)
Definition E_START : Z := 1.
Definition E_STOP : Z := 2.
Definition E_RESET : Z := 3.
Definition E_FORCE : Z := 4.
Definition E_STATE : Z := 5.
Definition E_PARAM : Z := 6.
Definition E_FAULT : Z := 7.
Definition E_DATALOG : Z := 8.
Definition E_SETPOINT : Z := 9.
Definition E_FLASH : Z := 10.
Definition E_CANBAD : Z := 11.

(** Fault codes (Logs.h, the branch that is compiled): bit positions in
    [FaultWord]. *)
Definition F_STATE : Z := 0.
Definition F_OVERCURRENT : Z := 1.
Definition F_OVERSPEED : Z := 2.
Definition F_OVERTEMP : Z := 3.
Definition F_OVERVOLT : Z := 4.
Definition F_CHECKSUM : Z := 5.
Definition F_WDOG : Z := 6.
Definition F_GROUND : Z := 7.
Definition F_ENCODER : Z := 8.
Definition F_RESOLVER : Z := 9.
Definition F_UNDERVOLT : Z := 10.
Definition F_UVLO : Z := 11.
Definition F_CANBUS : Z := 12.
Definition F_VOLTBALANCE : Z := 13.
Definition F_OVERRUN : Z := 14.
Definition F_SPEED : Z := 15.
Definition F_STALL : Z := 16.

(** The drive signals whose addresses [DefaultLog] binds to the channels. *)
Inductive DriveSignal : Type :=
  | IdRef | IqRef | RpmRef | Id | Iq | RpmOut | VdRef | VqRef | ThetaOut.

(** One entry of the event log: the five parallel arrays of Logs.c read at
    one index. *)
Record EventRecord := mkEvent {
  ev_time1 : Z;
  ev_time2 : Z;
  ev_code : Z;
  ev_data1 : Z;
  ev_data2 : Q
}.

(** Array accesses with a C [int] index. *)
Definition store {A : Type} (i : Z) (v : A) (l : list A) : list A :=
  if 0 <=? i then <[Z.to_nat i := v]> l else l.

Definition load {A : Type} (i : Z) (l : list A) : option A :=
  if 0 <=? i then l !! Z.to_nat i else None.

(** Signed wrap-around to [bits] bits. *)
Definition wrap (bits x : Z) : Z :=
  (x + 2 ^ (bits - 1)) mod 2 ^ bits - 2 ^ (bits - 1).

(** The conversion of an [int] to [float]: the nearest binary32 number,
    ties to even (exact up to 24 bits; an [int] of at most 128 bits is
    within the range of binary32). *)
Definition float_of_int (x : Z) : Q := Float32.rnd (inject_Z x).

(** The globals of Logs.c, and those of the rest of the firmware that its
    functions touch ([mainState], the PWM enable, [WeRef], flag 2,
    [FaultResetCount], and the memory the channel pointers read, [Signals]).
    A channel base [LogBase[i]] is either null ([None], the initial value)
    or [LogBuf + off] ([Some off]); a channel pointer [LogPtr[i]] is an
    address in the 16-bit data space.

    [EventHistory] is a history variable, not a variable of the program:
    every record handed to [LogEvent] since start-up, newest first.  Its
    length numbers the readings of the timer. *)
Record State := mkState {
  LogBuf : list Q;
  LogChan : Z;
  LogLength : Z;
  LogBase : list (option Z);
  LogCount : Z;
  LogSingle : Z;
  LogPtr : list Z;
  LogSkip : Z;
  LogTrigger : Z;
  OldTrigger : Z;
  LogInit : Z;
  LogSkipCount : Z;
  LogAddr0 : Z;
  LogAddr1 : Z;
  LogAddr2 : Z;
  LogAddr3 : Z;
  LogAddr4 : Z;
  LogAddr5 : Z;
  LogAddr6 : Z;
  LogAddr7 : Z;
  LogAddr8 : Z;
  LogAuto : Z;
  EventTime1 : list Z;
  EventTime2 : list Z;
  EventCode : list Z;
  EventData1 : list Z;
  EventData2 : list Q;
  EventIndex : Z;
  FaultWord : Z;
  mainState : Z;
  PwmEnabled : bool;
  WeRef : Q;
  Flag2 : bool;
  FaultResetCount : Z;
  Signals : Z -> Q;
  EventHistory : list EventRecord
}.

Definition set_LogBuf (v : list Q) (s : State) : State :=
  mkState v (LogChan s) (LogLength s) (LogBase s) (LogCount s) (LogSingle s)
    (LogPtr s) (LogSkip s) (LogTrigger s) (OldTrigger s) (LogInit s)
    (LogSkipCount s) (LogAddr0 s) (LogAddr1 s) (LogAddr2 s) (LogAddr3 s)
    (LogAddr4 s) (LogAddr5 s) (LogAddr6 s) (LogAddr7 s) (LogAddr8 s)
    (LogAuto s) (EventTime1 s) (EventTime2 s) (EventCode s) (EventData1 s)
    (EventData2 s) (EventIndex s) (FaultWord s) (mainState s) (PwmEnabled s)
    (WeRef s) (Flag2 s) (FaultResetCount s) (Signals s) (EventHistory s).

Definition set_LogChan (v : Z) (s : State) : State :=
  mkState (LogBuf s) v (LogLength s) (LogBase s) (LogCount s) (LogSingle s)
    (LogPtr s) (LogSkip s) (LogTrigger s) (OldTrigger s) (LogInit s)
    (LogSkipCount s) (LogAddr0 s) (LogAddr1 s) (LogAddr2 s) (LogAddr3 s)
    (LogAddr4 s) (LogAddr5 s) (LogAddr6 s) (LogAddr7 s) (LogAddr8 s)
    (LogAuto s) (EventTime1 s) (EventTime2 s) (EventCode s) (EventData1 s)
    (EventData2 s) (EventIndex s) (FaultWord s) (mainState s) (PwmEnabled s)
    (WeRef s) (Flag2 s) (FaultResetCount s) (Signals s) (EventHistory s).

Definition set_LogLength (v : Z) (s : State) : State :=
  mkState (LogBuf s) (LogChan s) v (LogBase s) (LogCount s) (LogSingle s)
    (LogPtr s) (LogSkip s) (LogTrigger s) (OldTrigger s) (LogInit s)
    (LogSkipCount s) (LogAddr0 s) (LogAddr1 s) (LogAddr2 s) (LogAddr3 s)
    (LogAddr4 s) (LogAddr5 s) (LogAddr6 s) (LogAddr7 s) (LogAddr8 s)
    (LogAuto s) (EventTime1 s) (EventTime2 s) (EventCode s) (EventData1 s)
    (EventData2 s) (EventIndex s) (FaultWord s) (mainState s) (PwmEnabled s)
    (WeRef s) (Flag2 s) (FaultResetCount s) (Signals s) (EventHistory s).

Definition set_LogBase (v : list (option Z)) (s : State) : State :=
  mkState (LogBuf s) (LogChan s) (LogLength s) v (LogCount s) (LogSingle s)
    (LogPtr s) (LogSkip s) (LogTrigger s) (OldTrigger s) (LogInit s)
    (LogSkipCount s) (LogAddr0 s) (LogAddr1 s) (LogAddr2 s) (LogAddr3 s)
    (LogAddr4 s) (LogAddr5 s) (LogAddr6 s) (LogAddr7 s) (LogAddr8 s)
    (LogAuto s) (EventTime1 s) (EventTime2 s) (EventCode s) (EventData1 s)
    (EventData2 s) (EventIndex s) (FaultWord s) (mainState s) (PwmEnabled s)
    (WeRef s) (Flag2 s) (FaultResetCount s) (Signals s) (EventHistory s).

Definition set_LogCount (v : Z) (s : State) : State :=
  mkState (LogBuf s) (LogChan s) (LogLength s) (LogBase s) v (LogSingle s)
    (LogPtr s) (LogSkip s) (LogTrigger s) (OldTrigger s) (LogInit s)
    (LogSkipCount s) (LogAddr0 s) (LogAddr1 s) (LogAddr2 s) (LogAddr3 s)
    (LogAddr4 s) (LogAddr5 s) (LogAddr6 s) (LogAddr7 s) (LogAddr8 s)
    (LogAuto s) (EventTime1 s) (EventTime2 s) (EventCode s) (EventData1 s)
    (EventData2 s) (EventIndex s) (FaultWord s) (mainState s) (PwmEnabled s)
    (WeRef s) (Flag2 s) (FaultResetCount s) (Signals s) (EventHistory s).

Definition set_LogSingle (v : Z) (s : State) : State :=
  mkState (LogBuf s) (LogChan s) (LogLength s) (LogBase s) (LogCount s) v
    (LogPtr s) (LogSkip s) (LogTrigger s) (OldTrigger s) (LogInit s)
    (LogSkipCount s) (LogAddr0 s) (LogAddr1 s) (LogAddr2 s) (LogAddr3 s)
    (LogAddr4 s) (LogAddr5 s) (LogAddr6 s) (LogAddr7 s) (LogAddr8 s)
    (LogAuto s) (EventTime1 s) (EventTime2 s) (EventCode s) (EventData1 s)
    (EventData2 s) (EventIndex s) (FaultWord s) (mainState s) (PwmEnabled s)
    (WeRef s) (Flag2 s) (FaultResetCount s) (Signals s) (EventHistory s).

Definition set_LogPtr (v : list Z) (s : State) : State :=
  mkState (LogBuf s) (LogChan s) (LogLength s) (LogBase s) (LogCount s)
    (LogSingle s) v (LogSkip s) (LogTrigger s) (OldTrigger s) (LogInit s)
    (LogSkipCount s) (LogAddr0 s) (LogAddr1 s) (LogAddr2 s) (LogAddr3 s)
    (LogAddr4 s) (LogAddr5 s) (LogAddr6 s) (LogAddr7 s) (LogAddr8 s)
    (LogAuto s) (EventTime1 s) (EventTime2 s) (EventCode s) (EventData1 s)
    (EventData2 s) (EventIndex s) (FaultWord s) (mainState s) (PwmEnabled s)
    (WeRef s) (Flag2 s) (FaultResetCount s) (Signals s) (EventHistory s).

Definition set_LogSkip (v : Z) (s : State) : State :=
  mkState (LogBuf s) (LogChan s) (LogLength s) (LogBase s) (LogCount s)
    (LogSingle s) (LogPtr s) v (LogTrigger s) (OldTrigger s) (LogInit s)
    (LogSkipCount s) (LogAddr0 s) (LogAddr1 s) (LogAddr2 s) (LogAddr3 s)
    (LogAddr4 s) (LogAddr5 s) (LogAddr6 s) (LogAddr7 s) (LogAddr8 s)
    (LogAuto s) (EventTime1 s) (EventTime2 s) (EventCode s) (EventData1 s)
    (EventData2 s) (EventIndex s) (FaultWord s) (mainState s) (PwmEnabled s)
    (WeRef s) (Flag2 s) (FaultResetCount s) (Signals s) (EventHistory s).

Definition set_LogTrigger (v : Z) (s : State) : State :=
  mkState (LogBuf s) (LogChan s) (LogLength s) (LogBase s) (LogCount s)
    (LogSingle s) (LogPtr s) (LogSkip s) v (OldTrigger s) (LogInit s)
    (LogSkipCount s) (LogAddr0 s) (LogAddr1 s) (LogAddr2 s) (LogAddr3 s)
    (LogAddr4 s) (LogAddr5 s) (LogAddr6 s) (LogAddr7 s) (LogAddr8 s)
    (LogAuto s) (EventTime1 s) (EventTime2 s) (EventCode s) (EventData1 s)
    (EventData2 s) (EventIndex s) (FaultWord s) (mainState s) (PwmEnabled s)
    (WeRef s) (Flag2 s) (FaultResetCount s) (Signals s) (EventHistory s).

Definition set_OldTrigger (v : Z) (s : State) : State :=
  mkState (LogBuf s) (LogChan s) (LogLength s) (LogBase s) (LogCount s)
    (LogSingle s) (LogPtr s) (LogSkip s) (LogTrigger s) v (LogInit s)
    (LogSkipCount s) (LogAddr0 s) (LogAddr1 s) (LogAddr2 s) (LogAddr3 s)
    (LogAddr4 s) (LogAddr5 s) (LogAddr6 s) (LogAddr7 s) (LogAddr8 s)
    (LogAuto s) (EventTime1 s) (EventTime2 s) (EventCode s) (EventData1 s)
    (EventData2 s) (EventIndex s) (FaultWord s) (mainState s) (PwmEnabled s)
    (WeRef s) (Flag2 s) (FaultResetCount s) (Signals s) (EventHistory s).

Definition set_LogInit (v : Z) (s : State) : State :=
  mkState (LogBuf s) (LogChan s) (LogLength s) (LogBase s) (LogCount s)
    (LogSingle s) (LogPtr s) (LogSkip s) (LogTrigger s) (OldTrigger s) v
    (LogSkipCount s) (LogAddr0 s) (LogAddr1 s) (LogAddr2 s) (LogAddr3 s)
    (LogAddr4 s) (LogAddr5 s) (LogAddr6 s) (LogAddr7 s) (LogAddr8 s)
    (LogAuto s) (EventTime1 s) (EventTime2 s) (EventCode s) (EventData1 s)
    (EventData2 s) (EventIndex s) (FaultWord s) (mainState s) (PwmEnabled s)
    (WeRef s) (Flag2 s) (FaultResetCount s) (Signals s) (EventHistory s).

Definition set_LogSkipCount (v : Z) (s : State) : State :=
  mkState (LogBuf s) (LogChan s) (LogLength s) (LogBase s) (LogCount s)
    (LogSingle s) (LogPtr s) (LogSkip s) (LogTrigger s) (OldTrigger s)
    (LogInit s) v (LogAddr0 s) (LogAddr1 s) (LogAddr2 s) (LogAddr3 s)
    (LogAddr4 s) (LogAddr5 s) (LogAddr6 s) (LogAddr7 s) (LogAddr8 s)
    (LogAuto s) (EventTime1 s) (EventTime2 s) (EventCode s) (EventData1 s)
    (EventData2 s) (EventIndex s) (FaultWord s) (mainState s) (PwmEnabled s)
    (WeRef s) (Flag2 s) (FaultResetCount s) (Signals s) (EventHistory s).

Definition set_LogAddr0 (v : Z) (s : State) : State :=
  mkState (LogBuf s) (LogChan s) (LogLength s) (LogBase s) (LogCount s)
    (LogSingle s) (LogPtr s) (LogSkip s) (LogTrigger s) (OldTrigger s)
    (LogInit s) (LogSkipCount s) v (LogAddr1 s) (LogAddr2 s) (LogAddr3 s)
    (LogAddr4 s) (LogAddr5 s) (LogAddr6 s) (LogAddr7 s) (LogAddr8 s)
    (LogAuto s) (EventTime1 s) (EventTime2 s) (EventCode s) (EventData1 s)
    (EventData2 s) (EventIndex s) (FaultWord s) (mainState s) (PwmEnabled s)
    (WeRef s) (Flag2 s) (FaultResetCount s) (Signals s) (EventHistory s).

Definition set_LogAddr1 (v : Z) (s : State) : State :=
  mkState (LogBuf s) (LogChan s) (LogLength s) (LogBase s) (LogCount s)
    (LogSingle s) (LogPtr s) (LogSkip s) (LogTrigger s) (OldTrigger s)
    (LogInit s) (LogSkipCount s) (LogAddr0 s) v (LogAddr2 s) (LogAddr3 s)
    (LogAddr4 s) (LogAddr5 s) (LogAddr6 s) (LogAddr7 s) (LogAddr8 s)
    (LogAuto s) (EventTime1 s) (EventTime2 s) (EventCode s) (EventData1 s)
    (EventData2 s) (EventIndex s) (FaultWord s) (mainState s) (PwmEnabled s)
    (WeRef s) (Flag2 s) (FaultResetCount s) (Signals s) (EventHistory s).

Definition set_LogAddr2 (v : Z) (s : State) : State :=
  mkState (LogBuf s) (LogChan s) (LogLength s) (LogBase s) (LogCount s)
    (LogSingle s) (LogPtr s) (LogSkip s) (LogTrigger s) (OldTrigger s)
    (LogInit s) (LogSkipCount s) (LogAddr0 s) (LogAddr1 s) v (LogAddr3 s)
    (LogAddr4 s) (LogAddr5 s) (LogAddr6 s) (LogAddr7 s) (LogAddr8 s)
    (LogAuto s) (EventTime1 s) (EventTime2 s) (EventCode s) (EventData1 s)
    (EventData2 s) (EventIndex s) (FaultWord s) (mainState s) (PwmEnabled s)
    (WeRef s) (Flag2 s) (FaultResetCount s) (Signals s) (EventHistory s).

Definition set_LogAddr3 (v : Z) (s : State) : State :=
  mkState (LogBuf s) (LogChan s) (LogLength s) (LogBase s) (LogCount s)
    (LogSingle s) (LogPtr s) (LogSkip s) (LogTrigger s) (OldTrigger s)
    (LogInit s) (LogSkipCount s) (LogAddr0 s) (LogAddr1 s) (LogAddr2 s) v
    (LogAddr4 s) (LogAddr5 s) (LogAddr6 s) (LogAddr7 s) (LogAddr8 s)
    (LogAuto s) (EventTime1 s) (EventTime2 s) (EventCode s) (EventData1 s)
    (EventData2 s) (EventIndex s) (FaultWord s) (mainState s) (PwmEnabled s)
    (WeRef s) (Flag2 s) (FaultResetCount s) (Signals s) (EventHistory s).

Definition set_LogAddr4 (v : Z) (s : State) : State :=
  mkState (LogBuf s) (LogChan s) (LogLength s) (LogBase s) (LogCount s)
    (LogSingle s) (LogPtr s) (LogSkip s) (LogTrigger s) (OldTrigger s)
    (LogInit s) (LogSkipCount s) (LogAddr0 s) (LogAddr1 s) (LogAddr2 s)
    (LogAddr3 s) v (LogAddr5 s) (LogAddr6 s) (LogAddr7 s) (LogAddr8 s)
    (LogAuto s) (EventTime1 s) (EventTime2 s) (EventCode s) (EventData1 s)
    (EventData2 s) (EventIndex s) (FaultWord s) (mainState s) (PwmEnabled s)
    (WeRef s) (Flag2 s) (FaultResetCount s) (Signals s) (EventHistory s).

Definition set_LogAddr5 (v : Z) (s : State) : State :=
  mkState (LogBuf s) (LogChan s) (LogLength s) (LogBase s) (LogCount s)
    (LogSingle s) (LogPtr s) (LogSkip s) (LogTrigger s) (OldTrigger s)
    (LogInit s) (LogSkipCount s) (LogAddr0 s) (LogAddr1 s) (LogAddr2 s)
    (LogAddr3 s) (LogAddr4 s) v (LogAddr6 s) (LogAddr7 s) (LogAddr8 s)
    (LogAuto s) (EventTime1 s) (EventTime2 s) (EventCode s) (EventData1 s)
    (EventData2 s) (EventIndex s) (FaultWord s) (mainState s) (PwmEnabled s)
    (WeRef s) (Flag2 s) (FaultResetCount s) (Signals s) (EventHistory s).

Definition set_LogAddr6 (v : Z) (s : State) : State :=
  mkState (LogBuf s) (LogChan s) (LogLength s) (LogBase s) (LogCount s)
    (LogSingle s) (LogPtr s) (LogSkip s) (LogTrigger s) (OldTrigger s)
    (LogInit s) (LogSkipCount s) (LogAddr0 s) (LogAddr1 s) (LogAddr2 s)
    (LogAddr3 s) (LogAddr4 s) (LogAddr5 s) v (LogAddr7 s) (LogAddr8 s)
    (LogAuto s) (EventTime1 s) (EventTime2 s) (EventCode s) (EventData1 s)
    (EventData2 s) (EventIndex s) (FaultWord s) (mainState s) (PwmEnabled s)
    (WeRef s) (Flag2 s) (FaultResetCount s) (Signals s) (EventHistory s).

Definition set_LogAddr7 (v : Z) (s : State) : State :=
  mkState (LogBuf s) (LogChan s) (LogLength s) (LogBase s) (LogCount s)
    (LogSingle s) (LogPtr s) (LogSkip s) (LogTrigger s) (OldTrigger s)
    (LogInit s) (LogSkipCount s) (LogAddr0 s) (LogAddr1 s) (LogAddr2 s)
    (LogAddr3 s) (LogAddr4 s) (LogAddr5 s) (LogAddr6 s) v (LogAddr8 s)
    (LogAuto s) (EventTime1 s) (EventTime2 s) (EventCode s) (EventData1 s)
    (EventData2 s) (EventIndex s) (FaultWord s) (mainState s) (PwmEnabled s)
    (WeRef s) (Flag2 s) (FaultResetCount s) (Signals s) (EventHistory s).

Definition set_LogAddr8 (v : Z) (s : State) : State :=
  mkState (LogBuf s) (LogChan s) (LogLength s) (LogBase s) (LogCount s)
    (LogSingle s) (LogPtr s) (LogSkip s) (LogTrigger s) (OldTrigger s)
    (LogInit s) (LogSkipCount s) (LogAddr0 s) (LogAddr1 s) (LogAddr2 s)
    (LogAddr3 s) (LogAddr4 s) (LogAddr5 s) (LogAddr6 s) (LogAddr7 s) v
    (LogAuto s) (EventTime1 s) (EventTime2 s) (EventCode s) (EventData1 s)
    (EventData2 s) (EventIndex s) (FaultWord s) (mainState s) (PwmEnabled s)
    (WeRef s) (Flag2 s) (FaultResetCount s) (Signals s) (EventHistory s).

Definition set_LogAuto (v : Z) (s : State) : State :=
  mkState (LogBuf s) (LogChan s) (LogLength s) (LogBase s) (LogCount s)
    (LogSingle s) (LogPtr s) (LogSkip s) (LogTrigger s) (OldTrigger s)
    (LogInit s) (LogSkipCount s) (LogAddr0 s) (LogAddr1 s) (LogAddr2 s)
    (LogAddr3 s) (LogAddr4 s) (LogAddr5 s) (LogAddr6 s) (LogAddr7 s)
    (LogAddr8 s) v (EventTime1 s) (EventTime2 s) (EventCode s) (EventData1
    s) (EventData2 s) (EventIndex s) (FaultWord s) (mainState s) (PwmEnabled
    s) (WeRef s) (Flag2 s) (FaultResetCount s) (Signals s) (EventHistory s).

Definition set_EventTime1 (v : list Z) (s : State) : State :=
  mkState (LogBuf s) (LogChan s) (LogLength s) (LogBase s) (LogCount s)
    (LogSingle s) (LogPtr s) (LogSkip s) (LogTrigger s) (OldTrigger s)
    (LogInit s) (LogSkipCount s) (LogAddr0 s) (LogAddr1 s) (LogAddr2 s)
    (LogAddr3 s) (LogAddr4 s) (LogAddr5 s) (LogAddr6 s) (LogAddr7 s)
    (LogAddr8 s) (LogAuto s) v (EventTime2 s) (EventCode s) (EventData1 s)
    (EventData2 s) (EventIndex s) (FaultWord s) (mainState s) (PwmEnabled s)
    (WeRef s) (Flag2 s) (FaultResetCount s) (Signals s) (EventHistory s).

Definition set_EventTime2 (v : list Z) (s : State) : State :=
  mkState (LogBuf s) (LogChan s) (LogLength s) (LogBase s) (LogCount s)
    (LogSingle s) (LogPtr s) (LogSkip s) (LogTrigger s) (OldTrigger s)
    (LogInit s) (LogSkipCount s) (LogAddr0 s) (LogAddr1 s) (LogAddr2 s)
    (LogAddr3 s) (LogAddr4 s) (LogAddr5 s) (LogAddr6 s) (LogAddr7 s)
    (LogAddr8 s) (LogAuto s) (EventTime1 s) v (EventCode s) (EventData1 s)
    (EventData2 s) (EventIndex s) (FaultWord s) (mainState s) (PwmEnabled s)
    (WeRef s) (Flag2 s) (FaultResetCount s) (Signals s) (EventHistory s).

Definition set_EventCode (v : list Z) (s : State) : State :=
  mkState (LogBuf s) (LogChan s) (LogLength s) (LogBase s) (LogCount s)
    (LogSingle s) (LogPtr s) (LogSkip s) (LogTrigger s) (OldTrigger s)
    (LogInit s) (LogSkipCount s) (LogAddr0 s) (LogAddr1 s) (LogAddr2 s)
    (LogAddr3 s) (LogAddr4 s) (LogAddr5 s) (LogAddr6 s) (LogAddr7 s)
    (LogAddr8 s) (LogAuto s) (EventTime1 s) (EventTime2 s) v (EventData1 s)
    (EventData2 s) (EventIndex s) (FaultWord s) (mainState s) (PwmEnabled s)
    (WeRef s) (Flag2 s) (FaultResetCount s) (Signals s) (EventHistory s).

Definition set_EventData1 (v : list Z) (s : State) : State :=
  mkState (LogBuf s) (LogChan s) (LogLength s) (LogBase s) (LogCount s)
    (LogSingle s) (LogPtr s) (LogSkip s) (LogTrigger s) (OldTrigger s)
    (LogInit s) (LogSkipCount s) (LogAddr0 s) (LogAddr1 s) (LogAddr2 s)
    (LogAddr3 s) (LogAddr4 s) (LogAddr5 s) (LogAddr6 s) (LogAddr7 s)
    (LogAddr8 s) (LogAuto s) (EventTime1 s) (EventTime2 s) (EventCode s) v
    (EventData2 s) (EventIndex s) (FaultWord s) (mainState s) (PwmEnabled s)
    (WeRef s) (Flag2 s) (FaultResetCount s) (Signals s) (EventHistory s).

Definition set_EventData2 (v : list Q) (s : State) : State :=
  mkState (LogBuf s) (LogChan s) (LogLength s) (LogBase s) (LogCount s)
    (LogSingle s) (LogPtr s) (LogSkip s) (LogTrigger s) (OldTrigger s)
    (LogInit s) (LogSkipCount s) (LogAddr0 s) (LogAddr1 s) (LogAddr2 s)
    (LogAddr3 s) (LogAddr4 s) (LogAddr5 s) (LogAddr6 s) (LogAddr7 s)
    (LogAddr8 s) (LogAuto s) (EventTime1 s) (EventTime2 s) (EventCode s)
    (EventData1 s) v (EventIndex s) (FaultWord s) (mainState s) (PwmEnabled
    s) (WeRef s) (Flag2 s) (FaultResetCount s) (Signals s) (EventHistory s).

Definition set_EventIndex (v : Z) (s : State) : State :=
  mkState (LogBuf s) (LogChan s) (LogLength s) (LogBase s) (LogCount s)
    (LogSingle s) (LogPtr s) (LogSkip s) (LogTrigger s) (OldTrigger s)
    (LogInit s) (LogSkipCount s) (LogAddr0 s) (LogAddr1 s) (LogAddr2 s)
    (LogAddr3 s) (LogAddr4 s) (LogAddr5 s) (LogAddr6 s) (LogAddr7 s)
    (LogAddr8 s) (LogAuto s) (EventTime1 s) (EventTime2 s) (EventCode s)
    (EventData1 s) (EventData2 s) v (FaultWord s) (mainState s) (PwmEnabled
    s) (WeRef s) (Flag2 s) (FaultResetCount s) (Signals s) (EventHistory s).

Definition set_FaultWord (v : Z) (s : State) : State :=
  mkState (LogBuf s) (LogChan s) (LogLength s) (LogBase s) (LogCount s)
    (LogSingle s) (LogPtr s) (LogSkip s) (LogTrigger s) (OldTrigger s)
    (LogInit s) (LogSkipCount s) (LogAddr0 s) (LogAddr1 s) (LogAddr2 s)
    (LogAddr3 s) (LogAddr4 s) (LogAddr5 s) (LogAddr6 s) (LogAddr7 s)
    (LogAddr8 s) (LogAuto s) (EventTime1 s) (EventTime2 s) (EventCode s)
    (EventData1 s) (EventData2 s) (EventIndex s) v (mainState s) (PwmEnabled
    s) (WeRef s) (Flag2 s) (FaultResetCount s) (Signals s) (EventHistory s).

Definition set_mainState (v : Z) (s : State) : State :=
  mkState (LogBuf s) (LogChan s) (LogLength s) (LogBase s) (LogCount s)
    (LogSingle s) (LogPtr s) (LogSkip s) (LogTrigger s) (OldTrigger s)
    (LogInit s) (LogSkipCount s) (LogAddr0 s) (LogAddr1 s) (LogAddr2 s)
    (LogAddr3 s) (LogAddr4 s) (LogAddr5 s) (LogAddr6 s) (LogAddr7 s)
    (LogAddr8 s) (LogAuto s) (EventTime1 s) (EventTime2 s) (EventCode s)
    (EventData1 s) (EventData2 s) (EventIndex s) (FaultWord s) v (PwmEnabled
    s) (WeRef s) (Flag2 s) (FaultResetCount s) (Signals s) (EventHistory s).

Definition set_PwmEnabled (v : bool) (s : State) : State :=
  mkState (LogBuf s) (LogChan s) (LogLength s) (LogBase s) (LogCount s)
    (LogSingle s) (LogPtr s) (LogSkip s) (LogTrigger s) (OldTrigger s)
    (LogInit s) (LogSkipCount s) (LogAddr0 s) (LogAddr1 s) (LogAddr2 s)
    (LogAddr3 s) (LogAddr4 s) (LogAddr5 s) (LogAddr6 s) (LogAddr7 s)
    (LogAddr8 s) (LogAuto s) (EventTime1 s) (EventTime2 s) (EventCode s)
    (EventData1 s) (EventData2 s) (EventIndex s) (FaultWord s) (mainState s)
    v (WeRef s) (Flag2 s) (FaultResetCount s) (Signals s) (EventHistory s).

Definition set_WeRef (v : Q) (s : State) : State :=
  mkState (LogBuf s) (LogChan s) (LogLength s) (LogBase s) (LogCount s)
    (LogSingle s) (LogPtr s) (LogSkip s) (LogTrigger s) (OldTrigger s)
    (LogInit s) (LogSkipCount s) (LogAddr0 s) (LogAddr1 s) (LogAddr2 s)
    (LogAddr3 s) (LogAddr4 s) (LogAddr5 s) (LogAddr6 s) (LogAddr7 s)
    (LogAddr8 s) (LogAuto s) (EventTime1 s) (EventTime2 s) (EventCode s)
    (EventData1 s) (EventData2 s) (EventIndex s) (FaultWord s) (mainState s)
    (PwmEnabled s) v (Flag2 s) (FaultResetCount s) (Signals s) (EventHistory
    s).

Definition set_Flag2 (v : bool) (s : State) : State :=
  mkState (LogBuf s) (LogChan s) (LogLength s) (LogBase s) (LogCount s)
    (LogSingle s) (LogPtr s) (LogSkip s) (LogTrigger s) (OldTrigger s)
    (LogInit s) (LogSkipCount s) (LogAddr0 s) (LogAddr1 s) (LogAddr2 s)
    (LogAddr3 s) (LogAddr4 s) (LogAddr5 s) (LogAddr6 s) (LogAddr7 s)
    (LogAddr8 s) (LogAuto s) (EventTime1 s) (EventTime2 s) (EventCode s)
    (EventData1 s) (EventData2 s) (EventIndex s) (FaultWord s) (mainState s)
    (PwmEnabled s) (WeRef s) v (FaultResetCount s) (Signals s) (EventHistory
    s).

Definition set_FaultResetCount (v : Z) (s : State) : State :=
  mkState (LogBuf s) (LogChan s) (LogLength s) (LogBase s) (LogCount s)
    (LogSingle s) (LogPtr s) (LogSkip s) (LogTrigger s) (OldTrigger s)
    (LogInit s) (LogSkipCount s) (LogAddr0 s) (LogAddr1 s) (LogAddr2 s)
    (LogAddr3 s) (LogAddr4 s) (LogAddr5 s) (LogAddr6 s) (LogAddr7 s)
    (LogAddr8 s) (LogAuto s) (EventTime1 s) (EventTime2 s) (EventCode s)
    (EventData1 s) (EventData2 s) (EventIndex s) (FaultWord s) (mainState s)
    (PwmEnabled s) (WeRef s) (Flag2 s) v (Signals s) (EventHistory s).

Definition set_EventHistory (v : list EventRecord) (s : State) : State :=
  mkState (LogBuf s) (LogChan s) (LogLength s) (LogBase s) (LogCount s)
    (LogSingle s) (LogPtr s) (LogSkip s) (LogTrigger s) (OldTrigger s)
    (LogInit s) (LogSkipCount s) (LogAddr0 s) (LogAddr1 s) (LogAddr2 s)
    (LogAddr3 s) (LogAddr4 s) (LogAddr5 s) (LogAddr6 s) (LogAddr7 s)
    (LogAddr8 s) (LogAuto s) (EventTime1 s) (EventTime2 s) (EventCode s)
    (EventData1 s) (EventData2 s) (EventIndex s) (FaultWord s) (mainState s)
    (PwmEnabled s) (WeRef s) (Flag2 s) (FaultResetCount s) (Signals s) v.


(** [s |> f |> g]: the statements [f], then [g], run from the globals [s]. *)
Notation "s |> f" := (f s) (at level 45, left associativity, only parsing).

(** A loop [for(i=0;i<n;i++) body] whose body writes neither [i] nor [n]:
    [count] is the number of iterations, [i] the first index. *)
Fixpoint for_loop (count : nat) (i : Z) (body : Z -> State -> State)
    (s : State) : State :=
  match count with
  | O => s
  | S count' => for_loop count' (i + 1) body (body i s)
  end.

Section Firmware.

(** Width of [int] in bits (16 on the TI C28x this code is written for). *)
Variable INT_BITS : Z.

(** Macros and enumerators of the missing header [Setup.h]. *)
Variable LOG_SIZE : Z.
Variable LOG_CHAN : Z.
Variable EVENT_SIZE : Z.
Variable READY : Z.
Variable FAULT : Z.

(** [&signal] for the signals of [DefaultLog]. *)
Variable address_of : DriveSignal -> Z.

(** The external [TimeStamp(&i1,&i2)]: the pair read from the free-running
    timer by the [n]-th call since start-up. *)
Variable TimeStamp : nat -> Z * Z.

Definition wrap_int (x : Z) : Z := wrap INT_BITS x.

(** The external [PWM_disable()]. *)
Definition PWM_disable (s : State) : State := set_PwmEnabled false s.

(** Logs.c 145-146: [EventIndex++;] then
    [if(EventIndex==EVENT_SIZE) EventIndex = 0;] *)
Definition advance_index (s : State) : State :=
  set_EventIndex (wrap_int (EventIndex s + 1)) s.

Definition wrap_index (s : State) : State :=
  if EventIndex s =? EVENT_SIZE then set_EventIndex 0 s else s.

(** [void LogEvent(int Code, int Data1, float Data2)]: the time stamp, the
    five stores at [EventIndex], then the index. *)
Definition LogEvent (Code Data1 : Z) (Data2 : Q) (s : State) : State :=
  let i1 := fst (TimeStamp (length (EventHistory s))) in
  let i2 := snd (TimeStamp (length (EventHistory s))) in
  let k := EventIndex s in
  s |> set_EventHistory (mkEvent i1 i2 Code Data1 Data2 :: EventHistory s)
    |> set_EventTime1 (store k i1 (EventTime1 s))
    |> set_EventTime2 (store k i2 (EventTime2 s))
    |> set_EventCode (store k Code (EventCode s))
    |> set_EventData1 (store k Data1 (EventData1 s))
    |> set_EventData2 (store k Data2 (EventData2 s))
    |> advance_index
    |> wrap_index.

(** [void InitEvents(void)] *)
Definition clear_slot (i : Z) (s : State) : State :=
  s |> set_EventTime1 (store i 0 (EventTime1 s))
    |> set_EventTime2 (store i 0 (EventTime2 s))
    |> set_EventCode (store i 0 (EventCode s))
    |> set_EventData1 (store i 0 (EventData1 s))
    |> set_EventData2 (store i 0%Q (EventData2 s)).

Definition InitEvents (s : State) : State :=
  s |> for_loop (Z.to_nat EVENT_SIZE) 0 clear_slot
    |> set_EventIndex 0.

(** The [int] expression [0x01<<fcode], converted to [long] where it meets
    [FaultWord].  C defines it only for [0 <= fcode < INT_BITS - 1]. *)
Definition fault_mask (fcode : Z) : Z := wrap_int (Z.shiftl 1 fcode).

(** Logs.c 72-76: a fault whose bit is not set yet is logged. *)
Definition log_new_fault (fcode : Z) (data2 : Q) (s : State) : State :=
  if Z.land (FaultWord s) (fault_mask fcode) =? 0
  then LogEvent E_FAULT (wrap_int fcode) data2 s
  else s.

(** Logs.c 78-79 *)
Definition latch_fault (fcode : Z) (s : State) : State :=
  set_FaultWord (Z.lor (FaultWord s) (fault_mask fcode)) s.

(** Logs.c 81-86 *)
Definition enter_fault_state (s : State) : State :=
  if negb (mainState s =? FAULT)
  then s |> set_mainState FAULT |> LogEvent E_STATE FAULT 0%Q
  else s.

(** Logs.c 88-92 *)
Definition freeze_data_log (s : State) : State :=
  if LogAuto s =? 1 then set_LogTrigger 0 s else s.

(** [void Fault(long fcode, float data2)] *)
Definition Fault (fcode : Z) (data2 : Q) (s : State) : State :=
  s |> PWM_disable
    |> log_new_fault fcode data2
    |> latch_fault fcode
    |> enter_fault_state
    |> freeze_data_log
    |> set_WeRef 0%Q.

(** Logs.c 107-110 *)
Definition leave_fault_state (s : State) : State :=
  if mainState s =? FAULT
  then s |> LogEvent E_STATE READY 0%Q |> set_mainState READY
  else s.

(** [void ResetFaults(void)]; [FLAG2ON] raises flag 2. *)
Definition ResetFaults (s : State) : State :=
  s |> set_FaultWord 0
    |> LogEvent E_RESET 0 0%Q
    |> leave_fault_state
    |> set_Flag2 true
    |> set_FaultResetCount 20.

(** [void DefaultLog(int i)] *)
Definition DefaultLog (i : Z) (s : State) : State :=
  match i with
  | 1 =>
    s |> set_LogAddr0 (wrap_int (address_of IdRef))
      |> set_LogAddr1 (wrap_int (address_of IqRef))
      |> set_LogAddr2 (wrap_int (address_of RpmRef))
      |> set_LogAddr3 (wrap_int (address_of Id))
      |> set_LogAddr4 (wrap_int (address_of Iq))
      |> set_LogAddr5 (wrap_int (address_of RpmOut))
      |> set_LogAddr6 (wrap_int (address_of VdRef))
      |> set_LogAddr7 (wrap_int (address_of VqRef))
      |> set_LogAddr8 (wrap_int (address_of ThetaOut))
      |> set_LogChan 9
      |> set_LogSingle 0
      |> set_LogSkip 20
      |> set_LogAuto 1
      |> set_LogInit 1
  | _ => s
  end.

(** Logs.c 182: [LogLength = LOG_SIZE / LogChan], with [Z.quot], C's
    truncating division ([Z.quot x 0 = 0] where C leaves the division
    undefined). *)
Definition divide_buffer (s : State) : State :=
  set_LogLength (wrap_int (Z.quot LOG_SIZE (LogChan s))) s.

(** Logs.c 183-185: [LogBase[i] = LogBuf + i*LogLength] for each channel. *)
Definition set_channel_base (i : Z) (s : State) : State :=
  set_LogBase (store i (Some (wrap_int (i * LogLength s))) (LogBase s)) s.

Definition partition_buffer (s : State) : State :=
  for_loop (Z.to_nat (LogChan s)) 0 set_channel_base s.

(** Logs.c 189-197: the nine channel pointers, from the low 16 bits of the
    nine addresses. *)
Definition bind_pointers (s : State) : State :=
  let p := LogPtr s in
  let p := store 0 (Z.land (LogAddr0 s) 65535) p in
  let p := store 1 (Z.land (LogAddr1 s) 65535) p in
  let p := store 2 (Z.land (LogAddr2 s) 65535) p in
  let p := store 3 (Z.land (LogAddr3 s) 65535) p in
  let p := store 4 (Z.land (LogAddr4 s) 65535) p in
  let p := store 5 (Z.land (LogAddr5 s) 65535) p in
  let p := store 6 (Z.land (LogAddr6 s) 65535) p in
  let p := store 7 (Z.land (LogAddr7 s) 65535) p in
  let p := store 8 (Z.land (LogAddr8 s) 65535) p in
  set_LogPtr p s.

(** [void InitLog(void)] *)
Definition InitLog (s : State) : State :=
  s |> set_LogTrigger 0
    |> divide_buffer
    |> partition_buffer
    |> set_LogInit 0
    |> set_LogCount 0
    |> set_LogSkipCount 0
    |> bind_pointers.

(** Logs.c 206-209: an event when the trigger differs from its value on
    the pass before.  The [int] skip factor is passed for the [float]
    parameter [Data2]: it is converted. *)
Definition log_if_changed (s : State) : State :=
  if negb (LogTrigger s =? OldTrigger s)
  then LogEvent E_DATALOG (LogTrigger s) (float_of_int (LogSkip s)) s
  else s.

(** Logs.c 210 *)
Definition remember_trigger (s : State) : State :=
  set_OldTrigger (LogTrigger s) s.

Definition log_trigger_change (s : State) : State :=
  s |> log_if_changed |> remember_trigger.

(** Logs.c 212-213 *)
Definition service_init (s : State) : State :=
  if negb (LogInit s =? 0) then InitLog s else s.

(** The loop body [LogBase[i][LogCount] = *(LogPtr[i])].  A store through a
    null base does not reach [LogBuf]. *)
Definition record_channel (i : Z) (s : State) : State :=
  match load i (LogBase s), load i (LogPtr s) with
  | Some (Some off), Some p =>
    set_LogBuf (store (off + LogCount s) (Signals s p) (LogBuf s)) s
  | _, _ => s
  end.

(** Logs.c 221-224 *)
Definition record_channels (s : State) : State :=
  for_loop (Z.to_nat (LogChan s)) 0 record_channel s.

(** Logs.c 225-226 *)
Definition advance_count (s : State) : State :=
  set_LogCount (wrap_int (LogCount s + 1)) s.

(** Logs.c 227-233 *)
Definition stop_if_single (s : State) : State :=
  if LogSingle s =? 1 then set_LogTrigger 0 s else s.

Definition end_of_buffer (s : State) : State :=
  if LogCount s =? LogLength s
  then s |> stop_if_single |> set_LogCount 0
  else s.

(** The trigger after the countdown of lines 234-238. *)
Definition counted_down (v : Z) : Z :=
  if v <? 0 then wrap_int (v + 1) else v.

(** Logs.c 234-238 *)
Definition count_down (s : State) : State :=
  if LogTrigger s <? 0 then set_LogTrigger (wrap_int (LogTrigger s + 1)) s
  else s.

(** Logs.c 220-238: the branch that records a sample. *)
Definition take_sample (s : State) : State :=
  s |> set_LogSkipCount 0
    |> record_channels
    |> advance_count
    |> end_of_buffer
    |> count_down.

(** Logs.c 215-240 *)
Definition record_data (s : State) : State :=
  if negb (LogTrigger s =? 0) then
    if LogSkipCount s <? LogSkip s then
      set_LogSkipCount (wrap_int (LogSkipCount s + 1)) s
    else take_sample s
  else s.

(** [void UpdateLog(void)] *)
Definition UpdateLog (s : State) : State :=
  s |> log_trigger_change
    |> service_init
    |> record_data.

(** The globals as the initialisers of Logs.c leave them at start-up; the
    arguments are the start-up values of what Logs.c does not own. *)
Definition init_state (ms : Z) (sig : Z -> Q) : State :=
  {| LogBuf := replicate (Z.to_nat LOG_SIZE) 0%Q;
     LogChan := 1;
     LogLength := LOG_SIZE;
     LogBase := replicate (Z.to_nat LOG_CHAN) None;
     LogCount := 0;
     LogSingle := 0;
     LogPtr := replicate (Z.to_nat LOG_CHAN) 0;
     LogSkip := 0;
     LogTrigger := 0;
     OldTrigger := 0;
     LogInit := 0;
     LogSkipCount := 0;
     LogAddr0 := 0; LogAddr1 := 0; LogAddr2 := 0; LogAddr3 := 0;
     LogAddr4 := 0; LogAddr5 := 0; LogAddr6 := 0; LogAddr7 := 0;
     LogAddr8 := 0;
     LogAuto := 0;
     EventTime1 := replicate (Z.to_nat EVENT_SIZE) 0;
     EventTime2 := replicate (Z.to_nat EVENT_SIZE) 0;
     EventCode := replicate (Z.to_nat EVENT_SIZE) 0;
     EventData1 := replicate (Z.to_nat EVENT_SIZE) 0;
     EventData2 := replicate (Z.to_nat EVENT_SIZE) 0%Q;
     EventIndex := 0;
     FaultWord := 0;
     mainState := ms;
     PwmEnabled := true;
     WeRef := 0%Q;
     Flag2 := false;
     FaultResetCount := 0;
     Signals := sig;
     EventHistory := [] |}.

(** The operations of the data logger, and the states they reach from
    start-up. *)
Inductive LogOp : Type :=
  | OpDefaultLog (i : Z)
  | OpInitLog
  | OpUpdateLog.

Definition run_op (op : LogOp) (s : State) : State :=
  match op with
  | OpDefaultLog i => DefaultLog i s
  | OpInitLog => InitLog s
  | OpUpdateLog => UpdateLog s
  end.

Definition run_ops (ops : list LogOp) (s : State) : State :=
  fold_left (fun s op => run_op op s) ops s.

(** The entry of the event log at index [i]. *)
Definition slot (s : State) (i : Z) : option EventRecord :=
  match load i (EventTime1 s), load i (EventTime2 s), load i (EventCode s),
        load i (EventData1 s), load i (EventData2 s) with
  | Some t1, Some t2, Some c, Some d1, Some d2 => Some (mkEvent t1 t2 c d1 d2)
  | _, _, _, _, _ => None
  end.

(** The record [LogEvent] writes when [n] records were logged before it. *)
Definition stamp (n : nat) (Code Data1 : Z) (Data2 : Q) : EventRecord :=
  mkEvent (fst (TimeStamp n)) (snd (TimeStamp n)) Code Data1 Data2.

(** The write index after one more record. *)
Definition next_index (i : Z) : Z :=
  if wrap_int (i + 1) =? EVENT_SIZE then 0 else wrap_int (i + 1).

(** [LogEvent] called once for each [(Code, Data1, Data2)] of a list, in
    order. *)
Definition log_all (evs : list (Z * Z * Q)) (s : State) : State :=
  fold_left (fun s e => LogEvent (fst (fst e)) (snd (fst e)) (snd e) s) evs s.

(** The five arrays of the event log have their declared length. *)
Definition events_wf (s : State) : Prop :=
  length (EventTime1 s) = Z.to_nat EVENT_SIZE /\
  length (EventTime2 s) = Z.to_nat EVENT_SIZE /\
  length (EventCode s) = Z.to_nat EVENT_SIZE /\
  length (EventData1 s) = Z.to_nat EVENT_SIZE /\
  length (EventData2 s) = Z.to_nat EVENT_SIZE.

(** The records logged on the way from [s] to [s'], newest first. *)
Definition logged (s s' : State) : list EventRecord :=
  take (length (EventHistory s') - length (EventHistory s)) (EventHistory s').

(** How many records of a list carry the event code [code]. *)
Definition count_code (code : Z) (l : list EventRecord) : nat :=
  length (filter (fun e => ev_code e = code) l).

(** [n] calls of [UpdateLog] with nothing written in between. *)
Fixpoint ticks (n : nat) (s : State) : State :=
  match n with
  | O => s
  | S n' => ticks n' (UpdateLog s)
  end.

End Firmware.

(** A small platform for the worked examples: 16-bit and 32-bit [int], an
    event log of four records, twelve floats of data log, nine channels. *)
Definition demo_clock (n : nat) : Z * Z := (0, Z.of_nat n).
Definition demo_address (x : DriveSignal) : Z :=
  match x with
  | IdRef => 49152 | IqRef => 49154 | RpmRef => 49156
  | Id => 49158 | Iq => 49160 | RpmOut => 49162
  | VdRef => 49164 | VqRef => 49166 | ThetaOut => 49168
  end.
Definition demo_READY : Z := 1.
Definition demo_FAULT : Z := 2.
Definition demo_init : State :=
  init_state 12 9 4 demo_READY inject_Z.

(** Five events for a log of four records. *)
Definition demo_events : list (Z * Z * Q) :=
  [(E_START, 0, 0%Q); (E_SETPOINT, 100, 0%Q); (E_PARAM, 7, 1%Q);
   (E_SETPOINT, 200, 0%Q); (E_STOP, 0, 0%Q)].

(** The circular logger one sample before the end of its record, and the
    same logger in single-shot mode. *)
Definition demo_recording : State :=
  demo_init |> set_LogTrigger 1 |> set_OldTrigger 1 |> set_LogCount 11.

Definition demo_single_shot : State :=
  demo_recording |> set_LogSingle 1.

(** [DefaultLog(1)], the trigger set, and the tick that services the
    initialisation; then the trigger set again with no skipping, and the
    tick that records one sample of the nine channels. *)
Definition demo_configured : State :=
  demo_init |> DefaultLog 16 demo_address 1 |> set_LogTrigger 1
            |> UpdateLog 16 12 4 demo_clock.

Definition demo_sampled : State :=
  demo_configured |> set_LogTrigger 1 |> set_LogSkip 0
                  |> UpdateLog 16 12 4 demo_clock.

(** ** The functions of Logs.c as calls

    A caller of Logs.c does nothing but call its functions, in any order
    and with any arguments. *)
Inductive Call : Type :=
  | CallFault (fcode : Z) (data2 : Q)
  | CallResetFaults
  | CallInitEvents
  | CallLogEvent (Code Data1 : Z) (Data2 : Q)
  | CallDefaultLog (i : Z)
  | CallInitLog
  | CallUpdateLog.

Definition is_reset (c : Call) : bool :=
  match c with
  | CallResetFaults => true
  | _ => false
  end.

Definition is_init_events (c : Call) : bool :=
  match c with
  | CallInitEvents => true
  | _ => false
  end.

(** The signals that [DefaultLog(1)] gives to the channels 0 to 8, in the
    order of [LogAddr0] to [LogAddr8]. *)
Definition default_channels : list DriveSignal :=
  [IdRef; IqRef; RpmRef; Id; Iq; RpmOut; VdRef; VqRef; ThetaOut].

(** The record of an event slot that [InitEvents] has cleared. *)
Definition zero_event : EventRecord := mkEvent 0 0 0 0 0%Q.

(** Everything that is not a variable of the data log (nor the history
    variable). *)
Definition outside_data_log (s : State) :=
  (EventTime1 s, EventTime2 s, EventCode s, EventData1 s, EventData2 s,
   EventIndex s, FaultWord s, mainState s, PwmEnabled s, WeRef s, Flag2 s,
   FaultResetCount s).

(** The fault latch and what [Fault] and [ResetFaults] drive. *)
Definition drive_side (s : State) :=
  (FaultWord s, mainState s, PwmEnabled s, WeRef s, Flag2 s,
   FaultResetCount s).

(** The five arrays of the event log and its write index. *)
Definition event_log (s : State) :=
  (EventTime1 s, EventTime2 s, EventCode s, EventData1 s, EventData2 s,
   EventIndex s).

(** The variables of the data log. *)
Definition data_log (s : State) :=
  (LogBuf s, LogChan s, LogLength s, LogBase s, LogCount s, LogSingle s,
   LogPtr s, LogSkip s, LogTrigger s, OldTrigger s, LogInit s,
   LogSkipCount s,
   (LogAddr0 s, LogAddr1 s, LogAddr2 s, LogAddr3 s, LogAddr4 s, LogAddr5 s,
    LogAddr6 s, LogAddr7 s, LogAddr8 s), LogAuto s).

(** The data log is laid out: every channel has its base [i * LogLength]
    and its pointer, the records fit the buffer and the sample count is
    inside a record. *)
Definition layout_ok (s : State) : Prop :=
  0 <= LogChan s /\ 0 < LogLength s /\
  LogChan s * LogLength s <= Z.of_nat (length (LogBuf s)) /\
  0 <= LogCount s < LogLength s /\
  forall i : Z, 0 <= i < LogChan s ->
    load i (LogBase s) = Some (Some (i * LogLength s)) /\
    exists p : Z, load i (LogPtr s) = Some p.

Section Calls.

Variable INT_BITS : Z.
Variable LOG_SIZE : Z.
Variable EVENT_SIZE : Z.
Variable READY : Z.
Variable FAULT : Z.
Variable address_of : DriveSignal -> Z.
Variable TimeStamp : nat -> Z * Z.

Definition call (c : Call) (s : State) : State :=
  match c with
  | CallFault fcode data2 =>
    Fault INT_BITS EVENT_SIZE FAULT TimeStamp fcode data2 s
  | CallResetFaults =>
    ResetFaults INT_BITS EVENT_SIZE READY FAULT TimeStamp s
  | CallInitEvents => InitEvents EVENT_SIZE s
  | CallLogEvent Code Data1 Data2 =>
    LogEvent INT_BITS EVENT_SIZE TimeStamp Code Data1 Data2 s
  | CallDefaultLog i => DefaultLog INT_BITS address_of i s
  | CallInitLog => InitLog INT_BITS LOG_SIZE s
  | CallUpdateLog => UpdateLog INT_BITS LOG_SIZE EVENT_SIZE TimeStamp s
  end.

Definition calls (cs : list Call) (s : State) : State :=
  fold_left (fun s c => call c s) cs s.

(** The event log can take a record: its arrays have their length and the
    write index is inside them. *)
Definition event_log_ok (s : State) : Prop :=
  events_wf EVENT_SIZE s /\ 0 <= EventIndex s < EVENT_SIZE.

(** The event log of [t] is that of [s] with the records [evs] written
    into the arrays from the write index of [s] on, oldest first, the write
    index moved behind them and every other slot as it was. *)
Definition appended (evs : list EventRecord) (s t : State) : Prop :=
  EventIndex t = (EventIndex s + Z.of_nat (length evs)) mod EVENT_SIZE /\
  (forall (k : nat) (e : EventRecord),
     evs !! k = Some e ->
     slot t ((EventIndex s + Z.of_nat k) mod EVENT_SIZE) = Some e) /\
  (forall j : Z,
     (forall k : nat, (k < length evs)%nat ->
        j <> (EventIndex s + Z.of_nat k) mod EVENT_SIZE) ->
     slot t j = slot s j).

(** The [m] newest records of the history are in the ring, the newest one
    just behind the write index and the older ones behind it in turn, as
    far as the ring is long. *)
Definition ring_holds (m : nat) (s : State) : Prop :=
  forall (i : nat) (e : EventRecord),
    (i < m)%nat -> Z.of_nat i < EVENT_SIZE ->
    EventHistory s !! i = Some e ->
    slot s ((EventIndex s - 1 - Z.of_nat i) mod EVENT_SIZE) = Some e.

End Calls.

(** Three channels of four samples each: the channel count and three
    addresses set by hand, then [InitLog]. *)
Definition demo_three_setup : State :=
  demo_init |> set_LogChan 3 |> set_LogAddr0 100 |> set_LogAddr1 101
            |> set_LogAddr2 102.

Definition demo_three : State := InitLog 16 12 demo_three_setup.

(** The three-channel logger recording; the same with skip factor 2; the
    same in single-shot mode; and with the trigger just set to -3, to
    record three samples. *)
Definition demo_armed : State :=
  demo_three |> set_LogTrigger 1 |> set_OldTrigger 1.

Definition demo_skipping : State := demo_armed |> set_LogSkip 2.

Definition demo_single_start : State := demo_armed |> set_LogSingle 1.

Definition demo_countdown : State := demo_three |> set_LogTrigger (-3).

(** The globals with a fault latched: [F_OVERSPEED] asserted at start-up. *)
Definition demo_faulted : State :=
  Fault 32 4 demo_FAULT demo_clock F_OVERSPEED 1 demo_init.

(** Two sequences of calls: one that logs five records and never clears the
    event log, one that never resets the faults. *)
Definition demo_calls : list Call :=
  [CallFault F_OVERSPEED 1; CallUpdateLog; CallResetFaults;
   CallLogEvent E_START 0 0; CallDefaultLog 1; CallUpdateLog].

Definition demo_calls_no_reset : list Call :=
  [CallUpdateLog; CallFault F_OVERTEMP 2; CallInitEvents; CallDefaultLog 1;
   CallInitLog].

End Logs.

(** * Facts about the rational comparisons *)

Lemma Qlt_bool_iff (x y : Q) : Qlt_bool x y = true <-> (x < y)%Q.
Proof.
  unfold Qlt_bool. rewrite negb_true_iff.
  split; intros H.
  - apply Qnot_le_lt. intros Hle. apply Qle_bool_iff in Hle. congruence.
  - destruct (Qle_bool y x) eqn:E; [|reflexivity].
    apply Qle_bool_iff in E. exfalso. apply (Qlt_not_le _ _ H E).
Qed.

Lemma Qlt_bool_false_iff (x y : Q) : Qlt_bool x y = false <-> (y <= x)%Q.
Proof.
  unfold Qlt_bool. rewrite negb_false_iff. apply Qle_bool_iff.
Qed.

Lemma Qle_bool_false_iff (x y : Q) : Qle_bool x y = false <-> (y < x)%Q.
Proof.
  split; intros H.
  - apply Qnot_le_lt. intros Hle. apply Qle_bool_iff in Hle. congruence.
  - destruct (Qle_bool x y) eqn:E; [|reflexivity].
    apply Qle_bool_iff in E. exfalso. apply (Qlt_not_le _ _ H E).
Qed.

(** * Properties of the binary32 rounding *)

Module Float32Props.
Import Float32.
Local Open Scope Q_scope.

Lemma pow2_pos (k : Z) : 0 < 2 ^ k.
Proof. apply Qpower_0_lt. reflexivity. Qed.

Lemma pow2_add (a b : Z) : 2 ^ (a + b) == 2 ^ a * 2 ^ b.
Proof. apply Qpower_plus. discriminate. Qed.

Lemma pow2_succ (a : Z) : 2 ^ (a + 1) == 2 * 2 ^ a.
Proof. rewrite pow2_add. change (2 ^ 1) with 2. ring. Qed.

Lemma pow2_le (a b : Z) : (a <= b)%Z -> 2 ^ a <= 2 ^ b.
Proof. intros H. apply Qpower_le_compat_l; [exact H|]. discriminate. Qed.

Lemma pow2_lt (a b : Z) : (a < b)%Z -> 2 ^ a < 2 ^ b.
Proof. intros H. apply Qpower_lt_compat_l; [exact H|]. reflexivity. Qed.

Lemma pow2_inject (n : Z) : (0 <= n)%Z -> inject_Z (2 ^ n) == 2 ^ n.
Proof. intros H. apply (Zpower_Qpower 2 n H). Qed.

(** The binade of a rational that is not zero. *)
Lemma ilog2_spec (x : Q) :
  ~ x == 0 -> 2 ^ ilog2 x <= Qabs x /\ Qabs x < 2 ^ (ilog2 x + 1).
Proof.
  intros Hx. unfold ilog2.
  set (n := Z.abs (Qnum x)). set (d := Zpos (Qden x)).
  assert (Hn : (0 < n)%Z).
  { subst n. destruct x as [[|p|p] q]; cbn; try lia.
    exfalso. apply Hx. reflexivity. }
  assert (Hd : (0 < d)%Z) by (subst d; lia).
  assert (Ex : Qabs x == inject_Z n / inject_Z d).
  { subst n d. destruct x as [a q]. unfold Qabs, Qdiv, Qeq, Qmult, Qinv, inject_Z.
    cbn. lia. }
  destruct (Z.log2_spec n Hn) as [N1 N2].
  destruct (Z.log2_spec d Hd) as [D1 D2].
  pose proof (Z.log2_nonneg n) as Ln. pose proof (Z.log2_nonneg d) as Ld.
  set (ln := Z.log2 n) in *. set (ld := Z.log2 d) in *.
  assert (Qn1 : 2 ^ ln <= inject_Z n).
  { rewrite <- pow2_inject by lia. rewrite <- Zle_Qle. exact N1. }
  assert (Qn2 : inject_Z n < 2 ^ (ln + 1)).
  { rewrite <- pow2_inject by lia. rewrite <- Zlt_Qlt.
    replace (ln + 1)%Z with (Z.succ ln) by lia. exact N2. }
  assert (Qd1 : 2 ^ ld <= inject_Z d).
  { rewrite <- pow2_inject by lia. rewrite <- Zle_Qle. exact D1. }
  assert (Qd2 : inject_Z d < 2 ^ (ld + 1)).
  { rewrite <- pow2_inject by lia. rewrite <- Zlt_Qlt.
    replace (ld + 1)%Z with (Z.succ ld) by lia. exact D2. }
  assert (Qd0 : 0 < inject_Z d).
  { change 0 with (inject_Z 0). rewrite <- Zlt_Qlt. exact Hd. }
  (* n/d lies strictly between 2^(e-1) and 2^(e+1) *)
  assert (Up : Qabs x < 2 ^ (ln - ld + 1)).
  { rewrite Ex. apply Qlt_shift_div_r; [exact Qd0|].
    apply Qlt_le_trans with (2 ^ (ln + 1)); [exact Qn2|].
    replace (ln + 1)%Z with ((ln - ld + 1) + ld)%Z by lia.
    rewrite pow2_add.
    apply Qmult_le_l; [apply pow2_pos | exact Qd1]. }
  assert (Lo : 2 ^ (ln - ld - 1) < Qabs x).
  { rewrite Ex. apply Qlt_shift_div_l; [exact Qd0|].
    apply Qlt_le_trans with (2 ^ ln); [|exact Qn1].
    replace ln with ((ln - ld - 1) + (ld + 1))%Z at 2 by lia.
    rewrite pow2_add.
    apply Qmult_lt_l; [apply pow2_pos | exact Qd2]. }
  destruct (Qle_bool (2 ^ (ln - ld)) (Qabs x)) eqn:C.
  - apply Qle_bool_iff in C. split; assumption.
  - assert (C' : Qabs x < 2 ^ (ln - ld)).
    { apply Qnot_le_lt. intros H. apply Qle_bool_iff in H. congruence. }
    split; [apply Qlt_le_weak; exact Lo|].
    replace (ln - ld - 1 + 1)%Z with (ln - ld)%Z by lia. exact C'.
Qed.

Lemma ilog2_unique (x : Q) (k : Z) :
  2 ^ k <= Qabs x -> Qabs x < 2 ^ (k + 1) -> ilog2 x = k.
Proof.
  intros H1 H2.
  assert (Hx : ~ x == 0).
  { intros E. rewrite E in H1. change (Qabs 0) with 0 in H1.
    pose proof (pow2_pos k). lra. }
  destruct (ilog2_spec x Hx) as [S1 S2].
  assert (A : (ilog2 x < k + 1)%Z).
  { apply (Qpower_lt_compat_l_inv 2); [|reflexivity].
    apply Qle_lt_trans with (Qabs x); assumption. }
  assert (B : (k < ilog2 x + 1)%Z).
  { apply (Qpower_lt_compat_l_inv 2); [|reflexivity].
    apply Qle_lt_trans with (Qabs x); assumption. }
  lia.
Qed.


(** *** Rounding to the nearest integer, ties to even *)

Lemma rne_cases (q : Q) :
  let f := Qfloor q in
  (rne q = f /\ q - inject_Z f <= 1 # 2) \/
  (rne q = (f + 1)%Z /\ 1 # 2 <= q - inject_Z f).
Proof.
  intros f. unfold rne. fold f.
  destruct (Qcompare (q - inject_Z f) (1 # 2)) eqn:C.
  - apply Qeq_alt in C. destruct (Z.even f); [left | right];
      (split; [reflexivity | rewrite C; apply Qle_refl]).
  - apply Qlt_alt in C. left. split; [reflexivity | apply Qlt_le_weak, C].
  - apply Qgt_alt in C. right. split; [reflexivity | apply Qlt_le_weak, C].
Qed.

Lemma floor_bounds (q : Q) :
  inject_Z (Qfloor q) <= q /\ q < inject_Z (Qfloor q) + 1.
Proof.
  split; [apply Qfloor_le|].
  pose proof (Qlt_floor q) as H. rewrite inject_Z_plus in H. exact H.
Qed.

Lemma rne_error (q : Q) : Qabs (inject_Z (rne q) - q) <= 1 # 2.
Proof.
  destruct (floor_bounds q) as [L U].
  apply Qabs_Qle_condition.
  destruct (rne_cases q) as [[E H]|[E H]]; rewrite E;
    try rewrite inject_Z_plus; change (inject_Z 1) with 1; lra.
Qed.

Lemma rne_Z (n : Z) : rne (inject_Z n) = n.
Proof.
  unfold rne. rewrite Qfloor_Z.
  replace (Qcompare (inject_Z n - inject_Z n) (1 # 2)) with Lt; [reflexivity|].
  symmetry. apply (proj1 (Qlt_alt _ _)). lra.
Qed.

Lemma rne_comp (p q : Q) : p == q -> rne p = rne q.
Proof.
  intros E. unfold rne. rewrite (Qfloor_comp p q E).
  assert (C : Qcompare (p - inject_Z (Qfloor q)) (1 # 2) =
              Qcompare (q - inject_Z (Qfloor q)) (1 # 2)).
  { apply Qcompare_comp; [rewrite E|]; reflexivity. }
  rewrite C. reflexivity.
Qed.

Lemma rne_floor_le (q : Q) : (Qfloor q <= rne q <= Qfloor q + 1)%Z.
Proof. destruct (rne_cases q) as [[E _]|[E _]]; rewrite E; lia. Qed.

Lemma rne_monotone (p q : Q) : p <= q -> (rne p <= rne q)%Z.
Proof.
  intros H. pose proof (Qfloor_resp_le p q H) as F.
  pose proof (rne_floor_le p) as Bp. pose proof (rne_floor_le q) as Bq.
  destruct (Z.eq_dec (Qfloor p) (Qfloor q)) as [E|N]; [|lia].
  unfold rne. rewrite E.
  destruct (Qcompare (p - inject_Z (Qfloor q)) (1 # 2)) eqn:Cp;
    destruct (Qcompare (q - inject_Z (Qfloor q)) (1 # 2)) eqn:Cq;
    try (destruct (Z.even (Qfloor q))); try lia; exfalso;
    repeat match goal with
    | C : Qcompare _ _ = Eq |- _ => apply Qeq_alt in C
    | C : Qcompare _ _ = Lt |- _ => apply Qlt_alt in C
    | C : Qcompare _ _ = Gt |- _ => apply Qgt_alt in C
    end; lra.
Qed.

Lemma Qfloor_integer (q : Q) (n : Z) :
  inject_Z n <= q -> q < inject_Z n + 1 -> Qfloor q = n.
Proof.
  intros L U.
  pose proof (Qfloor_resp_le _ _ L) as A. rewrite Qfloor_Z in A.
  destruct (floor_bounds q) as [B _].
  assert (C : inject_Z (Qfloor q) < inject_Z (n + 1)).
  { rewrite inject_Z_plus. change (inject_Z 1) with 1. lra. }
  rewrite <- Zlt_Qlt in C. lia.
Qed.

Lemma rne_opp (q : Q) : rne (- q) = (- rne q)%Z.
Proof.
  destruct (floor_bounds q) as [L U]. set (f := Qfloor q) in *.
  destruct (Qeq_dec q (inject_Z f)) as [E|N].
  - rewrite (rne_comp q (inject_Z f) E), rne_Z.
    rewrite (rne_comp (- q) (inject_Z (- f))), rne_Z; [reflexivity|].
    rewrite inject_Z_opp, E. reflexivity.
  - assert (L' : inject_Z f < q).
    { destruct (Qlt_le_dec (inject_Z f) q) as [A|A]; [exact A|].
      exfalso. apply N. lra. }
    assert (I : inject_Z (- f - 1) == - inject_Z f - 1).
    { unfold Z.sub. rewrite inject_Z_plus, !inject_Z_opp.
      change (inject_Z 1) with 1. ring. }
    assert (F : Qfloor (- q) = (- f - 1)%Z).
    { apply Qfloor_integer; rewrite I; lra. }
    unfold rne. rewrite F. fold f.
    assert (Ev : Z.even (- f - 1) = negb (Z.even f)).
    { replace (- f - 1)%Z with (- (f + 1))%Z by lia.
      rewrite Z.even_opp. replace (f + 1)%Z with (Z.succ f) by lia.
      rewrite Z.even_succ, <- Z.negb_even. reflexivity. }
    rewrite Ev.
    destruct (Qcompare (q - inject_Z f) (1 # 2)) eqn:C.
    + apply Qeq_alt in C.
      replace (Qcompare (- q - inject_Z (- f - 1)) (1 # 2)) with Eq.
      * destruct (Z.even f); cbn [negb]; lia.
      * symmetry. apply (proj1 (Qeq_alt _ _)). rewrite I. lra.
    + apply Qlt_alt in C.
      replace (Qcompare (- q - inject_Z (- f - 1)) (1 # 2)) with Gt.
      * lia.
      * symmetry. apply (proj1 (Qgt_alt _ _)). rewrite I. lra.
    + apply Qgt_alt in C.
      replace (Qcompare (- q - inject_Z (- f - 1)) (1 # 2)) with Lt.
      * lia.
      * symmetry. apply (proj1 (Qlt_alt _ _)). rewrite I. lra.
Qed.

Lemma rne_nonneg (q : Q) : 0 <= q -> (0 <= rne q)%Z.
Proof.
  intros H. pose proof (rne_monotone 0 q H) as M.
  change 0 with (inject_Z 0) in M. rewrite rne_Z in M. exact M.
Qed.

(** *** Rounding to binary32 *)

Lemma ilog2_comp (x y : Q) : ~ x == 0 -> x == y -> ilog2 x = ilog2 y.
Proof.
  intros NZ E. destruct (ilog2_spec x NZ) as [A B].
  symmetry. apply ilog2_unique; rewrite <- E; assumption.
Qed.

Lemma ilog2_opp (x : Q) : ilog2 (- x) = ilog2 x.
Proof.
  destruct x as [n d]. unfold ilog2, Qabs, Qopp. cbn [Qnum Qden].
  rewrite Z.abs_opp. reflexivity.
Qed.

Lemma ulp_exp_comp (x y : Q) : ~ x == 0 -> x == y -> ulp_exp x = ulp_exp y.
Proof. intros NZ E. unfold ulp_exp. rewrite (ilog2_comp x y NZ E). reflexivity. Qed.

Lemma rnd_zero (x : Q) : x == 0 -> rnd x = 0.
Proof.
  intros E. unfold rnd. apply Qeq_bool_iff in E. rewrite E. reflexivity.
Qed.

Lemma rnd_nonzero (x : Q) :
  ~ x == 0 ->
  rnd x = Qred (inject_Z (rne (x / 2 ^ ulp_exp x)) * 2 ^ ulp_exp x).
Proof.
  intros NZ. unfold rnd. destruct (Qeq_bool x 0) eqn:E; [|reflexivity].
  apply Qeq_bool_iff in E. contradiction.
Qed.

Lemma rnd_comp (x y : Q) : x == y -> rnd x = rnd y.
Proof.
  intros E. destruct (Qeq_dec x 0) as [Z0|NZ].
  - rewrite (rnd_zero x Z0), (rnd_zero y); [reflexivity|].
    rewrite <- E. exact Z0.
  - assert (NZy : ~ y == 0) by (rewrite <- E; exact NZ).
    rewrite (rnd_nonzero x NZ), (rnd_nonzero y NZy).
    rewrite (ulp_exp_comp x y NZ E).
    apply Qred_complete.
    rewrite (rne_comp (x / 2 ^ ulp_exp y) (y / 2 ^ ulp_exp y));
      [reflexivity | rewrite E; reflexivity].
Qed.

#[export] Instance rnd_proper : Proper (Qeq ==> Qeq) rnd.
Proof. intros x y E. rewrite (rnd_comp x y E). reflexivity. Qed.

(** The rounded value is a multiple of the unit in the last place, at most
    half a unit away. *)
Lemma rnd_grid (x : Q) :
  ~ x == 0 ->
  rnd x == inject_Z (rne (x / 2 ^ ulp_exp x)) * 2 ^ ulp_exp x.
Proof. intros NZ. rewrite (rnd_nonzero x NZ). apply Qred_correct. Qed.

Lemma scaled_back (x : Q) (e : Z) : x / 2 ^ e * 2 ^ e == x.
Proof.
  pose proof (pow2_pos e). field. intros E. rewrite E in H. lra.
Qed.

Lemma rnd_half_ulp (x : Q) :
  ~ x == 0 -> Qabs (rnd x - x) <= (1 # 2) * 2 ^ ulp_exp x.
Proof.
  intros NZ. rewrite (rnd_grid x NZ).
  set (e := ulp_exp x). pose proof (pow2_pos e) as P.
  pose proof (rne_error (x / 2 ^ e)) as R.
  assert (E : inject_Z (rne (x / 2 ^ e)) * 2 ^ e - x ==
              (inject_Z (rne (x / 2 ^ e)) - x / 2 ^ e) * 2 ^ e).
  { rewrite <- (scaled_back x e) at 2. ring. }
  rewrite E, Qabs_Qmult, (Qabs_pos (2 ^ e)) by lra.
  apply Qmult_le_compat_r; [exact R | lra].
Qed.

Lemma rnd_opp (x : Q) : rnd (- x) == - rnd x.
Proof.
  destruct (Qeq_dec x 0) as [Z0|NZ].
  - rewrite (rnd_zero x Z0), (rnd_zero (- x)); [reflexivity|]. rewrite Z0. reflexivity.
  - assert (NZ' : ~ - x == 0) by (intros E; apply NZ; lra).
    rewrite (rnd_grid x NZ), (rnd_grid (- x) NZ').
    unfold ulp_exp. rewrite ilog2_opp. fold (ulp_exp x).
    rewrite (rne_comp (- x / 2 ^ ulp_exp x) (- (x / 2 ^ ulp_exp x))).
    + rewrite rne_opp, inject_Z_opp. ring.
    + pose proof (pow2_pos (ulp_exp x)). field. lra.
Qed.

Lemma rnd_nonneg (x : Q) : 0 <= x -> 0 <= rnd x.
Proof.
  intros H. destruct (Qeq_dec x 0) as [Z0|NZ].
  - rewrite (rnd_zero x Z0). lra.
  - rewrite (rnd_grid x NZ). pose proof (pow2_pos (ulp_exp x)) as P.
    apply Qmult_le_0_compat; [|lra].
    change 0 with (inject_Z 0). rewrite <- Zle_Qle. apply rne_nonneg.
    apply Qle_shift_div_l; [exact P | lra].
Qed.

Lemma rnd_nonpos (x : Q) : x <= 0 -> rnd x <= 0.
Proof.
  intros H. assert (A : 0 <= rnd (- x)) by (apply rnd_nonneg; lra).
  rewrite rnd_opp in A. lra.
Qed.


(** *** The rounding error *)

Lemma ulp_exp_bounds (x : Q) :
  (ilog2 x - 23 <= ulp_exp x)%Z /\ (-149 <= ulp_exp x)%Z.
Proof. unfold ulp_exp. lia. Qed.

Lemma half_ulp_bound (x : Q) :
  ~ x == 0 ->
  (1 # 2) * 2 ^ ulp_exp x <= 2 ^ (-24) * Qabs x + 2 ^ (-150).
Proof.
  intros NZ. destruct (ilog2_spec x NZ) as [A _].
  pose proof (Qabs_nonneg x) as N.
  unfold ulp_exp. destruct (Z.max_spec (ilog2 x) (-126)) as [[H E]|[H E]];
    rewrite E.
  - change (2 ^ (-126 - 23)) with (2 ^ (-149)). lra.
  - replace (ilog2 x - 23)%Z with (ilog2 x + -23)%Z by lia.
    rewrite pow2_add. lra.
Qed.

Lemma half_ulp_bound_normal (x : Q) :
  2 ^ (-126) <= Qabs x -> (1 # 2) * 2 ^ ulp_exp x <= 2 ^ (-24) * Qabs x.
Proof.
  intros Hn.
  assert (NZ : ~ x == 0).
  { intros E. rewrite E in Hn. change (Qabs 0) with 0 in Hn. lra. }
  destruct (ilog2_spec x NZ) as [A B].
  assert (L : (-126 < ilog2 x + 1)%Z).
  { apply (Qpower_lt_compat_l_inv 2); [|reflexivity].
    apply Qle_lt_trans with (Qabs x); assumption. }
  unfold ulp_exp. rewrite Z.max_l by lia.
  replace (ilog2 x - 23)%Z with (ilog2 x + -23)%Z by lia.
  rewrite pow2_add. lra.
Qed.

(** Every rounding: relative error 2^-24, plus 2^-150 when the result is
    subnormal. *)
Theorem rnd_error (x : Q) :
  Qabs (rnd x - x) <= 2 ^ (-24) * Qabs x + 2 ^ (-150).
Proof.
  destruct (Qeq_dec x 0) as [Z0|NZ].
  - rewrite (rnd_zero x Z0), Z0. change (Qabs (0 - 0)) with 0.
    change (Qabs 0) with 0. lra.
  - apply Qle_trans with ((1 # 2) * 2 ^ ulp_exp x);
      [apply rnd_half_ulp | apply half_ulp_bound]; exact NZ.
Qed.

Theorem rnd_error_normal (x : Q) :
  2 ^ (-126) <= Qabs x -> Qabs (rnd x - x) <= 2 ^ (-24) * Qabs x.
Proof.
  intros Hn.
  assert (NZ : ~ x == 0).
  { intros E. rewrite E in Hn. change (Qabs 0) with 0 in Hn. lra. }
  apply Qle_trans with ((1 # 2) * 2 ^ ulp_exp x);
    [apply rnd_half_ulp; exact NZ | apply half_ulp_bound_normal; exact Hn].
Qed.

(** *** Values on the grid are not moved *)

Lemma pow2_sub (a b : Z) : 2 ^ (a - b) == 2 ^ a / 2 ^ b.
Proof. apply Qpower_minus. discriminate. Qed.

Lemma rnd_on_grid (x : Q) (m : Z) :
  ~ x == 0 -> x == inject_Z m * 2 ^ ulp_exp x -> rnd x == x.
Proof.
  intros NZ E. rewrite (rnd_grid x NZ).
  pose proof (pow2_pos (ulp_exp x)) as P.
  rewrite (rne_comp (x / 2 ^ ulp_exp x) (inject_Z m)).
  - rewrite rne_Z. symmetry. exact E.
  - rewrite E at 1. field. lra.
Qed.

Lemma inject_pow2 (n : Z) : (0 <= n)%Z -> 2 ^ n == inject_Z (2 ^ n).
Proof. intros H. symmetry. apply pow2_inject. exact H. Qed.

Lemma Qabs_inject_Z (n : Z) : Qabs (inject_Z n) == inject_Z (Z.abs n).
Proof. unfold Qabs, inject_Z. reflexivity. Qed.

Lemma rnd_grid_point_lt (n k : Z) :
  (Z.abs n < 2 ^ 24)%Z -> (-149 <= k)%Z ->
  rnd (inject_Z n * 2 ^ k) == inject_Z n * 2 ^ k.
Proof.
  intros Hn Hk. set (x := inject_Z n * 2 ^ k).
  destruct (Qeq_dec x 0) as [Z0|NZ].
  - rewrite (rnd_zero x Z0), Z0. reflexivity.
  - destruct (ilog2_spec x NZ) as [A B].
    pose proof (pow2_pos k) as Pk.
    assert (Ax : Qabs x == inject_Z (Z.abs n) * 2 ^ k).
    { unfold x. rewrite Qabs_Qmult, Qabs_inject_Z, (Qabs_pos (2 ^ k)) by lra.
      reflexivity. }
    assert (U : Qabs x < 2 ^ (k + 24)).
    { rewrite Ax, pow2_add, (Qmult_comm (2 ^ k)).
      apply Qmult_lt_r; [exact Pk|].
      rewrite (inject_pow2 24) by lia. rewrite <- Zlt_Qlt. exact Hn. }
    assert (L : (ilog2 x < k + 24)%Z).
    { apply (Qpower_lt_compat_l_inv 2); [|reflexivity].
      apply Qle_lt_trans with (Qabs x); assumption. }
    assert (E : (ulp_exp x <= k)%Z) by (unfold ulp_exp; lia).
    apply (rnd_on_grid x (n * 2 ^ (k - ulp_exp x))%Z NZ).
    pose proof (pow2_pos (ulp_exp x)) as Pe.
    assert (K : inject_Z (2 ^ (k - ulp_exp x)) == 2 ^ k / 2 ^ ulp_exp x).
    { rewrite <- inject_pow2 by lia. apply pow2_sub. }
    rewrite inject_Z_mult, K. generalize (ulp_exp x) Pe. intros e Pe'.
    unfold x. field. lra.
Qed.

Lemma rnd_grid_point (n k : Z) :
  (Z.abs n <= 2 ^ 24)%Z -> (-149 <= k)%Z ->
  rnd (inject_Z n * 2 ^ k) == inject_Z n * 2 ^ k.
Proof.
  intros Hn Hk.
  destruct (Z.eq_dec (Z.abs n) (2 ^ 24)%Z) as [E|N].
  - assert (En : inject_Z n * 2 ^ k == inject_Z (n / 2) * 2 ^ (k + 1)).
    { rewrite pow2_succ.
      assert (D : (n = 2 * (n / 2))%Z).
      { destruct (Z.abs_spec n) as [[_ A]|[_ A]]; rewrite A in E.
        - rewrite E. reflexivity.
        - replace n with (- 2 ^ 24)%Z by lia. reflexivity. }
      rewrite D at 1. rewrite inject_Z_mult. change (inject_Z 2) with 2. ring. }
    rewrite En. apply rnd_grid_point_lt; [|lia].
    destruct (Z.abs_spec n) as [[_ A]|[_ A]]; rewrite A in E.
    + rewrite E. reflexivity.
    + replace n with (- 2 ^ 24)%Z by lia. reflexivity.
  - apply rnd_grid_point_lt; [lia | exact Hk].
Qed.

(** The integer that rounding picks has at most 24 bits. *)
Lemma rne_24_bits (x : Q) :
  ~ x == 0 -> (Z.abs (rne (x / 2 ^ ulp_exp x)) <= 2 ^ 24)%Z.
Proof.
  intros NZ. destruct (ilog2_spec x NZ) as [_ B].
  destruct (ulp_exp_bounds x) as [E _].
  pose proof (pow2_pos (ulp_exp x)) as P.
  assert (U : Qabs x <= 2 ^ 24 * 2 ^ ulp_exp x).
  { rewrite <- pow2_add. apply Qlt_le_weak.
    apply Qlt_le_trans with (2 ^ (ilog2 x + 1)); [exact B|].
    apply pow2_le. lia. }
  apply Qabs_Qle_condition in U. destruct U as [U1 U2].
  assert (M1 : (rne (x / 2 ^ ulp_exp x) <= 2 ^ 24)%Z).
  { rewrite <- (rne_Z (2 ^ 24)). apply rne_monotone.
    rewrite <- (inject_pow2 24) by lia.
    apply Qle_shift_div_r; [exact P | exact U2]. }
  assert (M2 : (- 2 ^ 24 <= rne (x / 2 ^ ulp_exp x))%Z).
  { rewrite <- (rne_Z (- 2 ^ 24)). apply rne_monotone.
    rewrite inject_Z_opp, <- (inject_pow2 24) by lia.
    apply Qle_shift_div_l; [exact P | lra]. }
  lia.
Qed.

Theorem rnd_idempotent (x : Q) : rnd (rnd x) == rnd x.
Proof.
  destruct (Qeq_dec x 0) as [Z0|NZ].
  - rewrite (rnd_zero x Z0). reflexivity.
  - rewrite (rnd_comp (rnd x) _ (rnd_grid x NZ)).
    rewrite (rnd_grid x NZ).
    apply rnd_grid_point; [apply rne_24_bits; exact NZ|].
    apply ulp_exp_bounds.
Qed.

(** *** Rounding keeps the order *)

Lemma rnd_ge_pow2 (x : Q) (k : Z) :
  (ulp_exp x <= k)%Z -> 2 ^ k <= x -> 2 ^ k <= rnd x.
Proof.
  intros E H. pose proof (pow2_pos k) as Pk.
  assert (NZ : ~ x == 0) by (intros Z0; rewrite Z0 in H; lra).
  rewrite (rnd_grid x NZ). pose proof (pow2_pos (ulp_exp x)) as P.
  assert (K : 2 ^ k == inject_Z (2 ^ (k - ulp_exp x)) * 2 ^ ulp_exp x).
  { rewrite <- (inject_pow2 (k - ulp_exp x)) by lia. rewrite pow2_sub.
    field. lra. }
  rewrite K. apply Qmult_le_compat_r; [|lra].
  rewrite <- Zle_Qle.
  rewrite <- (rne_Z (2 ^ (k - ulp_exp x))). apply rne_monotone.
  apply Qle_shift_div_l; [exact P|]. rewrite <- K. exact H.
Qed.

Lemma rnd_le_pow2 (x : Q) (k : Z) :
  (ulp_exp x <= k)%Z -> 0 < x -> x <= 2 ^ k -> rnd x <= 2 ^ k.
Proof.
  intros E H0 H. pose proof (pow2_pos k) as Pk.
  assert (NZ : ~ x == 0) by (intros Z0; rewrite Z0 in H0; lra).
  rewrite (rnd_grid x NZ). pose proof (pow2_pos (ulp_exp x)) as P.
  assert (K : 2 ^ k == inject_Z (2 ^ (k - ulp_exp x)) * 2 ^ ulp_exp x).
  { rewrite <- (inject_pow2 (k - ulp_exp x)) by lia. rewrite pow2_sub.
    field. lra. }
  rewrite K. apply Qmult_le_compat_r; [|lra].
  rewrite <- Zle_Qle.
  rewrite <- (rne_Z (2 ^ (k - ulp_exp x))). apply rne_monotone.
  apply Qle_shift_div_r; [exact P|]. rewrite <- K. exact H.
Qed.

Lemma rnd_monotone_pos (x y : Q) : 0 < x -> x <= y -> rnd x <= rnd y.
Proof.
  intros Hx Hxy.
  assert (NZx : ~ x == 0) by (intros Z0; rewrite Z0 in Hx; lra).
  assert (NZy : ~ y == 0) by (intros Z0; rewrite Z0 in Hxy; lra).
  destruct (ilog2_spec x NZx) as [Ax Bx]. destruct (ilog2_spec y NZy) as [Ay By].
  rewrite (Qabs_pos x) in Ax, Bx by lra. rewrite (Qabs_pos y) in Ay, By by lra.
  assert (L : (ilog2 x <= ilog2 y)%Z).
  { assert (ilog2 x < ilog2 y + 1)%Z; [|lia].
    apply (Qpower_lt_compat_l_inv 2); [|reflexivity]. lra. }
  destruct (Z.eq_dec (ulp_exp x) (ulp_exp y)) as [E|N].
  - rewrite (rnd_grid x NZx), (rnd_grid y NZy), E.
    pose proof (pow2_pos (ulp_exp y)) as P.
    apply Qmult_le_compat_r; [|lra].
    rewrite <- Zle_Qle. apply rne_monotone.
    apply Qmult_le_compat_r; [exact Hxy|].
    apply Qlt_le_weak, Qinv_lt_0_compat, P.
  - assert (Ey : (ulp_exp y = ilog2 y - 23)%Z) by (unfold ulp_exp in *; lia).
    assert (Lt : (ilog2 x + 1 <= ilog2 y)%Z) by (unfold ulp_exp in *; lia).
    apply Qle_trans with (2 ^ ilog2 y).
    + apply rnd_le_pow2; [unfold ulp_exp in *; lia | exact Hx |].
      apply Qlt_le_weak. apply Qlt_le_trans with (2 ^ (ilog2 x + 1)); [exact Bx|].
      apply pow2_le. exact Lt.
    + apply rnd_ge_pow2; [lia | exact Ay].
Qed.

Theorem rnd_monotone (x y : Q) : x <= y -> rnd x <= rnd y.
Proof.
  intros H.
  destruct (Qlt_le_dec 0 x) as [Px|Nx].
  - apply rnd_monotone_pos; assumption.
  - destruct (Qlt_le_dec y 0) as [Ny|Py].
    + assert (M : rnd (- y) <= rnd (- x)) by (apply rnd_monotone_pos; lra).
      rewrite !rnd_opp in M. lra.
    + pose proof (rnd_nonpos x Nx). pose proof (rnd_nonneg y Py). lra.
Qed.


(** *** Bounds in the form linear arithmetic uses *)

Lemma rnd_bounds (x : Q) :
  (0 <= x /\ 0 <= rnd x /\
   x * (1 - 2 ^ (-24)) - 2 ^ (-150) <= rnd x /\
   rnd x <= x * (1 + 2 ^ (-24)) + 2 ^ (-150)) \/
  (x <= 0 /\ rnd x <= 0 /\
   x * (1 + 2 ^ (-24)) - 2 ^ (-150) <= rnd x /\
   rnd x <= x * (1 - 2 ^ (-24)) + 2 ^ (-150)).
Proof.
  pose proof (rnd_error x) as E. apply Qabs_Qle_condition in E.
  destruct (Qlt_le_dec x 0) as [N|P].
  - right. rewrite (Qabs_neg x) in E by lra.
    pose proof (rnd_nonpos x). lra.
  - left. rewrite (Qabs_pos x) in E by lra.
    pose proof (rnd_nonneg x). lra.
Qed.

Lemma rnd_bounds_normal (x : Q) :
  2 ^ (-126) <= x ->
  x * (1 - 2 ^ (-24)) <= rnd x /\ rnd x <= x * (1 + 2 ^ (-24)).
Proof.
  intros H. assert (P : 0 <= x) by lra.
  pose proof (rnd_error_normal x) as E.
  rewrite (Qabs_pos x) in E by exact P.
  specialize (E H). apply Qabs_Qle_condition in E. lra.
Qed.

Lemma rnd_abs_le (x : Q) :
  Qabs (rnd x) <= Qabs x * (1 + 2 ^ (-24)) + 2 ^ (-150).
Proof.
  destruct (rnd_bounds x) as [(P & R & L & U)|(N & R & L & U)].
  - rewrite (Qabs_pos x), (Qabs_pos (rnd x)) by assumption. exact U.
  - rewrite (Qabs_neg x), (Qabs_neg (rnd x)) by assumption. lra.
Qed.

Lemma fl_fin (x : Q) : Qabs x <= 2 ^ 127 -> fl x = Fin (rnd x).
Proof.
  intros H. unfold fl.
  destruct (Qle_bool (2 ^ 128) (Qabs (rnd x))) eqn:E; [|reflexivity].
  apply Qle_bool_iff in E. pose proof (rnd_abs_le x). lra.
Qed.

Lemma rnd_1 : rnd 1 = 1.
Proof. vm_compute. reflexivity. Qed.

Lemma rnd_half : rnd (1 # 2) = 1 # 2.
Proof. vm_compute. reflexivity. Qed.

Lemma rnd_0 : rnd 0 = 0.
Proof. reflexivity. Qed.

Lemma rnd_fixed_le (x y : Q) : rnd y == y -> x <= y -> rnd x <= y.
Proof. intros F H. rewrite <- F. apply rnd_monotone, H. Qed.

Lemma rnd_fixed_ge (x y : Q) : rnd x == x -> x <= y -> x <= rnd y.
Proof. intros F H. rewrite <- F. apply rnd_monotone, H. Qed.


Lemma rnd_bounds_nonneg (x : Q) :
  0 <= x ->
  0 <= rnd x /\
  x * (1 - 2 ^ (-24)) - 2 ^ (-150) <= rnd x /\
  rnd x <= x * (1 + 2 ^ (-24)) + 2 ^ (-150).
Proof.
  intros P. pose proof (rnd_nonneg x P).
  destruct (rnd_bounds x) as [?|?]; lra.
Qed.

End Float32Props.

(** * Properties of the space-vector modulator *)

Module SvmProps.

Import Float32 Float32Props Svm.
Local Open Scope Q_scope.

(** The zero time when the reference is not clipped. *)
Lemma unclipped_times (tx ty : Q) :
  0 <= tx -> 0 <= ty ->
  let t0 := rnd (rnd (1 - tx) - ty) in
  let h := rnd (t0 * (1 # 2)) in
  0 <= t0 ->
  tx <= 1 + 2 ^ (-100) /\ ty <= 1 + 2 ^ (-100) /\ t0 <= 1 /\
  tx + ty <= 1 + 2 ^ (-23) /\
  Qabs (tx + ty + t0 - 1) <= 2 ^ (-22) /\
  0 <= h /\
  h <= 1 + 6 * 2 ^ (-24) /\
  rnd (tx + h) <= 1 + 6 * 2 ^ (-24) /\
  rnd (ty + h) <= 1 + 6 * 2 ^ (-24) /\
  rnd (rnd (tx + ty) + h) <= 1 + 6 * 2 ^ (-24).
Proof.
  intros Hx Hy t0 h H0. subst t0 h.
  set (r1 := rnd (1 - tx)) in *.
  set (t0 := rnd (r1 - ty)) in *.
  set (h := rnd (t0 * (1 # 2))).
  pose proof (rnd_bounds (1 - tx)) as B1. fold r1 in B1.
  pose proof (rnd_bounds (r1 - ty)) as B2. fold t0 in B2.
  assert (R1 : r1 <= 1).
  { apply rnd_fixed_le; [rewrite rnd_1; reflexivity | lra]. }
  assert (Fx : tx <= 1 + 2 ^ (-100)) by (destruct B1 as [?|?], B2 as [?|?]; lra).
  assert (Fy : ty <= 1 + 2 ^ (-100)) by (destruct B1 as [?|?], B2 as [?|?]; lra).
  assert (F0 : t0 <= 1).
  { apply rnd_fixed_le; [rewrite rnd_1; reflexivity | lra]. }
  assert (Fs : tx + ty <= 1 + 2 ^ (-23)) by (destruct B1 as [?|?], B2 as [?|?]; lra).
  assert (Ft : Qabs (tx + ty + t0 - 1) <= 2 ^ (-22)).
  { apply Qabs_Qle_condition. destruct B1 as [?|?], B2 as [?|?]; lra. }
  destruct (rnd_bounds_nonneg (t0 * (1 # 2))) as (H1 & H2 & H3); [lra|].
  fold h in H1, H2, H3.
  destruct (rnd_bounds_nonneg (tx + h)) as (X1 & X2 & X3); [lra|].
  destruct (rnd_bounds_nonneg (ty + h)) as (Y1 & Y2 & Y3); [lra|].
  destruct (rnd_bounds_nonneg (tx + ty)) as (S1 & S2 & S3); [lra|].
  destruct (rnd_bounds_nonneg (rnd (tx + ty) + h)) as (A1 & A2 & A3); [lra|].
  repeat split; try lra; destruct B1 as [?|?], B2 as [?|?]; lra.
Qed.

(** The clip test fires only beyond the hexagon, and always when the
    reference is beyond it by more than rounding. *)
Lemma clip_test (tx ty : Q) :
  0 <= tx -> 0 <= ty -> rnd ty == ty ->
  let t0 := rnd (rnd (1 - tx) - ty) in
  (t0 < 0 -> 1 < tx + ty) /\
  (1 + 2 ^ (-23) <= tx + ty -> t0 < 0).
Proof.
  intros Hx Hy Ry t0. subst t0.
  set (r1 := rnd (1 - tx)).
  pose proof (rnd_bounds (1 - tx)) as B1. fold r1 in B1.
  pose proof (rnd_bounds (r1 - ty)) as B2.
  split.
  - intros H.
    assert (Z : r1 - ty < 0).
    { destruct (Qlt_le_dec (r1 - ty) 0) as [A|A]; [exact A|].
      pose proof (rnd_nonneg _ A). lra. }
    destruct (Qlt_le_dec 1 (tx + ty)) as [A|A]; [exact A|].
    assert (M : ty <= r1).
    { apply rnd_fixed_ge; [exact Ry | lra]. }
    lra.
  - intros H. destruct B1 as [?|?], B2 as [?|?]; lra.
Qed.

(** The rescaled times of a clipped reference. *)
Lemma clipped_times (tx ty : Q) :
  0 <= tx -> 0 <= ty -> tx <= 2 ^ 102 -> ty <= 2 ^ 102 -> 1 < tx + ty ->
  let s := rnd (tx + ty) in
  let k := rnd (1 / s) in
  let tx' := rnd (k * tx) in
  let ty' := rnd (k * ty) in
  1 <= s /\ s <= 2 ^ 104 /\ 0 < k /\ k <= 1 /\
  Qabs (k * (tx + ty) - 1) <= 2 ^ (-22) /\
  0 <= tx' /\ 0 <= ty' /\ tx' <= 1 + 2 ^ (-22) /\ ty' <= 1 + 2 ^ (-22) /\
  Qabs (tx' + ty' - 1) <= 2 ^ (-22) /\
  rnd (tx' + ty') <= 1 + 6 * 2 ^ (-24).
Proof.
  intros Hx Hy Ux Uy HS s k tx' ty'.
  assert (S1 : 1 <= s).
  { unfold s. apply rnd_fixed_ge; [rewrite rnd_1; reflexivity | lra]. }
  destruct (rnd_bounds_normal (tx + ty)) as [SL SU]; [lra|]. fold s in SL, SU.
  assert (Sp : 0 < s) by lra.
  assert (Ip : 0 < / s) by (apply Qinv_lt_0_compat; exact Sp).
  assert (Is : (1 / s) * s == 1) by (field; lra).
  assert (I1 : 1 / s <= 1).
  { apply Qle_shift_div_r; [exact Sp | lra]. }
  assert (I2 : 2 ^ (-126) <= 1 / s).
  { apply Qle_shift_div_l; [exact Sp | lra]. }
  destruct (rnd_bounds_normal (1 / s) I2) as [KL KU]. fold k in KL, KU.
  assert (K1 : k <= 1).
  { unfold k. apply rnd_fixed_le; [rewrite rnd_1; reflexivity | exact I1]. }
  assert (Kp : 0 < k).
  { unfold Qdiv in *. nra. }
  (* the products of the coefficient with the sums *)
  set (q := k * s). set (p := k * (tx + ty)).
  assert (Q1 : 1 - 2 ^ (-24) <= q /\ q <= 1 + 2 ^ (-24)).
  { unfold q. split.
    - apply Qle_trans with ((1 / s) * (1 - 2 ^ (-24)) * s); [rewrite <- Is at 1; lra|].
      apply Qmult_le_compat_r; lra.
    - apply Qle_trans with ((1 / s) * (1 + 2 ^ (-24)) * s); [|rewrite <- Is at 3; lra].
      apply Qmult_le_compat_r; lra. }
  assert (P1 : p * (1 - 2 ^ (-24)) <= q /\ q <= p * (1 + 2 ^ (-24))).
  { unfold p, q. split.
    - rewrite <- (Qmult_assoc k).
      apply Qmult_le_l; [exact Kp | exact SL].
    - rewrite <- (Qmult_assoc k).
      apply Qmult_le_l; [exact Kp | exact SU]. }
  assert (Px : 0 <= k * tx) by (apply Qmult_le_0_compat; lra).
  assert (Py : 0 <= k * ty) by (apply Qmult_le_0_compat; lra).
  assert (Ps : k * tx + k * ty == p) by (unfold p; ring).
  destruct (rnd_bounds_nonneg (k * tx) Px) as (X1 & X2 & X3). fold tx' in X1, X2, X3.
  destruct (rnd_bounds_nonneg (k * ty) Py) as (Y1 & Y2 & Y3). fold ty' in Y1, Y2, Y3.
  destruct (rnd_bounds_nonneg (tx' + ty')) as (A1 & A2 & A3); [lra|].
  assert (T : Qabs (tx' + ty' - 1) <= 2 ^ (-22)).
  { apply Qabs_Qle_condition. lra. }
  assert (U104 : s <= 2 ^ 104) by lra.
  assert (Kq : Qabs (k * (tx + ty) - 1) <= 2 ^ (-22)).
  { fold p. apply Qabs_Qle_condition. lra. }
  repeat split; try assumption; try lra.
Qed.

(** An on-time: the period times a fraction that rounding may have taken
    just above 1. *)
Lemma on_time_bound (p q : Q) :
  0 <= p -> 0 <= q -> q <= 1 + 6 * 2 ^ (-24) ->
  0 <= rnd (p * q) /\ rnd (p * q) <= p * (1 + 2 ^ (-21)) + 2 ^ (-149).
Proof.
  intros Hp Hq Uq.
  assert (P0 : 0 <= p * q) by (apply Qmult_le_0_compat; assumption).
  assert (P1 : p * q <= p * (1 + 6 * 2 ^ (-24))).
  { destruct (Qeq_dec p 0) as [Z0|NZ]; [rewrite Z0; lra|].
    apply Qmult_le_l; [lra | exact Uq]. }
  destruct (rnd_bounds_nonneg (p * q) P0) as (A1 & A2 & A3).
  split; [exact A1 | lra].
Qed.

(** Reads of the globals after writes. *)
Ltac svm_fields :=
  cbn [SvmAlpha SvmBeta SvmPeriod SvmMethod SvmBetaSqrt3 SvmAlphaAbs
       SvmSector SvmTx SvmTy SvmT0 SvmT02 SvmClip SvmK SvmOnA SvmOnB SvmOnC
       set_SvmBetaSqrt3 set_SvmAlphaAbs set_SvmSector set_SvmTx set_SvmTy
       set_SvmT0 set_SvmT02 set_SvmClip set_SvmK set_SvmOn] in *.

Lemma fsub_fin (a b : Q) : fsub (Fin a) (Fin b) = fl (a - b).
Proof. reflexivity. Qed.

Lemma fadd_fin (a b : Q) : fadd (Fin a) (Fin b) = fl (a + b).
Proof. reflexivity. Qed.

Lemma fmul_fin (a b : Q) : fmul (Fin a) (Fin b) = fl (a * b).
Proof. reflexivity. Qed.

(** The product [beta * RECIP_SQRT3] of a bounded input does not overflow. *)
Lemma scaled_beta_bound (b r : Q) :
  Qabs b <= 2 ^ 100 -> Qabs r <= 1 ->
  Qabs (b * r) <= 2 ^ 100 /\ Qabs (rnd (b * r)) <= 2 ^ 101.
Proof.
  intros Hb Hr.
  assert (P : Qabs (b * r) <= 2 ^ 100).
  { rewrite Qabs_Qmult.
    pose proof (Qabs_nonneg b). pose proof (Qabs_nonneg r).
    apply Qle_trans with (Qabs b * 1); [|lra].
    destruct (Qeq_dec (Qabs b) 0) as [Z0|NZ]; [rewrite Z0; lra|].
    apply Qmult_le_l; [lra | exact Hr]. }
  split; [exact P|]. pose proof (rnd_abs_le (b * r)). lra.
Qed.

(** What the sector selection and the active times are, for finite
    inputs. *)
Lemma before_clamp_fin (R : float) (s : Vars) (a b r : Q) :
  SvmAlpha s = Fin a -> SvmBeta s = Fin b -> R = Fin r ->
  Qabs a <= 2 ^ 100 -> Qabs b <= 2 ^ 100 -> Qabs r <= 1 ->
  let B := Qabs (rnd (b * r)) in
  let t := before_clamp R s in
  SvmPeriod t = SvmPeriod s /\ SvmMethod t = SvmMethod s /\
  SvmT02 t = SvmT02 s /\ SvmOnA t = SvmOnA s /\ SvmOnB t = SvmOnB s /\
  SvmOnC t = SvmOnC s /\
  ((Qabs a < B /\
    (0 <= b /\ SvmSector t = 2%Z \/ b < 0 /\ SvmSector t = 5%Z) /\
    SvmTx t = Fin (rnd (a + B)) /\ SvmTy t = Fin (rnd (- a + B))) \/
   (B <= Qabs a /\
    (0 <= b /\ 0 <= a /\ SvmSector t = 1%Z \/
     0 <= b /\ a < 0 /\ SvmSector t = 3%Z \/
     b < 0 /\ a < 0 /\ SvmSector t = 4%Z \/
     b < 0 /\ 0 <= a /\ SvmSector t = 6%Z) /\
    SvmTx t = Fin (rnd (Qabs a - B)) /\ SvmTy t = Fin (rnd (2 * B)))).
Proof.
  intros Ea Eb Er Ha Hb Hr B t. subst t.
  destruct (scaled_beta_bound b r Hb Hr) as [P1 P2]. fold B in P2.
  pose proof (Qabs_nonneg (rnd (b * r))) as Bn. fold B in Bn.
  pose proof (Qabs_nonneg a) as An.
  assert (La : - Qabs a <= a /\ a <= Qabs a).
  { apply Qabs_Qle_condition. lra. }
  unfold before_clamp, select_sector. svm_fields.
  rewrite Ea, Eb, Er. cbn [fmul fabs fge flt].
  rewrite (fl_fin (b * r)) by lra. cbn [fabs flt]. fold B.
  destruct (Qle_bool 0 b) eqn:Cb;
    destruct (Qlt_bool (Qabs a) B) eqn:Cm;
    destruct (Qle_bool 0 a) eqn:Ca;
    unfold active_times; svm_fields; cbn [Z.eqb Pos.eqb orb]; svm_fields;
    rewrite ?Ea; cbn [fabs fadd fsub fneg fmul]; fold B;
    rewrite ?Qle_bool_iff, ?Qle_bool_false_iff, ?Qlt_bool_iff,
      ?Qlt_bool_false_iff in *;
    repeat (split; [reflexivity|]).
  all: first
    [ left; split; [exact Cm|]; split; [tauto|];
      rewrite (fl_fin (a + B)), (fl_fin (- a + B));
      [split; reflexivity | |];
      apply Qabs_Qle_condition; lra
    | right; split; [exact Cm|]; split; [tauto|];
      rewrite (fl_fin (Qabs a + - B)), (fl_fin (2 * B));
      [split; reflexivity | |];
      apply Qabs_Qle_condition; lra ].
Qed.

(** The active times before the clamp: rounded values that are not
    negative. *)
Lemma before_clamp_times (R : float) (s : Vars) (a b r : Q) :
  SvmAlpha s = Fin a -> SvmBeta s = Fin b -> R = Fin r ->
  Qabs a <= 2 ^ 100 -> Qabs b <= 2 ^ 100 -> Qabs r <= 1 ->
  let t := before_clamp R s in
  exists tx ty : Q,
    SvmTx t = Fin tx /\ SvmTy t = Fin ty /\
    0 <= tx /\ tx <= 2 ^ 102 /\ 0 <= ty /\ ty <= 2 ^ 102 /\
    rnd tx == tx /\ rnd ty == ty /\
    (1 <= SvmSector t <= 6)%Z.
Proof.
  intros Ea Eb Er Ha Hb Hr t.
  destruct (scaled_beta_bound b r Hb Hr) as [P1 P2].
  pose proof (Qabs_nonneg (rnd (b * r))) as Bn.
  pose proof (Qabs_nonneg a) as An.
  assert (La : - Qabs a <= a /\ a <= Qabs a).
  { apply Qabs_Qle_condition. lra. }
  destruct (before_clamp_fin R s a b r Ea Eb Er Ha Hb Hr)
    as (_ & _ & _ & _ & _ & _ & [(C & S & X & Y)|(C & S & X & Y)]);
    fold t in S, X, Y; revert P2 Bn C X Y;
    generalize (Qabs (rnd (b * r))); intros B P2 Bn C X Y.
  - exists (rnd (a + B)), (rnd (- a + B)).
    destruct (rnd_bounds_nonneg (a + B)) as (? & ? & ?); [lra|].
    destruct (rnd_bounds_nonneg (- a + B)) as (? & ? & ?); [lra|].
    repeat split; try assumption; try apply rnd_idempotent; try lra;
      destruct S as [[_ E]|[_ E]]; rewrite E; lia.
  - exists (rnd (Qabs a - B)), (rnd (2 * B)).
    destruct (rnd_bounds_nonneg (Qabs a - B)) as (? & ? & ?); [lra|].
    destruct (rnd_bounds_nonneg (2 * B)) as (? & ? & ?); [lra|].
    repeat split; try assumption; try apply rnd_idempotent; try lra;
      destruct S as [(_ & _ & E)|[(_ & _ & E)|[(_ & _ & E)|(_ & _ & E)]]];
      rewrite E; lia.
Qed.

Lemma product_bound (p q P B : Q) :
  0 <= p -> p <= P -> 0 <= q -> q <= B ->
  Qabs (p * q) <= P * B.
Proof.
  intros Hp Up Hq Uq. apply Qabs_Qle_condition. split.
  - apply Qle_trans with 0; [|apply Qmult_le_0_compat; assumption].
    assert (0 <= P * B) by (apply Qmult_le_0_compat; lra). lra.
  - apply Qmult_le_compat_nonneg; split; assumption.
Qed.

(** The clamp, for the times it is entered with. *)
Lemma zero_time_fin (t : Vars) (tx ty : Q) :
  SvmTx t = Fin tx -> SvmTy t = Fin ty ->
  0 <= tx -> tx <= 2 ^ 102 -> 0 <= ty -> ty <= 2 ^ 102 -> rnd ty == ty ->
  let z := zero_time t in
  let t0 := rnd (rnd (1 - tx) - ty) in
  let k := rnd (1 / rnd (tx + ty)) in
  SvmPeriod z = SvmPeriod t /\ SvmMethod z = SvmMethod t /\
  SvmSector z = SvmSector t /\
  SvmT02 z = SvmT02 t /\ SvmOnA z = SvmOnA t /\ SvmOnB z = SvmOnB t /\
  SvmOnC z = SvmOnC t /\
  ((t0 < 0 /\ SvmClip z = 1%Z /\ SvmT0 z = Fin 0 /\ SvmK z = Fin k /\
    SvmTx z = Fin (rnd (k * tx)) /\ SvmTy z = Fin (rnd (k * ty))) \/
   (0 <= t0 /\ SvmClip z = 0%Z /\ SvmT0 z = Fin t0 /\ SvmK z = Fin 1 /\
    SvmTx z = Fin tx /\ SvmTy z = Fin ty)).
Proof.
  intros Ex Ey Hx Ux Hy Uy Ry z t0 k. subst z.
  assert (E0 : fsub (fsub (Fin 1) (Fin tx)) (Fin ty) = Fin t0).
  { rewrite fsub_fin.
    destruct (rnd_bounds (1 - tx)) as [(? & ? & ? & ?)|(? & ? & ? & ?)];
      rewrite (fl_fin (1 - tx)) by (apply Qabs_Qle_condition; lra);
      rewrite fsub_fin;
      rewrite (fl_fin (rnd (1 - tx) - ty))
        by (apply Qabs_Qle_condition; lra);
      reflexivity. }
  unfold zero_time. svm_fields. rewrite Ex, Ey, E0. cbn [flt].
  destruct (Qlt_bool t0 0) eqn:C; svm_fields;
    repeat (split; [reflexivity|]).
  - apply Qlt_bool_iff in C. left. split; [exact C|].
    destruct (clip_test tx ty Hx Hy Ry) as [T _]. specialize (T C).
    destruct (clipped_times tx ty Hx Hy Ux Uy T) as (S1 & S2 & K0 & K1 & _).
    fold k in K0, K1.
    assert (EK : fdiv (Fin 1) (fadd (Fin tx) (Fin ty)) = Fin k).
    { rewrite fadd_fin, (fl_fin (tx + ty)) by (apply Qabs_Qle_condition; lra).
      cbn [fdiv].
      assert (NZ : Qeq_bool (rnd (tx + ty)) 0 = false).
      { destruct (Qeq_bool (rnd (tx + ty)) 0) eqn:E; [|reflexivity].
        apply Qeq_bool_iff in E. lra. }
      rewrite NZ.
      assert (I1 : 0 <= 1 / rnd (tx + ty) /\ 1 / rnd (tx + ty) <= 1).
      { split; [apply Qle_shift_div_l | apply Qle_shift_div_r]; lra. }
      rewrite (fl_fin (1 / rnd (tx + ty))) by (apply Qabs_Qle_condition; lra).
      reflexivity. }
    rewrite EK, !fmul_fin.
    rewrite (fl_fin (k * tx)), (fl_fin (k * ty))
      by (apply Qle_trans with (1 * 2 ^ 102); [apply product_bound|]; lra).
    repeat split; reflexivity.
  - apply Qlt_bool_false_iff in C. right.
    repeat split; solve [assumption | reflexivity].
Qed.

(** The placement step leaves everything but the half zero time and the
    on-times as it finds it. *)
Lemma assign_on_times_frame (s : Vars) :
  let u := assign_on_times s in
  SvmSector u = SvmSector s /\ SvmClip u = SvmClip s /\ SvmK u = SvmK s /\
  SvmTx u = SvmTx s /\ SvmTy u = SvmTy s /\ SvmT0 u = SvmT0 s.
Proof.
  unfold assign_on_times.
  destruct (SvmMethod s =? 1)%Z; [|repeat split; reflexivity].
  svm_fields. remember (SvmSector s) as k eqn:E.
  repeat match goal with
         | |- context [match ?p with _ => _ end] => destruct p
         end; svm_fields; rewrite <- ?E; repeat split; reflexivity.
Qed.

(** The on-times of the symmetric method, for finite times. *)
Lemma assign_on_times_fin (z : Vars) (p x y w : Q) :
  SvmMethod z = 1%Z -> SvmPeriod z = Fin p ->
  SvmTx z = Fin x -> SvmTy z = Fin y -> SvmT0 z = Fin w ->
  0 <= p -> p <= 2 ^ 100 -> 0 <= x -> x <= 2 -> 0 <= y -> y <= 2 ->
  0 <= w -> w <= 2 ->
  let u := assign_on_times z in
  let h := rnd (w * (1 # 2)) in
  let all := rnd (p * rnd (rnd (x + y) + h)) in
  let ox := rnd (p * rnd (x + h)) in
  let oy := rnd (p * rnd (y + h)) in
  let oz := rnd (p * h) in
  SvmT02 u = Fin h /\
  (SvmSector z = 1%Z ->
   SvmOnA u = Fin all /\ SvmOnB u = Fin oy /\ SvmOnC u = Fin oz) /\
  (SvmSector z = 2%Z ->
   SvmOnA u = Fin ox /\ SvmOnB u = Fin all /\ SvmOnC u = Fin oz) /\
  (SvmSector z = 3%Z ->
   SvmOnA u = Fin oz /\ SvmOnB u = Fin all /\ SvmOnC u = Fin ox) /\
  (SvmSector z = 4%Z ->
   SvmOnA u = Fin oz /\ SvmOnB u = Fin ox /\ SvmOnC u = Fin all) /\
  (SvmSector z = 5%Z ->
   SvmOnA u = Fin ox /\ SvmOnB u = Fin oz /\ SvmOnC u = Fin all) /\
  (SvmSector z = 6%Z ->
   SvmOnA u = Fin all /\ SvmOnB u = Fin oz /\ SvmOnC u = Fin oy).
Proof.
  intros EM EP Ex Ey Ew Hp Up Hx Ux Hy Uy Hw Uw u h all ox oy oz.
  destruct (rnd_bounds_nonneg (w * (1 # 2))) as (H1 & _ & H3); [lra|].
  fold h in H1, H3.
  destruct (rnd_bounds_nonneg (x + y)) as (S1 & _ & S3); [lra|].
  destruct (rnd_bounds_nonneg (x + h)) as (X1 & _ & X3); [lra|].
  destruct (rnd_bounds_nonneg (y + h)) as (Y1 & _ & Y3); [lra|].
  destruct (rnd_bounds_nonneg (rnd (x + y) + h)) as (A1 & _ & A3); [lra|].
  assert (Eh : fmul (Fin w) (Fin (1 # 2)) = Fin h).
  { rewrite fmul_fin, fl_fin by (apply Qabs_Qle_condition; lra). reflexivity. }
  assert (Eall : fmul (Fin p) (fadd (fadd (Fin x) (Fin y)) (Fin h)) = Fin all).
  { rewrite fadd_fin, (fl_fin (x + y)) by (apply Qabs_Qle_condition; lra).
    rewrite fadd_fin, fl_fin by (apply Qabs_Qle_condition; lra).
    rewrite fmul_fin, fl_fin; [reflexivity|].
    apply Qle_trans with (2 ^ 100 * 8); [|lra].
    apply product_bound; lra. }
  assert (Eox : fmul (Fin p) (fadd (Fin x) (Fin h)) = Fin ox).
  { rewrite fadd_fin, fl_fin by (apply Qabs_Qle_condition; lra).
    rewrite fmul_fin, fl_fin; [reflexivity|].
    apply Qle_trans with (2 ^ 100 * 8); [|lra].
    apply product_bound; lra. }
  assert (Eoy : fmul (Fin p) (fadd (Fin y) (Fin h)) = Fin oy).
  { rewrite fadd_fin, fl_fin by (apply Qabs_Qle_condition; lra).
    rewrite fmul_fin, fl_fin; [reflexivity|].
    apply Qle_trans with (2 ^ 100 * 8); [|lra].
    apply product_bound; lra. }
  assert (Eoz : fmul (Fin p) (Fin h) = Fin oz).
  { rewrite fmul_fin, fl_fin; [reflexivity|].
    apply Qle_trans with (2 ^ 100 * 8); [|lra].
    apply product_bound; lra. }
  subst u. unfold assign_on_times. rewrite EM. cbn [Z.eqb Pos.eqb].
  svm_fields. rewrite EP, Ex, Ey, Ew, Eh, Eall, Eox, Eoy, Eoz.
  split.
  - remember (SvmSector z) as c eqn:E.
    repeat match goal with
           | |- context [match ?p with _ => _ end] => destruct p
           end; svm_fields; reflexivity.
  - repeat apply conj; intros E; rewrite E; svm_fields;
      repeat split; reflexivity.
Qed.

Lemma UpdateSpaceVector_eq (R : float) (s : Vars) :
  UpdateSpaceVector R s = assign_on_times (zero_time (before_clamp R s)).
Proof. unfold UpdateSpaceVector, before_clamp. reflexivity. Qed.

(** The clamp does not touch the sector, whatever the times are. *)
Lemma zero_time_sector (t : Vars) : SvmSector (zero_time t) = SvmSector t.
Proof.
  unfold zero_time. svm_fields.
  destruct (flt _ _); svm_fields; reflexivity.
Qed.

Lemma UpdateSpaceVector_sector (R : float) (s : Vars) :
  SvmSector (UpdateSpaceVector R s) = SvmSector (select_sector R s).
Proof.
  unfold UpdateSpaceVector.
  destruct (assign_on_times_frame (zero_time (active_times (select_sector R s))))
    as (-> & _).
  rewrite zero_time_sector.
  unfold active_times.
  destruct (_ || _); svm_fields; reflexivity.
Qed.

Lemma rnd_Qabs (x : Q) : Qabs (rnd x) == rnd (Qabs x).
Proof.
  destruct (Qlt_le_dec x 0) as [N|P].
  - rewrite (Qabs_neg (rnd x)) by (apply rnd_nonpos; lra).
    rewrite (rnd_comp (Qabs x) (- x)) by (apply Qabs_neg; lra).
    rewrite rnd_opp. reflexivity.
  - rewrite (Qabs_pos (rnd x)) by (apply rnd_nonneg; lra).
    rewrite (rnd_comp (Qabs x) x) by (apply Qabs_pos; lra).
    reflexivity.
Qed.

(** An exact tie of a float [a] with the product is a tie with the rounded
    product as well. *)
Lemma exact_tie_is_float_tie (a x : Q) :
  rnd a == a -> Qabs a == Qabs x -> Qabs a == Qabs (rnd x).
Proof.
  intros Ra T. rewrite rnd_Qabs, <- (rnd_comp (Qabs a) (Qabs x) T).
  rewrite <- rnd_Qabs, Ra. reflexivity.
Qed.

(** C1, as the code has it: on the boundary [|alpha| = |beta * RECIP_SQRT3|]
    (an exact tie, or a tie with the rounded product that the code
    compares) the comparison [<] fails, so the sector selected is not the
    middle one but the outer sector on the side of alpha: 1 (alpha >= 0) or
    3 (alpha < 0) when beta >= 0, and 6 (alpha >= 0) or 4 (alpha < 0) when
    beta < 0. *)
Theorem boundary_tie_selects_outer_sector (R : float) (s : Vars) (a b r : Q) :
  SvmAlpha s = Fin a -> SvmBeta s = Fin b -> R = Fin r -> binary32 a ->
  Qabs a == Qabs (b * r) \/ Qabs a == Qabs (rnd (b * r)) ->
  let u := UpdateSpaceVector R s in
  (0 <= b -> 0 <= a -> SvmSector u = 1%Z) /\
  (0 <= b -> a < 0 -> SvmSector u = 3%Z) /\
  (b < 0 -> a < 0 -> SvmSector u = 4%Z) /\
  (b < 0 -> 0 <= a -> SvmSector u = 6%Z).
Proof.
  intros Ea Eb Er [Ra Fa] Htie u. subst u.
  assert (T : Qabs a == Qabs (rnd (b * r))).
  { destruct Htie as [T|T]; [|exact T].
    apply exact_tie_is_float_tie; assumption. }
  rewrite UpdateSpaceVector_sector.
  unfold select_sector. svm_fields. rewrite Ea, Eb, Er, fmul_fin.
  assert (F : fl (b * r) = Fin (rnd (b * r))).
  { unfold fl. destruct (Qle_bool _ _) eqn:E; [|reflexivity].
    apply Qle_bool_iff in E. rewrite <- T in E. lra. }
  rewrite F. cbn [fabs flt fge].
  assert (Hlt : Qlt_bool (Qabs a) (Qabs (rnd (b * r))) = false)
    by (apply Qlt_bool_false_iff; rewrite T; apply Qle_refl).
  rewrite Hlt.
  destruct (Qle_bool 0 b) eqn:Hb;
    destruct (Qle_bool 0 a) eqn:Ha; svm_fields;
    rewrite ?Qle_bool_iff, ?Qle_bool_false_iff in *;
    repeat split; intros; first [reflexivity | lra].
Qed.

(** Both boundary inputs satisfy the hypotheses, and the theorem gives
    sectors 1 and 6 for them. *)
Lemma boundary_tie_selects_outer_sector_witness :
  R3 = Fin (4843165 # 8388608) /\
  Qabs (4843165 # 8388608) == Qabs (1 * (4843165 # 8388608)) /\
  SvmSector (UpdateSpaceVector R3 (inputs R3 (Fin 1) (Fin 1000) 1)) = 1%Z /\
  SvmSector (UpdateSpaceVector R3 (inputs R3 (Fin (-1)) (Fin 1000) 1)) = 6%Z.
Proof.
  assert (E : R3 = Fin (4843165 # 8388608)) by (vm_compute; reflexivity).
  assert (B : binary32 (4843165 # 8388608)).
  { split; [vm_compute; reflexivity | reflexivity]. }
  split; [exact E|]. split; [reflexivity|]. split.
  - apply (boundary_tie_selects_outer_sector R3
             (inputs R3 (Fin 1) (Fin 1000) 1) (4843165 # 8388608) 1
             (4843165 # 8388608));
      [exact E | reflexivity | exact E | exact B | left; reflexivity
      | discriminate | discriminate].
  - apply (boundary_tie_selects_outer_sector R3
             (inputs R3 (Fin (-1)) (Fin 1000) 1) (4843165 # 8388608) (-1)
             (4843165 # 8388608));
      [exact E | reflexivity | exact E | exact B | left; reflexivity
      | reflexivity | discriminate].
Defined.

(** C1 as stated fails: [alpha = RECIP_SQRT3, beta = 1] lies on the
    boundary of the upper half-plane and gets sector 1, not 2;
    [alpha = RECIP_SQRT3, beta = -1] lies on the boundary of the lower
    half-plane and gets sector 6, not 5. *)
Lemma boundary_tie_not_middle_sector :
  R3 = Fin (4843165 # 8388608) /\
  (Qabs (4843165 # 8388608) == Qabs (1 * (4843165 # 8388608)) /\ 0 <= 1 /\
   SvmSector (UpdateSpaceVector R3 (inputs R3 (Fin 1) (Fin 1000) 1))
     <> 2%Z) /\
  (Qabs (4843165 # 8388608) == Qabs (-1 * (4843165 # 8388608)) /\ -1 < 0 /\
   SvmSector (UpdateSpaceVector R3 (inputs R3 (Fin (-1)) (Fin 1000) 1))
     <> 5%Z).
Proof.
  split; [vm_compute; reflexivity|].
  repeat split; try reflexivity; vm_compute; discriminate.
Qed.

(** ** Literal scenarios of the specification *)

Example scenario_A :
  let u := UpdateSpaceVector R3 (inputs (Fin (1 # 2)) (Fin 0) (Fin 1000) 1) in
  SvmSector u = 1%Z /\ SvmClip u = 0%Z /\
  SvmOnA u = Fin 750 /\ SvmOnB u = Fin 250 /\ SvmOnC u = Fin 250.
Proof. vm_compute. repeat split; reflexivity. Qed.

Example scenario_B :
  let u := UpdateSpaceVector R3 (inputs (Fin 0) (Fin 1) (Fin 1000) 1) in
  SvmSector u = 2%Z /\ SvmClip u = 1%Z /\
  SvmK u = Fin (1816187 # 2097152) /\
  SvmOnA u = Fin 500 /\ SvmOnB u = Fin 1000 /\ SvmOnC u = Fin 0.
Proof. vm_compute. repeat split; reflexivity. Qed.

(** ** Overmodulation clamp *)

(** C4 as stated fails on the rounded arithmetic.  At [alpha = 1.893f],
    [beta = -0.143f] the times before the clamp add up to more than 1 and
    the flag is set, but the coefficient is the rounded quotient, not
    [1/(Tx+Ty)], and the rescaled times add up to more than 1 (as numbers
    and as the float sum, [1 + 2^-23]).  At [alpha = -(1/2 - 2^-25)],
    [beta = 0.866025448f] the times before the clamp add up to
    [1 + 2^-25 > 1], the computed zero time rounds to 0 and the flag stays
    clear.  At [alpha = beta = 3e38f], finite inputs, the time Ty overflows
    to an infinity: the coefficient is 0 and the rescaled Ty is a NaN. *)
Lemma clamp_sum_not_one :
  (let s := inputs (fl (1893 # 1000)) (fl (-143 # 1000)) (Fin 1000) 1 in
   let t := before_clamp R3 s in
   let u := UpdateSpaceVector R3 s in
   SvmTx t = Fin (7593531 # 4194304) /\
   SvmTy t = Fin (5540581 # 33554432) /\
   1 < (7593531 # 4194304) + (5540581 # 33554432) /\
   SvmClip u = 1%Z /\
   SvmK u = Fin (8492381 # 16777216) /\
   ~ (8492381 # 16777216) ==
     1 / ((7593531 # 4194304) + (5540581 # 33554432)) /\
   SvmTx u = Fin (15374937 # 16777216) /\
   SvmTy u = Fin (2804561 # 33554432) /\
   ~ (15374937 # 16777216) + (2804561 # 33554432) == 1 /\
   fadd (SvmTx u) (SvmTy u) = Fin (8388609 # 8388608)) /\
  (let s := inputs (Fin (- ((1 # 2) - 2 ^ (-25))))
                   (fl (866025448 # 1000000000)) (Fin 1000) 1 in
   let t := before_clamp R3 s in
   let u := UpdateSpaceVector R3 s in
   SvmTx t = Fin (1 # 33554432) /\ SvmTy t = Fin 1 /\
   1 < (1 # 33554432) + 1 /\
   SvmClip u = 0%Z) /\
  (let big := fl (3 * 10 ^ 38) in
   let s := inputs big big (Fin 1000) 1 in
   let u := UpdateSpaceVector R3 s in
   big = Fin 300000000549775575777803994281145270272 /\
   SvmTy (before_clamp R3 s) = Inf false /\
   SvmClip u = 1%Z /\ SvmK u = Fin 0 /\ SvmTx u = Fin 0 /\ SvmTy u = NaN).
Proof.
  split; [|split]; vm_compute; repeat split; try reflexivity; discriminate.
Qed.

(** C4, as the rounded arithmetic has it, for finite inputs of magnitude
    at most [2^100]: the clip flag is set when the times before the clamp
    add up to [1 + 2^-23] or more and is clear when they add up to 1 or
    less; when it is set, the sum is above 1, the zero time becomes 0, the
    coefficient is the rounded quotient [1/(Tx+Ty)] (the quotient within
    [2^-22]), the times are rescaled by it and add up to 1 within [2^-22];
    when it is clear the coefficient is 1 and the times are kept.  The
    coefficient is always a number above 0 and at most 1. *)
Theorem clamp_within_tolerance (R : float) (s : Vars) (a b r : Q) :
  SvmAlpha s = Fin a -> SvmBeta s = Fin b -> R = Fin r ->
  Qabs a <= 2 ^ 100 -> Qabs b <= 2 ^ 100 -> Qabs r <= 1 ->
  let t := before_clamp R s in
  let u := UpdateSpaceVector R s in
  exists tx ty k : Q,
    SvmTx t = Fin tx /\ SvmTy t = Fin ty /\ SvmK u = Fin k /\
    (1 + 2 ^ (-23) <= tx + ty -> SvmClip u = 1%Z) /\
    (tx + ty <= 1 -> SvmClip u = 0%Z) /\
    (SvmClip u = 1%Z ->
     1 < tx + ty /\ SvmT0 u = Fin 0 /\
     k = rnd (1 / rnd (tx + ty)) /\
     Qabs (k * (tx + ty) - 1) <= 2 ^ (-22) /\
     SvmTx u = Fin (rnd (k * tx)) /\ SvmTy u = Fin (rnd (k * ty)) /\
     Qabs (rnd (k * tx) + rnd (k * ty) - 1) <= 2 ^ (-22)) /\
    (SvmClip u = 0%Z ->
     k = 1 /\ SvmTx u = Fin tx /\ SvmTy u = Fin ty) /\
    (SvmClip u = 0%Z \/ SvmClip u = 1%Z) /\
    0 < k /\ k <= 1.
Proof.
  intros Ea Eb Er Ha Hb Hr t u. subst u. rewrite UpdateSpaceVector_eq.
  destruct (before_clamp_times R s a b r Ea Eb Er Ha Hb Hr)
    as (tx & ty & Ex & Ey & Hx & Ux & Hy & Uy & _ & Ry & _).
  fold t in Ex, Ey |- *.
  destruct (assign_on_times_frame (zero_time t))
    as (_ & -> & -> & -> & -> & ->).
  destruct (clip_test tx ty Hx Hy Ry) as [T1 T2].
  destruct (zero_time_fin t tx ty Ex Ey Hx Ux Hy Uy Ry)
    as (_ & _ & _ & _ & _ & _ & _ &
        [(C & Ec & E0 & Ek & Ex' & Ey')|(C & Ec & E0 & Ek & Ex' & Ey')]).
  - specialize (T1 C).
    destruct (clipped_times tx ty Hx Hy Ux Uy T1)
      as (_ & _ & K0 & K1 & Kq & _ & _ & _ & _ & Ts & _).
    exists tx, ty, (rnd (1 / rnd (tx + ty))).
    rewrite Ec, E0, Ek, Ex', Ey'.
    repeat split; try assumption; try reflexivity; try (intros; lra);
      try (right; reflexivity); intros; discriminate.
  - exists tx, ty, 1. rewrite Ec, Ek, Ex', Ey'.
    repeat split; try assumption; try reflexivity; try (intros; lra);
      try (left; reflexivity); intros; discriminate.
Qed.

(** The overmodulated input of the counterexample satisfies the
    hypotheses: the theorem gives the flag, the zero time and the
    tolerance for it. *)
Lemma clamp_within_tolerance_witness :
  let s := inputs (fl (1893 # 1000)) (fl (-143 # 1000)) (Fin 1000) 1 in
  let u := UpdateSpaceVector R3 s in
  exists tx ty k : Q,
    SvmTx (before_clamp R3 s) = Fin tx /\ SvmTy (before_clamp R3 s) = Fin ty /\
    SvmK u = Fin k /\ SvmClip u = 1%Z /\
    Qabs (rnd (k * tx) + rnd (k * ty) - 1) <= 2 ^ (-22) /\ 0 < k /\ k <= 1.
Proof.
  intros s u.
  assert (Ea : SvmAlpha s = Fin (15879635 # 8388608))
    by (vm_compute; reflexivity).
  assert (Eb : SvmBeta s = Fin (-1199571 # 8388608))
    by (vm_compute; reflexivity).
  assert (Er : R3 = Fin (4843165 # 8388608)) by (vm_compute; reflexivity).
  assert (Ha : Qabs (15879635 # 8388608) <= 2 ^ 100)
    by (vm_compute; discriminate).
  assert (Hb : Qabs (-1199571 # 8388608) <= 2 ^ 100)
    by (vm_compute; discriminate).
  assert (Hr : Qabs (4843165 # 8388608) <= 1) by (vm_compute; discriminate).
  destruct (clamp_within_tolerance R3 s _ _ _ Ea Eb Er Ha Hb Hr)
    as (tx & ty & k & Ex & Ey & Ek & _ & _ & Hc & _ & _ & K0 & K1).
  assert (Ec : SvmClip u = 1%Z) by (vm_compute; reflexivity).
  destruct (Hc Ec) as (_ & _ & _ & _ & _ & _ & T).
  exists tx, ty, k. repeat split; assumption.
Defined.

(** ** Duty bounds *)

(** C5 as stated fails on the rounded arithmetic: at [alpha = 1.893f],
    [beta = -0.143f] and a period of 1000 the on-time of register A is
    [1000 + 1/8192], above the period; and at the finite inputs
    [alpha = beta = 3e38f] the on-times of registers A and B are NaN,
    which is in no range. *)
Lemma on_time_exceeds_period :
  (let u := UpdateSpaceVector R3
              (inputs (fl (1893 # 1000)) (fl (-143 # 1000)) (Fin 1000) 1) in
   SvmOnA u = Fin (8192001 # 8192) /\ 1000 < 8192001 # 8192) /\
  (let big := fl (3 * 10 ^ 38) in
   let u := UpdateSpaceVector R3 (inputs big big (Fin 1000) 1) in
   big = Fin 300000000549775575777803994281145270272 /\
   SvmOnA u = NaN /\ SvmOnB u = NaN).
Proof. split; vm_compute; repeat split; reflexivity. Qed.

(** The on-times of the symmetric method, when the fractions of the period
    are at most [1 + 6 * 2^-24]. *)
Lemma assign_on_times_range (z : Vars) (p x y w : Q) :
  SvmMethod z = 1%Z -> SvmPeriod z = Fin p ->
  SvmTx z = Fin x -> SvmTy z = Fin y -> SvmT0 z = Fin w ->
  (1 <= SvmSector z <= 6)%Z ->
  0 <= p -> p <= 2 ^ 100 -> 0 <= x -> x <= 2 -> 0 <= y -> y <= 2 ->
  0 <= w -> w <= 2 ->
  let h := rnd (w * (1 # 2)) in
  h <= 1 + 6 * 2 ^ (-24) ->
  rnd (x + h) <= 1 + 6 * 2 ^ (-24) ->
  rnd (y + h) <= 1 + 6 * 2 ^ (-24) ->
  rnd (rnd (x + y) + h) <= 1 + 6 * 2 ^ (-24) ->
  let u := assign_on_times z in
  exists onA onB onC : Q,
    SvmOnA u = Fin onA /\ SvmOnB u = Fin onB /\ SvmOnC u = Fin onC /\
    (0 <= onA /\ onA <= p * (1 + 2 ^ (-21)) + 2 ^ (-149)) /\
    (0 <= onB /\ onB <= p * (1 + 2 ^ (-21)) + 2 ^ (-149)) /\
    (0 <= onC /\ onC <= p * (1 + 2 ^ (-21)) + 2 ^ (-149)).
Proof.
  intros EM EP Ex Ey Ew Hsec Hp Up Hx Ux Hy Uy Hw Uw h Bh Bx By Ball u.
  assert (H0 : 0 <= h) by (apply rnd_nonneg; lra).
  assert (Sxy : 0 <= rnd (x + y)) by (apply rnd_nonneg; lra).
  assert (Rall : 0 <= rnd (p * rnd (rnd (x + y) + h)) /\
                 rnd (p * rnd (rnd (x + y) + h)) <=
                 p * (1 + 2 ^ (-21)) + 2 ^ (-149)).
  { apply on_time_bound; [exact Hp | apply rnd_nonneg; lra | exact Ball]. }
  assert (Rx : 0 <= rnd (p * rnd (x + h)) /\
               rnd (p * rnd (x + h)) <= p * (1 + 2 ^ (-21)) + 2 ^ (-149)).
  { apply on_time_bound; [exact Hp | apply rnd_nonneg; lra | exact Bx]. }
  assert (Ry : 0 <= rnd (p * rnd (y + h)) /\
               rnd (p * rnd (y + h)) <= p * (1 + 2 ^ (-21)) + 2 ^ (-149)).
  { apply on_time_bound; [exact Hp | apply rnd_nonneg; lra | exact By]. }
  assert (Rz : 0 <= rnd (p * h) /\
               rnd (p * h) <= p * (1 + 2 ^ (-21)) + 2 ^ (-149)).
  { apply on_time_bound; [exact Hp | exact H0 | exact Bh]. }
  destruct (assign_on_times_fin z p x y w EM EP Ex Ey Ew Hp Up Hx Ux Hy Uy
              Hw Uw) as (_ & S1 & S2 & S3 & S4 & S5 & S6).
  fold u h in S1, S2, S3, S4, S5, S6.
  assert (C : SvmSector z = 1%Z \/ SvmSector z = 2%Z \/ SvmSector z = 3%Z \/
              SvmSector z = 4%Z \/ SvmSector z = 5%Z \/ SvmSector z = 6%Z)
    by lia.
  destruct C as [C|[C|[C|[C|[C|C]]]]];
    [destruct (S1 C) as (A & B & D) | destruct (S2 C) as (A & B & D)
    |destruct (S3 C) as (A & B & D) | destruct (S4 C) as (A & B & D)
    |destruct (S5 C) as (A & B & D) | destruct (S6 C) as (A & B & D)];
    eexists _, _, _; (split; [exact A|]); (split; [exact B|]);
    (split; [exact D|]); repeat split; solve [apply Rall | apply Rx
      | apply Ry | apply Rz].
Qed.

(** C5, as the rounded arithmetic has it: for finite inputs of magnitude at
    most [2^100] and a period from 0 to [2^100], the three on-times of the
    symmetric method are numbers, not negative, and above the period by no
    more than rounding: at most [period * (1 + 2^-21) + 2^-149]. *)
Theorem on_times_within_tolerance (R : float) (s : Vars) (a b r p : Q) :
  SvmAlpha s = Fin a -> SvmBeta s = Fin b -> R = Fin r ->
  SvmPeriod s = Fin p -> SvmMethod s = 1%Z ->
  Qabs a <= 2 ^ 100 -> Qabs b <= 2 ^ 100 -> Qabs r <= 1 ->
  0 <= p -> p <= 2 ^ 100 ->
  let u := UpdateSpaceVector R s in
  exists onA onB onC : Q,
    SvmOnA u = Fin onA /\ SvmOnB u = Fin onB /\ SvmOnC u = Fin onC /\
    (0 <= onA /\ onA <= p * (1 + 2 ^ (-21)) + 2 ^ (-149)) /\
    (0 <= onB /\ onB <= p * (1 + 2 ^ (-21)) + 2 ^ (-149)) /\
    (0 <= onC /\ onC <= p * (1 + 2 ^ (-21)) + 2 ^ (-149)).
Proof.
  intros Ea Eb Er EP EM Ha Hb Hr Hp Up u. subst u.
  rewrite UpdateSpaceVector_eq.
  destruct (before_clamp_fin R s a b r Ea Eb Er Ha Hb Hr)
    as (EPt & EMt & _).
  destruct (before_clamp_times R s a b r Ea Eb Er Ha Hb Hr)
    as (tx & ty & Ex & Ey & Hx & Ux & Hy & Uy & _ & Ry & Hsec).
  revert EPt EMt Ex Ey Hsec. generalize (before_clamp R s).
  intros t EPt EMt Ex Ey Hsec.
  destruct (clip_test tx ty Hx Hy Ry) as [T1 _].
  destruct (zero_time_fin t tx ty Ex Ey Hx Ux Hy Uy Ry)
    as (EPz & EMz & ESz & _ & _ & _ & _ &
        [(C & _ & E0 & _ & Ex' & Ey')|(C & _ & E0 & _ & Ex' & Ey')]).
  - specialize (T1 C).
    destruct (clipped_times tx ty Hx Hy Ux Uy T1)
      as (_ & _ & _ & _ & _ & X0 & Y0 & X1 & Y1 & _ & Ball).
    revert X0 Y0 X1 Y1 Ball Ex' Ey'.
    assert (Rx : rnd (rnd (rnd (1 / rnd (tx + ty)) * tx)) ==
                 rnd (rnd (1 / rnd (tx + ty)) * tx))
      by apply rnd_idempotent.
    assert (Ry' : rnd (rnd (rnd (1 / rnd (tx + ty)) * ty)) ==
                  rnd (rnd (1 / rnd (tx + ty)) * ty))
      by apply rnd_idempotent.
    revert Rx Ry'.
    generalize (rnd (rnd (1 / rnd (tx + ty)) * tx)).
    generalize (rnd (rnd (1 / rnd (tx + ty)) * ty)).
    intros y x Rx Ry' X0 Y0 X1 Y1 Ball Ex' Ey'.
    assert (Eh : rnd (0 * (1 # 2)) = 0) by reflexivity.
    apply (assign_on_times_range (zero_time t) p x y 0);
      rewrite ?Eh; try assumption; try congruence; try lra.
    + rewrite (rnd_comp (x + 0) x), Rx by ring. lra.
    + rewrite (rnd_comp (y + 0) y), Ry' by ring. lra.
    + rewrite (rnd_comp (rnd (x + y) + 0) (rnd (x + y))) by ring.
      rewrite rnd_idempotent. exact Ball.
  - destruct (unclipped_times tx ty Hx Hy C)
      as (X1 & Y1 & W1 & _ & _ & _ & Bh & Bx & By & Ball).
    apply (assign_on_times_range (zero_time t) p tx ty
             (rnd (rnd (1 - tx) - ty)));
      try assumption; try congruence; try lra.
Qed.

(** The input of the counterexample satisfies the hypotheses, and the
    theorem bounds its three on-times. *)
Lemma on_times_within_tolerance_witness :
  let u := UpdateSpaceVector R3
             (inputs (fl (1893 # 1000)) (fl (-143 # 1000)) (Fin 1000) 1) in
  exists onA onB onC : Q,
    SvmOnA u = Fin onA /\ SvmOnB u = Fin onB /\ SvmOnC u = Fin onC /\
    (0 <= onA /\ onA <= 1000 * (1 + 2 ^ (-21)) + 2 ^ (-149)) /\
    (0 <= onB /\ onB <= 1000 * (1 + 2 ^ (-21)) + 2 ^ (-149)) /\
    (0 <= onC /\ onC <= 1000 * (1 + 2 ^ (-21)) + 2 ^ (-149)).
Proof.
  intros u.
  assert (Er : R3 = Fin (4843165 # 8388608)) by (vm_compute; reflexivity).
  assert (Ha : Qabs (15879635 # 8388608) <= 2 ^ 100)
    by (vm_compute; discriminate).
  assert (Hb : Qabs (-1199571 # 8388608) <= 2 ^ 100)
    by (vm_compute; discriminate).
  assert (Hr : Qabs (4843165 # 8388608) <= 1) by (vm_compute; discriminate).
  assert (Hp : 0 <= 1000) by (vm_compute; discriminate).
  assert (Up : 1000 <= 2 ^ 100) by (vm_compute; discriminate).
  exact (on_times_within_tolerance R3
           (inputs (fl (1893 # 1000)) (fl (-143 # 1000)) (Fin 1000) 1)
           (15879635 # 8388608) (-1199571 # 8388608) (4843165 # 8388608)
           1000 eq_refl eq_refl Er eq_refl eq_refl Ha Hb Hr Hp Up).
Defined.

End SvmProps.

(** * Properties of the event log, the data log and the fault latch *)

Module LogsProps.
Import Logs.
Local Open Scope Z_scope.

(** Reads of the globals after a chain of writes. *)
Ltac log_cbn :=
  cbn [LogBuf LogChan LogLength LogBase LogCount LogSingle LogPtr LogSkip
       LogTrigger OldTrigger LogInit LogSkipCount LogAddr0 LogAddr1 LogAddr2
       LogAddr3 LogAddr4 LogAddr5 LogAddr6 LogAddr7 LogAddr8 LogAuto
       EventTime1 EventTime2 EventCode EventData1 EventData2 EventIndex
       FaultWord mainState PwmEnabled WeRef Flag2 FaultResetCount Signals
       EventHistory set_LogBuf set_LogChan set_LogLength set_LogBase
       set_LogCount set_LogSingle set_LogPtr set_LogSkip set_LogTrigger
       set_OldTrigger set_LogInit set_LogSkipCount set_LogAddr0 set_LogAddr1
       set_LogAddr2 set_LogAddr3 set_LogAddr4 set_LogAddr5 set_LogAddr6
       set_LogAddr7 set_LogAddr8 set_LogAuto set_EventTime1 set_EventTime2
       set_EventCode set_EventData1 set_EventData2 set_EventIndex
       set_FaultWord set_mainState set_PwmEnabled set_WeRef set_Flag2
       set_FaultResetCount set_EventHistory] in *.

(** Two values of the globals with the same fields are the same. *)
Lemma State_ext (s t : State) :
  LogBuf s = LogBuf t ->
  LogChan s = LogChan t ->
  LogLength s = LogLength t ->
  LogBase s = LogBase t ->
  LogCount s = LogCount t ->
  LogSingle s = LogSingle t ->
  LogPtr s = LogPtr t ->
  LogSkip s = LogSkip t ->
  LogTrigger s = LogTrigger t ->
  OldTrigger s = OldTrigger t ->
  LogInit s = LogInit t ->
  LogSkipCount s = LogSkipCount t ->
  LogAddr0 s = LogAddr0 t ->
  LogAddr1 s = LogAddr1 t ->
  LogAddr2 s = LogAddr2 t ->
  LogAddr3 s = LogAddr3 t ->
  LogAddr4 s = LogAddr4 t ->
  LogAddr5 s = LogAddr5 t ->
  LogAddr6 s = LogAddr6 t ->
  LogAddr7 s = LogAddr7 t ->
  LogAddr8 s = LogAddr8 t ->
  LogAuto s = LogAuto t ->
  EventTime1 s = EventTime1 t ->
  EventTime2 s = EventTime2 t ->
  EventCode s = EventCode t ->
  EventData1 s = EventData1 t ->
  EventData2 s = EventData2 t ->
  EventIndex s = EventIndex t ->
  FaultWord s = FaultWord t ->
  mainState s = mainState t ->
  PwmEnabled s = PwmEnabled t ->
  WeRef s = WeRef t ->
  Flag2 s = Flag2 t ->
  FaultResetCount s = FaultResetCount t ->
  Signals s = Signals t ->
  EventHistory s = EventHistory t ->
  s = t.
Proof.
  destruct s, t. cbn. intros. subst. reflexivity.
Qed.

(** Equality of two chains of writes, field by field. *)
Ltac state_eq := apply State_ext; log_cbn; reflexivity.

(** Case analysis on the integer comparisons of a goal. *)
Ltac zbool :=
  repeat match goal with
         | |- context [?a <=? ?b] => destruct (Z.leb_spec a b)
         | |- context [?a <? ?b] => destruct (Z.ltb_spec a b)
         | |- context [?a =? ?b] => destruct (Z.eqb_spec a b)
         end;
  cbn [andb orb negb]; try lia.

Lemma fold_left_nil {A B : Type} (f : A -> B -> A) (a : A) :
  fold_left f [] a = a.
Proof. reflexivity. Qed.

Lemma fold_left_cons {A B : Type} (f : A -> B -> A) (b : B) (l : list B)
    (a : A) :
  fold_left f (b :: l) a = fold_left f l (f a b).
Proof. reflexivity. Qed.

Lemma wrap_small (bits x : Z) :
  0 < bits -> - 2 ^ (bits - 1) <= x < 2 ^ (bits - 1) -> wrap bits x = x.
Proof.
  intros Hb Hx. unfold wrap.
  assert (E : 2 ^ bits = 2 * 2 ^ (bits - 1)).
  { rewrite <- Z.pow_succ_r by lia. f_equal; lia. }
  rewrite Z.mod_small by lia. lia.
Qed.

Lemma wrap_index_like (bits x : Z) :
  0 <= x < bits - 1 -> wrap bits x = x.
Proof.
  intros Hx. apply wrap_small; [lia|].
  pose proof (Z.pow_gt_lin_r 2 x ltac:(lia) ltac:(lia)).
  pose proof (Z.pow_lt_mono_r 2 x (bits - 1) ltac:(lia) ltac:(lia) ltac:(lia)).
  lia.
Qed.

Lemma load_store_eq {A : Type} (i : Z) (v : A) (l : list A) :
  0 <= i < Z.of_nat (length l) -> load i (store i v l) = Some v.
Proof.
  intros Hi. unfold load, store.
  destruct (0 <=? i) eqn:E; [|lia].
  apply list_lookup_insert_eq. lia.
Qed.

Lemma load_store_ne {A : Type} (i j : Z) (v : A) (l : list A) :
  i <> j -> load j (store i v l) = load j l.
Proof.
  intros Hij. unfold load, store.
  destruct (0 <=? j) eqn:Ej; [|destruct (0 <=? i); reflexivity].
  destruct (0 <=? i) eqn:Ei; [|reflexivity].
  apply list_lookup_insert_ne. lia.
Qed.

Lemma length_store {A : Type} (i : Z) (v : A) (l : list A) :
  length (store i v l) = length l.
Proof. unfold store. destruct (0 <=? i); [apply length_insert | reflexivity]. Qed.

Section Firmware.

Variable INT_BITS : Z.
Variables LOG_SIZE LOG_CHAN EVENT_SIZE READY FAULT : Z.
Variable address_of : DriveSignal -> Z.
Variable TimeStamp : nat -> Z * Z.

(** The functions of Logs.c at the parameters of this section. *)
Local Abbreviation wrap_int := (wrap_int INT_BITS).
Local Abbreviation log_new_fault :=
  (log_new_fault INT_BITS EVENT_SIZE TimeStamp).
Local Abbreviation latch_fault := (latch_fault INT_BITS).
Local Abbreviation counted_down := (counted_down INT_BITS).
Local Abbreviation partition_buffer := (partition_buffer INT_BITS).
Local Abbreviation log_trigger_change :=
  (log_trigger_change INT_BITS EVENT_SIZE TimeStamp).
Local Abbreviation service_init := (service_init INT_BITS LOG_SIZE).
Local Abbreviation take_sample := (take_sample INT_BITS).
Local Abbreviation record_data := (record_data INT_BITS).
Local Abbreviation leave_fault_state :=
  (leave_fault_state INT_BITS EVENT_SIZE READY FAULT TimeStamp).
Local Abbreviation enter_fault_state :=
  (enter_fault_state INT_BITS EVENT_SIZE FAULT TimeStamp).
Local Abbreviation LogEvent := (LogEvent INT_BITS EVENT_SIZE TimeStamp).
Local Abbreviation InitEvents := (InitEvents EVENT_SIZE).
Local Abbreviation fault_mask := (fault_mask INT_BITS).
Local Abbreviation Fault := (Fault INT_BITS EVENT_SIZE FAULT TimeStamp).
Local Abbreviation ResetFaults :=
  (ResetFaults INT_BITS EVENT_SIZE READY FAULT TimeStamp).
Local Abbreviation DefaultLog := (DefaultLog INT_BITS address_of).
Local Abbreviation InitLog := (InitLog INT_BITS LOG_SIZE).
Local Abbreviation UpdateLog :=
  (UpdateLog INT_BITS LOG_SIZE EVENT_SIZE TimeStamp).
Local Abbreviation init_state := (init_state LOG_SIZE LOG_CHAN EVENT_SIZE).
Local Abbreviation stamp := (stamp TimeStamp).
Local Abbreviation next_index := (next_index INT_BITS EVENT_SIZE).
Local Abbreviation log_all := (log_all INT_BITS EVENT_SIZE TimeStamp).
Local Abbreviation events_wf := (events_wf EVENT_SIZE).
Local Abbreviation ticks := (ticks INT_BITS LOG_SIZE EVENT_SIZE TimeStamp).
Local Abbreviation run_ops :=
  (run_ops INT_BITS LOG_SIZE EVENT_SIZE address_of TimeStamp).

(** [LogEvent] as one update of the event log. *)
Lemma LogEvent_eq (Code Data1 : Z) (Data2 : Q) (s : State) :
  LogEvent Code Data1 Data2 s =
  set_EventIndex (next_index (EventIndex s))
    (set_EventData2 (store (EventIndex s) Data2 (EventData2 s))
    (set_EventData1 (store (EventIndex s) Data1 (EventData1 s))
    (set_EventCode (store (EventIndex s) Code (EventCode s))
    (set_EventTime2
       (store (EventIndex s) (snd (TimeStamp (length (EventHistory s))))
          (EventTime2 s))
    (set_EventTime1
       (store (EventIndex s) (fst (TimeStamp (length (EventHistory s))))
          (EventTime1 s))
    (set_EventHistory
       (stamp (length (EventHistory s)) Code Data1 Data2 :: EventHistory s)
       s)))))).
Proof.
  unfold Logs.LogEvent, Logs.next_index, Logs.wrap_index, Logs.advance_index.
  log_cbn.
  destruct (Logs.wrap_int INT_BITS (_ + 1) =? EVENT_SIZE); state_eq.
Qed.

Lemma LogEvent_history (Code Data1 : Z) (Data2 : Q) (s : State) :
  EventHistory (LogEvent Code Data1 Data2 s) =
  stamp (length (EventHistory s)) Code Data1 Data2 :: EventHistory s.
Proof. rewrite LogEvent_eq. reflexivity. Qed.


(** ** The ring of event records *)

Section Ring.

(** [int] has at least the 16 bits that C asks for, and the number of
    records is a positive [int]. *)
Hypothesis INT_BITS_min : 16 <= INT_BITS.
Hypothesis EVENT_SIZE_int : 0 < EVENT_SIZE < 2 ^ (INT_BITS - 1).

Lemma next_index_spec (i : Z) :
  0 <= i < EVENT_SIZE ->
  next_index i = (i + 1) mod EVENT_SIZE /\ 0 <= next_index i < EVENT_SIZE.
Proof.
  intros Hi. unfold Logs.next_index, Logs.wrap_int.
  rewrite wrap_small by lia.
  destruct (i + 1 =? EVENT_SIZE) eqn:E.
  - apply Z.eqb_eq in E. rewrite E, Z.mod_same by lia. lia.
  - apply Z.eqb_neq in E. rewrite Z.mod_small by lia. lia.
Qed.

Lemma events_wf_LogEvent (Code Data1 : Z) (Data2 : Q) (s : State) :
  events_wf s -> events_wf (LogEvent Code Data1 Data2 s).
Proof.
  rewrite LogEvent_eq. unfold Logs.events_wf. log_cbn.
  rewrite !length_store. tauto.
Qed.

Lemma EventIndex_LogEvent (Code Data1 : Z) (Data2 : Q) (s : State) :
  EventIndex (LogEvent Code Data1 Data2 s) = next_index (EventIndex s).
Proof. rewrite LogEvent_eq. reflexivity. Qed.

(** The record goes to the slot at the write index; the other slots keep
    theirs. *)
Lemma slot_LogEvent (Code Data1 : Z) (Data2 : Q) (s : State) (j : Z) :
  events_wf s -> 0 <= EventIndex s < EVENT_SIZE ->
  slot (LogEvent Code Data1 Data2 s) j =
  if j =? EventIndex s
  then Some (stamp (length (EventHistory s)) Code Data1 Data2)
  else slot s j.
Proof.
  rewrite LogEvent_eq. unfold Logs.events_wf, slot. log_cbn.
  intros (H1 & H2 & H3 & H4 & H5) Hi.
  destruct (j =? EventIndex s) eqn:E.
  - apply Z.eqb_eq in E. subst j.
    rewrite !load_store_eq by lia. reflexivity.
  - apply Z.eqb_neq in E.
    rewrite !load_store_ne by congruence. reflexivity.
Qed.

Lemma log_all_nil (s : State) : log_all [] s = s.
Proof. unfold Logs.log_all. exact (fold_left_nil _ s). Qed.

Lemma log_all_cons (e : Z * Z * Q) (evs : list (Z * Z * Q)) (s : State) :
  log_all (e :: evs) s = log_all evs (LogEvent (fst (fst e)) (snd (fst e)) (snd e) s).
Proof. unfold Logs.log_all. exact (fold_left_cons _ e evs s). Qed.

Lemma log_all_app (l1 l2 : list (Z * Z * Q)) (s : State) :
  log_all (l1 ++ l2) s = log_all l2 (log_all l1 s).
Proof. unfold Logs.log_all. apply fold_left_app. Qed.

(** [m] records logged from write index [k], with room for them before the
    end of the arrays, fill the slots [k .. k+m-1] in order. *)
Lemma log_all_fill (evs : list (Z * Z * Q)) (s : State) :
  events_wf s -> 0 <= EventIndex s < EVENT_SIZE ->
  EventIndex s + Z.of_nat (length evs) <= EVENT_SIZE ->
  let s' := log_all evs s in
  events_wf s' /\
  EventIndex s' = (EventIndex s + Z.of_nat (length evs)) mod EVENT_SIZE /\
  length (EventHistory s') = (length (EventHistory s) + length evs)%nat /\
  forall j : Z,
    slot s' j =
    if (EventIndex s <=? j) && (j <? EventIndex s + Z.of_nat (length evs))
    then
      match evs !! Z.to_nat (j - EventIndex s) with
      | Some e =>
        Some (stamp (length (EventHistory s) + Z.to_nat (j - EventIndex s))
                (fst (fst e)) (snd (fst e)) (snd e))
      | None => None
      end
    else slot s j.
Proof.
  revert s. induction evs as [|e evs IH]; intros s Hwf H0 Hroom.
  - cbn [length Z.of_nat] in *. cbv zeta. rewrite log_all_nil.
    split; [exact Hwf|]. split; [|split].
    + rewrite Z.add_0_r, Z.mod_small by lia. reflexivity.
    + lia.
    + intros j. zbool; reflexivity.
  - cbn [length] in Hroom. rewrite Nat2Z.inj_succ in Hroom.
    pose proof (events_wf_LogEvent (fst (fst e)) (snd (fst e)) (snd e) s Hwf)
      as Hwf1.
    pose proof (EventIndex_LogEvent (fst (fst e)) (snd (fst e)) (snd e) s)
      as Hidx.
    pose proof (LogEvent_history (fst (fst e)) (snd (fst e)) (snd e) s)
      as Hhist.
    destruct (next_index_spec _ H0) as (Hnext & Hrange).
    cbv zeta. rewrite log_all_cons.
    destruct (Z.eq_dec (EventIndex s + 1) EVENT_SIZE) as [Hlast | Hmore].
    + (* the record fills the last slot *)
      assert (evs = []) as ->
        by (destruct evs; [reflexivity | cbn [length] in Hroom; lia]).
      rewrite log_all_nil. cbn [length].
      split; [exact Hwf1|]. split; [|split].
      * rewrite Hidx, Hnext. f_equal; lia.
      * rewrite Hhist. cbn [length]. lia.
      * intros j. rewrite slot_LogEvent by assumption.
        zbool; try reflexivity.
        replace (j - EventIndex s) with 0 by lia.
        cbn. rewrite Nat.add_0_r. reflexivity.
    + specialize (IH (LogEvent (fst (fst e)) (snd (fst e)) (snd e) s) Hwf1).
      rewrite Hidx, Hnext, Z.mod_small in IH by lia.
      specialize (IH ltac:(lia) ltac:(lia)).
      cbv zeta in IH. destruct IH as (IHwf & IHidx & IHlen & IHslot).
      split; [exact IHwf|]. split; [|split].
      * rewrite IHidx. f_equal; cbn [length]; lia.
      * rewrite IHlen, Hhist. cbn [length]. lia.
      * intros j. rewrite IHslot, slot_LogEvent, Hhist by assumption.
        cbn [length]. zbool; try reflexivity.
        -- replace (Z.to_nat (j - EventIndex s))
             with (S (Z.to_nat (j - (EventIndex s + 1)))) by lia.
           cbn [lookup list_lookup].
           destruct (evs !! _); [|reflexivity].
           do 2 f_equal; lia.
        -- replace (j - EventIndex s) with 0 by lia.
           cbn. rewrite Nat.add_0_r. reflexivity.
Qed.

Lemma for_loop_invariant (P : State -> Prop) (body : Z -> State -> State) :
  (forall i s, P s -> P (body i s)) ->
  forall n i s, P s -> P (for_loop n i body s).
Proof.
  intros Hbody n. induction n as [|n IH]; intros i s Hs; [exact Hs|].
  cbn [for_loop]. apply IH, Hbody, Hs.
Qed.

(** [InitEvents] leaves a log with its arrays intact and the write index
    at 0. *)
Lemma InitEvents_fresh (s : State) :
  events_wf s ->
  events_wf (InitEvents s) /\ EventIndex (InitEvents s) = 0.
Proof.
  intros Hwf. unfold Logs.InitEvents.
  assert (H : events_wf (for_loop (Z.to_nat EVENT_SIZE) 0 clear_slot s)).
  { apply for_loop_invariant; [|exact Hwf].
    intros i t. unfold Logs.events_wf, clear_slot. log_cbn.
    rewrite !length_store. tauto. }
  revert H. generalize (for_loop (Z.to_nat EVENT_SIZE) 0 clear_slot s).
  intros t Ht. split; [exact Ht | reflexivity].
Qed.

(** C6: [LogEvent] moves the write index on by one modulo the capacity;
    and [EVENT_SIZE + 1] records logged into a log whose write index is 0
    leave the index at 1, the last record in slot 0, where the first one
    was, and the records in between in the slots 1 to [EVENT_SIZE - 1]. *)
Theorem event_ring_wraparound (evs : list (Z * Z * Q)) (s : State) :
  1 < EVENT_SIZE ->
  events_wf s -> EventIndex s = 0 ->
  length evs = S (Z.to_nat EVENT_SIZE) ->
  let s' := log_all evs s in
  let h := length (EventHistory s) in
  (forall (t : State) (Code Data1 : Z) (Data2 : Q),
     0 <= EventIndex t < EVENT_SIZE ->
     EventIndex (LogEvent Code Data1 Data2 t) =
     (EventIndex t + 1) mod EVENT_SIZE) /\
  EventIndex s' = 1 /\
  (exists e, evs !! Z.to_nat EVENT_SIZE = Some e /\
     slot s' 0 =
     Some (stamp (h + Z.to_nat EVENT_SIZE) (fst (fst e)) (snd (fst e)) (snd e))) /\
  (forall j : Z, 1 <= j < EVENT_SIZE ->
     exists e, evs !! Z.to_nat j = Some e /\
       slot s' j =
       Some (stamp (h + Z.to_nat j) (fst (fst e)) (snd (fst e)) (snd e))).
Proof.
  intros HN Hwf Hidx Hlen s' h. subst s' h.
  split.
  { intros t c d1 d2 Ht. rewrite EventIndex_LogEvent.
    apply next_index_spec. exact Ht. }
  set (n := Z.to_nat EVENT_SIZE) in *.
  rewrite <- (take_drop n evs), log_all_app.
  assert (Hl1 : length (take n evs) = n) by (rewrite length_take; lia).
  assert (Hl2 : length (drop n evs) = 1%nat) by (rewrite length_drop; lia).
  destruct (log_all_fill (take n evs) s Hwf) as (Hwf1 & Hidx1 & Hh1 & Hslot1).
  { lia. }
  { rewrite Hl1. unfold n. lia. }
  rewrite Hidx, Hl1 in Hidx1.
  replace (0 + Z.of_nat n) with EVENT_SIZE in Hidx1 by (unfold n; lia).
  rewrite Z.mod_same in Hidx1 by lia.
  destruct (log_all_fill (drop n evs) (log_all (take n evs) s) Hwf1)
    as (_ & Hidx2 & _ & Hslot2).
  { lia. }
  { rewrite Hidx1, Hl2. lia. }
  rewrite Hidx1, Hl2 in Hidx2. rewrite Z.mod_small in Hidx2 by lia.
  split; [exact Hidx2|].
  rewrite (take_drop n evs).
  split.
  - destruct (evs !! n) as [e|] eqn:He.
    2: { apply lookup_ge_None in He. lia. }
    exists e. split; [reflexivity|].
    rewrite Hslot2, Hidx1, Hl2. zbool.
    rewrite Z.sub_0_r. change (Z.to_nat 0) with 0%nat.
    rewrite lookup_drop, Nat.add_0_r, He, Hh1, Hl1, Nat.add_0_r.
    reflexivity.
  - intros j Hj.
    destruct (evs !! Z.to_nat j) as [e|] eqn:He.
    2: { apply lookup_ge_None in He. lia. }
    exists e. split; [reflexivity|].
    rewrite Hslot2, Hidx1, Hl2. zbool.
    rewrite Hslot1, Hidx, Hl1. zbool.
    rewrite Z.sub_0_r, lookup_take_lt, He by (unfold n; lia).
    reflexivity.
Qed.

End Ring.

(** ** The fault latch *)

Lemma logged_app (l : list EventRecord) (s s' : State) :
  EventHistory s' = l ++ EventHistory s -> logged s s' = l.
Proof.
  intros E. unfold logged. rewrite E, length_app.
  replace (length l + length (EventHistory s) - length (EventHistory s))%nat
    with (length l) by lia.
  apply take_app_length.
Qed.

Lemma log_new_fault_spec (fcode : Z) (data2 : Q) (s : State) :
  let t := log_new_fault fcode data2 s in
  FaultWord t = FaultWord s /\ mainState t = mainState s /\
  EventHistory t =
  (if Z.land (FaultWord s) (fault_mask fcode) =? 0
   then [stamp (length (EventHistory s)) E_FAULT (wrap_int fcode) data2]
   else []) ++ EventHistory s.
Proof.
  unfold Logs.log_new_fault.
  destruct (Z.land _ _ =? 0); rewrite ?LogEvent_eq; log_cbn;
    repeat split; reflexivity.
Qed.

Lemma enter_fault_state_spec (s : State) :
  let t := enter_fault_state s in
  FaultWord t = FaultWord s /\ mainState t = FAULT /\
  EventHistory t =
  (if mainState s =? FAULT then []
   else [stamp (length (EventHistory s)) E_STATE FAULT 0%Q])
  ++ EventHistory s.
Proof.
  unfold Logs.enter_fault_state.
  destruct (Z.eqb_spec (mainState s) FAULT); cbn [negb];
    rewrite ?LogEvent_eq; log_cbn; repeat split; auto.
Qed.

Lemma freeze_data_log_spec (s : State) :
  let t := freeze_data_log s in
  FaultWord t = FaultWord s /\ mainState t = mainState s /\
  EventHistory t = EventHistory s.
Proof.
  unfold freeze_data_log. destruct (LogAuto s =? 1); log_cbn;
    repeat split; reflexivity.
Qed.

(** What one call of [Fault] does to the fault word, the machine state and
    the event log. *)
Lemma Fault_spec (fcode : Z) (data2 : Q) (s : State) :
  let t := Fault fcode data2 s in
  FaultWord t = Z.lor (FaultWord s) (fault_mask fcode) /\
  mainState t = FAULT /\
  exists fault_ev state_ev,
    EventHistory t = state_ev ++ fault_ev ++ EventHistory s /\
    fault_ev =
      (if Z.land (FaultWord s) (fault_mask fcode) =? 0
       then [stamp (length (EventHistory s)) E_FAULT (wrap_int fcode) data2]
       else []) /\
    state_ev =
      (if mainState s =? FAULT then []
       else [stamp (length (fault_ev ++ EventHistory s)) E_STATE FAULT 0%Q]).
Proof.
  unfold Logs.Fault, PWM_disable. log_cbn.
  match goal with
  | |- context [freeze_data_log ?x] =>
    destruct (freeze_data_log_spec x) as (-> & -> & ->)
  end.
  match goal with
  | |- context [enter_fault_state ?x] =>
    destruct (enter_fault_state_spec x) as (-> & -> & ->)
  end.
  unfold latch_fault. log_cbn.
  destruct (log_new_fault_spec fcode data2 (set_PwmEnabled false s))
    as (-> & -> & ->).
  log_cbn. split; [reflexivity|]. split; [reflexivity|].
  eexists _, _. split; [reflexivity|]. split; reflexivity.
Qed.

(** The mask of a fault code that [int] can hold is the bit of that code. *)
Lemma fault_mask_bit (fcode : Z) :
  0 <= fcode < INT_BITS - 1 -> fault_mask fcode = 2 ^ fcode.
Proof.
  intros H. unfold Logs.fault_mask, Logs.wrap_int.
  rewrite Z.shiftl_1_l. apply wrap_small; [lia|].
  split.
  - pose proof (Z.pow_pos_nonneg 2 fcode) as H1.
    pose proof (Z.pow_pos_nonneg 2 (INT_BITS - 1)) as H2. lia.
  - apply Z.pow_lt_mono_r; lia.
Qed.

Lemma land_pow2_eqb (w n : Z) :
  0 <= n -> (Z.land w (2 ^ n) =? 0) = negb (Z.testbit w n).
Proof.
  intros Hn. destruct (Z.testbit w n) eqn:Hb; cbn [negb].
  - apply Z.eqb_neq. intros E.
    assert (Ht : Z.testbit (Z.land w (2 ^ n)) n = true)
      by (rewrite Z.land_spec, Hb, Z.pow2_bits_true by lia; reflexivity).
    rewrite E, Z.bits_0 in Ht. discriminate.
  - apply Z.eqb_eq. apply Z.bits_inj'. intros k Hk.
    rewrite Z.land_spec, Z.bits_0.
    destruct (Z.eq_dec n k) as [<- | Hne].
    + rewrite Hb. reflexivity.
    + rewrite Z.pow2_bits_false by lia. apply andb_false_r.
Qed.

Lemma testbit_lor_pow2 (w n k : Z) :
  0 <= n -> 0 <= k ->
  Z.testbit (Z.lor w (2 ^ n)) k = Z.testbit w k || (n =? k).
Proof.
  intros Hn Hk. rewrite Z.lor_spec. f_equal.
  destruct (Z.eqb_spec n k) as [<- | Hne].
  - apply Z.pow2_bits_true. lia.
  - apply Z.pow2_bits_false. lia.
Qed.

Lemma Fault_history (fcode : Z) (data2 : Q) (s : State) :
  exists l, EventHistory (Fault fcode data2 s) = l ++ EventHistory s.
Proof.
  destruct (Fault_spec fcode data2 s) as (_ & _ & f & st & E & _).
  exists (st ++ f). rewrite E. apply app_assoc.
Qed.

Lemma logged_trans (s s1 s2 : State) :
  (exists l, EventHistory s1 = l ++ EventHistory s) ->
  (exists l, EventHistory s2 = l ++ EventHistory s1) ->
  logged s s2 = logged s1 s2 ++ logged s s1.
Proof.
  intros [l1 E1] [l2 E2].
  rewrite (logged_app l1 s s1 E1), (logged_app l2 s1 s2 E2).
  apply logged_app. rewrite E2, E1. apply app_assoc.
Qed.

(** The fault events of one call of [Fault]: one, with the code and the
    value, if the bit of the code was clear, none if it was set. *)
Lemma Fault_fault_events (fcode : Z) (data2 : Q) (s : State) :
  0 <= fcode < INT_BITS - 1 ->
  filter (fun e => ev_code e = E_FAULT) (logged s (Fault fcode data2 s)) =
  if Z.testbit (FaultWord s) fcode then []
  else [stamp (length (EventHistory s)) E_FAULT fcode data2].
Proof.
  intros Hc.
  destruct (Fault_spec fcode data2 s) as (_ & _ & f & st & E & Ef & Est).
  rewrite app_assoc in E. rewrite (logged_app _ _ _ E), filter_app.
  rewrite fault_mask_bit, land_pow2_eqb in Ef by lia.
  replace (Logs.wrap_int INT_BITS fcode) with fcode in Ef.
  2: { symmetry. apply wrap_index_like. exact Hc. }
  assert (Hst : filter (fun e => ev_code e = E_FAULT) st = []).
  { rewrite Est. destruct (mainState s =? FAULT); reflexivity. }
  rewrite Hst, Ef. destruct (Z.testbit (FaultWord s) fcode); reflexivity.
Qed.

Lemma Fault_sets_bit (fcode : Z) (data2 : Q) (s : State) (k : Z) :
  0 <= fcode < INT_BITS - 1 -> 0 <= k ->
  Z.testbit (FaultWord (Fault fcode data2 s)) k =
  Z.testbit (FaultWord s) k || (fcode =? k).
Proof.
  intros Hc Hk. destruct (Fault_spec fcode data2 s) as (-> & _).
  rewrite fault_mask_bit by lia. apply testbit_lor_pow2; lia.
Qed.

(** Two calls of [Fault], for codes whose mask [int] can hold and whose
    bits are clear: the same code twice gives one fault event, two distinct
    codes give two, and the bits are set. *)
Lemma Fault_twice (c c' : Z) (x y : Q) (s : State) :
  0 <= c < INT_BITS - 1 -> 0 <= c' < INT_BITS - 1 ->
  Z.testbit (FaultWord s) c = false ->
  (let s2 := Fault c y (Fault c x s) in
   filter (fun e => ev_code e = E_FAULT) (logged s s2) =
     [stamp (length (EventHistory s)) E_FAULT c x] /\
   Z.testbit (FaultWord s2) c = true) /\
  (c <> c' -> Z.testbit (FaultWord s) c' = false ->
   let s1 := Fault c x s in
   let s2 := Fault c' y s1 in
   filter (fun e => ev_code e = E_FAULT) (logged s s2) =
     [stamp (length (EventHistory s1)) E_FAULT c' y;
      stamp (length (EventHistory s)) E_FAULT c x] /\
   Z.testbit (FaultWord s2) c = true /\
   Z.testbit (FaultWord s2) c' = true).
Proof.
  intros Hc Hc' Hclear.
  assert (Hb1 : Z.testbit (FaultWord (Fault c x s)) c = true).
  { rewrite Fault_sets_bit by lia. rewrite Z.eqb_refl. apply orb_true_r. }
  split.
  - cbv zeta.
    rewrite (logged_trans s (Fault c x s)) by apply Fault_history.
    rewrite filter_app, !Fault_fault_events by lia.
    rewrite Hb1, Hclear. split; [reflexivity|].
    rewrite Fault_sets_bit, Hb1 by lia. reflexivity.
  - intros Hne Hclear'. cbv zeta.
    assert (Hb2 : Z.testbit (FaultWord (Fault c x s)) c' = false).
    { rewrite Fault_sets_bit, Hclear' by lia.
      destruct (Z.eqb_spec c c'); [contradiction | reflexivity]. }
    rewrite (logged_trans s (Fault c x s)) by apply Fault_history.
    rewrite filter_app, !Fault_fault_events by lia.
    rewrite Hb2, Hclear. split; [reflexivity|]. split.
    + rewrite Fault_sets_bit, Hb1 by lia. reflexivity.
    + rewrite Fault_sets_bit, Z.eqb_refl by lia. apply orb_true_r.
Qed.

Lemma leave_fault_state_spec (s : State) :
  let t := leave_fault_state s in
  FaultWord t = FaultWord s /\
  mainState t = (if mainState s =? FAULT then READY else mainState s) /\
  EventHistory t =
  (if mainState s =? FAULT
   then [stamp (length (EventHistory s)) E_STATE READY 0%Q]
   else []) ++ EventHistory s.
Proof.
  unfold Logs.leave_fault_state.
  destruct (mainState s =? FAULT); rewrite ?LogEvent_eq; log_cbn;
    repeat split; reflexivity.
Qed.

Lemma ResetFaults_reset_event (s : State) :
  let t := LogEvent E_RESET 0 0%Q (set_FaultWord 0 s) in
  FaultWord t = 0 /\ mainState t = mainState s /\
  EventHistory t =
  stamp (length (EventHistory s)) E_RESET 0 0%Q :: EventHistory s.
Proof. cbv zeta. rewrite LogEvent_eq. log_cbn. repeat split; reflexivity. Qed.

(** ** The data logger *)

Lemma set_LogBuf_same (s : State) : set_LogBuf (LogBuf s) s = s.
Proof. destruct s. reflexivity. Qed.

Lemma record_channel_eq (i : Z) (s : State) :
  exists buf, record_channel i s = set_LogBuf buf s.
Proof.
  unfold record_channel.
  destruct (load i (LogBase s)) as [[off|]|];
    destruct (load i (LogPtr s)) as [p|];
    first [ eexists; reflexivity
          | exists (LogBuf s); symmetry; apply set_LogBuf_same ].
Qed.

(** The channel loop writes to [LogBuf] and to nothing else. *)
Lemma record_channels_eq (s : State) :
  exists buf, record_channels s = set_LogBuf buf s.
Proof.
  unfold record_channels. generalize (Z.to_nat (LogChan s)) 0.
  intros n. revert s. induction n as [|n IH]; intros s i.
  - exists (LogBuf s). symmetry. apply set_LogBuf_same.
  - cbn [for_loop]. destruct (record_channel_eq i s) as [b ->].
    destruct (IH (set_LogBuf b s) (i + 1)) as [buf ->].
    exists buf. reflexivity.
Qed.

Lemma set_LogBase_same (s : State) : set_LogBase (LogBase s) s = s.
Proof. destruct s. reflexivity. Qed.

(** The partition loop writes to [LogBase] and to nothing else. *)
Lemma partition_buffer_eq (s : State) :
  exists base, partition_buffer s = set_LogBase base s.
Proof.
  unfold Logs.partition_buffer. generalize (Z.to_nat (LogChan s)) 0.
  intros n. revert s. induction n as [|n IH]; intros s i.
  - exists (LogBase s). symmetry. apply set_LogBase_same.
  - cbn [for_loop]. unfold Logs.set_channel_base at 2.
    match goal with
    | |- context [for_loop n (i + 1) _ (set_LogBase ?b s)] =>
      destruct (IH (set_LogBase b s) (i + 1)) as [base ->]
    end.
    exists base. reflexivity.
Qed.

Lemma bind_pointers_eq (s : State) :
  exists ptr, bind_pointers s = set_LogPtr ptr s.
Proof. unfold bind_pointers. cbv zeta. eexists. reflexivity. Qed.

(** [InitLog] as one update of the data log. *)
Lemma InitLog_eq (s : State) :
  exists base ptr,
    InitLog s =
    set_LogPtr ptr (set_LogSkipCount 0 (set_LogCount 0 (set_LogInit 0
      (set_LogBase base
         (set_LogLength (wrap_int (Z.quot LOG_SIZE (LogChan s)))
            (set_LogTrigger 0 s)))))).
Proof.
  unfold Logs.InitLog, Logs.divide_buffer.
  match goal with
  | |- context [partition_buffer ?x] =>
    destruct (partition_buffer_eq x) as [base ->]
  end.
  match goal with
  | |- context [bind_pointers ?x] =>
    destruct (bind_pointers_eq x) as [ptr ->]
  end.
  exists base, ptr. reflexivity.
Qed.

(** The first step of [UpdateLog]: the trigger event and [OldTrigger]. *)
Lemma log_trigger_change_spec (s : State) :
  let t := log_trigger_change s in
  OldTrigger t = LogTrigger s /\
  EventHistory t =
    (if LogTrigger s =? OldTrigger s then []
     else [stamp (length (EventHistory s)) E_DATALOG (LogTrigger s)
             (float_of_int (LogSkip s))]) ++ EventHistory s /\
  LogTrigger t = LogTrigger s /\ LogInit t = LogInit s /\
  LogBuf t = LogBuf s /\ LogCount t = LogCount s /\
  LogLength t = LogLength s /\ LogSingle t = LogSingle s /\
  LogSkip t = LogSkip s /\ LogSkipCount t = LogSkipCount s /\
  LogChan t = LogChan s.
Proof.
  unfold Logs.log_trigger_change, remember_trigger, Logs.log_if_changed.
  destruct (LogTrigger s =? OldTrigger s); cbn [negb];
    rewrite ?LogEvent_eq; log_cbn; repeat split; reflexivity.
Qed.

(** The second step: a pending initialisation. *)
Lemma service_init_spec (s : State) :
  let t := service_init s in
  OldTrigger t = OldTrigger s /\ EventHistory t = EventHistory s /\
  LogBuf t = LogBuf s /\ LogSingle t = LogSingle s /\
  LogSkip t = LogSkip s /\ LogChan t = LogChan s /\ LogInit t = 0 /\
  (LogInit s = 0 ->
   LogTrigger t = LogTrigger s /\ LogCount t = LogCount s /\
   LogLength t = LogLength s /\ LogSkipCount t = LogSkipCount s) /\
  (LogInit s <> 0 ->
   LogTrigger t = 0 /\ LogCount t = 0 /\ LogSkipCount t = 0 /\
   LogLength t = wrap_int (Z.quot LOG_SIZE (LogChan s))).
Proof.
  unfold Logs.service_init.
  destruct (Z.eqb_spec (LogInit s) 0) as [E | E]; cbn [negb].
  - repeat split; try reflexivity; try assumption; contradiction.
  - destruct (InitLog_eq s) as (base & ptr & ->). log_cbn.
    repeat split; try reflexivity; contradiction.
Qed.

(** The branch that records a sample. *)
Lemma take_sample_spec (s : State) :
  let t := take_sample s in
  let at_end := wrap_int (LogCount s + 1) =? LogLength s in
  OldTrigger t = OldTrigger s /\ EventHistory t = EventHistory s /\
  LogInit t = LogInit s /\ LogSingle t = LogSingle s /\
  LogSkip t = LogSkip s /\ LogLength t = LogLength s /\
  LogChan t = LogChan s /\ LogSkipCount t = 0 /\
  LogCount t = (if at_end then 0 else wrap_int (LogCount s + 1)) /\
  LogTrigger t =
    counted_down
      (if at_end && (LogSingle s =? 1) then 0 else LogTrigger s).
Proof.
  unfold Logs.take_sample.
  match goal with
  | |- context [record_channels ?x] =>
    destruct (record_channels_eq x) as [buf ->]
  end.
  unfold Logs.count_down, end_of_buffer, stop_if_single, Logs.advance_count,
    Logs.counted_down.
  log_cbn.
  destruct (Logs.wrap_int INT_BITS (LogCount s + 1) =? LogLength s);
    destruct (LogSingle s =? 1); log_cbn; cbn [andb];
    try (destruct (LogTrigger s <? 0)); log_cbn; repeat split; reflexivity.
Qed.

(** The third step: skipping or recording while the trigger is not 0. *)
Lemma record_data_spec (s : State) :
  let t := record_data s in
  OldTrigger t = OldTrigger s /\ EventHistory t = EventHistory s /\
  LogInit t = LogInit s /\ LogSingle t = LogSingle s /\
  LogSkip t = LogSkip s /\ LogLength t = LogLength s /\
  LogChan t = LogChan s /\
  (LogTrigger s = 0 -> t = s) /\
  (LogTrigger s <> 0 -> LogSkipCount s < LogSkip s ->
   t = set_LogSkipCount (wrap_int (LogSkipCount s + 1)) s) /\
  (LogTrigger s <> 0 -> LogSkip s <= LogSkipCount s -> t = take_sample s).
Proof.
  unfold Logs.record_data.
  destruct (Z.eqb_spec (LogTrigger s) 0) as [E | E]; cbn [negb].
  - repeat split; try reflexivity; contradiction.
  - destruct (Z.ltb_spec (LogSkipCount s) (LogSkip s)) as [L | L].
    + log_cbn. repeat split; try reflexivity; try contradiction; lia.
    + destruct (take_sample_spec s)
        as (E1 & E2 & E3 & E4 & E5 & E6 & E7 & _).
      repeat split; try assumption; try reflexivity; try contradiction; lia.
Qed.

Lemma UpdateLog_eq (s : State) :
  UpdateLog s = record_data (service_init (log_trigger_change s)).
Proof. reflexivity. Qed.

(** What [UpdateLog] leaves alone, and [OldTrigger]. *)
Lemma UpdateLog_frame (s : State) :
  let t := UpdateLog s in
  OldTrigger t = LogTrigger s /\ LogInit t = 0 /\
  LogSingle t = LogSingle s /\ LogSkip t = LogSkip s /\
  LogChan t = LogChan s /\
  EventHistory t =
    (if LogTrigger s =? OldTrigger s then []
     else [stamp (length (EventHistory s)) E_DATALOG (LogTrigger s)
             (float_of_int (LogSkip s))]) ++ EventHistory s.
Proof.
  cbv zeta. rewrite UpdateLog_eq.
  destruct (log_trigger_change_spec s)
    as (A1 & A2 & A3 & A4 & A5 & A6 & A7 & A8 & A9 & A10 & A11).
  destruct (service_init_spec (log_trigger_change s))
    as (B1 & B2 & B3 & B4 & B5 & B6 & B7 & _).
  destruct (record_data_spec (service_init (log_trigger_change s)))
    as (C1 & C2 & C3 & C4 & C5 & C6 & C7 & _).
  rewrite C1, C2, C3, C4, C5, C7, B1, B2, B4, B5, B6, B7, A1, A2, A8, A9, A11.
  repeat split; reflexivity.
Qed.

(** A tick with the trigger at 0 records nothing and leaves it at 0. *)
Lemma UpdateLog_idle (s : State) :
  LogTrigger s = 0 ->
  LogTrigger (UpdateLog s) = 0 /\ LogBuf (UpdateLog s) = LogBuf s.
Proof.
  intros H0. rewrite UpdateLog_eq.
  destruct (log_trigger_change_spec s) as (_ & _ & A3 & A4 & A5 & _).
  destruct (service_init_spec (log_trigger_change s))
    as (_ & _ & B3 & _ & _ & _ & _ & Bno & Binit).
  assert (Hz : LogTrigger (service_init (log_trigger_change s)) = 0).
  { destruct (Z.eq_dec (LogInit (log_trigger_change s)) 0) as [E | E].
    - destruct (Bno E) as (-> & _). congruence.
    - destruct (Binit E) as (-> & _). reflexivity. }
  destruct (record_data_spec (service_init (log_trigger_change s)))
    as (_ & _ & _ & _ & _ & _ & _ & Cidle & _).
  rewrite (Cidle Hz). split; [exact Hz | congruence].
Qed.

Lemma ticks_idle (n : nat) (s : State) :
  LogTrigger s = 0 ->
  LogTrigger (ticks n s) = 0 /\ LogBuf (ticks n s) = LogBuf s.
Proof.
  revert s. induction n as [|n IH]; intros s H0.
  - split; [exact H0 | reflexivity].
  - cbn [Logs.ticks]. destruct (UpdateLog_idle s H0) as (Ht & Hb).
    destruct (IH _ Ht) as (IH1 & IH2). split; congruence.
Qed.

(** The data-log fields after a tick with no initialisation pending. *)
Lemma UpdateLog_no_init (s : State) :
  LogInit s = 0 ->
  let t := UpdateLog s in
  let at_end := wrap_int (LogCount s + 1) =? LogLength s in
  LogLength t = LogLength s /\
  (LogTrigger s <> 0 -> LogSkipCount s < LogSkip s ->
   LogTrigger t = LogTrigger s /\ LogCount t = LogCount s /\
   LogSkipCount t = wrap_int (LogSkipCount s + 1) /\ LogBuf t = LogBuf s) /\
  (LogTrigger s <> 0 -> LogSkip s <= LogSkipCount s ->
   LogSkipCount t = 0 /\
   LogCount t = (if at_end then 0 else wrap_int (LogCount s + 1)) /\
   LogTrigger t =
     counted_down
       (if at_end && (LogSingle s =? 1) then 0 else LogTrigger s)).
Proof.
  intros Hinit. cbv zeta. rewrite UpdateLog_eq.
  destruct (log_trigger_change_spec s)
    as (_ & _ & A3 & A4 & A5 & A6 & A7 & A8 & A9 & A10 & _).
  destruct (service_init_spec (log_trigger_change s))
    as (_ & _ & B3 & B4 & B5 & _ & _ & Bno & _).
  destruct (Bno ltac:(congruence)) as (B6 & B7 & B8 & B9).
  set (t2 := service_init (log_trigger_change s)) in *.
  assert (ET : LogTrigger t2 = LogTrigger s) by congruence.
  assert (EC : LogCount t2 = LogCount s) by congruence.
  assert (EL : LogLength t2 = LogLength s) by congruence.
  assert (EK : LogSkipCount t2 = LogSkipCount s) by congruence.
  assert (ES : LogSkip t2 = LogSkip s) by congruence.
  assert (EG : LogSingle t2 = LogSingle s) by congruence.
  assert (EB : LogBuf t2 = LogBuf s) by congruence.
  destruct (record_data_spec t2)
    as (_ & _ & _ & _ & _ & C6 & _ & _ & Cskip & Ctake).
  split; [congruence|]. split.
  - intros Hrun Hskip. rewrite Cskip by lia. log_cbn.
    rewrite ET, EC, EK, EB. repeat split; reflexivity.
  - intros Hrun Hrec. rewrite Ctake by lia.
    destruct (take_sample_spec t2)
      as (_ & _ & _ & _ & _ & _ & _ & D1 & D2 & D3).
    rewrite D1, D2, D3, ET, EC, EL, EG. repeat split; reflexivity.
Qed.

(** A circular logger with a positive trigger keeps it, tick after tick. *)
Lemma UpdateLog_running (s : State) :
  LogInit s = 0 -> LogSingle s <> 1 -> 0 < LogTrigger s ->
  LogTrigger (UpdateLog s) = LogTrigger s /\
  LogInit (UpdateLog s) = 0 /\ LogSingle (UpdateLog s) = LogSingle s.
Proof.
  intros Hinit Hsingle Hpos.
  destruct (UpdateLog_frame s) as (_ & F2 & F3 & _).
  destruct (UpdateLog_no_init s Hinit) as (_ & Hskip & Hrec).
  split; [|split; assumption].
  destruct (Z.lt_ge_cases (LogSkipCount s) (LogSkip s)) as [L | L].
  - apply Hskip; lia.
  - destruct (Hrec ltac:(lia) L) as (_ & _ & ->).
    destruct (Z.eqb_spec (LogSingle s) 1); [contradiction|].
    rewrite andb_false_r. unfold Logs.counted_down.
    destruct (Z.ltb_spec (LogTrigger s) 0); [lia | reflexivity].
Qed.

Lemma ticks_running (n : nat) (s : State) :
  LogInit s = 0 -> LogSingle s <> 1 -> 0 < LogTrigger s ->
  LogTrigger (ticks n s) = LogTrigger s.
Proof.
  revert s. induction n as [|n IH]; intros s Hinit Hsingle Hpos.
  - reflexivity.
  - cbn [Logs.ticks].
    destruct (UpdateLog_running s Hinit Hsingle Hpos) as (E1 & E2 & E3).
    rewrite IH by congruence. exact E1.
Qed.

(** C7: on the tick that records the sample which takes the write index to
    [LogLength], the index wraps to 0 in every case; a single-shot logger
    has its trigger forced to 0; a circular logger is not stopped: its
    trigger is what the countdown of a negative trigger alone makes of it,
    and a positive trigger is kept, on that tick and on every later one. *)
Theorem end_of_record (s : State) :
  LogInit s = 0 -> LogTrigger s <> 0 -> LogSkip s <= LogSkipCount s ->
  wrap_int (LogCount s + 1) = LogLength s ->
  let t := UpdateLog s in
  LogCount t = 0 /\
  (LogSingle s = 1 -> LogTrigger t = 0) /\
  (LogSingle s <> 1 -> LogTrigger t = counted_down (LogTrigger s)) /\
  (LogSingle s <> 1 -> 0 < LogTrigger s ->
   LogTrigger t = LogTrigger s /\
   forall n, LogTrigger (ticks n t) = LogTrigger s).
Proof.
  intros Hinit Hrun Hrec Hend t. subst t.
  destruct (UpdateLog_no_init s Hinit) as (_ & _ & H).
  destruct (H Hrun Hrec) as (_ & EC & ET).
  rewrite Hend, Z.eqb_refl in EC, ET. cbn [andb] in ET.
  split; [exact EC|]. split; [|split].
  - intros Hs. rewrite ET, Hs. reflexivity.
  - intros Hs. rewrite ET.
    destruct (Z.eqb_spec (LogSingle s) 1); [contradiction | reflexivity].
  - intros Hs Hpos.
    destruct (UpdateLog_running s Hinit Hs Hpos) as (E1 & E2 & E3).
    split; [exact E1|]. intros n.
    rewrite ticks_running by congruence. exact E1.
Qed.

(** C10: a tick that services a pending initialisation leaves the trigger
    at 0 and records nothing, and so does every later tick for as long as
    nothing sets the trigger again. *)
Theorem init_stops_recording (s : State) :
  LogInit s <> 0 ->
  let t := UpdateLog s in
  LogTrigger t = 0 /\ LogInit t = 0 /\ LogCount t = 0 /\
  LogBuf t = LogBuf s /\
  forall n, LogTrigger (ticks n t) = 0 /\ LogBuf (ticks n t) = LogBuf s.
Proof.
  intros Hinit t. subst t.
  assert (H : LogTrigger (UpdateLog s) = 0 /\ LogCount (UpdateLog s) = 0 /\
              LogBuf (UpdateLog s) = LogBuf s).
  { rewrite UpdateLog_eq.
    destruct (log_trigger_change_spec s) as (_ & _ & _ & A4 & A5 & _).
    destruct (service_init_spec (log_trigger_change s))
      as (_ & _ & B3 & _ & _ & _ & _ & _ & Binit).
    destruct (Binit ltac:(congruence)) as (B6 & B7 & _).
    destruct (record_data_spec (service_init (log_trigger_change s)))
      as (_ & _ & _ & _ & _ & _ & _ & Cidle & _).
    rewrite (Cidle B6). repeat split; congruence. }
  destruct H as (HT & HC & HB).
  destruct (UpdateLog_frame s) as (_ & F2 & _).
  repeat split; try assumption.
  - apply ticks_idle. exact HT.
  - destruct (ticks_idle n _ HT) as (_ & E). congruence.
Qed.

(** ** The channel count *)

Lemma InitLog_LogChan (s : State) : LogChan (InitLog s) = LogChan s.
Proof. destruct (InitLog_eq s) as (base & ptr & ->). reflexivity. Qed.

Lemma DefaultLog_LogChan (i : Z) (s : State) :
  LogChan (DefaultLog i s) = if i =? 1 then 9 else LogChan s.
Proof.
  unfold Logs.DefaultLog.
  destruct i as [|p|p]; try reflexivity.
  destruct p; reflexivity.
Qed.

(** From start-up, the operations of the data logger leave the channel
    count at 1 or at 9. *)
Lemma LogChan_reachable (ops : list LogOp) (ms : Z) (sig : Z -> Q) :
  let s := run_ops ops (init_state ms sig) in
  LogChan s = 1 \/ LogChan s = 9.
Proof.
  cbv zeta. unfold Logs.run_ops.
  assert (H0 : LogChan (init_state ms sig) = 1 \/
               LogChan (init_state ms sig) = 9) by (left; reflexivity).
  revert H0. generalize (init_state ms sig).
  induction ops as [|op ops IH]; intros s Hs; [exact Hs|].
  cbn [fold_left]. apply IH. destruct op as [i| |]; cbn [Logs.run_op].
  - rewrite DefaultLog_LogChan. destruct (i =? 1); [right; reflexivity | exact Hs].
  - rewrite InitLog_LogChan. exact Hs.
  - destruct (UpdateLog_frame s) as (_ & _ & _ & _ & -> & _). exact Hs.
Qed.

(** C2 fails on the code: after [DefaultLog(1)] the channel count is 9, it
    stays 9 through [InitLog] and [UpdateLog], and the channel loops of both
    run nine times. *)
Theorem DefaultLog_nine_channels (ms : Z) (sig : Z -> Q) :
  let s := run_ops [OpDefaultLog 1; OpUpdateLog] (init_state ms sig) in
  LogChan (DefaultLog 1 (init_state ms sig)) = 9 /\
  LogChan s = 9 /\ ~ (1 <= LogChan s <= 8) /\
  Z.to_nat (LogChan s) = 9%nat.
Proof.
  cbv zeta. unfold Logs.run_ops. cbn [fold_left Logs.run_op].
  match goal with
  | |- context [Logs.UpdateLog _ _ _ _ ?x] =>
    destruct (UpdateLog_frame x) as (_ & _ & _ & _ & -> & _)
  end.
  rewrite DefaultLog_LogChan. cbn. repeat split; lia.
Qed.

(** An [int] of 16 bits cannot hold the mask of code 16: the shift is
    undefined in C, and the wrapped value is 0. *)
Remark fault_mask_16_bit_int : Logs.fault_mask 16 F_STALL = 0.
Proof. reflexivity. Qed.

End Firmware.
(** ** The functions at work on the small platform *)

Example demo_configured_layout :
  LogChan demo_configured = 9 /\ LogLength demo_configured = 1 /\
  LogBase demo_configured =
    [Some 0; Some 1; Some 2; Some 3; Some 4; Some 5; Some 6; Some 7; Some 8]
  /\
  LogPtr demo_configured =
    [49152; 49154; 49156; 49158; 49160; 49162; 49164; 49166; 49168] /\
  LogInit demo_configured = 0 /\ LogTrigger demo_configured = 0 /\
  OldTrigger demo_configured = 1 /\
  EventHistory demo_configured = [mkEvent 0 0 E_DATALOG 1 20%Q].
Proof. vm_compute. repeat split; reflexivity. Qed.

Example demo_sampled_buffer :
  LogBuf demo_sampled =
    [49152; 49154; 49156; 49158; 49160; 49162; 49164; 49166; 49168;
     0; 0; 0]%Q /\
  LogCount demo_sampled = 0 /\ LogTrigger demo_sampled = 1.
Proof. vm_compute. repeat split; reflexivity. Qed.

Example demo_fault_twice :
  let s :=
    Fault 32 4 demo_FAULT demo_clock F_STALL 5
      (Fault 32 4 demo_FAULT demo_clock F_STALL 3 demo_sampled) in
  FaultWord s = 65536 /\ mainState s = demo_FAULT /\
  PwmEnabled s = false /\ LogTrigger s = 0 /\
  logged demo_sampled s =
    [mkEvent 0 2 E_STATE demo_FAULT 0; mkEvent 0 1 E_FAULT F_STALL 3%Q].
Proof. vm_compute. repeat split; reflexivity. Qed.

Example demo_reset :
  let s :=
    ResetFaults 32 4 demo_READY demo_FAULT demo_clock
      (Fault 32 4 demo_FAULT demo_clock F_STALL 3 demo_sampled) in
  FaultWord s = 0 /\ mainState s = demo_READY /\ Flag2 s = true /\
  FaultResetCount s = 20 /\ EventIndex s = 1 /\
  slot s 0 = Some (mkEvent 0 4 E_STATE demo_READY 0).
Proof. vm_compute. repeat split; reflexivity. Qed.

(** ** The theorems at work on the small platform *)

Lemma event_ring_wraparound_witness :
  events_wf 4 (InitEvents 4 demo_init) /\
  EventIndex (InitEvents 4 demo_init) = 0 /\
  length demo_events = 5%nat /\
  EventIndex (log_all 16 4 demo_clock demo_events (InitEvents 4 demo_init))
  = 1.
Proof.
  assert (Hwf : events_wf 4 (InitEvents 4 demo_init))
    by (vm_compute; repeat split; reflexivity).
  split; [exact Hwf|]. split; [reflexivity|]. split; [reflexivity|].
  refine (proj1 (proj2
    (event_ring_wraparound 16 4 demo_clock _ _ demo_events
       (InitEvents 4 demo_init) _ Hwf _ _))).
  - lia.
  - lia.
  - lia.
  - reflexivity.
  - reflexivity.
Defined.

Lemma end_of_record_witness :
  let s := demo_recording in
  LogInit s = 0 /\ LogTrigger s <> 0 /\ LogSkip s <= LogSkipCount s /\
  Logs.wrap_int 16 (LogCount s + 1) = LogLength s /\
  LogCount (UpdateLog 16 12 4 demo_clock s) = 0.
Proof.
  cbv zeta.
  assert (H1 : LogInit demo_recording = 0) by reflexivity.
  assert (H2 : LogTrigger demo_recording <> 0) by (vm_compute; discriminate).
  assert (H3 : LogSkip demo_recording <= LogSkipCount demo_recording)
    by (vm_compute; discriminate).
  assert (H4 : Logs.wrap_int 16 (LogCount demo_recording + 1) =
               LogLength demo_recording) by reflexivity.
  repeat (split; [assumption|]).
  exact (proj1 (end_of_record 16 12 4 demo_clock demo_recording H1 H2 H3 H4)).
Defined.

Lemma init_stops_recording_witness :
  let s := set_LogTrigger 1 (DefaultLog 16 demo_address 1 demo_init) in
  LogInit s <> 0 /\ LogTrigger s = 1 /\
  LogTrigger (UpdateLog 16 12 4 demo_clock s) = 0.
Proof.
  cbv zeta.
  assert (H : LogInit (set_LogTrigger 1 (DefaultLog 16 demo_address 1 demo_init))
              <> 0) by (vm_compute; discriminate).
  split; [exact H|]. split; [reflexivity|].
  exact (proj1 (init_stops_recording 16 12 4 demo_clock _ H)).
Defined.

End LogsProps.

(** * Further properties of the space-vector modulator *)

Module SvmExtra.

Import Float32 Float32Props Svm SvmProps.
Local Open Scope Q_scope.

(** What sector selection and active times leave alone, whatever the
    floats are. *)
Lemma before_clamp_frame (R : float) (s : Vars) :
  let t := before_clamp R s in
  SvmAlpha t = SvmAlpha s /\ SvmBeta t = SvmBeta s /\
  SvmPeriod t = SvmPeriod s /\ SvmMethod t = SvmMethod s /\
  SvmT02 t = SvmT02 s /\ SvmOnA t = SvmOnA s /\ SvmOnB t = SvmOnB s /\
  SvmOnC t = SvmOnC s.
Proof.
  unfold before_clamp, select_sector. svm_fields.
  destruct (fge (SvmBeta s) (Fin 0)); destruct (flt _ _);
    destruct (fge (SvmAlpha s) (Fin 0));
    unfold active_times; svm_fields; cbn [Z.eqb Pos.eqb orb]; svm_fields;
    repeat split; reflexivity.
Qed.

Lemma zero_time_frame (t : Vars) :
  let z := zero_time t in
  SvmPeriod z = SvmPeriod t /\ SvmMethod z = SvmMethod t /\
  SvmSector z = SvmSector t /\ SvmT02 z = SvmT02 t /\
  SvmOnA z = SvmOnA t /\ SvmOnB z = SvmOnB t /\ SvmOnC z = SvmOnC t.
Proof.
  unfold zero_time. svm_fields.
  destruct (flt _ _); svm_fields; repeat split; reflexivity.
Qed.

(** The sector that the selection writes, in terms of the comparisons of
    the code. *)
Lemma select_sector_cases (R : float) (s : Vars) :
  let k := SvmSector (select_sector R s) in
  let mid := flt (fabs (SvmAlpha s)) (fabs (fmul (SvmBeta s) R)) in
  (fge (SvmBeta s) (Fin 0) = true /\ mid = true /\ k = 2%Z) \/
  (fge (SvmBeta s) (Fin 0) = true /\ mid = false /\
   fge (SvmAlpha s) (Fin 0) = true /\ k = 1%Z) \/
  (fge (SvmBeta s) (Fin 0) = true /\ mid = false /\
   fge (SvmAlpha s) (Fin 0) = false /\ k = 3%Z) \/
  (fge (SvmBeta s) (Fin 0) = false /\ mid = true /\ k = 5%Z) \/
  (fge (SvmBeta s) (Fin 0) = false /\ mid = false /\
   fge (SvmAlpha s) (Fin 0) = true /\ k = 6%Z) \/
  (fge (SvmBeta s) (Fin 0) = false /\ mid = false /\
   fge (SvmAlpha s) (Fin 0) = false /\ k = 4%Z).
Proof.
  unfold select_sector. svm_fields.
  destruct (fge (SvmBeta s) (Fin 0));
    destruct (flt (fabs (SvmAlpha s)) (fabs (fmul (SvmBeta s) R)));
    destruct (fge (SvmAlpha s) (Fin 0)); svm_fields; tauto.
Qed.

(** X1: the sector written by [UpdateSpaceVector] is one of 1 to 6, never
    the 0 it starts from, for every input (a NaN included).  For finite
    inputs it is 1, 2 or 3 when beta is not negative and 4, 5 or 6 when it
    is; the middle sectors 2 and 5 are selected exactly when |alpha| is
    below the magnitude of the rounded product [beta * RECIP_SQRT3] that
    the code compares it with; sectors 1 and 6 have alpha not negative,
    sectors 3 and 4 have alpha negative. *)
Theorem sector_follows_half_plane (R : float) (s : Vars) :
  let u := UpdateSpaceVector R s in
  (1 <= SvmSector u <= 6)%Z /\
  forall a b r : Q,
    SvmAlpha s = Fin a -> SvmBeta s = Fin b -> R = Fin r ->
    Qabs a < 2 ^ 128 ->
    (0 <= b ->
     SvmSector u = 1%Z \/ SvmSector u = 2%Z \/ SvmSector u = 3%Z) /\
    (b < 0 ->
     SvmSector u = 4%Z \/ SvmSector u = 5%Z \/ SvmSector u = 6%Z) /\
    (SvmSector u = 2%Z \/ SvmSector u = 5%Z <->
     Qabs a < Qabs (rnd (b * r))) /\
    (SvmSector u = 1%Z \/ SvmSector u = 6%Z -> 0 <= a) /\
    (SvmSector u = 3%Z \/ SvmSector u = 4%Z -> a < 0).
Proof.
  cbv zeta. rewrite UpdateSpaceVector_sector.
  pose proof (select_sector_cases R s) as C. cbv zeta in C.
  split; [intuition lia|].
  intros a b r Ea Eb Er Fa. subst R. rewrite Ea, Eb, fmul_fin in C.
  cbn [fabs fge] in C.
  assert (M : flt (Fin (Qabs a)) (fabs (fl (b * r))) = true <->
              Qabs a < Qabs (rnd (b * r))).
  { unfold fl. destruct (Qle_bool (2 ^ 128) (Qabs (rnd (b * r)))) eqn:O.
    - apply Qle_bool_iff in O. cbn [fabs flt negb]. split; [lra | reflexivity].
    - cbn [fabs flt]. apply Qlt_bool_iff. }
  assert (M' : flt (Fin (Qabs a)) (fabs (fl (b * r))) = false <->
               Qabs (rnd (b * r)) <= Qabs a).
  { destruct (flt (Fin (Qabs a)) (fabs (fl (b * r)))) eqn:F.
    - destruct M as [M _]. specialize (M eq_refl).
      split; [discriminate | lra].
    - split; [|reflexivity]. intros _.
      destruct (Qlt_le_dec (Qabs a) (Qabs (rnd (b * r)))) as [L|L];
        [|exact L]. apply M in L. discriminate. }
  rewrite ?Qle_bool_iff, ?Qle_bool_false_iff in C.
  destruct C as [H|[H|[H|[H|[H|H]]]]];
    repeat match goal with
           | H : _ /\ _ |- _ => destruct H
           end;
    repeat match goal with
           | H : flt _ _ = true |- _ => apply M in H
           | H : flt _ _ = false |- _ => apply M' in H
           | H : SvmSector _ = _ |- _ => rewrite H
           end;
    repeat split; intros; try tauto; try lra; try lia;
    intuition (try lia; try lra; try discriminate).
Qed.

(** A reference in sector 1, and one on which the rounded product ties
    with |alpha| although the exact product is larger: sector 3. *)
Lemma sector_follows_half_plane_witness :
  SvmSector (UpdateSpaceVector R3
               (inputs (Fin (1 # 2)) (Fin (1 # 4)) (Fin 1000) 1)) = 1%Z \/
  SvmSector (UpdateSpaceVector R3
               (inputs (Fin (1 # 2)) (Fin (1 # 4)) (Fin 1000) 1)) = 2%Z \/
  SvmSector (UpdateSpaceVector R3
               (inputs (Fin (1 # 2)) (Fin (1 # 4)) (Fin 1000) 1)) = 3%Z.
Proof.
  assert (Er : R3 = Fin (4843165 # 8388608)) by (vm_compute; reflexivity).
  assert (Fa : Qabs (1 # 2) < 2 ^ 128) by reflexivity.
  assert (Hb : 0 <= 1 # 4) by discriminate.
  destruct (sector_follows_half_plane R3
              (inputs (Fin (1 # 2)) (Fin (1 # 4)) (Fin 1000) 1))
    as (_ & H).
  destruct (H (1 # 2) (1 # 4) (4843165 # 8388608) eq_refl eq_refl Er Fa)
    as (H1 & _).
  exact (H1 Hb).
Defined.

(** X4: with any method other than 1 (the bus-clamp methods are compiled
    out), [UpdateSpaceVector] writes none of the three on-times and not
    the half zero time: they keep the values of the pass before. *)
Theorem other_methods_keep_on_times (R : float) (s : Vars) :
  SvmMethod s <> 1%Z ->
  let u := UpdateSpaceVector R s in
  SvmOnA u = SvmOnA s /\ SvmOnB u = SvmOnB s /\ SvmOnC u = SvmOnC s /\
  SvmT02 u = SvmT02 s.
Proof.
  intros HM. cbv zeta. rewrite UpdateSpaceVector_eq.
  destruct (before_clamp_frame R s) as (_ & _ & _ & EM & E2 & EA & EB & EC).
  destruct (zero_time_frame (before_clamp R s))
    as (_ & EM' & _ & F2 & FA & FB & FC).
  unfold assign_on_times.
  destruct (Z.eqb_spec (SvmMethod (zero_time (before_clamp R s))) 1)
    as [E | E]; [congruence|].
  repeat split; congruence.
Qed.

Lemma other_methods_keep_on_times_witness :
  let s := inputs (Fin (1 # 2)) (Fin (1 # 4)) (Fin 1000) 2 in
  let u := UpdateSpaceVector R3 s in
  SvmMethod s <> 1%Z /\ SvmOnA u = SvmOnA s /\ SvmOnB u = SvmOnB s /\
  SvmOnC u = SvmOnC s.
Proof.
  cbv zeta.
  assert (H1 : SvmMethod (inputs (Fin (1 # 2)) (Fin (1 # 4)) (Fin 1000) 2)
               <> 1%Z)
    by (vm_compute; discriminate).
  split; [exact H1|].
  destruct (other_methods_keep_on_times R3 _ H1) as (A & B & C & _).
  repeat split; assumption.
Defined.

(** X2: for finite inputs of magnitude at most [2^100], the three times
    left by [UpdateSpaceVector] are numbers, not negative, and add up to
    the whole period within rounding: |Tx + Ty + T0 - 1| <= 2^-22. *)
Theorem times_fill_the_period (R : float) (s : Vars) (a b r : Q) :
  SvmAlpha s = Fin a -> SvmBeta s = Fin b -> R = Fin r ->
  Qabs a <= 2 ^ 100 -> Qabs b <= 2 ^ 100 -> Qabs r <= 1 ->
  let u := UpdateSpaceVector R s in
  exists tx ty t0 : Q,
    SvmTx u = Fin tx /\ SvmTy u = Fin ty /\ SvmT0 u = Fin t0 /\
    0 <= tx /\ 0 <= ty /\ 0 <= t0 /\
    Qabs (tx + ty + t0 - 1) <= 2 ^ (-22).
Proof.
  intros Ea Eb Er Ha Hb Hr u. subst u. rewrite UpdateSpaceVector_eq.
  destruct (before_clamp_times R s a b r Ea Eb Er Ha Hb Hr)
    as (tx & ty & Ex & Ey & Hx & Ux & Hy & Uy & _ & Ry & _).
  revert Ex Ey. generalize (before_clamp R s). intros t Ex Ey.
  destruct (assign_on_times_frame (zero_time t))
    as (_ & _ & _ & -> & -> & ->).
  destruct (clip_test tx ty Hx Hy Ry) as [T1 _].
  destruct (zero_time_fin t tx ty Ex Ey Hx Ux Hy Uy Ry)
    as (_ & _ & _ & _ & _ & _ & _ &
        [(C & _ & E0 & _ & Ex' & Ey')|(C & _ & E0 & _ & Ex' & Ey')]).
  - specialize (T1 C).
    destruct (clipped_times tx ty Hx Hy Ux Uy T1)
      as (_ & _ & _ & _ & _ & X0 & Y0 & _ & _ & Ts & _).
    eexists _, _, 0. rewrite Ex', Ey', E0.
    repeat split; try reflexivity; try assumption; try lra.
    apply Qabs_Qle_condition. apply Qabs_Qle_condition in Ts. lra.
  - destruct (unclipped_times tx ty Hx Hy C) as (_ & _ & _ & _ & Ts & _).
    exists tx, ty, (rnd (rnd (1 - tx) - ty)). rewrite Ex', Ey', E0.
    repeat split; try reflexivity; assumption.
Qed.

Lemma times_fill_the_period_witness :
  let u := UpdateSpaceVector R3
             (inputs (Fin (1 # 2)) (Fin (1 # 4)) (Fin 1000) 1) in
  exists tx ty t0 : Q,
    SvmTx u = Fin tx /\ SvmTy u = Fin ty /\ SvmT0 u = Fin t0 /\
    0 <= tx /\ 0 <= ty /\ 0 <= t0 /\
    Qabs (tx + ty + t0 - 1) <= 2 ^ (-22).
Proof.
  assert (Er : R3 = Fin (4843165 # 8388608)) by (vm_compute; reflexivity).
  assert (Ha : Qabs (1 # 2) <= 2 ^ 100) by (vm_compute; discriminate).
  assert (Hb : Qabs (1 # 4) <= 2 ^ 100) by (vm_compute; discriminate).
  assert (Hr : Qabs (4843165 # 8388608) <= 1) by (vm_compute; discriminate).
  exact (times_fill_the_period R3
           (inputs (Fin (1 # 2)) (Fin (1 # 4)) (Fin 1000) 1)
           (1 # 2) (1 # 4) (4843165 # 8388608) eq_refl eq_refl Er Ha Hb Hr).
Defined.

(** The sum of the active times before the clamp against the hexagon
    measure of the inputs, [max (|alpha| + B) (2 B)]. *)
Lemma before_clamp_sum (R : float) (s : Vars) (a b r : Q) :
  SvmAlpha s = Fin a -> SvmBeta s = Fin b -> R = Fin r ->
  Qabs a <= 2 ^ 100 -> Qabs b <= 2 ^ 100 -> Qabs r <= 1 ->
  let B := Qabs (rnd (b * r)) in
  let t := before_clamp R s in
  exists tx ty : Q,
    SvmTx t = Fin tx /\ SvmTy t = Fin ty /\
    0 <= tx /\ tx <= 2 ^ 102 /\ 0 <= ty /\ ty <= 2 ^ 102 /\ rnd ty == ty /\
    (Qabs a + B <= 1 - 2 ^ (-22) /\ 2 * B <= 1 - 2 ^ (-22) ->
     tx + ty <= 1) /\
    (1 + 2 ^ (-22) <= Qabs a + B \/ 1 + 2 ^ (-22) <= 2 * B ->
     1 + 2 ^ (-23) <= tx + ty).
Proof.
  intros Ea Eb Er Ha Hb Hr B t.
  destruct (scaled_beta_bound b r Hb Hr) as [P1 P2]. fold B in P2.
  pose proof (Qabs_nonneg (rnd (b * r))) as Bn. fold B in Bn.
  pose proof (Qabs_nonneg a) as An.
  assert (La : - Qabs a <= a /\ a <= Qabs a).
  { apply Qabs_Qle_condition. lra. }
  destruct (before_clamp_fin R s a b r Ea Eb Er Ha Hb Hr)
    as (_ & _ & _ & _ & _ & _ & [(C & _ & X & Y)|(C & _ & X & Y)]);
    fold t B in C, X, Y; revert P2 Bn C X Y; generalize B;
    clear B; intros B P2 Bn C X Y.
  - exists (rnd (a + B)), (rnd (- a + B)).
    destruct (rnd_bounds_nonneg (a + B)) as (? & ? & ?); [lra|].
    destruct (rnd_bounds_nonneg (- a + B)) as (? & ? & ?); [lra|].
    repeat split; try assumption; try apply rnd_idempotent; try lra;
      intros; lra.
  - exists (rnd (Qabs a - B)), (rnd (2 * B)).
    destruct (rnd_bounds_nonneg (Qabs a - B)) as (? & ? & ?); [lra|].
    destruct (rnd_bounds_nonneg (2 * B)) as (? & ? & ?); [lra|].
    repeat split; try assumption; try apply rnd_idempotent; try lra;
      intros; lra.
Qed.

(** ** Clipping, in terms of the inputs

    X5: with B the magnitude of the rounded product [beta * RECIP_SQRT3],
    a reference inside the hexagon by more than rounding
    ([|alpha| + B <= 1 - 2^-22] and [2 B <= 1 - 2^-22]) leaves the clip
    flag 0 and the coefficient 1; a reference outside it by more than
    rounding ([|alpha| + B >= 1 + 2^-22] or [2 B >= 1 + 2^-22]) sets the
    clip flag and gets a coefficient below 1. *)
Theorem clip_outside_hexagon (R : float) (s : Vars) (a b r : Q) :
  SvmAlpha s = Fin a -> SvmBeta s = Fin b -> R = Fin r ->
  Qabs a <= 2 ^ 100 -> Qabs b <= 2 ^ 100 -> Qabs r <= 1 ->
  let u := UpdateSpaceVector R s in
  let B := Qabs (rnd (b * r)) in
  (Qabs a + B <= 1 - 2 ^ (-22) /\ 2 * B <= 1 - 2 ^ (-22) ->
   SvmClip u = 0%Z /\ SvmK u = Fin 1) /\
  (1 + 2 ^ (-22) <= Qabs a + B \/ 1 + 2 ^ (-22) <= 2 * B ->
   SvmClip u = 1%Z /\ exists k : Q, SvmK u = Fin k /\ 0 < k /\ k < 1).
Proof.
  intros Ea Eb Er Ha Hb Hr u B. subst u. rewrite UpdateSpaceVector_eq.
  destruct (before_clamp_sum R s a b r Ea Eb Er Ha Hb Hr)
    as (tx & ty & Ex & Ey & Hx & Ux & Hy & Uy & Ry & Hin & Hout).
  fold B in Hin, Hout.
  revert Ex Ey. generalize (before_clamp R s). intros t Ex Ey.
  destruct (assign_on_times_frame (zero_time t)) as (_ & -> & -> & _).
  destruct (clip_test tx ty Hx Hy Ry) as [T1 T2].
  destruct (zero_time_fin t tx ty Ex Ey Hx Ux Hy Uy Ry)
    as (_ & _ & _ & _ & _ & _ & _ &
        [(C & Ec & _ & Ek & _)|(C & Ec & _ & Ek & _)]);
    rewrite Ec, Ek.
  - split.
    + intros H. specialize (Hin H). specialize (T1 C). lra.
    + intros H. specialize (Hout H). split; [reflexivity|].
      destruct (clipped_times tx ty Hx Hy Ux Uy (T1 C))
        as (_ & _ & K0 & _).
      eexists. split; [reflexivity|]. split; [exact K0|].
      assert (S1 : 1 + 2 ^ (-23) <= rnd (tx + ty)).
      { apply rnd_fixed_ge; [vm_compute; reflexivity | exact Hout]. }
      assert (K1 : rnd (1 / rnd (tx + ty)) <= 1 - 2 ^ (-24)).
      { apply rnd_fixed_le; [vm_compute; reflexivity|].
        apply Qle_shift_div_r; lra. }
      lra.
  - split.
    + intros _. split; reflexivity.
    + intros H. specialize (Hout H). specialize (T2 Hout). lra.
Qed.

(** A reference inside the hexagon and one outside it. *)
Lemma clip_outside_hexagon_witness :
  let u := UpdateSpaceVector R3
             (inputs (Fin (1 # 2)) (Fin (1 # 4)) (Fin 1000) 1) in
  let v := UpdateSpaceVector R3 (inputs (Fin 1) (Fin 1) (Fin 1000) 1) in
  (SvmClip u = 0%Z /\ SvmK u = Fin 1) /\
  (SvmClip v = 1%Z /\ exists k : Q, SvmK v = Fin k /\ 0 < k /\ k < 1).
Proof.
  assert (Er : R3 = Fin (4843165 # 8388608)) by (vm_compute; reflexivity).
  assert (Hr : Qabs (4843165 # 8388608) <= 1) by (vm_compute; discriminate).
  assert (H2 : Qabs (1 # 2) <= 2 ^ 100) by (vm_compute; discriminate).
  assert (H4 : Qabs (1 # 4) <= 2 ^ 100) by (vm_compute; discriminate).
  assert (H1 : Qabs 1 <= 2 ^ 100) by (vm_compute; discriminate).
  assert (Hin : Qabs (1 # 2) + Qabs (rnd ((1 # 4) * (4843165 # 8388608)))
                <= 1 - 2 ^ (-22) /\
                2 * Qabs (rnd ((1 # 4) * (4843165 # 8388608)))
                <= 1 - 2 ^ (-22)).
  { split; vm_compute; discriminate. }
  assert (Hout : 1 + 2 ^ (-22) <=
                 Qabs 1 + Qabs (rnd (1 * (4843165 # 8388608))) \/
                 1 + 2 ^ (-22) <=
                 2 * Qabs (rnd (1 * (4843165 # 8388608)))).
  { left. vm_compute. discriminate. }
  split.
  - exact (proj1 (clip_outside_hexagon R3
             (inputs (Fin (1 # 2)) (Fin (1 # 4)) (Fin 1000) 1)
             (1 # 2) (1 # 4) (4843165 # 8388608) eq_refl eq_refl Er H2 H4 Hr)
             Hin).
  - exact (proj2 (clip_outside_hexagon R3
             (inputs (Fin 1) (Fin 1) (Fin 1000) 1)
             1 1 (4843165 # 8388608) eq_refl eq_refl Er H1 H1 Hr) Hout).
Defined.

(** The state that [UpdateSpaceVector] leaves with the symmetric method,
    for bounded inputs: the three times, and the on-times sector by
    sector. *)
Lemma UpdateSpaceVector_fin (R : float) (s : Vars) (a b r p : Q) :
  SvmAlpha s = Fin a -> SvmBeta s = Fin b -> R = Fin r ->
  SvmPeriod s = Fin p -> SvmMethod s = 1%Z ->
  Qabs a <= 2 ^ 100 -> Qabs b <= 2 ^ 100 -> Qabs r <= 1 ->
  0 <= p -> p <= 2 ^ 100 ->
  let u := UpdateSpaceVector R s in
  exists x y w : Q,
    let h := rnd (w * (1 # 2)) in
    let all := rnd (p * rnd (rnd (x + y) + h)) in
    let ox := rnd (p * rnd (x + h)) in
    let oy := rnd (p * rnd (y + h)) in
    let oz := rnd (p * h) in
    (0 <= x /\ x <= 2 /\ rnd x == x) /\
    (0 <= y /\ y <= 2 /\ rnd y == y) /\
    (0 <= w /\ w <= 1) /\
    Qabs (x + y + w - 1) <= 2 ^ (-22) /\
    rnd (rnd (x + y) + h) <= 1 + 6 * 2 ^ (-24) /\
    ((SvmSector u = 1%Z /\
      SvmOnA u = Fin all /\ SvmOnB u = Fin oy /\ SvmOnC u = Fin oz) \/
     (SvmSector u = 2%Z /\
      SvmOnA u = Fin ox /\ SvmOnB u = Fin all /\ SvmOnC u = Fin oz) \/
     (SvmSector u = 3%Z /\
      SvmOnA u = Fin oz /\ SvmOnB u = Fin all /\ SvmOnC u = Fin ox) \/
     (SvmSector u = 4%Z /\
      SvmOnA u = Fin oz /\ SvmOnB u = Fin ox /\ SvmOnC u = Fin all) \/
     (SvmSector u = 5%Z /\
      SvmOnA u = Fin ox /\ SvmOnB u = Fin oz /\ SvmOnC u = Fin all) \/
     (SvmSector u = 6%Z /\
      SvmOnA u = Fin all /\ SvmOnB u = Fin oz /\ SvmOnC u = Fin oy)).
Proof.
  intros Ea Eb Er EP EM Ha Hb Hr Hp Up u. subst u.
  rewrite UpdateSpaceVector_eq.
  destruct (before_clamp_fin R s a b r Ea Eb Er Ha Hb Hr)
    as (EPt & EMt & _).
  destruct (before_clamp_times R s a b r Ea Eb Er Ha Hb Hr)
    as (tx & ty & Ex & Ey & Hx & Ux & Hy & Uy & Rx & Ry & Hsec).
  revert EPt EMt Ex Ey Hsec. generalize (before_clamp R s).
  intros t EPt EMt Ex Ey Hsec.
  destruct (clip_test tx ty Hx Hy Ry) as [T1 _].
  destruct (assign_on_times_frame (zero_time t)) as (-> & _).
  destruct (zero_time_fin t tx ty Ex Ey Hx Ux Hy Uy Ry)
    as (EPz & EMz & ESz & _ & _ & _ & _ &
        [(C & _ & E0 & _ & Ex' & Ey')|(C & _ & E0 & _ & Ex' & Ey')]).
  - specialize (T1 C).
    destruct (clipped_times tx ty Hx Hy Ux Uy T1)
      as (_ & _ & _ & _ & _ & X0 & Y0 & X1 & Y1 & Ts & Ball).
    revert X0 Y0 X1 Y1 Ts Ball Ex' Ey'.
    assert (Rx' : rnd (rnd (rnd (1 / rnd (tx + ty)) * tx)) ==
                  rnd (rnd (1 / rnd (tx + ty)) * tx))
      by apply rnd_idempotent.
    assert (Ry' : rnd (rnd (rnd (1 / rnd (tx + ty)) * ty)) ==
                  rnd (rnd (1 / rnd (tx + ty)) * ty))
      by apply rnd_idempotent.
    revert Rx' Ry'.
    generalize (rnd (rnd (1 / rnd (tx + ty)) * tx)).
    generalize (rnd (rnd (1 / rnd (tx + ty)) * ty)).
    intros y x Rx' Ry' X0 Y0 X1 Y1 Ts Ball Ex' Ey'.
    exists x, y, 0. cbv zeta.
    assert (Eh : rnd (0 * (1 # 2)) = 0) by reflexivity.
    destruct (assign_on_times_fin (zero_time t) p x y 0)
      as (_ & S1 & S2 & S3 & S4 & S5 & S6);
      try assumption; try congruence; try lra.
    rewrite Eh in *.
    split; [repeat split; solve [assumption | lra]|].
    split; [repeat split; solve [assumption | lra]|].
    split; [lra|].
    split; [apply Qabs_Qle_condition; apply Qabs_Qle_condition in Ts; lra|].
    split.
    { rewrite (rnd_comp (rnd (x + y) + 0) (rnd (x + y))) by ring.
      rewrite rnd_idempotent. exact Ball. }
    rewrite ESz in *.
    assert (K : SvmSector t = 1%Z \/ SvmSector t = 2%Z \/ SvmSector t = 3%Z \/
                SvmSector t = 4%Z \/ SvmSector t = 5%Z \/ SvmSector t = 6%Z)
      by lia.
    destruct K as [K|[K|[K|[K|[K|K]]]]]; auto 10.
  - destruct (unclipped_times tx ty Hx Hy C)
      as (X1 & Y1 & W1 & _ & Ts & _ & _ & _ & _ & Ball).
    exists tx, ty, (rnd (rnd (1 - tx) - ty)). cbv zeta.
    destruct (assign_on_times_fin (zero_time t) p tx ty
                (rnd (rnd (1 - tx) - ty)))
      as (_ & S1 & S2 & S3 & S4 & S5 & S6);
      try assumption; try congruence; try lra.
    split; [repeat split; solve [assumption | lra]|].
    split; [repeat split; solve [assumption | lra]|].
    split; [lra|].
    split; [exact Ts|].
    split; [exact Ball|].
    rewrite ESz in *.
    assert (K : SvmSector t = 1%Z \/ SvmSector t = 2%Z \/ SvmSector t = 3%Z \/
                SvmSector t = 4%Z \/ SvmSector t = 5%Z \/ SvmSector t = 6%Z)
      by lia.
    destruct K as [K|[K|[K|[K|[K|K]]]]]; auto 10.
Qed.

(** The on-times in their order: the register that carries only the half
    zero time is the smallest, the one that carries both active times the
    largest. *)
Lemma on_times_ordered (p x y h : Q) :
  0 <= p -> 0 <= x -> 0 <= y -> 0 <= h ->
  rnd x == x -> rnd y == y -> rnd h == h ->
  rnd (p * h) <= rnd (p * rnd (x + h)) /\
  rnd (p * h) <= rnd (p * rnd (y + h)) /\
  rnd (p * rnd (x + h)) <= rnd (p * rnd (rnd (x + y) + h)) /\
  rnd (p * rnd (y + h)) <= rnd (p * rnd (rnd (x + y) + h)).
Proof.
  intros Hp Hx Hy Hh Rx Ry Rh.
  assert (A1 : h <= rnd (x + h)) by (apply rnd_fixed_ge; [exact Rh | lra]).
  assert (A2 : h <= rnd (y + h)) by (apply rnd_fixed_ge; [exact Rh | lra]).
  assert (B1 : x <= rnd (x + y)) by (apply rnd_fixed_ge; [exact Rx | lra]).
  assert (B2 : y <= rnd (x + y)) by (apply rnd_fixed_ge; [exact Ry | lra]).
  assert (C1 : rnd (x + h) <= rnd (rnd (x + y) + h))
    by (apply rnd_monotone; lra).
  assert (C2 : rnd (y + h) <= rnd (rnd (x + y) + h))
    by (apply rnd_monotone; lra).
  assert (M : forall u v : Q, u <= v -> rnd (p * u) <= rnd (p * v)).
  { intros u v L. apply rnd_monotone.
    rewrite !(Qmult_comm p). apply Qmult_le_compat_r; assumption. }
  repeat split; apply M; assumption.
Qed.

(** The smallest and the largest on-time against the period. *)
Lemma centre_bound (p x y w : Q) :
  0 <= p -> 0 <= x -> 0 <= y -> 0 <= w -> w <= 1 ->
  Qabs (x + y + w - 1) <= 2 ^ (-22) ->
  let h := rnd (w * (1 # 2)) in
  let q := rnd (rnd (x + y) + h) in
  Qabs (rnd (p * h) + rnd (p * q) - p) <= p * 2 ^ (-20) + 2 ^ (-148).
Proof.
  intros Hp Hx Hy Hw Uw Ts h q.
  apply Qabs_Qle_condition in Ts.
  destruct (rnd_bounds_nonneg (w * (1 # 2))) as (H1 & H2 & H3); [lra|].
  fold h in H1, H2, H3.
  destruct (rnd_bounds_nonneg (x + y)) as (S1 & S2 & S3); [lra|].
  destruct (rnd_bounds_nonneg (rnd (x + y) + h)) as (Q1 & Q2 & Q3); [lra|].
  fold q in Q1, Q2, Q3.
  assert (D : - (12 * 2 ^ (-24)) <= q + h - 1 /\ q + h - 1 <= 12 * 2 ^ (-24))
    by lra.
  assert (Uq : q <= 1 + 12 * 2 ^ (-24)) by lra.
  assert (Uh : h <= 1) by lra.
  assert (PQ : 0 <= p * q /\ p * q <= p * (1 + 12 * 2 ^ (-24))).
  { split; [apply Qmult_le_0_compat; assumption|].
    rewrite !(Qmult_comm p). apply Qmult_le_compat_r; assumption. }
  assert (PH : 0 <= p * h /\ p * h <= p * 1).
  { split; [apply Qmult_le_0_compat; assumption|].
    rewrite !(Qmult_comm p). apply Qmult_le_compat_r; assumption. }
  assert (PD : p * - (12 * 2 ^ (-24)) <= p * (q + h - 1) /\
               p * (q + h - 1) <= p * (12 * 2 ^ (-24))).
  { split; rewrite !(Qmult_comm p); apply Qmult_le_compat_r; lra. }
  assert (E : p * (q + h - 1) == p * q + p * h - p) by ring.
  rewrite E in PD.
  destruct (rnd_bounds_nonneg (p * q)) as (A1 & A2 & A3); [lra|].
  destruct (rnd_bounds_nonneg (p * h)) as (B1 & B2 & B3); [lra|].
  apply Qabs_Qle_condition. lra.
Qed.

(** X6: the symmetric on-times are centred in the period within rounding:
    for bounded inputs the smallest and the largest of the three add up to
    the period within [period * 2^-20 + 2^-148]. *)
Theorem centre_aligned (R : float) (s : Vars) (a b r p : Q) :
  SvmAlpha s = Fin a -> SvmBeta s = Fin b -> R = Fin r ->
  SvmPeriod s = Fin p -> SvmMethod s = 1%Z ->
  Qabs a <= 2 ^ 100 -> Qabs b <= 2 ^ 100 -> Qabs r <= 1 ->
  0 <= p -> p <= 2 ^ 100 ->
  let u := UpdateSpaceVector R s in
  exists onA onB onC : Q,
    SvmOnA u = Fin onA /\ SvmOnB u = Fin onB /\ SvmOnC u = Fin onC /\
    Qabs (Qmin (Qmin onA onB) onC + Qmax (Qmax onA onB) onC - p)
      <= p * 2 ^ (-20) + 2 ^ (-148).
Proof.
  intros Ea Eb Er EP EM Ha Hb Hr Hp Up u.
  destruct (UpdateSpaceVector_fin R s a b r p Ea Eb Er EP EM Ha Hb Hr Hp Up)
    as (x & y & w & (Hx & _ & Rx) & (Hy & _ & Ry) & (Hw & Uw) & Ts & _ & Hon).
  fold u in Hon. cbv zeta in Hon.
  assert (Hh : 0 <= rnd (w * (1 # 2))) by (apply rnd_nonneg; lra).
  destruct (on_times_ordered p x y (rnd (w * (1 # 2))) Hp Hx Hy Hh Rx Ry
              (rnd_idempotent _)) as (O1 & O2 & O3 & O4).
  pose proof (centre_bound p x y w Hp Hx Hy Hw Uw Ts) as Cb.
  cbv zeta in Cb. apply Qabs_Qle_condition in Cb.
  revert O1 O2 O3 O4 Cb Hon.
  generalize (rnd (p * rnd (rnd (x + y) + rnd (w * (1 # 2))))).
  generalize (rnd (p * rnd (x + rnd (w * (1 # 2))))).
  generalize (rnd (p * rnd (y + rnd (w * (1 # 2))))).
  generalize (rnd (p * rnd (w * (1 # 2)))).
  intros oz oy ox all O1 O2 O3 O4 Cb Hon.
  destruct Hon as [H|[H|[H|[H|[H|H]]]]];
    destruct H as (_ & EA & EB & EC);
    eexists _, _, _; (split; [exact EA|]); (split; [exact EB|]);
    (split; [exact EC|]); apply Qabs_Qle_condition;
    match goal with
    | |- _ <= Qmin (Qmin ?a ?b) ?c + Qmax (Qmax ?a ?b) ?c - _ <= _ =>
      destruct (Q.min_spec a b) as [(? & Em) | (? & Em)];
      destruct (Q.max_spec a b) as [(? & EM') | (? & EM')];
      destruct (Q.min_spec (Qmin a b) c) as [(? & Em') | (? & Em')];
      destruct (Q.max_spec (Qmax a b) c) as [(? & EM'') | (? & EM'')];
      lra
    end.
Qed.

Lemma centre_aligned_witness :
  let u := UpdateSpaceVector R3
             (inputs (Fin (1 # 2)) (Fin (1 # 4)) (Fin 1000) 1) in
  exists onA onB onC : Q,
    SvmOnA u = Fin onA /\ SvmOnB u = Fin onB /\ SvmOnC u = Fin onC /\
    Qabs (Qmin (Qmin onA onB) onC + Qmax (Qmax onA onB) onC - 1000)
      <= 1000 * 2 ^ (-20) + 2 ^ (-148).
Proof.
  assert (Er : R3 = Fin (4843165 # 8388608)) by (vm_compute; reflexivity).
  assert (Ha : Qabs (1 # 2) <= 2 ^ 100) by (vm_compute; discriminate).
  assert (Hb : Qabs (1 # 4) <= 2 ^ 100) by (vm_compute; discriminate).
  assert (Hr : Qabs (4843165 # 8388608) <= 1) by (vm_compute; discriminate).
  assert (Hp : 0 <= 1000) by (vm_compute; discriminate).
  assert (Up : 1000 <= 2 ^ 100) by (vm_compute; discriminate).
  exact (centre_aligned R3
           (inputs (Fin (1 # 2)) (Fin (1 # 4)) (Fin 1000) 1)
           (1 # 2) (1 # 4) (4843165 # 8388608) 1000
           eq_refl eq_refl Er eq_refl eq_refl Ha Hb Hr Hp Up).
Defined.

(** X23: the phase order of the on-times.  With the symmetric method and
    bounded inputs, the three on-times are ordered by the sector, rounding
    included: A >= B >= C in sector 1, B >= A >= C in sector 2,
    B >= C >= A in sector 3, C >= B >= A in sector 4, C >= A >= B in
    sector 5 and A >= C >= B in sector 6. *)
Theorem on_times_follow_sector (R : float) (s : Vars) (a b r p : Q) :
  SvmAlpha s = Fin a -> SvmBeta s = Fin b -> R = Fin r ->
  SvmPeriod s = Fin p -> SvmMethod s = 1%Z ->
  Qabs a <= 2 ^ 100 -> Qabs b <= 2 ^ 100 -> Qabs r <= 1 ->
  0 <= p -> p <= 2 ^ 100 ->
  let u := UpdateSpaceVector R s in
  exists onA onB onC : Q,
    SvmOnA u = Fin onA /\ SvmOnB u = Fin onB /\ SvmOnC u = Fin onC /\
    (SvmSector u = 1%Z -> onC <= onB /\ onB <= onA) /\
    (SvmSector u = 2%Z -> onC <= onA /\ onA <= onB) /\
    (SvmSector u = 3%Z -> onA <= onC /\ onC <= onB) /\
    (SvmSector u = 4%Z -> onA <= onB /\ onB <= onC) /\
    (SvmSector u = 5%Z -> onB <= onA /\ onA <= onC) /\
    (SvmSector u = 6%Z -> onB <= onC /\ onC <= onA).
Proof.
  intros Ea Eb Er EP EM Ha Hb Hr Hp Up u.
  destruct (UpdateSpaceVector_fin R s a b r p Ea Eb Er EP EM Ha Hb Hr Hp Up)
    as (x & y & w & (Hx & _ & Rx) & (Hy & _ & Ry) & (Hw & Uw) & _ & _ & Hon).
  fold u in Hon. cbv zeta in Hon.
  assert (Hh : 0 <= rnd (w * (1 # 2))) by (apply rnd_nonneg; lra).
  destruct (on_times_ordered p x y (rnd (w * (1 # 2))) Hp Hx Hy Hh Rx Ry
              (rnd_idempotent _)) as (O1 & O2 & O3 & O4).
  revert O1 O2 O3 O4 Hon.
  generalize (rnd (p * rnd (rnd (x + y) + rnd (w * (1 # 2))))).
  generalize (rnd (p * rnd (x + rnd (w * (1 # 2))))).
  generalize (rnd (p * rnd (y + rnd (w * (1 # 2))))).
  generalize (rnd (p * rnd (w * (1 # 2)))).
  intros oz oy ox all O1 O2 O3 O4 Hon.
  destruct Hon as [H|[H|[H|[H|[H|H]]]]];
    destruct H as (ES & EA & EB & EC);
    eexists _, _, _; (split; [exact EA|]); (split; [exact EB|]);
    (split; [exact EC|]); rewrite ES;
    repeat split; intros; try discriminate; assumption.
Qed.

Lemma on_times_follow_sector_witness :
  let u := UpdateSpaceVector R3
             (inputs (fl (1893 # 1000)) (fl (-143 # 1000)) (Fin 1000) 1) in
  SvmSector u = 6%Z /\
  exists onA onB onC : Q,
    SvmOnA u = Fin onA /\ SvmOnB u = Fin onB /\ SvmOnC u = Fin onC /\
    onB <= onC /\ onC <= onA.
Proof.
  intros u.
  assert (Er : R3 = Fin (4843165 # 8388608)) by (vm_compute; reflexivity).
  assert (Ha : Qabs (15879635 # 8388608) <= 2 ^ 100)
    by (vm_compute; discriminate).
  assert (Hb : Qabs (-1199571 # 8388608) <= 2 ^ 100)
    by (vm_compute; discriminate).
  assert (Hr : Qabs (4843165 # 8388608) <= 1) by (vm_compute; discriminate).
  assert (Hp : 0 <= 1000) by (vm_compute; discriminate).
  assert (Up : 1000 <= 2 ^ 100) by (vm_compute; discriminate).
  assert (E6 : SvmSector u = 6%Z) by (vm_compute; reflexivity).
  split; [exact E6|].
  destruct (on_times_follow_sector R3
              (inputs (fl (1893 # 1000)) (fl (-143 # 1000)) (Fin 1000) 1)
              (15879635 # 8388608) (-1199571 # 8388608)
              (4843165 # 8388608) 1000
              eq_refl eq_refl Er eq_refl eq_refl Ha Hb Hr Hp Up)
    as (onA & onB & onC & EA & EB & EC & _ & _ & _ & _ & _ & H6).
  exists onA, onB, onC. destruct (H6 E6) as [L1 L2].
  repeat split; assumption.
Defined.

(** A value that rounding does not move is a multiple of [2^-149]. *)
Lemma fixed_on_grid (x : Q) :
  rnd x == x -> exists m : Z, x == inject_Z m * 2 ^ (-149).
Proof.
  intros F. destruct (Qeq_dec x 0) as [Z0|NZ].
  - exists 0%Z. rewrite Z0. reflexivity.
  - destruct (ulp_exp_bounds x) as [_ L].
    exists (rne (x / 2 ^ ulp_exp x) * 2 ^ (ulp_exp x + 149))%Z.
    rewrite <- F at 1. rewrite (rnd_grid x NZ).
    assert (K : inject_Z (2 ^ (ulp_exp x + 149)) == 2 ^ ulp_exp x * 2 ^ 149).
    { rewrite <- inject_pow2 by lia. apply pow2_add. }
    assert (C : 2 ^ 149 * 2 ^ (-149) == 1) by reflexivity.
    rewrite inject_Z_mult, K.
    generalize (inject_Z (rne (x / 2 ^ ulp_exp x))). intros u.
    generalize (2 ^ ulp_exp x). intros v.
    transitivity (u * v * (2 ^ 149 * 2 ^ (-149))); [rewrite C; ring|].
    generalize (2 ^ 149) (2 ^ (-149)). intros c d. ring.
Qed.

(** Two floats whose sum rounds to zero are opposite. *)
Lemma sum_rounds_to_zero (x y : Q) :
  rnd x == x -> rnd y == y -> rnd (x + y) == 0 -> x + y == 0.
Proof.
  intros Fx Fy Z0.
  destruct (fixed_on_grid x Fx) as [m Em].
  destruct (fixed_on_grid y Fy) as [n En].
  assert (E : x + y == inject_Z (m + n) * 2 ^ (-149)).
  { rewrite inject_Z_plus, Em, En. ring. }
  assert (G : rnd (2 ^ (-149)) == 2 ^ (-149)) by (vm_compute; reflexivity).
  assert (P : 0 < 2 ^ (-149)) by reflexivity.
  destruct (Z.lt_trichotomy (m + n) 0) as [N|[Z|Pn]].
  - exfalso.
    assert (L : x + y <= - 2 ^ (-149)).
    { rewrite E.
      assert (I : inject_Z (m + n) <= -1).
      { change (-1) with (inject_Z (-1)). rewrite <- Zle_Qle. lia. }
      revert I. generalize (inject_Z (m + n)). intros i I. nra. }
    assert (M : rnd (x + y) <= - 2 ^ (-149)).
    { apply rnd_fixed_le; [rewrite rnd_opp, G; reflexivity | exact L]. }
    lra.
  - rewrite E, Z. ring.
  - exfalso.
    assert (L : 2 ^ (-149) <= x + y).
    { rewrite E.
      assert (I : 1 <= inject_Z (m + n)).
      { change 1 with (inject_Z 1). rewrite <- Zle_Qle. lia. }
      revert I. generalize (inject_Z (m + n)). intros i I. nra. }
    assert (M : 2 ^ (-149) <= rnd (x + y)).
    { apply rnd_fixed_ge; [exact G | exact L]. }
    lra.
Qed.

(** Floats that are the result of an operation are on the grid and in
    range. *)
Lemma fl_fixed (x q : Q) : fl x = Fin q -> binary32 q.
Proof.
  unfold fl. destruct (Qle_bool _ _) eqn:O; [discriminate|].
  intros E. injection E as <-. split; [apply rnd_idempotent|].
  apply Qle_bool_false_iff, O.
Qed.

Lemma fadd_fixed (x y : float) (q : Q) : fadd x y = Fin q -> binary32 q.
Proof.
  destruct x as [a|s|], y as [b|t|]; cbn [fadd]; try discriminate.
  - apply fl_fixed.
  - destruct (Bool.eqb s t); discriminate.
Qed.

Lemma fmul_fixed (x y : float) (q : Q) : fmul x y = Fin q -> binary32 q.
Proof.
  destruct x as [a|s|], y as [b|t|]; cbn [fmul]; try discriminate.
  - apply fl_fixed.
  - destruct (Qeq_bool a 0); discriminate.
  - destruct (Qeq_bool b 0); discriminate.
Qed.

Lemma before_clamp_fixed (R : float) (s : Vars) :
  let t := before_clamp R s in
  (forall q : Q, SvmTx t = Fin q -> binary32 q) /\
  (forall q : Q, SvmTy t = Fin q -> binary32 q).
Proof.
  unfold before_clamp, select_sector. svm_fields.
  destruct (fge (SvmBeta s) (Fin 0)); destruct (flt _ _);
    destruct (fge (SvmAlpha s) (Fin 0));
    unfold active_times; svm_fields; cbn [Z.eqb Pos.eqb orb]; svm_fields;
    split; intros q; first [apply fadd_fixed | apply fmul_fixed].
Qed.

(** When the two active times cancel, the zero time is not negative. *)
Lemma opposite_times_not_clipped (tx ty : Q) :
  binary32 tx -> tx + ty == 0 ->
  flt (fsub (fsub (Fin 1) (Fin tx)) (Fin ty)) (Fin 0) = false.
Proof.
  intros [Fx Bx] E. apply Qabs_Qlt_condition in Bx.
  assert (M : - tx <= rnd (1 - tx)).
  { apply rnd_fixed_ge; [rewrite rnd_opp, Fx; reflexivity | lra]. }
  rewrite fsub_fin. unfold fl.
  destruct (Qle_bool (2 ^ 128) (Qabs (rnd (1 - tx)))) eqn:O.
  - (* the difference overflows: it is positive *)
    cbn [fsub fneg fadd flt].
    apply Qlt_bool_false_iff.
    destruct (Qlt_le_dec (1 - tx) 0) as [N|P]; [|exact P].
    exfalso. apply Qle_bool_iff in O.
    pose proof (rnd_nonpos (1 - tx) (Qlt_le_weak _ _ N)) as Rn.
    rewrite Qabs_neg in O by exact Rn. lra.
  - rewrite fsub_fin. unfold fl.
    assert (P : 0 <= rnd (1 - tx) - ty) by lra.
    assert (S : Qlt_bool (rnd (1 - tx) - ty) 0 = false)
      by (apply Qlt_bool_false_iff; exact P).
    rewrite S.
    destruct (Qle_bool (2 ^ 128) (Qabs (rnd (rnd (1 - tx) - ty))));
      cbn [flt]; [reflexivity|].
    apply Qlt_bool_false_iff. apply rnd_nonneg, P.
Qed.

(** X24: the divisor of line 71.  [UpdateSpaceVector] divides by no zero,
    whatever its inputs are (an infinity or a NaN included): when the test
    [SvmT0 < 0] holds, the sum [SvmTx + SvmTy] is not zero. *)
Theorem divisor_is_not_zero (R : float) (s : Vars) (q : Q) :
  let t := before_clamp R s in
  flt (fsub (fsub (Fin 1) (SvmTx t)) (SvmTy t)) (Fin 0) = true ->
  fadd (SvmTx t) (SvmTy t) = Fin q ->
  ~ q == 0.
Proof.
  intros t Hclip Hsum Z0.
  destruct (before_clamp_fixed R s) as [Fx Fy]. fold t in Fx, Fy.
  destruct (SvmTx t) as [tx| |] eqn:Ex; destruct (SvmTy t) as [ty| |] eqn:Ey;
    cbn [fadd] in Hsum; try discriminate;
    try (destruct (Bool.eqb _ _); discriminate).
  destruct (Fx tx eq_refl) as [Rx Bx]. destruct (Fy ty eq_refl) as [Ry By].
  assert (E : tx + ty == 0).
  { apply sum_rounds_to_zero; try assumption.
    unfold fl in Hsum. destruct (Qle_bool _ _); [discriminate|].
    injection Hsum as <-. exact Z0. }
  rewrite (opposite_times_not_clipped tx ty (conj Rx Bx) E) in Hclip.
  discriminate.
Qed.

(** The overmodulated input: its divisor is a number that is not zero. *)
Lemma divisor_is_not_zero_witness :
  ~ (16572207 # 8388608) == 0.
Proof.
  apply (divisor_is_not_zero R3
           (inputs (fl (1893 # 1000)) (fl (-143 # 1000)) (Fin 1000) 1));
    vm_compute; reflexivity.
Defined.

End SvmExtra.

(** * Further properties of the event log, the fault latch and the data log *)

Module LogsExtra.
Import Logs LogsProps.
Local Open Scope Z_scope.

Section Firmware.

Variable INT_BITS : Z.
Variables LOG_SIZE LOG_CHAN EVENT_SIZE READY FAULT : Z.
Variable address_of : DriveSignal -> Z.
Variable TimeStamp : nat -> Z * Z.

Local Abbreviation wrap_int := (wrap_int INT_BITS).
Local Abbreviation LogEvent := (LogEvent INT_BITS EVENT_SIZE TimeStamp).
Local Abbreviation InitEvents := (InitEvents EVENT_SIZE).
Local Abbreviation fault_mask := (fault_mask INT_BITS).
Local Abbreviation Fault := (Fault INT_BITS EVENT_SIZE FAULT TimeStamp).
Local Abbreviation ResetFaults :=
  (ResetFaults INT_BITS EVENT_SIZE READY FAULT TimeStamp).
Local Abbreviation DefaultLog := (DefaultLog INT_BITS address_of).
Local Abbreviation InitLog := (InitLog INT_BITS LOG_SIZE).
Local Abbreviation UpdateLog :=
  (UpdateLog INT_BITS LOG_SIZE EVENT_SIZE TimeStamp).
Local Abbreviation take_sample := (take_sample INT_BITS).
Local Abbreviation record_data := (record_data INT_BITS).
Local Abbreviation service_init := (service_init INT_BITS LOG_SIZE).
Local Abbreviation log_trigger_change :=
  (log_trigger_change INT_BITS EVENT_SIZE TimeStamp).
Local Abbreviation counted_down := (counted_down INT_BITS).
Local Abbreviation init_state := (init_state LOG_SIZE LOG_CHAN EVENT_SIZE).
Local Abbreviation stamp := (stamp TimeStamp).
Local Abbreviation next_index := (next_index INT_BITS EVENT_SIZE).
Local Abbreviation log_all := (log_all INT_BITS EVENT_SIZE TimeStamp).
Local Abbreviation events_wf := (events_wf EVENT_SIZE).
Local Abbreviation ticks := (ticks INT_BITS LOG_SIZE EVENT_SIZE TimeStamp).
Local Abbreviation call :=
  (call INT_BITS LOG_SIZE EVENT_SIZE READY FAULT address_of TimeStamp).
Local Abbreviation calls :=
  (calls INT_BITS LOG_SIZE EVENT_SIZE READY FAULT address_of TimeStamp).
Local Abbreviation event_log_ok := (event_log_ok EVENT_SIZE).
Local Abbreviation ring_holds := (ring_holds EVENT_SIZE).

(** ** The event log as seen through every function

    On the event log and its history, every function but [InitEvents] acts
    as a sequence of calls of [LogEvent]. *)

Lemma LogEvent_events (Code Data1 : Z) (Data2 : Q) (s s' : State) :
  event_log s = event_log s' -> EventHistory s = EventHistory s' ->
  event_log (LogEvent Code Data1 Data2 s) =
    event_log (LogEvent Code Data1 Data2 s') /\
  EventHistory (LogEvent Code Data1 Data2 s) =
    EventHistory (LogEvent Code Data1 Data2 s').
Proof.
  intros H1 H2. rewrite !LogEvent_eq. unfold event_log in *. log_cbn.
  injection H1 as -> -> -> -> -> ->. rewrite H2. split; reflexivity.
Qed.

Lemma log_all_events (evs : list (Z * Z * Q)) (s s' : State) :
  event_log s = event_log s' -> EventHistory s = EventHistory s' ->
  event_log (log_all evs s) = event_log (log_all evs s') /\
  EventHistory (log_all evs s) = EventHistory (log_all evs s').
Proof.
  revert s s'. induction evs as [|e evs IH]; intros s s' H1 H2.
  - rewrite !log_all_nil. split; assumption.
  - rewrite !log_all_cons.
    destruct (LogEvent_events (fst (fst e)) (snd (fst e)) (snd e) s s' H1 H2).
    apply IH; assumption.
Qed.

Ltac untouched :=
  repeat match goal with x := _ |- _ => clearbody x end;
  try match goal with
      | |- _ (_ ?T) = _ ?T => tryif is_var T then fail else (generalize T; intro)
      end;
  unfold outside_data_log, event_log, drive_side, data_log, PWM_disable,
    latch_fault;
  log_cbn; reflexivity.

(** From [s], the state [t] is reached with at most [k] records logged and
    nothing else done to the event log. *)
Local Abbreviation logs_at_most k s t :=
  (exists evs : list (Z * Z * Q), (length evs <= k)%nat /\
     event_log t = event_log (log_all evs s) /\
     EventHistory t = EventHistory (log_all evs s)).

Lemma logs_refl (s t : State) :
  event_log t = event_log s -> EventHistory t = EventHistory s ->
  logs_at_most 0%nat s t.
Proof.
  intros H1 H2. exists []. rewrite log_all_nil. split; [reflexivity|].
  split; assumption.
Qed.

Lemma logs_one (Code Data1 : Z) (Data2 : Q) (s : State) :
  logs_at_most 1%nat s (LogEvent Code Data1 Data2 s).
Proof.
  exists [(Code, Data1, Data2)]. rewrite log_all_cons, log_all_nil.
  split; [reflexivity|]. split; reflexivity.
Qed.

Lemma logs_trans (j k : nat) (s t u : State) :
  logs_at_most j s t -> logs_at_most k t u ->
  logs_at_most (j + k)%nat s u.
Proof.
  intros (e1 & L1 & A1 & B1) (e2 & L2 & A2 & B2).
  exists (e1 ++ e2). rewrite length_app, log_all_app.
  split; [lia|].
  destruct (log_all_events e2 t (log_all e1 s) A1 B1) as [C1 C2].
  split; congruence.
Qed.

Lemma logs_weaken (j k : nat) (s t : State) :
  (j <= k)%nat -> logs_at_most j s t -> logs_at_most k s t.
Proof.
  intros Hjk (e & L & A & B). exists e. split; [lia|]. split; assumption.
Qed.

Ltac last_step j k :=
  match goal with
  | |- exists evs, _ /\ event_log (?f ?T) = _ (Logs.log_all _ _ _ _ ?s) /\ _ =>
    apply (logs_trans j k s T); [| generalize T; intro ]
  end.

Lemma logs_log_new_fault (fcode : Z) (data2 : Q) (s : State) :
  logs_at_most 1%nat s (log_new_fault INT_BITS EVENT_SIZE TimeStamp fcode data2 s).
Proof.
  unfold log_new_fault. destruct (_ =? 0).
  - apply logs_one.
  - apply (logs_weaken 0 1); [lia|]. apply logs_refl; untouched.
Qed.

Lemma logs_enter_fault_state (s : State) :
  logs_at_most 1%nat s (enter_fault_state INT_BITS EVENT_SIZE FAULT TimeStamp s).
Proof.
  unfold enter_fault_state. destruct (negb _).
  - apply (logs_trans 0 1 s (set_mainState FAULT s)).
    + apply logs_refl; untouched.
    + apply logs_one.
  - apply (logs_weaken 0 1); [lia|]. apply logs_refl; untouched.
Qed.

Lemma logs_leave_fault_state (s : State) :
  logs_at_most 1%nat s (leave_fault_state INT_BITS EVENT_SIZE READY FAULT TimeStamp s).
Proof.
  unfold leave_fault_state. destruct (_ =? _).
  - last_step 1%nat 0%nat; [apply logs_one|apply logs_refl; untouched].
  - apply (logs_weaken 0 1); [lia|]. apply logs_refl; untouched.
Qed.

Lemma logs_freeze_data_log (s : State) :
  logs_at_most 0%nat s (freeze_data_log s).
Proof.
  unfold freeze_data_log. destruct (_ =? _); apply logs_refl; untouched.
Qed.

Lemma logs_Fault (fcode : Z) (data2 : Q) (s : State) :
  logs_at_most 2%nat s (Fault fcode data2 s).
Proof.
  unfold Logs.Fault.
  last_step 2%nat 0%nat; [|apply logs_refl; untouched].
  last_step 2%nat 0%nat; [|apply logs_freeze_data_log].
  last_step 1%nat 1%nat; [|apply logs_enter_fault_state].
  last_step 1%nat 0%nat; [|apply logs_refl; untouched].
  last_step 0%nat 1%nat; [|apply logs_log_new_fault].
  apply logs_refl; untouched.
Qed.

Lemma logs_ResetFaults (s : State) :
  logs_at_most 2%nat s (ResetFaults s).
Proof.
  unfold Logs.ResetFaults.
  last_step 2%nat 0%nat; [|apply logs_refl; untouched].
  last_step 2%nat 0%nat; [|apply logs_refl; untouched].
  last_step 1%nat 1%nat; [|apply logs_leave_fault_state].
  last_step 0%nat 1%nat; [|apply logs_one].
  apply logs_refl; untouched.
Qed.

Lemma InitLog_outside (s : State) :
  outside_data_log (InitLog s) = outside_data_log s /\
  event_log (InitLog s) = event_log s /\
  drive_side (InitLog s) = drive_side s /\
  EventHistory (InitLog s) = EventHistory s /\
  Signals (InitLog s) = Signals s /\
  LogBuf (InitLog s) = LogBuf s.
Proof.
  destruct (InitLog_eq INT_BITS LOG_SIZE s) as (base & ptr & ->).
  repeat split; untouched.
Qed.

Lemma logs_log_trigger_change (s : State) :
  logs_at_most 1%nat s (log_trigger_change s).
Proof.
  unfold Logs.log_trigger_change, remember_trigger, log_if_changed.
  destruct (negb _).
  - last_step 1%nat 0%nat; [apply logs_one|apply logs_refl; untouched].
  - apply (logs_weaken 0 1); [lia|]. apply logs_refl; untouched.
Qed.

Lemma service_init_outside (s : State) :
  event_log (service_init s) = event_log s /\
  drive_side (service_init s) = drive_side s /\
  EventHistory (service_init s) = EventHistory s /\
  Signals (service_init s) = Signals s.
Proof.
  unfold Logs.service_init. destruct (negb _).
  - destruct (InitLog_outside s) as (_ & ? & ? & ? & ? & _).
    repeat split; assumption.
  - repeat split; untouched.
Qed.

Lemma take_sample_eq (s : State) :
  exists buf cnt trg,
    take_sample s =
    set_LogTrigger trg (set_LogCount cnt (set_LogBuf buf
      (set_LogSkipCount 0 s))).
Proof.
  unfold Logs.take_sample.
  destruct (record_channels_eq (set_LogSkipCount 0 s)) as (buf & ->).
  unfold count_down, end_of_buffer, stop_if_single, advance_count.
  log_cbn.
  destruct (_ =? LogLength s); [destruct (LogSingle s =? 1)|]; log_cbn;
    match goal with |- context [if ?c then _ else _] => destruct c end;
    eexists _, _, _; state_eq.
Qed.

Lemma record_data_outside (s : State) :
  event_log (record_data s) = event_log s /\
  drive_side (record_data s) = drive_side s /\
  EventHistory (record_data s) = EventHistory s /\
  Signals (record_data s) = Signals s.
Proof.
  unfold Logs.record_data. destruct (negb _); [destruct (_ <? _)|].
  - repeat split; untouched.
  - destruct (take_sample_eq s) as (buf & cnt & trg & ->).
    repeat split; untouched.
  - repeat split; untouched.
Qed.

Lemma logs_UpdateLog (s : State) : logs_at_most 1%nat s (UpdateLog s).
Proof.
  rewrite UpdateLog_eq.
  last_step 1%nat 0%nat;
    [|apply logs_refl; apply record_data_outside].
  last_step 1%nat 0%nat;
    [|apply logs_refl; apply service_init_outside].
  apply logs_log_trigger_change.
Qed.

Lemma DefaultLog_outside (i : Z) (s : State) :
  event_log (DefaultLog i s) = event_log s /\
  drive_side (DefaultLog i s) = drive_side s /\
  EventHistory (DefaultLog i s) = EventHistory s /\
  Signals (DefaultLog i s) = Signals s /\
  LogBuf (DefaultLog i s) = LogBuf s.
Proof.
  unfold Logs.DefaultLog.
  destruct i as [|[p|p|]|]; repeat split; untouched.
Qed.

(** Every call but [InitEvents] logs at most two records and does nothing
    else to the event log. *)
Lemma logs_call (c : Call) (s : State) :
  is_init_events c = false -> logs_at_most 2%nat s (call c s).
Proof.
  destruct c; cbn [is_init_events Logs.call]; intros H; try discriminate.
  - apply logs_Fault.
  - apply logs_ResetFaults.
  - apply (logs_weaken 1 2); [lia|]. apply logs_one.
  - destruct (DefaultLog_outside i s) as (A & _ & B & _).
    apply (logs_weaken 0 2); [lia|]. apply logs_refl; assumption.
  - destruct (InitLog_outside s) as (_ & A & _ & B & _).
    apply (logs_weaken 0 2); [lia|]. apply logs_refl; assumption.
  - apply (logs_weaken 1 2); [lia|]. apply logs_UpdateLog.
Qed.


(** ** The ring of events *)

Section Ring.

Hypothesis INT_BITS_min : 16 <= INT_BITS.
Hypothesis EVENT_SIZE_int : 0 < EVENT_SIZE < 2 ^ (INT_BITS - 1).

Lemma slot_view (s t : State) (j : Z) :
  event_log t = event_log s -> slot t j = slot s j.
Proof.
  unfold event_log, slot. intros H.
  injection H as -> -> -> -> -> _. reflexivity.
Qed.

Lemma event_log_ok_view (s t : State) :
  event_log t = event_log s -> event_log_ok s -> event_log_ok t.
Proof.
  unfold event_log, Logs.event_log_ok, Logs.events_wf. intros H.
  injection H as -> -> -> -> -> ->. trivial.
Qed.

Lemma ring_holds_view (m : nat) (s t : State) :
  event_log t = event_log s -> EventHistory t = EventHistory s ->
  ring_holds m s -> ring_holds m t.
Proof.
  intros H1 H2 R i e Hi Hn He.
  rewrite (slot_view s t _ H1).
  assert (EventIndex t = EventIndex s) as ->
    by (unfold event_log in H1; congruence).
  apply R; [assumption..|]. rewrite <- H2. exact He.
Qed.

Lemma event_log_ok_LogEvent (Code Data1 : Z) (Data2 : Q) (s : State) :
  event_log_ok s -> event_log_ok (LogEvent Code Data1 Data2 s).
Proof.
  intros [W I]. split.
  - apply events_wf_LogEvent; assumption.
  - rewrite EventIndex_LogEvent.
    apply (next_index_spec INT_BITS EVENT_SIZE INT_BITS_min EVENT_SIZE_int).
    exact I.
Qed.

Lemma behind_index (k i : Z) :
  0 <= k < EVENT_SIZE -> 0 <= i -> i + 1 < EVENT_SIZE ->
  ((k + 1) mod EVENT_SIZE - 1 - (i + 1)) mod EVENT_SIZE =
    (k - 1 - i) mod EVENT_SIZE /\
  (k - 1 - i) mod EVENT_SIZE <> k.
Proof.
  intros Hk Hi Hn.
  split.
  - replace ((k + 1) mod EVENT_SIZE - 1 - (i + 1))
      with ((k + 1) mod EVENT_SIZE - (i + 2)) by lia.
    rewrite Zminus_mod_idemp_l. f_equal. lia.
  - intros H.
    destruct (Z_lt_le_dec k (i + 1)) as [C|C].
    + replace (k - 1 - i) with (k - 1 - i + 1 * EVENT_SIZE - EVENT_SIZE) in H
        by lia.
      replace (k - 1 - i + 1 * EVENT_SIZE - EVENT_SIZE)
        with ((k - 1 - i + EVENT_SIZE) + (-1) * EVENT_SIZE) in H by lia.
      rewrite Z.mod_add in H by lia.
      rewrite Z.mod_small in H by lia. lia.
    + rewrite Z.mod_small in H by lia. lia.
Qed.

Lemma just_behind_index (k : Z) :
  0 <= k < EVENT_SIZE ->
  ((k + 1) mod EVENT_SIZE - 1 - 0) mod EVENT_SIZE = k.
Proof.
  intros Hk.
  replace ((k + 1) mod EVENT_SIZE - 1 - 0)
    with ((k + 1) mod EVENT_SIZE - 1) by lia.
  rewrite Zminus_mod_idemp_l.
  replace (k + 1 - 1) with k by lia. apply Z.mod_small. exact Hk.
Qed.

Lemma ring_holds_LogEvent (m : nat) (Code Data1 : Z) (Data2 : Q)
    (s : State) :
  event_log_ok s -> ring_holds m s ->
  ring_holds (S m) (LogEvent Code Data1 Data2 s).
Proof.
  intros [W I] R i e Hi Hn He.
  rewrite EventIndex_LogEvent.
  destruct (next_index_spec INT_BITS EVENT_SIZE INT_BITS_min EVENT_SIZE_int
              (EventIndex s) I) as [-> _].
  rewrite LogEvent_history in He.
  rewrite (slot_LogEvent INT_BITS EVENT_SIZE TimeStamp INT_BITS_min
             EVENT_SIZE_int) by assumption.
  destruct i as [|i].
  - cbn in He. injection He as <-. change (Z.of_nat 0) with 0.
    rewrite (just_behind_index (EventIndex s) I).
    rewrite Z.eqb_refl. reflexivity.
  - cbn [lookup list_lookup] in He.
    destruct (behind_index (EventIndex s) (Z.of_nat i) I) as (E1 & E2);
      [lia..|].
    replace (Z.of_nat (S i)) with (Z.of_nat i + 1) by lia.
    rewrite E1.
    replace (_ =? EventIndex s) with false by (symmetry; zbool).
    apply R; [lia|lia|exact He].
Qed.

Lemma log_all_ring (evs : list (Z * Z * Q)) :
  forall (m : nat) (s : State),
    event_log_ok s -> ring_holds m s ->
    event_log_ok (log_all evs s) /\
    ring_holds (length evs + m) (log_all evs s) /\
    exists l, length l = length evs /\
      EventHistory (log_all evs s) = l ++ EventHistory s.
Proof.
  induction evs as [|e evs IH]; intros m s Ok R.
  - rewrite log_all_nil. split; [exact Ok|]. split; [exact R|].
    exists []. split; reflexivity.
  - rewrite log_all_cons.
    set (t := LogEvent (fst (fst e)) (snd (fst e)) (snd e) s).
    assert (Ok' : event_log_ok t) by (apply event_log_ok_LogEvent; exact Ok).
    assert (R' : ring_holds (S m) t)
      by (apply ring_holds_LogEvent; assumption).
    assert (Ht : EventHistory t =
                 stamp (length (EventHistory s)) (fst (fst e))
                   (snd (fst e)) (snd e) :: EventHistory s)
      by apply LogEvent_history.
    clearbody t.
    destruct (IH (S m) t Ok' R') as (A & B & l & Hl & C).
    split; [exact A|]. split.
    + replace (length (e :: evs) + m)%nat with (length evs + S m)%nat
        by (cbn [length]; lia).
      exact B.
    + exists (l ++ [stamp (length (EventHistory s)) (fst (fst e))
                      (snd (fst e)) (snd e)]).
      split; [rewrite length_app; cbn [length]; lia|].
      rewrite C, Ht, <- app_assoc. reflexivity.
Qed.

Lemma calls_cons (c : Call) (cs : list Call) (s : State) :
  calls (c :: cs) s = calls cs (call c s).
Proof. exact (fold_left_cons _ c cs s). Qed.

Lemma calls_nil (s : State) : calls [] s = s.
Proof. reflexivity. Qed.

Lemma call_ring (c : Call) (m : nat) (s : State) :
  is_init_events c = false ->
  event_log_ok s -> ring_holds m s ->
  event_log_ok (call c s) /\
  exists l, EventHistory (call c s) = l ++ EventHistory s /\
    ring_holds (length l + m) (call c s).
Proof.
  intros Hc Ok R.
  destruct (logs_call c s Hc) as (evs & _ & V1 & V2).
  generalize dependent (call c s). intros t V1 V2.
  destruct (log_all_ring evs m s Ok R) as (A & B & l & Hl & C).
  split; [exact (event_log_ok_view _ _ V1 A)|].
  exists l. split; [congruence|].
  rewrite Hl. exact (ring_holds_view _ _ _ V1 V2 B).
Qed.

Lemma calls_ring (cs : list Call) :
  forall (m : nat) (s : State),
    forallb (fun c => negb (is_init_events c)) cs = true ->
    event_log_ok s -> ring_holds m s ->
    event_log_ok (calls cs s) /\
    exists l, EventHistory (calls cs s) = l ++ EventHistory s /\
      ring_holds (length l + m) (calls cs s).
Proof.
  induction cs as [|c cs IH]; intros m s Hcs Ok R.
  - rewrite calls_nil. split; [exact Ok|]. exists []. split; [reflexivity|].
    exact R.
  - rewrite calls_cons. cbn [forallb] in Hcs.
    apply andb_prop in Hcs as [Hc Hcs].
    apply negb_true_iff in Hc.
    destruct (call_ring c m s Hc Ok R) as (Ok1 & l1 & H1 & R1).
    generalize dependent (call c s). intros t Ok1 H1 R1.
    destruct (IH _ t Hcs Ok1 R1) as (Ok2 & l2 & H2 & R2).
    split; [exact Ok2|]. exists (l2 ++ l1). split.
    + rewrite H2, H1, app_assoc. reflexivity.
    + rewrite length_app.
      replace (length l2 + length l1 + m)%nat
        with (length l2 + (length l1 + m))%nat by lia.
      exact R2.
Qed.

(** X7: whatever functions are called, as long as [InitEvents] is not among
    them, the event log holds the newest records: the [i]-th newest record
    logged since [s], for [i] below the capacity, is in the slot [i + 1]
    places behind the write index, counted round the ring.  It does not
    matter whether [LogEvent] was called directly or by [Fault],
    [ResetFaults] or [UpdateLog]. *)
Theorem ring_keeps_newest (cs : list Call) (s : State) :
  event_log_ok s ->
  forallb (fun c => negb (is_init_events c)) cs = true ->
  let s' := calls cs s in
  forall (i : nat) (e : EventRecord),
    logged s s' !! i = Some e -> Z.of_nat i < EVENT_SIZE ->
    slot s' ((EventIndex s' - 1 - Z.of_nat i) mod EVENT_SIZE) = Some e.
Proof.
  intros Ok Hcs s' i e Hl Hn.
  assert (R0 : ring_holds 0 s) by (intros j ? Hj; lia).
  destruct (calls_ring cs 0 s Hcs Ok R0) as (_ & l & H & R).
  fold s' in H, R. clearbody s'.
  rewrite (logged_app l s s' H) in Hl.
  apply R.
  - apply lookup_lt_Some in Hl. lia.
  - exact Hn.
  - rewrite H. apply lookup_app_l_Some. exact Hl.
Qed.

Lemma event_log_ok_calls (cs : list Call) (s : State) :
  event_log_ok s -> event_log_ok (calls cs s).
Proof.
  revert s. induction cs as [|c cs IH]; intros s Ok.
  - exact Ok.
  - rewrite calls_cons. apply IH.
    destruct (is_init_events c) eqn:Hc.
    + destruct c; try discriminate. cbn [Logs.call].
      destruct Ok as [W _].
      destruct (InitEvents_fresh INT_BITS EVENT_SIZE EVENT_SIZE_int s W)
        as [W' I'].
      split; [exact W'|]. rewrite I'. lia.
    + assert (R0 : ring_holds 0 s) by (intros j ? Hj; lia).
      apply (call_ring c 0 s Hc Ok R0).
Qed.


Lemma event_log_ok_init_state (ms : Z) (sig : Z -> Q) :
  event_log_ok (init_state ms sig).
Proof.
  unfold Logs.event_log_ok, Logs.events_wf, Logs.init_state. log_cbn.
  rewrite !length_replicate. repeat split; lia.
Qed.

(** X8: the write index of the event log never leaves the arrays.  If it
    is inside them and the five arrays have their length, then so it is
    after any sequence of calls of the functions of Logs.c, and it is so
    from start-up: every store of [LogEvent] lands inside the arrays. *)
Theorem event_index_stays_in_range (cs : list Call) (s : State)
    (ms : Z) (sig : Z -> Q) :
  (event_log_ok s -> event_log_ok (calls cs s)) /\
  event_log_ok (calls cs (init_state ms sig)).
Proof.
  split.
  - apply event_log_ok_calls.
  - apply event_log_ok_calls, event_log_ok_init_state.
Qed.

End Ring.

(** ** Clearing the event log *)

Lemma slot_clear_slot (i j : Z) (s : State) :
  events_wf s -> 0 <= i < EVENT_SIZE ->
  slot (clear_slot i s) j = if j =? i then Some zero_event else slot s j.
Proof.
  unfold Logs.events_wf, slot, clear_slot. log_cbn.
  intros (H1 & H2 & H3 & H4 & H5) Hi.
  destruct (j =? i) eqn:E.
  - apply Z.eqb_eq in E. subst j.
    rewrite !load_store_eq by lia. reflexivity.
  - apply Z.eqb_neq in E.
    rewrite !load_store_ne by congruence. reflexivity.
Qed.

Lemma events_wf_clear_slot (i : Z) (s : State) :
  events_wf s -> events_wf (clear_slot i s).
Proof.
  unfold Logs.events_wf, clear_slot. log_cbn.
  rewrite !length_store. tauto.
Qed.

Lemma clear_slots (n : nat) :
  forall (i : Z) (s : State),
    events_wf s -> 0 <= i -> i + Z.of_nat n <= EVENT_SIZE ->
    forall j : Z,
      slot (for_loop n i clear_slot s) j =
      if (i <=? j) && (j <? i + Z.of_nat n) then Some zero_event
      else slot s j.
Proof.
  induction n as [|n IH]; intros i s W Hi Hn j.
  - cbn [for_loop]. replace (_ && _) with false by (symmetry; zbool).
    reflexivity.
  - cbn [for_loop].
    rewrite IH by (try apply events_wf_clear_slot; try assumption; lia).
    rewrite slot_clear_slot by (try assumption; lia).
    destruct (j =? i) eqn:E.
    + apply Z.eqb_eq in E. subst j.
      replace ((i <=? i) && (i <? i + Z.of_nat (S n))) with true
        by (symmetry; zbool).
      destruct (_ && _); reflexivity.
    + apply Z.eqb_neq in E.
      replace ((i <=? j) && (j <? i + Z.of_nat (S n)))
        with ((i + 1 <=? j) && (j <? i + 1 + Z.of_nat n)).
      * reflexivity.
      * destruct (i + 1 <=? j) eqn:A, (j <? i + 1 + Z.of_nat n) eqn:B,
          (i <=? j) eqn:C, (j <? i + Z.of_nat (S n)) eqn:D;
          try reflexivity; exfalso;
          rewrite ?Z.leb_le, ?Z.leb_gt, ?Z.ltb_lt, ?Z.ltb_ge in *; lia.
Qed.

Lemma clear_slots_outside (n : nat) (i : Z) (s : State) :
  let t := for_loop n i clear_slot s in
  data_log t = data_log s /\ drive_side t = drive_side s /\
  EventHistory t = EventHistory s /\ EventIndex t = EventIndex s /\
  Signals t = Signals s.
Proof.
  cbv zeta.
  apply (for_loop_invariant
           (fun t => data_log t = data_log s /\ drive_side t = drive_side s /\
                     EventHistory t = EventHistory s /\
                     EventIndex t = EventIndex s /\ Signals t = Signals s)).
  - intros k t (A & B & C & D & E).
    rewrite <- A, <- B, <- C, <- D, <- E.
    unfold clear_slot. repeat split; untouched.
  - repeat split; reflexivity.
Qed.

(** X9: [InitEvents] leaves all five fields of every slot zero and the
    write index 0, so no record logged before it can be read afterwards;
    it touches neither the data log nor the fault latch. *)
Theorem InitEvents_clears (s : State) :
  0 <= EVENT_SIZE -> events_wf s ->
  let t := InitEvents s in
  EventIndex t = 0 /\
  (forall j : Z, 0 <= j < EVENT_SIZE -> slot t j = Some zero_event) /\
  (forall j : Z, slot t j = Some zero_event \/ slot t j = None) /\
  data_log t = data_log s /\ drive_side t = drive_side s.
Proof.
  intros HN W t. subst t. unfold Logs.InitEvents.
  pose proof (clear_slots (Z.to_nat EVENT_SIZE) 0 s W) as S.
  destruct (clear_slots_outside (Z.to_nat EVENT_SIZE) 0 s)
    as (A & B & _).
  revert S A B.
  generalize (for_loop (Z.to_nat EVENT_SIZE) 0 clear_slot s). intros t S A B.
  split; [reflexivity|].
  assert (S' : forall j, slot (set_EventIndex 0 t) j =
                 if (0 <=? j) && (j <? 0 + Z.of_nat (Z.to_nat EVENT_SIZE))
                 then Some zero_event else slot s j).
  { intros j. rewrite <- S by lia. reflexivity. }
  split; [|split; [|split]].
  - intros j Hj. rewrite S'.
    replace (_ && _) with true by (symmetry; zbool). reflexivity.
  - intros j. rewrite S'. destruct (_ && _) eqn:E; [left; reflexivity|].
    right. unfold slot, load.
    destruct W as (W1 & _).
    destruct (0 <=? j) eqn:P; [|reflexivity].
    rewrite (proj2 (lookup_ge_None (EventTime1 s) (Z.to_nat j))); [reflexivity|].
    rewrite W1.
    rewrite Z.leb_le in P.
    apply andb_false_iff in E as [E|E];
      rewrite ?Z.leb_gt, ?Z.ltb_ge in E; lia.
  - rewrite <- A. untouched.
  - rewrite <- B. untouched.
Qed.


(** ** The fault latch *)

Lemma LogEvent_outside (Code Data1 : Z) (Data2 : Q) (s : State) :
  data_log (LogEvent Code Data1 Data2 s) = data_log s /\
  drive_side (LogEvent Code Data1 Data2 s) = drive_side s /\
  Signals (LogEvent Code Data1 Data2 s) = Signals s.
Proof. rewrite LogEvent_eq. repeat split; untouched. Qed.

Lemma Fault_outside (fcode : Z) (data2 : Q) (s : State) :
  let t := Fault fcode data2 s in
  data_log t = data_log (freeze_data_log s) /\
  drive_side t =
    (Z.lor (FaultWord s) (fault_mask fcode), FAULT, false, 0%Q, Flag2 s,
     FaultResetCount s) /\
  Signals t = Signals s.
Proof.
  cbv zeta.
  unfold Logs.Fault, freeze_data_log, enter_fault_state, latch_fault,
    log_new_fault, PWM_disable.
  log_cbn.
  destruct (Z.land (FaultWord s) (fault_mask fcode) =? 0);
    rewrite ?LogEvent_eq; log_cbn;
    (destruct (negb (mainState s =? FAULT)) eqn:M;
     [| apply negb_false_iff, Z.eqb_eq in M ]);
    rewrite ?LogEvent_eq; log_cbn;
    destruct (LogAuto s =? 1);
    unfold data_log, drive_side; log_cbn; rewrite ?M;
    repeat split; reflexivity.
Qed.


Lemma ResetFaults_outside (s : State) :
  let t := ResetFaults s in
  data_log t = data_log s /\
  drive_side t =
    (0, (if mainState s =? FAULT then READY else mainState s), PwmEnabled s,
     WeRef s, true, 20) /\
  Signals t = Signals s.
Proof.
  cbv zeta. unfold Logs.ResetFaults, leave_fault_state.
  rewrite !LogEvent_eq. log_cbn.
  destruct (mainState s =? FAULT);
    rewrite ?LogEvent_eq; unfold data_log, drive_side; log_cbn;
    repeat split; reflexivity.
Qed.

Lemma log_trigger_change_outside (s : State) :
  drive_side (log_trigger_change s) = drive_side s /\
  Signals (log_trigger_change s) = Signals s.
Proof.
  unfold Logs.log_trigger_change, remember_trigger, log_if_changed.
  destruct (negb _); rewrite ?LogEvent_eq; split; untouched.
Qed.

Lemma UpdateLog_outside (s : State) :
  drive_side (UpdateLog s) = drive_side s /\
  Signals (UpdateLog s) = Signals s.
Proof.
  rewrite UpdateLog_eq.
  destruct (log_trigger_change_outside s) as [A1 A2].
  revert A1 A2. generalize (log_trigger_change s). intros s1 A1 A2.
  destruct (service_init_outside s1) as (_ & B1 & _ & B2).
  revert B1 B2. generalize (service_init s1). intros s2 B1 B2.
  destruct (record_data_outside s2) as (_ & C1 & _ & C2).
  split; congruence.
Qed.

Lemma InitEvents_outside (s : State) :
  data_log (InitEvents s) = data_log s /\
  drive_side (InitEvents s) = drive_side s /\
  EventHistory (InitEvents s) = EventHistory s /\
  Signals (InitEvents s) = Signals s.
Proof.
  unfold Logs.InitEvents.
  destruct (clear_slots_outside (Z.to_nat EVENT_SIZE) 0 s)
    as (A & B & C & _ & D).
  revert A B C D.
  generalize (for_loop (Z.to_nat EVENT_SIZE) 0 clear_slot s).
  intros t A B C D. rewrite <- A, <- B, <- C, <- D.
  repeat split; untouched.
Qed.

(** What a call does to the fault latch and to the outputs of the drive:
    [Fault] and [ResetFaults] write them, the other functions do not. *)
Lemma call_drive_side (c : Call) (s : State) :
  drive_side (call c s) =
  match c with
  | CallFault fcode _ =>
      (Z.lor (FaultWord s) (fault_mask fcode), FAULT, false, 0%Q, Flag2 s,
       FaultResetCount s)
  | CallResetFaults =>
      (0, (if mainState s =? FAULT then READY else mainState s),
       PwmEnabled s, WeRef s, true, 20)
  | _ => drive_side s
  end.
Proof.
  destruct c; cbn [Logs.call].
  - apply Fault_outside.
  - apply ResetFaults_outside.
  - apply InitEvents_outside.
  - apply LogEvent_outside.
  - apply DefaultLog_outside.
  - apply InitLog_outside.
  - apply UpdateLog_outside.
Qed.

Lemma call_keeps_latch (c : Call) (s : State) :
  is_reset c = false ->
  (forall k : Z, Z.testbit (FaultWord s) k = true ->
                 Z.testbit (FaultWord (call c s)) k = true) /\
  (mainState s = FAULT -> mainState (call c s) = FAULT) /\
  (PwmEnabled s = false -> PwmEnabled (call c s) = false).
Proof.
  intros Hc. pose proof (call_drive_side c s) as H.
  revert H. generalize (call c s). intros t H.
  unfold drive_side in H.
  destruct c; try discriminate; injection H as -> -> -> _ _ _;
    repeat split; try tauto.
  intros k Hk. rewrite Z.lor_spec, Hk. reflexivity.
Qed.

(** X10: only [ResetFaults] releases the latch.  Through any sequence of
    calls without [ResetFaults], every bit that is set in [FaultWord]
    stays set, the state FAULT stays FAULT and disabled PWM outputs stay
    disabled. *)
Theorem latched_until_reset (cs : list Call) (s : State) :
  forallb (fun c => negb (is_reset c)) cs = true ->
  let s' := calls cs s in
  (forall k : Z, Z.testbit (FaultWord s) k = true ->
                 Z.testbit (FaultWord s') k = true) /\
  (mainState s = FAULT -> mainState s' = FAULT) /\
  (PwmEnabled s = false -> PwmEnabled s' = false).
Proof.
  revert s. induction cs as [|c cs IH]; intros s Hcs; cbv zeta.
  - rewrite calls_nil. tauto.
  - rewrite calls_cons. cbn [forallb] in Hcs.
    apply andb_prop in Hcs as [Hc Hcs]. apply negb_true_iff in Hc.
    destruct (call_keeps_latch c s Hc) as (A1 & A2 & A3).
    revert A1 A2 A3. generalize (call c s). intros t A1 A2 A3.
    destruct (IH t Hcs) as (B1 & B2 & B3).
    repeat split; auto.
Qed.

Lemma log_all_history_length (evs : list (Z * Z * Q)) (s : State) :
  length (EventHistory (log_all evs s)) =
  (length evs + length (EventHistory s))%nat.
Proof.
  revert s. induction evs as [|e evs IH]; intros s.
  - rewrite log_all_nil. reflexivity.
  - rewrite log_all_cons, IH, LogEvent_history. cbn [length]. lia.
Qed.

(** X11: [Fault] is fail-safe for every fault code and from every state:
    it leaves the PWM outputs disabled, the state FAULT and the speed
    reference 0; it stops the data log when [LogAuto] is 1 and leaves the
    trigger alone otherwise, without touching the buffer or the sample
    count; and it logs at most two records. *)
Theorem Fault_fail_safe (fcode : Z) (data2 : Q) (s : State) :
  let t := Fault fcode data2 s in
  PwmEnabled t = false /\ mainState t = FAULT /\ WeRef t = 0%Q /\
  LogTrigger t = (if LogAuto s =? 1 then 0 else LogTrigger s) /\
  LogBuf t = LogBuf s /\ LogCount t = LogCount s /\
  (length (logged s t) <= 2)%nat.
Proof.
  cbv zeta.
  destruct (Fault_outside fcode data2 s) as (D & V & _).
  destruct (logs_Fault fcode data2 s) as (evs & L & _ & H).
  revert D V H. generalize (Fault fcode data2 s). intros t D V H.
  unfold drive_side in V. injection V as _ -> -> -> _ _.
  unfold data_log, freeze_data_log in D.
  assert (LogTrigger t = (if LogAuto s =? 1 then 0 else LogTrigger s) /\
          LogBuf t = LogBuf s /\ LogCount t = LogCount s) as (-> & -> & ->).
  { destruct (LogAuto s =? 1); log_cbn; injection D; intros; auto. }
  repeat split.
  unfold logged. rewrite length_take, H, log_all_history_length. lia.
Qed.


(** X12: with [LogAuto] equal to 1, a fault freezes the captured data: on
    every later tick of [UpdateLog] the trigger is 0 and the buffer is the
    one the fault found. *)
Theorem Fault_freezes_capture (fcode : Z) (data2 : Q) (s : State)
    (n : nat) :
  LogAuto s = 1 ->
  let t := ticks n (Fault fcode data2 s) in
  LogTrigger t = 0 /\ LogBuf t = LogBuf s.
Proof.
  intros HA. cbv zeta.
  destruct (Fault_outside fcode data2 s) as (D & _ & _).
  revert D. generalize (Fault fcode data2 s). intros t D.
  unfold data_log, freeze_data_log in D. rewrite HA in D. cbn [Z.eqb Pos.eqb] in D.
  log_cbn.
  assert (LogTrigger t = 0 /\ LogBuf t = LogBuf s) as [T <-]
    by (injection D; intros; auto).
  apply (ticks_idle INT_BITS LOG_SIZE EVENT_SIZE TimeStamp n t T).
Qed.

(** ** The layout of the data log *)

Lemma in_int_range (x : Z) :
  0 < INT_BITS -> 0 <= x < 2 ^ (INT_BITS - 1) -> wrap_int x = x.
Proof.
  intros Hb Hx. apply wrap_small; [exact Hb|].
  assert (0 < 2 ^ (INT_BITS - 1)) by (apply Z.pow_pos_nonneg; lia). lia.
Qed.

Lemma partition_loop (n : nat) :
  forall (i : Z) (s : State),
    0 <= i -> i + Z.of_nat n <= Z.of_nat (length (LogBase s)) ->
    exists base,
      for_loop n i (set_channel_base INT_BITS) s = set_LogBase base s /\
      length base = length (LogBase s) /\
      forall j : Z,
        load j base =
        if (i <=? j) && (j <? i + Z.of_nat n)
        then Some (Some (wrap_int (j * LogLength s)))
        else load j (LogBase s).
Proof.
  induction n as [|n IH]; intros i s Hi Hn.
  - exists (LogBase s). split; [symmetry; apply set_LogBase_same|].
    split; [reflexivity|]. intros j.
    replace (_ && _) with false by (symmetry; zbool). reflexivity.
  - cbn [for_loop]. unfold Logs.set_channel_base at 2.
    set (b := store i (Some (wrap_int (i * LogLength s))) (LogBase s)).
    assert (Hb : length b = length (LogBase s)) by apply length_store.
    destruct (IH (i + 1) (set_LogBase b s)) as (base & E & L & C);
      [lia | log_cbn; lia |].
    log_cbn. exists base. split; [rewrite E; state_eq|].
    split; [congruence|].
    intros j. rewrite C. subst b.
    destruct (j =? i) eqn:Eji.
    + apply Z.eqb_eq in Eji. subst j.
      replace ((i + 1 <=? i) && (i <? i + 1 + Z.of_nat n)) with false
        by (symmetry; zbool).
      replace ((i <=? i) && (i <? i + Z.of_nat (S n))) with true
        by (symmetry; zbool).
      apply load_store_eq. lia.
    + apply Z.eqb_neq in Eji.
      rewrite load_store_ne by congruence.
      replace ((i <=? j) && (j <? i + Z.of_nat (S n)))
        with ((i + 1 <=? j) && (j <? i + 1 + Z.of_nat n)); [reflexivity|].
      destruct (i + 1 <=? j) eqn:A, (j <? i + 1 + Z.of_nat n) eqn:B,
        (i <=? j) eqn:C', (j <? i + Z.of_nat (S n)) eqn:D;
        try reflexivity; exfalso;
        rewrite ?Z.leb_le, ?Z.leb_gt, ?Z.ltb_lt, ?Z.ltb_ge in *; lia.
Qed.

Lemma bind_pointers_spec (s : State) :
  exists ptr,
    bind_pointers s = set_LogPtr ptr s /\
    length ptr = length (LogPtr s) /\
    ((9 <= length (LogPtr s))%nat ->
     take 9 ptr =
     [Z.land (LogAddr0 s) 65535; Z.land (LogAddr1 s) 65535;
      Z.land (LogAddr2 s) 65535; Z.land (LogAddr3 s) 65535;
      Z.land (LogAddr4 s) 65535; Z.land (LogAddr5 s) 65535;
      Z.land (LogAddr6 s) 65535; Z.land (LogAddr7 s) 65535;
      Z.land (LogAddr8 s) 65535]).
Proof.
  unfold bind_pointers. cbv zeta. eexists. split; [reflexivity|].
  split; [rewrite !length_store; reflexivity|].
  generalize (Z.land (LogAddr0 s) 65535) (Z.land (LogAddr1 s) 65535)
    (Z.land (LogAddr2 s) 65535) (Z.land (LogAddr3 s) 65535)
    (Z.land (LogAddr4 s) 65535) (Z.land (LogAddr5 s) 65535)
    (Z.land (LogAddr6 s) 65535) (Z.land (LogAddr7 s) 65535)
    (Z.land (LogAddr8 s) 65535).
  generalize (LogPtr s). intros l a0 a1 a2 a3 a4 a5 a6 a7 a8 Hl.
  do 9 (destruct l as [|? l]; [cbn [length] in Hl; lia|]).
  reflexivity.
Qed.

(** [InitLog] as one update, with the bases and the pointers it writes. *)
Lemma InitLog_spec (s : State) :
  0 <= LogChan s <= Z.of_nat (length (LogBase s)) ->
  exists base ptr,
    InitLog s =
    set_LogPtr ptr (set_LogSkipCount 0 (set_LogCount 0 (set_LogInit 0
      (set_LogBase base
         (set_LogLength (wrap_int (Z.quot LOG_SIZE (LogChan s)))
            (set_LogTrigger 0 s)))))) /\
    length base = length (LogBase s) /\
    (forall j : Z,
       load j base =
       if (0 <=? j) && (j <? LogChan s)
       then Some (Some (wrap_int
                          (j * wrap_int (Z.quot LOG_SIZE (LogChan s)))))
       else load j (LogBase s)) /\
    length ptr = length (LogPtr s) /\
    ((9 <= length (LogPtr s))%nat ->
     take 9 ptr =
     [Z.land (LogAddr0 s) 65535; Z.land (LogAddr1 s) 65535;
      Z.land (LogAddr2 s) 65535; Z.land (LogAddr3 s) 65535;
      Z.land (LogAddr4 s) 65535; Z.land (LogAddr5 s) 65535;
      Z.land (LogAddr6 s) 65535; Z.land (LogAddr7 s) 65535;
      Z.land (LogAddr8 s) 65535]).
Proof.
  intros Hc.
  unfold Logs.InitLog, Logs.divide_buffer, Logs.partition_buffer.
  log_cbn.
  set (s1 := set_LogLength _ (set_LogTrigger 0 s)).
  destruct (partition_loop (Z.to_nat (LogChan s)) 0 s1)
    as (base & -> & Lb & Cb); [lia | subst s1; log_cbn; lia |].
  match goal with
  | |- context [bind_pointers ?x] =>
    destruct (bind_pointers_spec x) as (ptr & -> & Lp & Cp)
  end.
  subst s1. log_cbn. exists base, ptr.
  split; [reflexivity|]. split; [exact Lb|]. split; [|split; assumption].
  intros j. rewrite Cb.
  replace (0 + Z.of_nat (Z.to_nat (LogChan s))) with (LogChan s) by lia.
  reflexivity.
Qed.

(** The cells of a laid-out data log: inside the buffer, and a cell of one
    channel is no cell of another. *)
Lemma layout_cells (chan len : Z) (i j c c' : Z) :
  0 <= i < chan -> 0 <= j < chan -> 0 <= c < len -> 0 <= c' < len ->
  0 <= i * len + c < chan * len /\
  (i * len + c = j * len + c' -> i = j /\ c = c').
Proof.
  intros Hi Hj Hc Hc'. split; [nia|].
  intros H.
  assert (i = j) by nia. subst j. split; [reflexivity|lia].
Qed.

(** X14: with between 1 and LOG_SIZE channels, [InitLog] lays the channels
    out in the buffer: every channel gets a record of LOG_SIZE / LogChan
    samples starting at [i * LogLength], every cell of every record is
    inside [LogBuf], and no cell belongs to two channels.  The sample
    count is 0 and the buffer itself is not written. *)
Theorem InitLog_lays_out_channels (s : State) :
  0 < INT_BITS -> LOG_SIZE < 2 ^ (INT_BITS - 1) ->
  0 < LogChan s <= LOG_SIZE ->
  LogChan s <= Z.of_nat (length (LogBase s)) ->
  LogChan s <= Z.of_nat (length (LogPtr s)) ->
  LOG_SIZE <= Z.of_nat (length (LogBuf s)) ->
  let t := InitLog s in
  layout_ok t /\
  LogChan t = LogChan s /\ LogLength t = LOG_SIZE / LogChan s /\
  LogCount t = 0 /\ LogBuf t = LogBuf s /\
  forall i c : Z,
    0 <= i < LogChan t -> 0 <= c < LogLength t ->
    load i (LogBase t) = Some (Some (i * LogLength t)) /\
    0 <= i * LogLength t + c < Z.of_nat (length (LogBuf t)) /\
    forall j c' : Z,
      0 <= j < LogChan t -> 0 <= c' < LogLength t ->
      i * LogLength t + c = j * LogLength t + c' -> i = j /\ c = c'.
Proof.
  intros Hb HS Hc HB HP HL. cbv zeta.
  destruct (InitLog_spec s) as (base & ptr & -> & Lb & Cb & Lp & _); [lia|].
  log_cbn.
  rewrite Z.quot_div_nonneg in * by lia.
  set (len := LOG_SIZE / LogChan s) in *.
  assert (Hlen : 0 < len /\ LogChan s * len <= LOG_SIZE).
  { subst len. split.
    - apply Z.div_str_pos. lia.
    - apply Z.mul_div_le. lia. }
  assert (Hw : wrap_int len = len) by (apply in_int_range; nia).
  rewrite Hw in *.
  assert (Hbase : forall i, 0 <= i < LogChan s ->
            load i base = Some (Some (i * len))).
  { intros i Hi. rewrite Cb.
    replace (_ && _) with true by (symmetry; zbool).
    rewrite in_int_range by (try assumption; nia). reflexivity. }
  assert (Ok : layout_ok
            (set_LogPtr ptr (set_LogSkipCount 0 (set_LogCount 0
               (set_LogInit 0 (set_LogBase base (set_LogLength len
                  (set_LogTrigger 0 s)))))))).
  { unfold layout_ok. log_cbn.
    split; [lia|]. split; [lia|]. split; [lia|]. split; [lia|].
    intros i Hi. split; [apply Hbase; exact Hi|].
    unfold load. replace (0 <=? i) with true by (symmetry; zbool).
    destruct (lookup_lt_is_Some_2 ptr (Z.to_nat i)) as [p Hp]; [lia|].
    exists p. exact Hp. }
  split; [exact Ok|].
  do 4 (split; [reflexivity|]).
  intros i c Hi Hc'. split; [apply Hbase; exact Hi|].
  split.
  - destruct (layout_cells (LogChan s) len i i c c); lia.
  - intros j c' Hj Hc''.
    apply (layout_cells (LogChan s) len i j c c'); assumption.
Qed.


(** The low 16 bits of an address survive its conversion to [int]. *)
Lemma land_wrap_int (a : Z) :
  16 <= INT_BITS -> Z.land (wrap_int a) 65535 = a mod 65536.
Proof.
  intros Hb. change 65535 with (Z.ones 16).
  rewrite Z.land_ones by lia. change (2 ^ 16) with 65536.
  unfold Logs.wrap_int, wrap.
  assert (E : 2 ^ INT_BITS = 65536 * 2 ^ (INT_BITS - 16)).
  { change 65536 with (2 ^ 16). rewrite <- Z.pow_add_r by lia.
    f_equal. lia. }
  rewrite (Z.mod_eq (a + 2 ^ (INT_BITS - 1)) (2 ^ INT_BITS))
    by (apply Z.pow_nonzero; lia).
  set (q := (a + 2 ^ (INT_BITS - 1)) / 2 ^ INT_BITS). rewrite E.
  replace (a + 2 ^ (INT_BITS - 1) - 65536 * 2 ^ (INT_BITS - 16) * q -
           2 ^ (INT_BITS - 1))
    with (a + (- (2 ^ (INT_BITS - 16) * q)) * 65536) by ring.
  apply Z.mod_add. lia.
Qed.

Lemma log_trigger_change_data (s : State) :
  data_log (log_trigger_change s) =
    data_log (set_OldTrigger (LogTrigger s) s) /\
  Signals (log_trigger_change s) = Signals s.
Proof.
  unfold Logs.log_trigger_change, remember_trigger, log_if_changed.
  destruct (negb _); rewrite ?LogEvent_eq; split; untouched.
Qed.

Lemma InitLog_LogPtr (s : State) :
  (9 <= length (LogPtr s))%nat ->
  take 9 (LogPtr (InitLog s)) =
  [Z.land (LogAddr0 s) 65535; Z.land (LogAddr1 s) 65535;
   Z.land (LogAddr2 s) 65535; Z.land (LogAddr3 s) 65535;
   Z.land (LogAddr4 s) 65535; Z.land (LogAddr5 s) 65535;
   Z.land (LogAddr6 s) 65535; Z.land (LogAddr7 s) 65535;
   Z.land (LogAddr8 s) 65535].
Proof.
  intros Hl. unfold Logs.InitLog, Logs.divide_buffer.
  match goal with
  | |- context [partition_buffer ?i ?x] =>
    destruct (partition_buffer_eq i x) as [base ->]
  end.
  match goal with
  | |- context [bind_pointers ?x] =>
    destruct (bind_pointers_spec x) as (ptr & -> & _ & C)
  end.
  log_cbn. apply C. exact Hl.
Qed.

Lemma DefaultLog_fields (s : State) :
  let s0 := DefaultLog 1 s in
  LogPtr s0 = LogPtr s /\ LogChan s0 = 9 /\ LogSkip s0 = 20 /\
  LogSingle s0 = 0 /\ LogAuto s0 = 1 /\ LogInit s0 = 1 /\
  LogBuf s0 = LogBuf s /\
  [LogAddr0 s0; LogAddr1 s0; LogAddr2 s0; LogAddr3 s0; LogAddr4 s0;
   LogAddr5 s0; LogAddr6 s0; LogAddr7 s0; LogAddr8 s0] =
  map (fun x => wrap_int (address_of x)) default_channels.
Proof.
  cbv zeta. unfold Logs.DefaultLog. log_cbn. repeat split; reflexivity.
Qed.

(** X15: after [DefaultLog(1)], the next [UpdateLog] services the
    initialisation it asked for: the nine channel pointers are the
    addresses of IdRef, IqRef, RpmRef, Id, Iq, RpmOut, VdRef, VqRef and
    ThetaOut in this order (their low 16 bits, which the conversion to
    [int] and back preserves), with nine channels, skip 20, circular mode
    and automatic freezing; recording is stopped and the buffer is not
    written. *)
Theorem DefaultLog_binds_channels (s : State) :
  16 <= INT_BITS -> (9 <= length (LogPtr s))%nat ->
  let t := UpdateLog (DefaultLog 1 s) in
  take 9 (LogPtr t) = map (fun x => address_of x mod 65536) default_channels
  /\ LogChan t = 9 /\ LogSkip t = 20 /\ LogSingle t = 0 /\ LogAuto t = 1 /\
  LogInit t = 0 /\ LogTrigger t = 0 /\ LogCount t = 0 /\ LogBuf t = LogBuf s.
Proof.
  intros Hb Hl. cbv zeta. rewrite UpdateLog_eq.
  pose proof (DefaultLog_fields s) as F. revert F.
  generalize (DefaultLog 1 s). intros s0 F.
  destruct F as (F1 & F2 & F3 & F4 & F5 & F6 & F7 & F8).
  destruct (log_trigger_change_data s0) as (D & _).
  revert D. generalize (log_trigger_change s0). intros s1 D.
  unfold data_log in D. log_cbn.
  injection D as D1 D2 D3 D4 D5 D6 D7 D8 D9 D10 D11 D12 A0 A1 A2 A3 A4 A5 A6
    A7 A8 D13.
  unfold Logs.service_init.
  replace (negb (LogInit s1 =? 0)) with true
    by (rewrite D11, F6; reflexivity).
  pose proof (InitLog_LogPtr s1) as P.
  destruct (InitLog_eq INT_BITS LOG_SIZE s1) as (base & ptr & E).
  rewrite E in *. clear E.
  unfold Logs.record_data. log_cbn.
  cbn [Z.eqb negb]. log_cbn.
  split.
  - rewrite P by (rewrite D7, F1; exact Hl).
    rewrite A0, A1, A2, A3, A4, A5, A6, A7, A8.
    injection F8 as -> -> -> -> -> -> -> -> ->.
    cbn [map default_channels]. rewrite !land_wrap_int by exact Hb.
    reflexivity.
  - repeat split; congruence.
Qed.


(** ** A tick that records *)

Lemma record_loop (n : nat) :
  forall (i : Z) (s : State),
    0 <= i -> 0 <= LogCount s < LogLength s ->
    (i + Z.of_nat n) * LogLength s <= Z.of_nat (length (LogBuf s)) ->
    (forall j : Z, i <= j < i + Z.of_nat n ->
       load j (LogBase s) = Some (Some (j * LogLength s)) /\
       exists p : Z, load j (LogPtr s) = Some p) ->
    exists buf,
      for_loop n i record_channel s = set_LogBuf buf s /\
      length buf = length (LogBuf s) /\
      (forall j p : Z, i <= j < i + Z.of_nat n ->
         load j (LogPtr s) = Some p ->
         load (j * LogLength s + LogCount s) buf = Some (Signals s p)) /\
      (forall k : Z,
         (forall j : Z, i <= j < i + Z.of_nat n ->
            k <> j * LogLength s + LogCount s) ->
         load k buf = load k (LogBuf s)).
Proof.
  induction n as [|n IH]; intros i s Hi Hc Hn H.
  - exists (LogBuf s). split; [symmetry; apply set_LogBuf_same|].
    split; [reflexivity|]. split; [intros; lia|reflexivity].
  - cbn [for_loop]. unfold record_channel at 2.
    destruct (H i) as [HB [p HP]]; [lia|]. rewrite HB, HP.
    set (b := store (i * LogLength s + LogCount s) (Signals s p) (LogBuf s)).
    assert (Lb : length b = length (LogBuf s)) by apply length_store.
    destruct (IH (i + 1) (set_LogBuf b s)) as (buf & E & L & C & O).
    + lia.
    + log_cbn. exact Hc.
    + log_cbn. rewrite Lb. lia.
    + log_cbn. intros j Hj. apply H. lia.
    + log_cbn. exists buf. split; [rewrite E; state_eq|].
      split; [congruence|]. split.
      * intros j q Hj Hq.
        destruct (Z.eq_dec j i) as [->|Hji].
        -- rewrite O by (intros j' Hj'; nia).
           rewrite HP in Hq. injection Hq as <-.
           subst b. apply load_store_eq. nia.
        -- apply C; [lia|exact Hq].
      * intros k Hk. rewrite O by (intros j Hj; apply Hk; lia).
        subst b. apply load_store_ne.
        intros E'. apply (Hk i); [lia|]. symmetry. exact E'.
Qed.

Lemma layout_ok_data (s u : State) (v : Z) :
  data_log u = data_log (set_OldTrigger v s) -> layout_ok s -> layout_ok u.
Proof.
  unfold data_log, layout_ok. log_cbn. intros D.
  injection D as -> -> -> -> -> _ -> _ _ _ _ _ _ _ _ _ _ _ _ _ _ _.
  trivial.
Qed.

Lemma count_advance (c len : Z) :
  0 < INT_BITS -> 0 <= c < len -> len < 2 ^ (INT_BITS - 1) ->
  wrap_int (c + 1) = c + 1 /\
  (if wrap_int (c + 1) =? len then 0 else wrap_int (c + 1)) =
    (c + 1) mod len /\
  0 <= (c + 1) mod len < len.
Proof.
  intros Hb Hc Hl.
  assert (W : wrap_int (c + 1) = c + 1) by (apply in_int_range; lia).
  split; [exact W|]. rewrite W. split.
  - destruct (Z.eqb_spec (c + 1) len) as [->|N].
    + symmetry. apply Z_mod_same_full.
    + symmetry. apply Z.mod_small. lia.
  - apply Z.mod_pos_bound. lia.
Qed.

(** The branch that records a sample, on a laid-out data log. *)
Lemma take_sample_layout (s : State) :
  0 < INT_BITS -> layout_ok s -> LogLength s < 2 ^ (INT_BITS - 1) ->
  let t := take_sample s in
  layout_ok t /\
  LogCount t = (LogCount s + 1) mod LogLength s /\
  (forall i p : Z, 0 <= i < LogChan s -> load i (LogPtr s) = Some p ->
     load (i * LogLength s + LogCount s) (LogBuf t) = Some (Signals s p)) /\
  (forall k : Z,
     (forall i : Z, 0 <= i < LogChan s ->
        k <> i * LogLength s + LogCount s) ->
     load k (LogBuf t) = load k (LogBuf s)) /\
  length (LogBuf t) = length (LogBuf s).
Proof.
  intros Hb (H1 & H2 & H3 & H4 & H5) Hl. cbv zeta.
  destruct (take_sample_spec INT_BITS s)
    as (_ & _ & _ & _ & _ & _ & _ & _ & Cnt & _).
  destruct (count_advance (LogCount s) (LogLength s) Hb H4 Hl)
    as (_ & Cm & Cr).
  rewrite Cm in Cnt. clear Cm.
  revert Cnt. unfold Logs.take_sample, record_channels. log_cbn.
  destruct (record_loop (Z.to_nat (LogChan s)) 0 (set_LogSkipCount 0 s))
    as (buf & -> & L & C & O).
  { lia. }
  { log_cbn. exact H4. }
  { log_cbn. lia. }
  { log_cbn. intros j Hj. apply H5. lia. }
  log_cbn.
  set (s1 := set_LogBuf buf (set_LogSkipCount 0 s)).
  assert (F : forall u : State,
            (exists cnt trg,
               u = set_LogTrigger trg (set_LogCount cnt s1)) ->
            LogCount u = (LogCount s + 1) mod LogLength s ->
            layout_ok u /\
            LogCount u = (LogCount s + 1) mod LogLength s /\
            (forall i p : Z, 0 <= i < LogChan s ->
               load i (LogPtr s) = Some p ->
               load (i * LogLength s + LogCount s) (LogBuf u) =
                 Some (Signals s p)) /\
            (forall k : Z,
               (forall i : Z, 0 <= i < LogChan s ->
                  k <> i * LogLength s + LogCount s) ->
               load k (LogBuf u) = load k (LogBuf s)) /\
            length (LogBuf u) = length (LogBuf s)).
  { intros u (cnt & trg & ->) Hcnt. subst s1. log_cbn.
    split.
    - unfold layout_ok. log_cbn. rewrite L, Hcnt.
      repeat split; try lia; apply H5; assumption.
    - split; [exact Hcnt|]. split; [|split; [|exact L]].
      + intros i p Hi Hp. apply C; [lia|exact Hp].
      + intros k Hk. apply O. intros j Hj. apply Hk. lia. }
  clearbody s1. intros Cnt. apply F; [|exact Cnt].
  clear F Cnt.
  unfold count_down, end_of_buffer, stop_if_single, advance_count.
  destruct (_ =? LogLength _); [destruct (LogSingle _ =? 1)|]; log_cbn;
    match goal with |- context [if ?c then _ else _] => destruct c end;
    eexists _, _; state_eq.
Qed.

(** [UpdateLog] with no initialisation pending: the trigger event and
    [OldTrigger], then the recording step. *)
Lemma UpdateLog_no_init_form (s : State) :
  LogInit s = 0 ->
  exists u,
    data_log u = data_log (set_OldTrigger (LogTrigger s) s) /\
    Signals u = Signals s /\ UpdateLog s = record_data u.
Proof.
  intros HI. rewrite UpdateLog_eq.
  destruct (log_trigger_change_data s) as (D & S).
  revert D S. generalize (log_trigger_change s). intros u D S.
  exists u. split; [exact D|]. split; [exact S|].
  unfold Logs.service_init.
  assert (LogInit u = 0) as ->
    by (unfold data_log in D; log_cbn; injection D; intros; congruence).
  reflexivity.
Qed.

(** X16: a tick that records, on a laid-out data log, stores the current
    value of each channel's signal in the cell [LogCount] of that
    channel's record, changes no other cell of the buffer, and advances
    the sample count by one modulo the record length. *)
Theorem recording_tick_stores_signals (s : State) :
  0 < INT_BITS -> layout_ok s -> LogLength s < 2 ^ (INT_BITS - 1) ->
  LogInit s = 0 -> LogTrigger s <> 0 -> LogSkip s <= LogSkipCount s ->
  let t := UpdateLog s in
  (forall i p : Z, 0 <= i < LogChan s -> load i (LogPtr s) = Some p ->
     load (i * LogLength s + LogCount s) (LogBuf t) = Some (Signals s p)) /\
  (forall k : Z,
     (forall i : Z, 0 <= i < LogChan s ->
        k <> i * LogLength s + LogCount s) ->
     load k (LogBuf t) = load k (LogBuf s)) /\
  LogCount t = (LogCount s + 1) mod LogLength s /\
  LogSkipCount t = 0.
Proof.
  intros Hb Ok Hl HI HT HS. cbv zeta.
  destruct (UpdateLog_no_init_form s HI) as (u & D & Sg & ->).
  pose proof (layout_ok_data s u _ D Ok) as Oku.
  unfold data_log in D. log_cbn.
  injection D as D1 D2 D3 D4 D5 D6 D7 D8 D9 D10 D11 D12 _ _ _ _ _ _ _ _ _ _.
  destruct (record_data_spec INT_BITS u)
    as (_ & _ & _ & _ & _ & _ & _ & _ & _ & R).
  rewrite R by lia. clear R.
  destruct (take_sample_layout u Hb Oku) as (_ & Cnt & C & O & _); [lia|].
  destruct (take_sample_spec INT_BITS u)
    as (_ & _ & _ & _ & _ & _ & _ & K & _).
  revert Cnt C O K. generalize (take_sample u). intros t Cnt C O K.
  rewrite D1, D2, D3, D5, D7, Sg in *.
  repeat split; assumption.
Qed.


Lemma ticks_S (n : nat) (s : State) : ticks (S n) s = ticks n (UpdateLog s).
Proof. reflexivity. Qed.

Lemma ticks_add (a b : nat) (s : State) :
  ticks (a + b) s = ticks b (ticks a s).
Proof.
  revert s. induction a as [|a IH]; intros s; [reflexivity|].
  cbn [Nat.add]. rewrite !ticks_S. apply IH.
Qed.

Lemma ticks_last (n : nat) (s : State) :
  ticks (S n) s = UpdateLog (ticks n s).
Proof.
  replace (S n) with (n + 1)%nat by lia. rewrite ticks_add. reflexivity.
Qed.

(** One tick on a laid-out data log with no initialisation pending. *)
Lemma UpdateLog_keeps_layout (s : State) :
  0 < INT_BITS -> layout_ok s -> LogLength s < 2 ^ (INT_BITS - 1) ->
  LogInit s = 0 ->
  let t := UpdateLog s in
  layout_ok t /\ LogInit t = 0 /\ LogLength t = LogLength s /\
  LogChan t = LogChan s /\ length (LogBuf t) = length (LogBuf s).
Proof.
  intros Hb Ok Hl HI. cbv zeta.
  destruct (UpdateLog_frame INT_BITS LOG_SIZE EVENT_SIZE TimeStamp s)
    as (_ & FI & _ & _ & FC & _).
  destruct (UpdateLog_no_init INT_BITS LOG_SIZE EVENT_SIZE TimeStamp s HI)
    as (FL & _).
  split; [|split; [exact FI|split; [exact FL|split; [exact FC|]]]];
    clear FI FL FC;
    destruct (UpdateLog_no_init_form s HI) as (u & D & Sg & ->);
    pose proof (layout_ok_data s u _ D Ok) as Oku;
    assert (Lu : length (LogBuf u) = length (LogBuf s) /\
                 LogLength u = LogLength s)
      by (unfold data_log in D; log_cbn; injection D; intros;
          split; congruence);
    destruct Lu as [Lu Ll];
    unfold Logs.record_data;
    (destruct (negb _); [destruct (_ <? _)|]).
  - unfold layout_ok in *. log_cbn. exact Oku.
  - apply take_sample_layout; [assumption..|lia].
  - exact Oku.
  - log_cbn. exact Lu.
  - destruct (take_sample_layout u Hb Oku) as (_ & _ & _ & _ & L); [lia|].
    congruence.
  - exact Lu.
Qed.

(** X17: ticks keep the layout.  On a laid-out data log with no
    initialisation pending, after any number of ticks the number of
    channels and the record length are unchanged and the sample count is
    still inside the record, so no tick stores outside a channel's
    record. *)
Theorem layout_kept_by_ticks (s : State) (n : nat) :
  0 < INT_BITS -> layout_ok s -> LogLength s < 2 ^ (INT_BITS - 1) ->
  LogInit s = 0 ->
  let t := ticks n s in
  layout_ok t /\ LogChan t = LogChan s /\ LogLength t = LogLength s /\
  0 <= LogCount t < LogLength s /\
  length (LogBuf t) = length (LogBuf s).
Proof.
  intros Hb. revert s. induction n as [|n IH]; intros s Ok Hl HI; cbv zeta.
  - cbn [Logs.ticks]. split; [exact Ok|].
    destruct Ok as (_ & _ & _ & H & _).
    split; [reflexivity|]. split; [reflexivity|]. split; [lia|reflexivity].
  - rewrite ticks_S.
    destruct (UpdateLog_keeps_layout s Hb Ok Hl HI) as (A & B & C & D & E).
    revert A B C D E. generalize (UpdateLog s). intros u A B C D E.
    destruct (IH u A) as (F & G & H & I & J); [lia|exact B|].
    rewrite <- C, <- D, <- E.
    split; [exact F|]. split; [exact G|]. split; [exact H|].
    split; [lia|exact J].
Qed.

(** The counters after a tick that records, from [UpdateLog_frame] and
    [UpdateLog_no_init]. *)
Lemma sample_tick_counts (s : State) :
  0 < INT_BITS -> LogInit s = 0 -> LogTrigger s <> 0 ->
  LogSkip s <= LogSkipCount s ->
  0 <= LogCount s < LogLength s -> LogLength s < 2 ^ (INT_BITS - 1) ->
  let t := UpdateLog s in
  LogInit t = 0 /\ LogSkip t = LogSkip s /\ LogSkipCount t = 0 /\
  LogSingle t = LogSingle s /\ LogLength t = LogLength s /\
  OldTrigger t = LogTrigger s /\
  LogCount t = (LogCount s + 1) mod LogLength s /\
  0 <= LogCount t < LogLength s /\
  LogTrigger t =
    counted_down
      (if (LogCount s + 1 =? LogLength s) && (LogSingle s =? 1) then 0
       else LogTrigger s).
Proof.
  intros Hb HI HT HS Hc Hl. cbv zeta.
  destruct (UpdateLog_frame INT_BITS LOG_SIZE EVENT_SIZE TimeStamp s)
    as (FO & FI & FS & FK & _ & _).
  destruct (UpdateLog_no_init INT_BITS LOG_SIZE EVENT_SIZE TimeStamp s HI)
    as (FL & _ & R).
  destruct (R HT HS) as (R1 & R2 & R3). clear R.
  destruct (count_advance (LogCount s) (LogLength s) Hb Hc Hl)
    as (W & Cm & Cr).
  rewrite Cm in R2. rewrite W in R3.
  revert FO FI FS FK FL R1 R2 R3. generalize (UpdateLog s).
  intros t FO FI FS FK FL R1 R2 R3.
  rewrite R2. repeat split; try assumption; lia.
Qed.

Lemma skip_tick_counts (s : State) :
  0 < INT_BITS -> LogInit s = 0 -> LogTrigger s <> 0 ->
  0 <= LogSkipCount s < LogSkip s -> LogSkip s < 2 ^ (INT_BITS - 1) ->
  let t := UpdateLog s in
  LogInit t = 0 /\ LogSkip t = LogSkip s /\
  LogSkipCount t = LogSkipCount s + 1 /\
  LogSingle t = LogSingle s /\ LogLength t = LogLength s /\
  OldTrigger t = LogTrigger s /\
  LogCount t = LogCount s /\ LogTrigger t = LogTrigger s /\
  LogBuf t = LogBuf s.
Proof.
  intros Hb HI HT HS Hk. cbv zeta.
  destruct (UpdateLog_frame INT_BITS LOG_SIZE EVENT_SIZE TimeStamp s)
    as (FO & FI & FS & FK & _ & _).
  destruct (UpdateLog_no_init INT_BITS LOG_SIZE EVENT_SIZE TimeStamp s HI)
    as (FL & R & _).
  destruct R as (R1 & R2 & R3 & R4); [exact HT|lia|].
  rewrite in_int_range in R3 by lia.
  repeat split; assumption.
Qed.

(** Skipped ticks: nothing is recorded while the skip counter runs up. *)
Lemma skip_run (m : nat) :
  forall s : State,
    0 < INT_BITS -> LogInit s = 0 -> LogTrigger s <> 0 ->
    0 <= LogSkipCount s -> LogSkipCount s + Z.of_nat m <= LogSkip s ->
    LogSkip s < 2 ^ (INT_BITS - 1) ->
    let t := ticks m s in
    LogInit t = 0 /\ LogSkip t = LogSkip s /\
    LogSkipCount t = LogSkipCount s + Z.of_nat m /\
    LogSingle t = LogSingle s /\ LogLength t = LogLength s /\
    LogCount t = LogCount s /\ LogTrigger t = LogTrigger s /\
    LogBuf t = LogBuf s.
Proof.
  induction m as [|m IH]; intros s Hb HI HT H0 Hm Hk; cbv zeta.
  - cbn [Logs.ticks]. repeat split; try assumption; lia.
  - rewrite ticks_S.
    destruct (skip_tick_counts s Hb HI HT) as (A & B & C & D & E & _ & F & G & H);
      [lia|exact Hk|].
    revert A B C D E F G H. generalize (UpdateLog s).
    intros u A B C D E F G H.
    destruct (IH u Hb A) as (A' & B' & C' & D' & E' & F' & G' & H');
      [congruence|lia|lia|lia|].
    repeat split; try congruence; lia.
Qed.

(** [j] whole cycles of skipped ticks and one recording tick. *)
Lemma sample_cycles (j : nat) :
  forall s : State,
    0 < INT_BITS -> LogInit s = 0 -> LogSingle s <> 1 -> 0 < LogTrigger s ->
    LogSkipCount s = 0 -> 0 <= LogSkip s < 2 ^ (INT_BITS - 1) ->
    0 <= LogCount s < LogLength s -> LogLength s < 2 ^ (INT_BITS - 1) ->
    let t := ticks (j * S (Z.to_nat (LogSkip s))) s in
    LogInit t = 0 /\ LogSingle t = LogSingle s /\
    LogTrigger t = LogTrigger s /\ LogSkipCount t = 0 /\
    LogSkip t = LogSkip s /\ LogLength t = LogLength s /\
    LogCount t = (LogCount s + Z.of_nat j) mod LogLength s.
Proof.
  induction j as [|j IH]; intros s Hb HI H1 HT HK HS Hc Hl; cbv zeta.
  - cbn [Nat.mul Logs.ticks]. rewrite Z.add_0_r, Z.mod_small by lia.
    repeat split; try reflexivity; assumption.
  - replace (S j * S (Z.to_nat (LogSkip s)))%nat
      with (Z.to_nat (LogSkip s) + (1 + j * S (Z.to_nat (LogSkip s))))%nat
      by lia.
    rewrite ticks_add.
    destruct (skip_run (Z.to_nat (LogSkip s)) s Hb HI)
      as (A & B & C & D & E & F & G & _); try lia.
    revert A B C D E F G. generalize (ticks (Z.to_nat (LogSkip s)) s).
    intros u A B C D E F G.
    rewrite ticks_add. change (ticks 1 u) with (UpdateLog u).
    destruct (sample_tick_counts u Hb A)
      as (A' & B' & C' & D' & E' & _ & F' & G' & H'); try lia.
    replace (LogSingle u =? 1) with false in H' by (symmetry; zbool).
    rewrite andb_false_r in H'.
    unfold Logs.counted_down in H'.
    replace (LogTrigger u <? 0) with false in H' by (symmetry; zbool).
    revert A' B' C' D' E' F' G' H'. generalize (UpdateLog u).
    intros v A' B' C' D' E' F' G' H'.
    rewrite B in *.
    destruct (IH v) as (P1 & P2 & P3 & P4 & P5 & P6 & P7); try lia.
    rewrite B' in P1, P2, P3, P4, P5, P6, P7.
    rewrite P1, P2, P3, P4, P5, P6, P7, E', E, F', F, H', G, D', D.
    do 6 (split; [reflexivity|]).
    rewrite ?E, Zplus_mod_idemp_l. f_equal. lia.
Qed.

(** X18: with skip factor [LogSkip], the circular logger records one sample
    every [LogSkip + 1] ticks: after [j] whole cycles and [r <= LogSkip]
    further ticks the sample count has advanced by [j] (modulo the record
    length), the skip counter is [r], and the [r] further ticks have left
    the buffer as it was after the [j] cycles. *)
Theorem one_sample_every_skip_plus_one (s : State) (j r : nat) :
  0 < INT_BITS -> LogInit s = 0 -> LogSingle s <> 1 -> 0 < LogTrigger s ->
  LogSkipCount s = 0 -> 0 <= LogSkip s < 2 ^ (INT_BITS - 1) ->
  0 <= LogCount s < LogLength s -> LogLength s < 2 ^ (INT_BITS - 1) ->
  Z.of_nat r <= LogSkip s ->
  let t := ticks (j * S (Z.to_nat (LogSkip s)) + r) s in
  LogCount t = (LogCount s + Z.of_nat j) mod LogLength s /\
  LogSkipCount t = Z.of_nat r /\ LogTrigger t = LogTrigger s /\
  LogBuf t = LogBuf (ticks (j * S (Z.to_nat (LogSkip s))) s).
Proof.
  intros Hb HI H1 HT HK HS Hc Hl Hr. cbv zeta.
  rewrite ticks_add.
  destruct (sample_cycles j s Hb HI H1 HT HK HS Hc Hl)
    as (P1 & P2 & P3 & P4 & P5 & P6 & P7).
  revert P1 P2 P3 P4 P5 P6 P7.
  generalize (ticks (j * S (Z.to_nat (LogSkip s))) s).
  intros u P1 P2 P3 P4 P5 P6 P7.
  destruct (skip_run r u Hb P1) as (_ & _ & C & _ & _ & F & G & H);
    try lia.
  rewrite C, F, G, H, P3, P4, P7. repeat split; lia.
Qed.


(** Recording ticks below the end of the record, with no skipping. *)
Lemma positive_run (m : nat) :
  forall s : State,
    0 < INT_BITS -> LogInit s = 0 -> 0 < LogTrigger s ->
    LogSkip s <= 0 -> 0 <= LogSkipCount s ->
    0 <= LogCount s -> LogCount s + Z.of_nat m < LogLength s ->
    LogLength s < 2 ^ (INT_BITS - 1) ->
    let t := ticks m s in
    LogInit t = 0 /\ LogSkip t = LogSkip s /\ 0 <= LogSkipCount t /\
    LogSingle t = LogSingle s /\ LogLength t = LogLength s /\
    LogTrigger t = LogTrigger s /\ LogCount t = LogCount s + Z.of_nat m.
Proof.
  induction m as [|m IH]; intros s Hb HI HT HK HS Hc Hm Hl; cbv zeta.
  - cbn [Logs.ticks]. repeat split; try assumption; lia.
  - rewrite ticks_S.
    destruct (sample_tick_counts s Hb HI)
      as (A & B & C & D & E & _ & F & G & H); try lia.
    replace (LogCount s + 1 =? LogLength s) with false in H
      by (symmetry; zbool).
    cbn [andb] in H. unfold Logs.counted_down in H.
    replace (LogTrigger s <? 0) with false in H by (symmetry; zbool).
    rewrite Z.mod_small in F by lia.
    revert A B C D E F G H. generalize (UpdateLog s).
    intros u A B C D E F G H.
    destruct (IH u Hb A) as (A' & B' & C' & D' & E' & F' & G'); try lia.
    all: repeat split; try congruence; lia.
Qed.

(** X19: single-shot mode records to the end of the record and stops.
    From sample count [c], with no skipping, the trigger keeps its value
    and the count runs up during the first [LogLength - c - 1] ticks; the
    tick that follows stops the logger, and from then on the trigger is 0,
    the count is 0, and the buffer does not change. *)
Theorem single_shot_records_one_buffer (s : State) (m j : nat) :
  0 < INT_BITS -> LogInit s = 0 -> LogSingle s = 1 -> 0 < LogTrigger s ->
  LogSkip s <= 0 -> 0 <= LogSkipCount s ->
  0 <= LogCount s < LogLength s -> LogLength s < 2 ^ (INT_BITS - 1) ->
  let n := Z.to_nat (LogLength s - LogCount s) in
  ((m < n)%nat ->
   LogTrigger (ticks m s) = LogTrigger s /\
   LogCount (ticks m s) = LogCount s + Z.of_nat m) /\
  LogTrigger (ticks (n + j) s) = 0 /\
  LogCount (ticks (n + j) s) = 0 /\
  LogBuf (ticks (n + j) s) = LogBuf (ticks n s).
Proof.
  intros Hb HI H1 HT HK HS Hc Hl n. split.
  - intros Hm.
    destruct (positive_run m s Hb HI HT HK HS) as (_ & _ & _ & _ & _ & F & G);
      try lia.
    all: split; assumption.
  - assert (En : n = S (n - 1)) by lia.
    assert (T : LogTrigger (ticks n s) = 0 /\ LogCount (ticks n s) = 0 /\
                LogInit (ticks n s) = 0).
    { rewrite En, ticks_last.
      destruct (positive_run (n - 1) s Hb HI HT HK HS)
        as (A & B & C & D & E & F & G); try lia.
      revert A B C D E F G. generalize (ticks (n - 1) s).
      intros u A B C D E F G.
      destruct (sample_tick_counts u Hb A)
        as (A' & _ & _ & _ & _ & _ & F' & _ & H'); try lia.
      replace (LogCount u + 1 =? LogLength u) with true in H'
        by (symmetry; zbool).
      replace (LogSingle u =? 1) with true in H' by (symmetry; zbool).
      cbn [andb] in H'. unfold Logs.counted_down in H'.
      cbn [Z.ltb Z.compare] in H'.
      split; [exact H'|]. split; [|exact A'].
      rewrite F'. replace (LogCount u + 1) with (LogLength u) by lia.
      apply Z_mod_same_full. }
    destruct T as (T1 & T2 & T3).
    rewrite ticks_add. revert T1 T2 T3. generalize (ticks n s).
    intros u T1 T2 T3.
    destruct (ticks_idle INT_BITS LOG_SIZE EVENT_SIZE TimeStamp j u T1)
      as [I1 I2].
    split; [exact I1|]. split; [|exact I2].
    clear I1 I2. revert u T1 T2 T3. induction j as [|j IH]; intros u T1 T2 T3.
    + exact T2.
    + rewrite ticks_S.
      destruct (UpdateLog_no_init_form u T3) as (v & D & _ & E).
      assert (V : LogTrigger v = 0 /\ LogCount v = 0 /\ LogInit v = 0)
        by (unfold data_log in D; log_cbn; injection D; intros;
            repeat split; congruence).
      destruct (record_data_spec INT_BITS v)
        as (_ & _ & _ & _ & _ & _ & _ & R & _).
      rewrite R in E by tauto. rewrite E. apply IH; tauto.
Qed.

(** A negative trigger that counts up, with no skipping. *)
Lemma countdown_run (m : nat) :
  forall s : State,
    0 < INT_BITS -> LogInit s = 0 -> LogSingle s <> 1 ->
    LogSkip s <= 0 -> 0 <= LogSkipCount s ->
    0 <= LogCount s < LogLength s -> LogLength s < 2 ^ (INT_BITS - 1) ->
    - 2 ^ (INT_BITS - 1) <= LogTrigger s ->
    LogTrigger s + Z.of_nat m <= 0 ->
    let t := ticks m s in
    LogInit t = 0 /\
    LogTrigger t = LogTrigger s + Z.of_nat m /\
    LogCount t = (LogCount s + Z.of_nat m) mod LogLength s.
Proof.
  induction m as [|m IH]; intros s Hb HI H1 HK HS Hc Hl Hlo Hm; cbv zeta.
  - cbn [Logs.ticks]. rewrite !Z.add_0_r, Z.mod_small by lia.
    repeat split; assumption.
  - rewrite ticks_S.
    destruct (sample_tick_counts s Hb HI)
      as (A & B & C & D & E & _ & F & G & H); try lia.
    replace (LogSingle s =? 1) with false in H by (symmetry; zbool).
    rewrite andb_false_r in H. unfold Logs.counted_down in H.
    replace (LogTrigger s <? 0) with true in H by (symmetry; zbool).
    assert (P : 0 < 2 ^ (INT_BITS - 1)) by (apply Z.pow_pos_nonneg; lia).
    unfold Logs.wrap_int in H. rewrite wrap_small in H by lia.
    revert A B C D E F G H. generalize (UpdateLog s).
    intros u A B C D E F G H.
    assert (Tu : LogTrigger u = LogTrigger s + 1) by lia.
    assert (Su : LogSingle u <> 1) by congruence.
    destruct (IH u Hb A Su) as (A' & B' & C'); [lia..|].
    split; [exact A'|]. split; [lia|].
    rewrite C', E, F, Zplus_mod_idemp_l. f_equal. lia.
Qed.

(** X20: a negative trigger [-n] records exactly [n] samples.  With no
    skipping and in circular mode, each of the first [n] ticks records a
    sample and adds 1 to the trigger; after [n] ticks the trigger is 0 and
    the buffer does not change any more. *)
Theorem negative_trigger_counts_samples (s : State) (m j : nat) :
  0 < INT_BITS -> LogInit s = 0 -> LogSingle s <> 1 ->
  LogSkip s <= 0 -> 0 <= LogSkipCount s ->
  0 <= LogCount s < LogLength s -> LogLength s < 2 ^ (INT_BITS - 1) ->
  - 2 ^ (INT_BITS - 1) <= LogTrigger s < 0 ->
  let n := Z.to_nat (- LogTrigger s) in
  ((m <= n)%nat ->
   LogTrigger (ticks m s) = LogTrigger s + Z.of_nat m /\
   LogCount (ticks m s) = (LogCount s + Z.of_nat m) mod LogLength s) /\
  LogTrigger (ticks (n + j) s) = 0 /\
  LogBuf (ticks (n + j) s) = LogBuf (ticks n s).
Proof.
  intros Hb HI H1 HK HS Hc Hl HT n. split.
  - intros Hm.
    destruct (countdown_run m s Hb HI H1 HK HS Hc Hl) as (_ & A & B);
      try lia.
    all: split; assumption.
  - destruct (countdown_run n s Hb HI H1 HK HS Hc Hl) as (_ & A & _);
      try lia.
    assert (T : LogTrigger (ticks n s) = 0) by lia.
    rewrite ticks_add.
    apply (ticks_idle INT_BITS LOG_SIZE EVENT_SIZE TimeStamp j _ T).
Qed.


(** While a negative trigger counts up, the trigger differs from its value
    on the pass before at every tick: every tick logs a record. *)
Lemma countdown_events (m : nat) :
  forall s : State,
    0 < INT_BITS -> LogInit s = 0 -> LogSingle s <> 1 ->
    LogSkip s <= 0 -> 0 <= LogSkipCount s ->
    0 <= LogCount s < LogLength s -> LogLength s < 2 ^ (INT_BITS - 1) ->
    - 2 ^ (INT_BITS - 1) <= LogTrigger s <= 0 ->
    LogTrigger s <> OldTrigger s ->
    LogTrigger s + Z.of_nat m <= 1 ->
    exists l,
      EventHistory (ticks m s) = l ++ EventHistory s /\
      length l = m /\
      Forall (fun e => ev_code e = E_DATALOG) l.
Proof.
  induction m as [|m IH]; intros s Hb HI H1 HK HS Hc Hl HT HO Hm.
  - exists []. repeat split. constructor.
  - rewrite ticks_S.
    destruct (UpdateLog_frame INT_BITS LOG_SIZE EVENT_SIZE TimeStamp s)
      as (_ & _ & _ & _ & _ & FH).
    replace (LogTrigger s =? OldTrigger s) with false in FH
      by (symmetry; zbool).
    destruct m as [|m].
    + exists [stamp (length (EventHistory s)) E_DATALOG (LogTrigger s)
                (float_of_int (LogSkip s))].
      split; [exact FH|]. split; [reflexivity|].
      constructor; [reflexivity|constructor].
    + destruct (sample_tick_counts s Hb HI)
        as (A & B & C & D & E & O & F & G & H); try lia.
      replace (LogSingle s =? 1) with false in H by (symmetry; zbool).
      rewrite andb_false_r in H. unfold Logs.counted_down in H.
      replace (LogTrigger s <? 0) with true in H by (symmetry; zbool).
      assert (P : 0 < 2 ^ (INT_BITS - 1)) by (apply Z.pow_pos_nonneg; lia).
      unfold Logs.wrap_int in H. rewrite wrap_small in H by lia.
      revert FH A B C D E O F G H. generalize (UpdateLog s).
      intros u FH A B C D E O F G H.
      assert (Su : LogSingle u <> 1) by congruence.
      destruct (IH u Hb A Su) as (l & L1 & L2 & L3); [lia..|].
      exists (l ++ [stamp (length (EventHistory s)) E_DATALOG (LogTrigger s)
                      (float_of_int (LogSkip s))]).
      split; [rewrite L1, FH, <- app_assoc; reflexivity|].
      split; [rewrite length_app, L2; cbn [length]; lia|].
      apply Forall_app. split; [exact L3|].
      constructor; [reflexivity|constructor].
Qed.

Lemma ticks_calls (m : nat) (s : State) :
  ticks m s = calls (replicate m CallUpdateLog) s.
Proof.
  revert s. induction m as [|m IH]; intros s; [reflexivity|].
  cbn [replicate]. rewrite calls_cons, ticks_S. apply IH.
Qed.

Lemma count_code_all (code : Z) (l : list EventRecord) :
  Forall (fun e => ev_code e = code) l -> count_code code l = length l.
Proof.
  intros H. unfold count_code. induction H as [|e l He Hl IH].
  - reflexivity.
  - rewrite filter_cons_True by exact He. cbn [length]. f_equal. exact IH.
Qed.

(** X21: while a negative trigger counts up, every tick sees a trigger
    that differs from the one of the pass before, so every tick logs a
    data-log record: [n] samples cost [n + 1] records.  When [n + 1] is
    at least the capacity of the event log, every slot of the log ends up
    holding a data-log record, whatever was logged before. *)
Theorem countdown_floods_event_log (s : State) (m : nat) :
  16 <= INT_BITS -> 0 < EVENT_SIZE < 2 ^ (INT_BITS - 1) ->
  event_log_ok s ->
  LogInit s = 0 -> LogSingle s <> 1 ->
  LogSkip s <= 0 -> 0 <= LogSkipCount s ->
  0 <= LogCount s < LogLength s -> LogLength s < 2 ^ (INT_BITS - 1) ->
  - 2 ^ (INT_BITS - 1) <= LogTrigger s < 0 ->
  LogTrigger s <> OldTrigger s ->
  let n := Z.to_nat (- LogTrigger s) in
  ((m <= n + 1)%nat ->
   length (logged s (ticks m s)) = m /\
   count_code E_DATALOG (logged s (ticks m s)) = m) /\
  (EVENT_SIZE <= Z.of_nat n + 1 ->
   forall k : Z, 0 <= k < EVENT_SIZE ->
     exists e, slot (ticks (n + 1) s) k = Some e /\ ev_code e = E_DATALOG).
Proof.
  intros Hb HE Ok HI H1 HK HS Hc Hl HT HO n.
  assert (Hb' : 0 < INT_BITS) by lia.
  split.
  - intros Hm.
    destruct (countdown_events m s Hb' HI H1 HK HS Hc Hl)
      as (l & L1 & L2 & L3); [lia..|].
    rewrite (logged_app l s _ L1).
    split; [exact L2|]. rewrite count_code_all by exact L3. exact L2.
  - intros HN k Hk.
    destruct (countdown_events (n + 1) s Hb' HI H1 HK HS Hc Hl)
      as (l & L1 & L2 & L3); [lia..|].
    assert (R0 : ring_holds 0 s) by (intros i ? Hi; lia).
    destruct (calls_ring Hb HE (replicate (n + 1) CallUpdateLog) 0 s)
      as (_ & l' & L1' & R); [|exact Ok|exact R0|].
    { clear. induction (n + 1)%nat as [|a IH]; [reflexivity|exact IH]. }
    rewrite <- ticks_calls in L1', R.
    revert L1 L1' R. generalize (ticks (n + 1) s). intros t L1 L1' R.
    assert (l' = l) by (apply (app_inv_tail (EventHistory s)); congruence).
    subst l'. clear L1'.
    set (i := (EventIndex t - 1 - k) mod EVENT_SIZE).
    assert (Hi : 0 <= i < EVENT_SIZE) by (apply Z.mod_pos_bound; lia).
    destruct (lookup_lt_is_Some_2 l (Z.to_nat i)) as [e He]; [lia|].
    exists e. split.
    + replace k with ((EventIndex t - 1 - Z.of_nat (Z.to_nat i))
                        mod EVENT_SIZE).
      * apply R; [lia|lia|].
        rewrite L1. apply lookup_app_l_Some. exact He.
      * rewrite Z2Nat.id by lia. subst i.
        rewrite Zminus_mod_idemp_r.
        replace (EventIndex t - 1 - (EventIndex t - 1 - k)) with k by lia.
        apply Z.mod_small. exact Hk.
    + exact (Forall_lookup_1 _ _ _ _ L3 He).
Qed.

Lemma set_OldTrigger_same (s : State) : set_OldTrigger (OldTrigger s) s = s.
Proof. destruct s. reflexivity. Qed.

(** X22: [UpdateLog] never touches the fault latch, the state, the PWM
    enable, the speed reference, flag 2, the reset counter or the signals.
    It writes the event log only when the trigger has changed; and with
    the trigger and its old value 0 and no initialisation pending it
    changes nothing at all. *)
Theorem UpdateLog_quiet (s : State) :
  drive_side (UpdateLog s) = drive_side s /\
  Signals (UpdateLog s) = Signals s /\
  (LogTrigger s = OldTrigger s ->
   event_log (UpdateLog s) = event_log s /\
   EventHistory (UpdateLog s) = EventHistory s) /\
  (LogTrigger s = 0 -> OldTrigger s = 0 -> LogInit s = 0 ->
   UpdateLog s = s).
Proof.
  destruct (UpdateLog_outside s) as [A B].
  split; [exact A|]. split; [exact B|]. split.
  - intros HT. rewrite UpdateLog_eq.
    assert (E : log_trigger_change s = set_OldTrigger (LogTrigger s) s).
    { unfold Logs.log_trigger_change, remember_trigger, log_if_changed.
      replace (LogTrigger s =? OldTrigger s) with true
        by (symmetry; zbool).
      reflexivity. }
    rewrite E.
    set (s1 := set_OldTrigger (LogTrigger s) s).
    assert (E1 : event_log s1 = event_log s /\
                 EventHistory s1 = EventHistory s)
      by (subst s1; split; untouched).
    clearbody s1.
    destruct (service_init_outside s1) as (C1 & _ & C2 & _).
    revert C1 C2. generalize (service_init s1). intros s2 C1 C2.
    destruct (record_data_outside s2) as (D1 & _ & D2 & _).
    split; [rewrite D1, C1|rewrite D2, C2]; apply E1.
  - intros HT HO HI. rewrite UpdateLog_eq.
    assert (E : log_trigger_change s = s).
    { unfold Logs.log_trigger_change, remember_trigger, log_if_changed.
      replace (LogTrigger s =? OldTrigger s) with true
        by (symmetry; zbool).
      cbn [negb]. replace (LogTrigger s) with (OldTrigger s) by lia.
      apply set_OldTrigger_same. }
    rewrite E. unfold Logs.service_init. rewrite HI. cbn [Z.eqb negb].
    unfold Logs.record_data. rewrite HT. reflexivity.
Qed.


(** ** The records in the arrays

    What each function logs, exactly, and where the records are written. *)

Section Records.

Hypothesis INT_BITS_min : 16 <= INT_BITS.
Hypothesis EVENT_SIZE_int : 0 < EVENT_SIZE < 2 ^ (INT_BITS - 1).

Local Abbreviation appended := (appended EVENT_SIZE).

(** From [s], the state [t] is reached by logging exactly the records
    [evs], with nothing else done to the event log. *)
Local Abbreviation logs_exactly evs s t :=
  (event_log t = event_log (log_all evs s) /\
   EventHistory t = EventHistory (log_all evs s)).

Lemma exactly_refl (s t : State) :
  event_log t = event_log s -> EventHistory t = EventHistory s ->
  logs_exactly [] s t.
Proof. intros H1 H2. rewrite log_all_nil. split; assumption. Qed.

Lemma exactly_one (Code Data1 : Z) (Data2 : Q) (s : State) :
  logs_exactly [(Code, Data1, Data2)] s (LogEvent Code Data1 Data2 s).
Proof. rewrite log_all_cons, log_all_nil. split; reflexivity. Qed.

Lemma exactly_trans (e1 e2 : list (Z * Z * Q)) (s t u : State) :
  logs_exactly e1 s t -> logs_exactly e2 t u -> logs_exactly (e1 ++ e2) s u.
Proof.
  intros (A1 & B1) (A2 & B2). rewrite log_all_app.
  destruct (log_all_events e2 t (log_all e1 s) A1 B1) as [C1 C2].
  split; congruence.
Qed.

(** The records of [ResetFaults]: the reset, then the change of state if
    the machine was in [FAULT]. *)
Lemma exactly_ResetFaults (s : State) :
  logs_exactly
    ((E_RESET, 0, 0%Q) ::
     (if mainState s =? FAULT then [(E_STATE, READY, 0%Q)] else []))
    s (ResetFaults s).
Proof.
  unfold Logs.ResetFaults.
  assert (M : mainState (LogEvent E_RESET 0 0%Q (set_FaultWord 0 s)) =
              mainState s) by (rewrite LogEvent_eq; reflexivity).
  assert (A : logs_exactly [(E_RESET, 0, 0%Q)] s
                (LogEvent E_RESET 0 0%Q (set_FaultWord 0 s))).
  { apply (exactly_trans [] [(E_RESET, 0, 0%Q)] s (set_FaultWord 0 s)).
    - apply exactly_refl; untouched.
    - apply exactly_one. }
  revert M A. generalize (LogEvent E_RESET 0 0%Q (set_FaultWord 0 s)).
  intros s1 M A.
  assert (B : logs_exactly
                (if mainState s =? FAULT then [(E_STATE, READY, 0%Q)] else [])
                s1 (leave_fault_state INT_BITS EVENT_SIZE READY FAULT
                      TimeStamp s1)).
  { unfold leave_fault_state. rewrite M. destruct (mainState s =? FAULT).
    - apply (exactly_trans [(E_STATE, READY, 0%Q)] [] s1
               (LogEvent E_STATE READY 0%Q s1)).
      + apply exactly_one.
      + generalize (LogEvent E_STATE READY 0%Q s1). intros s2.
        apply exactly_refl; untouched.
    - apply exactly_refl; reflexivity. }
  revert B. generalize (leave_fault_state INT_BITS EVENT_SIZE READY FAULT
                          TimeStamp s1). intros s2 B.
  assert (C : logs_exactly [] s2 (set_FaultResetCount 20 (set_Flag2 true s2)))
    by (apply exactly_refl; untouched).
  pose proof (exactly_trans _ _ _ _ _ (exactly_trans _ _ _ _ _ A B) C) as D.
  rewrite !app_nil_r in D. exact D.
Qed.

(** The records of [Fault]: the fault if its bit was clear, then the change
    of state if the machine was not in [FAULT]. *)
Lemma exactly_Fault (fcode : Z) (data2 : Q) (s : State) :
  logs_exactly
    ((if Z.land (FaultWord s) (fault_mask fcode) =? 0
      then [(E_FAULT, wrap_int fcode, data2)] else []) ++
     (if mainState s =? FAULT then [] else [(E_STATE, FAULT, 0%Q)]))
    s (Fault fcode data2 s).
Proof.
  unfold Logs.Fault, PWM_disable.
  assert (A : logs_exactly
                (if Z.land (FaultWord s) (fault_mask fcode) =? 0
                 then [(E_FAULT, wrap_int fcode, data2)] else [])
                s (log_new_fault INT_BITS EVENT_SIZE TimeStamp fcode data2
                     (set_PwmEnabled false s))).
  { unfold log_new_fault. log_cbn.
    destruct (Z.land (FaultWord s) (fault_mask fcode) =? 0).
    - apply (exactly_trans [] [(E_FAULT, wrap_int fcode, data2)] s
               (set_PwmEnabled false s)).
      + apply exactly_refl; untouched.
      + apply exactly_one.
    - apply exactly_refl; untouched. }
  destruct (log_new_fault_spec INT_BITS EVENT_SIZE TimeStamp fcode data2
              (set_PwmEnabled false s)) as (_ & M & _).
  log_cbn. revert A M.
  generalize (log_new_fault INT_BITS EVENT_SIZE TimeStamp fcode data2
                (set_PwmEnabled false s)).
  intros s1 A M.
  assert (B : logs_exactly
                (if mainState s =? FAULT then [] else [(E_STATE, FAULT, 0%Q)])
                s1 (enter_fault_state INT_BITS EVENT_SIZE FAULT TimeStamp
                      (latch_fault INT_BITS fcode s1))).
  { unfold enter_fault_state, latch_fault. log_cbn. rewrite M.
    destruct (mainState s =? FAULT); cbn [negb].
    - apply exactly_refl; untouched.
    - apply (exactly_trans [] [(E_STATE, FAULT, 0%Q)] s1
               (set_mainState FAULT
                  (set_FaultWord (Z.lor (FaultWord s1) (fault_mask fcode))
                     s1))).
      + apply exactly_refl; untouched.
      + apply exactly_one. }
  revert B.
  generalize (enter_fault_state INT_BITS EVENT_SIZE FAULT TimeStamp
                (latch_fault INT_BITS fcode s1)).
  intros s2 B.
  assert (C : logs_exactly [] s2 (set_WeRef 0%Q (freeze_data_log s2))).
  { apply exactly_refl; unfold freeze_data_log;
      destruct (LogAuto s2 =? 1); untouched. }
  pose proof (exactly_trans _ _ _ _ _ (exactly_trans _ _ _ _ _ A B) C) as D.
  rewrite !app_nil_r in D. exact D.
Qed.


(** *** Where the records are *)

Lemma event_log_index (s t : State) :
  event_log t = event_log s -> EventIndex t = EventIndex s.
Proof. unfold event_log. intros H. injection H as _ _ _ _ _ E. exact E. Qed.

Lemma appended_nil (s t : State) :
  event_log_ok s -> logs_exactly [] s t -> appended [] s t.
Proof.
  intros [_ I] [V _]. rewrite log_all_nil in V.
  split; [|split].
  - rewrite (event_log_index _ _ V). cbn [length Z.of_nat].
    rewrite Z.add_0_r, Z.mod_small by lia. reflexivity.
  - intros k e H. discriminate.
  - intros j _. apply slot_view. exact V.
Qed.

Lemma appended_one (Code Data1 : Z) (Data2 : Q) (s t : State) :
  event_log_ok s -> logs_exactly [(Code, Data1, Data2)] s t ->
  appended [stamp (length (EventHistory s)) Code Data1 Data2] s t.
Proof.
  intros [W I] [V _]. rewrite log_all_cons, log_all_nil in V.
  cbn [fst snd] in V.
  destruct (next_index_spec INT_BITS EVENT_SIZE INT_BITS_min EVENT_SIZE_int
              (EventIndex s) I) as [N _].
  split; [|split].
  - rewrite (event_log_index _ _ V), EventIndex_LogEvent, N. reflexivity.
  - intros [|k] e H; [|discriminate]. injection H as <-.
    cbn [Z.of_nat]. rewrite Z.add_0_r, Z.mod_small by lia.
    rewrite (slot_view _ _ _ V).
    rewrite (slot_LogEvent INT_BITS EVENT_SIZE TimeStamp INT_BITS_min
               EVENT_SIZE_int) by assumption.
    rewrite Z.eqb_refl. reflexivity.
  - intros j H. specialize (H 0%nat ltac:(cbn [length]; lia)).
    cbn [Z.of_nat] in H. rewrite Z.add_0_r, Z.mod_small in H by lia.
    rewrite (slot_view _ _ _ V).
    rewrite (slot_LogEvent INT_BITS EVENT_SIZE TimeStamp INT_BITS_min
               EVENT_SIZE_int) by assumption.
    destruct (Z.eqb_spec j (EventIndex s)); [contradiction | reflexivity].
Qed.

Lemma appended_two (c1 d1 c2 d2 : Z) (x1 x2 : Q) (s t : State) :
  event_log_ok s -> 1 < EVENT_SIZE ->
  logs_exactly [(c1, d1, x1); (c2, d2, x2)] s t ->
  appended [stamp (length (EventHistory s)) c1 d1 x1;
            stamp (S (length (EventHistory s))) c2 d2 x2] s t.
Proof.
  intros [W I] H1 [V _]. rewrite !log_all_cons, log_all_nil in V.
  cbn [fst snd] in V.
  destruct (next_index_spec INT_BITS EVENT_SIZE INT_BITS_min EVENT_SIZE_int
              (EventIndex s) I) as [N NI].
  pose proof (events_wf_LogEvent INT_BITS EVENT_SIZE TimeStamp EVENT_SIZE_int
                c1 d1 x1 s W) as W'.
  pose proof (EventIndex_LogEvent INT_BITS EVENT_SIZE TimeStamp c1 d1 x1 s)
    as I'.
  pose proof (LogEvent_history INT_BITS EVENT_SIZE TimeStamp c1 d1 x1 s)
    as Hh.
  pose proof (slot_LogEvent INT_BITS EVENT_SIZE TimeStamp INT_BITS_min
                EVENT_SIZE_int c1 d1 x1 s) as S1.
  revert V W' I' Hh S1. generalize (LogEvent c1 d1 x1 s).
  intros s1 V W' I' Hh S1.
  assert (I1 : 0 <= EventIndex s1 < EVENT_SIZE) by (rewrite I'; exact NI).
  destruct (next_index_spec INT_BITS EVENT_SIZE INT_BITS_min EVENT_SIZE_int
              (EventIndex s1) I1) as [N' _].
  assert (L1 : length (EventHistory s1) = S (length (EventHistory s)))
    by (rewrite Hh; reflexivity).
  assert (Ne : (EventIndex s + 1) mod EVENT_SIZE <> EventIndex s).
  { destruct (Z.eq_dec (EventIndex s + 1) EVENT_SIZE) as [E|E].
    - rewrite E, Z.mod_same by lia. lia.
    - rewrite Z.mod_small by lia. lia. }
  pose proof (slot_LogEvent INT_BITS EVENT_SIZE TimeStamp INT_BITS_min
                EVENT_SIZE_int c2 d2 x2 s1) as S2.
  split; [|split].
  - rewrite (event_log_index _ _ V), EventIndex_LogEvent, N', I', N.
    cbn [length Z.of_nat Pos.of_succ_nat Pos.succ].
    rewrite Z.add_mod_idemp_l by lia. f_equal. lia.
  - intros [|[|k]] e H; [| |discriminate]; injection H as <-;
      rewrite (slot_view _ _ _ V), S2 by assumption; rewrite I', N.
    + cbn [Z.of_nat]. rewrite Z.add_0_r, (Z.mod_small (EventIndex s)) by lia.
      destruct (Z.eqb_spec (EventIndex s) ((EventIndex s + 1) mod EVENT_SIZE));
        [congruence|].
      rewrite S1 by assumption. rewrite Z.eqb_refl. reflexivity.
    + change (Z.of_nat 1) with 1. rewrite Z.eqb_refl, L1. reflexivity.
  - intros j H.
    pose proof (H 0%nat ltac:(cbn [length]; lia)) as H0.
    pose proof (H 1%nat ltac:(cbn [length]; lia)) as H1'.
    cbn [Z.of_nat] in H0. rewrite Z.add_0_r, Z.mod_small in H0 by lia.
    change (Z.of_nat 1) with 1 in H1'.
    rewrite (slot_view _ _ _ V), S2 by assumption. rewrite I', N.
    destruct (Z.eqb_spec j ((EventIndex s + 1) mod EVENT_SIZE));
      [contradiction|].
    rewrite S1 by assumption.
    destruct (Z.eqb_spec j (EventIndex s)); [contradiction | reflexivity].
Qed.

Lemma exactly_ok (evs : list (Z * Z * Q)) (s t : State) :
  event_log_ok s -> logs_exactly evs s t ->
  event_log_ok t /\
  exists l, length l = length evs /\ EventHistory t = l ++ EventHistory s.
Proof.
  intros Ok [V1 V2].
  assert (R0 : ring_holds 0 s) by (intros j ? Hj; lia).
  destruct (log_all_ring INT_BITS_min EVENT_SIZE_int evs 0 s Ok R0)
    as (A & _ & l & Hl & C).
  split; [exact (event_log_ok_view _ _ V1 A)|].
  exists l. split; [exact Hl | congruence].
Qed.

Lemma history_one (Code Data1 : Z) (Data2 : Q) (s t : State) :
  logs_exactly [(Code, Data1, Data2)] s t ->
  logged s t = [stamp (length (EventHistory s)) Code Data1 Data2].
Proof.
  intros [_ V]. apply logged_app. rewrite V, log_all_cons, log_all_nil.
  apply LogEvent_history.
Qed.

Lemma history_two (c1 d1 c2 d2 : Z) (x1 x2 : Q) (s t : State) :
  logs_exactly [(c1, d1, x1); (c2, d2, x2)] s t ->
  logged s t = [stamp (S (length (EventHistory s))) c2 d2 x2;
                stamp (length (EventHistory s)) c1 d1 x1].
Proof.
  intros [_ V]. apply logged_app. rewrite V, !log_all_cons, log_all_nil.
  cbn [fst snd]. rewrite !LogEvent_history. reflexivity.
Qed.

Lemma history_none (s t : State) : logs_exactly [] s t -> logged s t = [].
Proof.
  intros [_ V]. apply (logged_app []). rewrite V, log_all_nil. reflexivity.
Qed.

(** C9: [ResetFaults] clears the fault word and logs a reset event in any
    state; from [FAULT] it also logs a state change and goes to [READY];
    from any other state, [READY] among them, the reset event is all it
    logs and the state stays.  The records are in the arrays: written at
    the write index (the reset first), which moves behind them, with every
    other slot unchanged. *)
Theorem reset_semantics (s : State) :
  READY <> FAULT -> event_log_ok s ->
  let t := ResetFaults s in
  let h := length (EventHistory s) in
  FaultWord t = 0 /\
  (mainState s = FAULT ->
   mainState t = READY /\
   logged s t = [stamp (S h) E_STATE READY 0%Q; stamp h E_RESET 0 0%Q] /\
   (1 < EVENT_SIZE ->
    appended [stamp h E_RESET 0 0%Q; stamp (S h) E_STATE READY 0%Q] s t)) /\
  (mainState s <> FAULT ->
   mainState t = mainState s /\
   logged s t = [stamp h E_RESET 0 0%Q] /\
   appended [stamp h E_RESET 0 0%Q] s t) /\
  (mainState s = READY ->
   mainState t = READY /\
   logged s t = [stamp h E_RESET 0 0%Q] /\
   appended [stamp h E_RESET 0 0%Q] s t).
Proof.
  intros Hne Ok t h. subst t h.
  destruct (ResetFaults_outside s) as (_ & D & _).
  pose proof (exactly_ResetFaults s) as X.
  revert D X. generalize (ResetFaults s). intros t D X.
  unfold drive_side in D. injection D as W M _ _ _ _.
  split; [exact W|].
  assert (Hother : mainState s <> FAULT ->
    mainState t = mainState s /\
    logged s t = [stamp (length (EventHistory s)) E_RESET 0 0%Q] /\
    appended [stamp (length (EventHistory s)) E_RESET 0 0%Q] s t).
  { intros Hs. destruct (Z.eqb_spec (mainState s) FAULT); [contradiction|].
    split; [exact M|]. split.
    - apply history_one. exact X.
    - apply appended_one; assumption. }
  split; [|split].
  - intros Hs. rewrite Hs, Z.eqb_refl in M, X.
    split; [exact M|]. split.
    + apply history_two. exact X.
    + intros HN. apply appended_two; assumption.
  - exact Hother.
  - intros Hs. destruct (Hother ltac:(congruence)) as (E1 & E2 & E3).
    split; [congruence|]. split; assumption.
Qed.



(** The bits of a 16-bit [int] converted to [long]: bit 16 is a copy of the
    sign bit, so no value of the mask has the bit of code 16 alone. *)
Lemma sign_extension_16 (m : Z) :
  Z.testbit (wrap 16 m) 16 = Z.testbit (wrap 16 m) 15.
Proof.
  unfold wrap.
  pose proof (Z.mod_pos_bound (m + 2 ^ (16 - 1)) (2 ^ 16) ltac:(lia)) as B.
  revert B. generalize ((m + 2 ^ (16 - 1)) mod 2 ^ 16). intros r B.
  change (2 ^ (16 - 1)) with 32768. change (2 ^ 16) with 65536 in B.
  destruct (Z.lt_ge_cases (r - 32768) 0) as [N|P].
  - rewrite !Z.bits_above_log2_neg; try reflexivity; try lia.
    + assert (L : Z.log2 (Z.pred (- (r - 32768))) < 15).
      { destruct (Z.eq_dec (Z.pred (- (r - 32768))) 0) as [E|E];
          [rewrite E; reflexivity|].
        apply Z.log2_lt_pow2; lia. }
      lia.
    + assert (L : Z.log2 (Z.pred (- (r - 32768))) < 15).
      { destruct (Z.eq_dec (Z.pred (- (r - 32768))) 0) as [E|E];
          [rewrite E; reflexivity|].
        apply Z.log2_lt_pow2; lia. }
      lia.
  - assert (L : Z.log2 (r - 32768) < 15).
    { destruct (Z.eq_dec (r - 32768) 0) as [E|E]; [rewrite E; reflexivity|].
      apply Z.log2_lt_pow2; lia. }
    rewrite !Z.bits_above_log2; try reflexivity; lia.
Qed.

(** C3 on the 16-bit [int] of the TI 28335: the mask [0x01<<fcode] of
    [F_STALL] (code 16) does not fit an [int] and the bit of the code is
    never set, so a second call of [Fault] with the same code finds the
    fault new again and writes a second fault record into the arrays.  No
    16-bit mask could do better: converted to [long], its bit 16 is a copy
    of bit 15. *)
Theorem stall_fault_not_latched (x y : Q) (s : State) :
  INT_BITS = 16 -> event_log_ok s ->
  let s1 := Fault F_STALL x s in
  let s2 := Fault F_STALL y s1 in
  fault_mask F_STALL = 0 /\
  FaultWord s1 = FaultWord s /\ FaultWord s2 = FaultWord s /\
  mainState s1 = FAULT /\
  appended [stamp (length (EventHistory s1)) E_FAULT F_STALL y] s1 s2 /\
  logged s1 s2 = [stamp (length (EventHistory s1)) E_FAULT F_STALL y] /\
  count_code E_FAULT (logged s s2) = 2%nat /\
  (forall m : Z, Z.testbit (wrap 16 m) 16 = Z.testbit (wrap 16 m) 15).
Proof.
  intros H16 Ok. cbv zeta.
  assert (M0 : fault_mask F_STALL = 0).
  { unfold Logs.fault_mask, Logs.wrap_int. rewrite H16. reflexivity. }
  assert (W16 : wrap_int F_STALL = F_STALL).
  { unfold Logs.wrap_int. rewrite H16. reflexivity. }
  destruct (Fault_spec INT_BITS EVENT_SIZE FAULT TimeStamp F_STALL x s)
    as (W1 & M1 & _).
  pose proof (exactly_Fault F_STALL x s) as X1.
  pose proof (exactly_Fault F_STALL y (Fault F_STALL x s)) as X2.
  destruct (Fault_spec INT_BITS EVENT_SIZE FAULT TimeStamp F_STALL y
              (Fault F_STALL x s)) as (W2 & _ & _).
  rewrite M0, Z.land_0_r, W16 in X1, X2. cbn [Z.eqb] in X1, X2.
  rewrite M1, Z.eqb_refl, app_nil_r in X2.
  rewrite M0, Z.lor_0_r in W1, W2. rewrite W1 in W2.
  destruct (exactly_ok _ s (Fault F_STALL x s) Ok X1) as (Ok1 & l1 & L1 & H1).
  revert W1 M1 X1 X2 W2 Ok1 H1. generalize (Fault F_STALL x s).
  intros s1 W1 M1 X1 X2 W2 Ok1 H1.
  pose proof (history_one _ _ _ _ _ X2) as G2.
  pose proof (appended_one _ _ _ _ _ Ok1 X2) as A2.
  revert W2 X2 G2 A2. generalize (Fault F_STALL y s1).
  intros s2 W2 X2 G2 A2.
  do 6 (split; [assumption|]). split; [|exact sign_extension_16].
  (* the fault records of both calls *)
  assert (G1 : logged s s1 = l1) by (apply logged_app; exact H1).
  assert (F1 : count_code E_FAULT l1 = 1%nat).
  { destruct X1 as [_ V1]. rewrite H1 in V1.
    destruct (mainState s =? FAULT).
    - rewrite app_nil_r, log_all_cons, log_all_nil, LogEvent_history in V1.
      cbn [fst snd] in V1.
      destruct l1 as [|e [|e' l']]; try discriminate.
      injection V1 as ->. reflexivity.
    - cbn [app] in V1.
      rewrite !log_all_cons, log_all_nil, !LogEvent_history in V1.
      cbn [fst snd] in V1.
      destruct l1 as [|e [|e' [|e'' l']]]; try discriminate.
      injection V1 as -> ->. reflexivity. }
  rewrite (logged_trans s s1 s2).
  - unfold count_code in *. rewrite filter_app, length_app, G2, G1.
    rewrite F1. reflexivity.
  - exists l1. exact H1.
  - exists [stamp (length (EventHistory s1)) E_FAULT F_STALL y].
    destruct X2 as [_ V2].
    rewrite V2, log_all_cons, log_all_nil. apply LogEvent_history.
Qed.

(** X25: for a code whose mask [int] can hold (0 to 14 with the 16-bit
    [int], all of 0 to 16 with 32 bits), the fault word is the memory of
    the faults: the first call of [Fault] writes the fault record (and the
    change of state, if the machine was not in [FAULT]) into the arrays; a
    second call with the same code writes nothing, so the log has one
    fault entry; a call with another code whose bit is clear writes one
    more fault record; the bits of the codes are set. *)
Theorem fault_deduplication (c c' : Z) (x y : Q) (s : State) :
  0 <= c < INT_BITS - 1 -> 0 <= c' < INT_BITS - 1 -> event_log_ok s ->
  Z.testbit (FaultWord s) c = false ->
  let h := length (EventHistory s) in
  let s1 := Fault c x s in
  (mainState s = FAULT -> appended [stamp h E_FAULT c x] s s1) /\
  (mainState s <> FAULT -> 1 < EVENT_SIZE ->
   appended [stamp h E_FAULT c x; stamp (S h) E_STATE FAULT 0%Q] s s1) /\
  (let s2 := Fault c y s1 in
   event_log s2 = event_log s1 /\ logged s1 s2 = [] /\
   count_code E_FAULT (logged s s2) = 1%nat /\
   Z.testbit (FaultWord s2) c = true) /\
  (c <> c' -> Z.testbit (FaultWord s) c' = false ->
   let s2 := Fault c' y s1 in
   appended [stamp (length (EventHistory s1)) E_FAULT c' y] s1 s2 /\
   count_code E_FAULT (logged s s2) = 2%nat /\
   Z.testbit (FaultWord s2) c = true /\
   Z.testbit (FaultWord s2) c' = true).
Proof.
  intros Hc Hc' Ok Hclear. cbv zeta.
  destruct (Fault_twice INT_BITS EVENT_SIZE FAULT TimeStamp c c' x y s Hc Hc'
              Hclear) as (Hsame & Hdistinct).
  cbv zeta in Hsame, Hdistinct.
  pose proof (exactly_Fault c x s) as X1.
  rewrite (fault_mask_bit INT_BITS c Hc), land_pow2_eqb, Hclear in X1 by lia.
  cbn [negb] in X1.
  unfold Logs.wrap_int in X1. rewrite (wrap_index_like INT_BITS c Hc) in X1.
  destruct (Fault_spec INT_BITS EVENT_SIZE FAULT TimeStamp c x s)
    as (W1 & M1 & _).
  assert (B1 : Z.testbit (FaultWord (Fault c x s)) c = true).
  { rewrite W1, (fault_mask_bit INT_BITS c Hc).
    rewrite testbit_lor_pow2, Z.eqb_refl by lia. apply orb_true_r. }
  destruct (exactly_ok _ s (Fault c x s) Ok X1) as (Ok1 & _).
  pose proof (exactly_Fault c y (Fault c x s)) as X2.
  rewrite (fault_mask_bit INT_BITS c Hc), land_pow2_eqb, B1 in X2 by lia.
  rewrite M1, Z.eqb_refl in X2. cbn [negb app] in X2.
  pose proof (exactly_Fault c' y (Fault c x s)) as X3.
  rewrite M1, Z.eqb_refl, app_nil_r in X3.
  unfold Logs.wrap_int in X3. rewrite (wrap_index_like INT_BITS c' Hc') in X3.
  rewrite (fault_mask_bit INT_BITS c' Hc'), land_pow2_eqb in X3 by lia.
  assert (B3 : c <> c' -> Z.testbit (FaultWord s) c' = false ->
               Z.testbit (FaultWord (Fault c x s)) c' = false).
  { intros Hne Hcl. rewrite W1, (fault_mask_bit INT_BITS c Hc).
    rewrite testbit_lor_pow2, Hcl by lia.
    destruct (Z.eqb_spec c c'); [contradiction | reflexivity]. }
  revert X1 Ok1 X2 X3 B3 Hsame Hdistinct. generalize (Fault c x s).
  intros s1 X1 Ok1 X2 X3 B3 Hsame Hdistinct.
  split; [|split; [|split]].
  - intros Hs. rewrite Hs, Z.eqb_refl, app_nil_r in X1.
    apply appended_one; assumption.
  - intros Hs HN.
    destruct (Z.eqb_spec (mainState s) FAULT); [contradiction|].
    cbn [app] in X1. apply appended_two; assumption.
  - destruct Hsame as (Hev & Hbit).
    split; [|split; [|split]].
    + destruct X2 as [X2 _]. rewrite log_all_nil in X2. exact X2.
    + apply history_none. exact X2.
    + unfold count_code. rewrite Hev. reflexivity.
    + exact Hbit.
  - intros Hne Hcl. specialize (B3 Hne Hcl). rewrite B3 in X3.
    cbn [negb] in X3.
    destruct (Hdistinct Hne Hcl) as (Hev & Hb & Hb').
    split; [apply appended_one; assumption|].
    split; [unfold count_code; rewrite Hev; reflexivity|].
    split; assumption.
Qed.

(** X13: a fault that persists is reported again after a reset.
    [ResetFaults] after [Fault] clears the fault word, returns to READY,
    raises flag 2 and loads the reset counter, but it leaves the PWM
    outputs disabled and the speed reference 0; the same fault asserted
    again then writes its fault record and the change to FAULT into the
    arrays once more. *)
Theorem fault_reasserted_after_reset (c : Z) (x y : Q) (s : State) :
  0 <= c < INT_BITS - 1 -> READY <> FAULT -> event_log_ok s ->
  let t := ResetFaults (Fault c x s) in
  let u := Fault c y t in
  FaultWord t = 0 /\ mainState t = READY /\
  PwmEnabled t = false /\ WeRef t = 0%Q /\
  Flag2 t = true /\ FaultResetCount t = 20 /\
  logged t u =
    [stamp (S (length (EventHistory t))) E_STATE FAULT 0%Q;
     stamp (length (EventHistory t)) E_FAULT c y] /\
  (1 < EVENT_SIZE ->
   appended
     [stamp (length (EventHistory t)) E_FAULT c y;
      stamp (S (length (EventHistory t))) E_STATE FAULT 0%Q] t u) /\
  Z.testbit (FaultWord u) c = true /\ mainState u = FAULT.
Proof.
  intros Hc HR Ok. cbv zeta.
  destruct (Fault_outside c x s) as (_ & V & _).
  destruct (exactly_ok _ s (Fault c x s) Ok (exactly_Fault c x s))
    as (Ok1 & _).
  revert V Ok1. generalize (Fault c x s). intros s1 V Ok1.
  unfold drive_side in V. injection V as _ M1 P1 W1 _ _.
  destruct (ResetFaults_outside s1) as (_ & V & _).
  destruct (exactly_ok _ s1 (ResetFaults s1) Ok1 (exactly_ResetFaults s1))
    as (Ok2 & _).
  revert V Ok2. generalize (ResetFaults s1). intros t V Ok2.
  unfold drive_side in V. rewrite M1, Z.eqb_refl, P1, W1 in V.
  injection V as W M P2 W2 F2 C2.
  destruct (Fault_spec INT_BITS EVENT_SIZE FAULT TimeStamp c y t)
    as (W' & M' & _).
  pose proof (exactly_Fault c y t) as X.
  rewrite W, Z.land_0_l in X. cbn [Z.eqb] in X.
  rewrite M in X. replace (READY =? FAULT) with false in X
    by (symmetry; zbool).
  unfold Logs.wrap_int in X.
  rewrite (wrap_index_like INT_BITS c Hc) in X. cbn [app] in X.
  revert W' M' X. generalize (Fault c y t). intros u W' M' X.
  do 6 (split; [assumption|]). split; [|split].
  - apply history_two. exact X.
  - intros HN. apply appended_two; assumption.
  - split; [|exact M'].
    rewrite W', W, Z.lor_0_l, (fault_mask_bit INT_BITS c Hc).
    apply Z.pow2_bits_true. lia.
Qed.

End Records.

End Firmware.

(** ** Worked examples on the small platform *)

Ltac by_computation :=
  vm_compute; repeat split;
  first [reflexivity | discriminate | (intro; discriminate)].

Ltac computed := vm_compute; reflexivity.

Lemma demo_armed_layout : layout_ok demo_armed.
Proof.
  unfold layout_ok.
  split; [by_computation|]. split; [by_computation|].
  split; [by_computation|]. split; [by_computation|].
  intros i Hi.
  assert (E : LogChan demo_armed = 3) by computed.
  rewrite E in Hi.
  assert (C : i = 0 \/ i = 1 \/ i = 2) by lia.
  destruct C as [-> | [-> | ->]];
    (vm_compute; split; [reflexivity | eexists; reflexivity]).
Qed.

Lemma ring_keeps_newest_witness :
  let s' :=
    calls 16 12 4 demo_READY demo_FAULT demo_address demo_clock demo_calls
      demo_init in
  event_log_ok 4 demo_init /\
  logged demo_init s' !! 3%nat = Some (mkEvent 0 1 E_STATE demo_FAULT 0) /\
  slot s' ((EventIndex s' - 1 - Z.of_nat 3) mod 4) =
    Some (mkEvent 0 1 E_STATE demo_FAULT 0).
Proof.
  cbv zeta.
  assert (Hb : 16 <= 16) by lia.
  assert (HE : 0 < 4 < 2 ^ (16 - 1)) by by_computation.
  assert (Ok : event_log_ok 4 demo_init) by by_computation.
  assert (Hcs : forallb (fun c => negb (is_init_events c)) demo_calls = true)
    by computed.
  assert (Hl : logged demo_init
                 (calls 16 12 4 demo_READY demo_FAULT demo_address demo_clock
                    demo_calls demo_init) !! 3%nat =
               Some (mkEvent 0 1 E_STATE demo_FAULT 0)) by computed.
  assert (Hn : Z.of_nat 3 < 4) by lia.
  split; [exact Ok|]. split; [exact Hl|].
  exact (ring_keeps_newest 16 12 4 demo_READY demo_FAULT demo_address
           demo_clock Hb HE demo_calls demo_init Ok Hcs 3%nat _ Hl Hn).
Defined.

Lemma event_index_stays_in_range_witness :
  event_log_ok 4
    (calls 16 12 4 demo_READY demo_FAULT demo_address demo_clock
       demo_calls_no_reset (init_state 12 9 4 demo_READY inject_Z)).
Proof.
  assert (Hb : 16 <= 16) by lia.
  assert (HE : 0 < 4 < 2 ^ (16 - 1)) by by_computation.
  exact (proj2 (event_index_stays_in_range 16 12 9 4 demo_READY demo_FAULT
                  demo_address demo_clock Hb HE demo_calls_no_reset
                  demo_init demo_READY inject_Z)).
Defined.

Lemma InitEvents_clears_witness :
  let s :=
    calls 16 12 4 demo_READY demo_FAULT demo_address demo_clock demo_calls
      demo_init in
  events_wf 4 s /\ slot s 2 = Some (mkEvent 0 2 E_RESET 0 0) /\
  slot (InitEvents 4 s) 2 = Some zero_event /\
  EventIndex (InitEvents 4 s) = 0.
Proof.
  cbv zeta.
  assert (W : events_wf 4
                (calls 16 12 4 demo_READY demo_FAULT demo_address demo_clock
                   demo_calls demo_init)) by by_computation.
  assert (HN : 0 <= 4) by lia.
  assert (H2 : 0 <= 2 < 4) by lia.
  split; [exact W|]. split; [computed|].
  destruct (InitEvents_clears 4 _ HN W) as (A & B & _).
  split; [exact (B 2 H2) | exact A].
Defined.

Lemma latched_until_reset_witness :
  let s' :=
    calls 16 12 4 demo_READY demo_FAULT demo_address demo_clock
      demo_calls_no_reset demo_faulted in
  Z.testbit (FaultWord demo_faulted) F_OVERSPEED = true /\
  Z.testbit (FaultWord s') F_OVERSPEED = true /\
  mainState s' = demo_FAULT /\ PwmEnabled s' = false.
Proof.
  cbv zeta.
  assert (Hcs : forallb (fun c => negb (is_reset c)) demo_calls_no_reset =
                true) by computed.
  assert (H1 : Z.testbit (FaultWord demo_faulted) F_OVERSPEED = true)
    by computed.
  assert (H2 : mainState demo_faulted = demo_FAULT) by computed.
  assert (H3 : PwmEnabled demo_faulted = false) by computed.
  destruct (latched_until_reset 16 12 4 demo_READY demo_FAULT demo_address
              demo_clock demo_calls_no_reset demo_faulted Hcs)
    as (A & B & C).
  split; [exact H1|].
  split; [exact (A _ H1)|].
  split; [exact (B H2) | exact (C H3)].
Defined.

Lemma Fault_freezes_capture_witness :
  let s := set_LogAuto 1 demo_armed in
  let t := ticks 16 12 4 demo_clock 5 (Fault 16 4 demo_FAULT demo_clock F_STALL 0 s) in
  LogAuto s = 1 /\ LogTrigger s = 1 /\
  LogTrigger t = 0 /\ LogBuf t = LogBuf s.
Proof.
  cbv zeta.
  assert (H : LogAuto (set_LogAuto 1 demo_armed) = 1) by computed.
  split; [exact H|]. split; [computed|].
  exact (Fault_freezes_capture 16 12 4 demo_FAULT demo_clock F_STALL 0
           (set_LogAuto 1 demo_armed) 5 H).
Defined.

Lemma InitLog_lays_out_channels_witness :
  0 < LogChan demo_three_setup <= 12 /\
  layout_ok (InitLog 16 12 demo_three_setup) /\
  LogLength (InitLog 16 12 demo_three_setup) =
    12 / LogChan demo_three_setup.
Proof.
  assert (Hb : 0 < 16) by lia.
  assert (HS : 12 < 2 ^ (16 - 1)) by by_computation.
  assert (Hc : 0 < LogChan demo_three_setup <= 12) by by_computation.
  assert (HB : LogChan demo_three_setup <=
               Z.of_nat (length (LogBase demo_three_setup)))
    by by_computation.
  assert (HP : LogChan demo_three_setup <=
               Z.of_nat (length (LogPtr demo_three_setup)))
    by by_computation.
  assert (HL : 12 <= Z.of_nat (length (LogBuf demo_three_setup)))
    by by_computation.
  split; [exact Hc|].
  destruct (InitLog_lays_out_channels 16 12 demo_three_setup Hb HS Hc HB HP
              HL)
    as (A & _ & B & _).
  split; assumption.
Defined.

Lemma DefaultLog_binds_channels_witness :
  (9 <= length (LogPtr demo_init))%nat /\
  take 9 (LogPtr (UpdateLog 16 12 4 demo_clock
                    (DefaultLog 16 demo_address 1 demo_init))) =
  map (fun x => demo_address x mod 65536) default_channels.
Proof.
  assert (Hb : 16 <= 16) by lia.
  assert (Hl : (9 <= length (LogPtr demo_init))%nat) by (vm_compute; lia).
  split; [exact Hl|].
  exact (proj1 (DefaultLog_binds_channels 16 12 4 demo_address demo_clock
                  demo_init Hb Hl)).
Defined.

Lemma recording_tick_stores_signals_witness :
  let s := demo_armed in
  let t := UpdateLog 16 12 4 demo_clock s in
  LogInit s = 0 /\ LogTrigger s <> 0 /\ LogSkip s <= LogSkipCount s /\
  load 1 (LogPtr s) = Some 101 /\
  load (1 * LogLength s + LogCount s) (LogBuf t) = Some (Signals s 101).
Proof.
  cbv zeta.
  assert (Hb : 0 < 16) by lia.
  assert (Hl : LogLength demo_armed < 2 ^ (16 - 1)) by by_computation.
  assert (H1 : LogInit demo_armed = 0) by computed.
  assert (H2 : LogTrigger demo_armed <> 0) by by_computation.
  assert (H3 : LogSkip demo_armed <= LogSkipCount demo_armed)
    by by_computation.
  assert (H4 : load 1 (LogPtr demo_armed) = Some 101) by computed.
  assert (H5 : 0 <= 1 < LogChan demo_armed) by by_computation.
  do 4 (split; [assumption|]).
  destruct (recording_tick_stores_signals 16 12 4 demo_clock demo_armed Hb
              demo_armed_layout Hl H1 H2 H3)
    as (A & _).
  exact (A 1 101 H5 H4).
Defined.

Lemma layout_kept_by_ticks_witness :
  let t := ticks 16 12 4 demo_clock 7 demo_armed in
  layout_ok t /\ 0 <= LogCount t < LogLength demo_armed.
Proof.
  cbv zeta.
  assert (Hb : 0 < 16) by lia.
  assert (Hl : LogLength demo_armed < 2 ^ (16 - 1)) by by_computation.
  assert (H1 : LogInit demo_armed = 0) by computed.
  destruct (layout_kept_by_ticks 16 12 4 demo_clock demo_armed 7 Hb
              demo_armed_layout Hl H1)
    as (A & _ & _ & B & _).
  split; assumption.
Defined.

Lemma one_sample_every_skip_plus_one_witness :
  let s := demo_skipping in
  let t :=
    ticks 16 12 4 demo_clock (2 * S (Z.to_nat (LogSkip s)) + 1) s in
  LogSkip s = 2 /\
  LogCount t = (LogCount s + Z.of_nat 2) mod LogLength s /\
  LogSkipCount t = Z.of_nat 1.
Proof.
  cbv zeta. split; [computed|].
  assert (Hb : 0 < 16) by lia.
  assert (H1 : LogInit demo_skipping = 0) by computed.
  assert (H2 : LogSingle demo_skipping <> 1) by by_computation.
  assert (H3 : 0 < LogTrigger demo_skipping) by by_computation.
  assert (H4 : LogSkipCount demo_skipping = 0) by computed.
  assert (H5 : 0 <= LogSkip demo_skipping < 2 ^ (16 - 1))
    by by_computation.
  assert (H6 : 0 <= LogCount demo_skipping < LogLength demo_skipping)
    by by_computation.
  assert (H7 : LogLength demo_skipping < 2 ^ (16 - 1)) by by_computation.
  assert (H8 : Z.of_nat 1 <= LogSkip demo_skipping) by by_computation.
  destruct (one_sample_every_skip_plus_one 16 12 4 demo_clock demo_skipping
              2 1 Hb H1 H2 H3 H4 H5 H6 H7 H8)
    as (A & B & _).
  split; assumption.
Defined.

Lemma single_shot_records_one_buffer_witness :
  let s := demo_single_start in
  let n := Z.to_nat (LogLength s - LogCount s) in
  LogSingle s = 1 /\ n = 4%nat /\
  LogTrigger (ticks 16 12 4 demo_clock 3 s) = LogTrigger s /\
  LogTrigger (ticks 16 12 4 demo_clock (n + 2) s) = 0 /\
  LogBuf (ticks 16 12 4 demo_clock (n + 2) s) =
    LogBuf (ticks 16 12 4 demo_clock n s).
Proof.
  cbv zeta.
  assert (Hb : 0 < 16) by lia.
  assert (H1 : LogInit demo_single_start = 0) by computed.
  assert (H2 : LogSingle demo_single_start = 1) by computed.
  assert (H3 : 0 < LogTrigger demo_single_start) by by_computation.
  assert (H4 : LogSkip demo_single_start <= 0) by by_computation.
  assert (H5 : 0 <= LogSkipCount demo_single_start) by by_computation.
  assert (H6 : 0 <= LogCount demo_single_start < LogLength demo_single_start)
    by by_computation.
  assert (H7 : LogLength demo_single_start < 2 ^ (16 - 1))
    by by_computation.
  assert (H8 : (3 < Z.to_nat (LogLength demo_single_start -
                              LogCount demo_single_start))%nat)
    by (vm_compute; lia).
  split; [exact H2|]. split; [computed|].
  destruct (single_shot_records_one_buffer 16 12 4 demo_clock
              demo_single_start 3 2 Hb H1 H2 H3 H4 H5 H6 H7)
    as (A & B & _ & C).
  split; [exact (proj1 (A H8))|]. split; assumption.
Defined.

Lemma negative_trigger_counts_samples_witness :
  let s := demo_countdown in
  let n := Z.to_nat (- LogTrigger s) in
  LogTrigger s = -3 /\
  LogTrigger (ticks 16 12 4 demo_clock 2 s) = LogTrigger s + Z.of_nat 2 /\
  LogTrigger (ticks 16 12 4 demo_clock (n + 1) s) = 0.
Proof.
  cbv zeta. split; [computed|].
  assert (Hb : 0 < 16) by lia.
  assert (H1 : LogInit demo_countdown = 0) by computed.
  assert (H2 : LogSingle demo_countdown <> 1) by by_computation.
  assert (H4 : LogSkip demo_countdown <= 0) by by_computation.
  assert (H5 : 0 <= LogSkipCount demo_countdown) by by_computation.
  assert (H6 : 0 <= LogCount demo_countdown < LogLength demo_countdown)
    by by_computation.
  assert (H7 : LogLength demo_countdown < 2 ^ (16 - 1)) by by_computation.
  assert (H8 : - 2 ^ (16 - 1) <= LogTrigger demo_countdown < 0)
    by by_computation.
  assert (H9 : (2 <= Z.to_nat (- LogTrigger demo_countdown))%nat)
    by (vm_compute; lia).
  destruct (negative_trigger_counts_samples 16 12 4 demo_clock
              demo_countdown 2 1 Hb H1 H2 H4 H5 H6 H7 H8)
    as (A & B & _).
  split; [exact (proj1 (A H9)) | exact B].
Defined.

Lemma countdown_floods_event_log_witness :
  let s := demo_countdown in
  let n := Z.to_nat (- LogTrigger s) in
  LogTrigger s <> OldTrigger s /\
  count_code E_DATALOG (logged s (ticks 16 12 4 demo_clock 4 s)) = 4%nat /\
  exists e,
    slot (ticks 16 12 4 demo_clock (n + 1) s) 2 = Some e /\
    ev_code e = E_DATALOG.
Proof.
  cbv zeta.
  assert (Hb : 16 <= 16) by lia.
  assert (HE : 0 < 4 < 2 ^ (16 - 1)) by by_computation.
  assert (Ok : event_log_ok 4 demo_countdown) by by_computation.
  assert (H1 : LogInit demo_countdown = 0) by computed.
  assert (H2 : LogSingle demo_countdown <> 1) by by_computation.
  assert (H4 : LogSkip demo_countdown <= 0) by by_computation.
  assert (H5 : 0 <= LogSkipCount demo_countdown) by by_computation.
  assert (H6 : 0 <= LogCount demo_countdown < LogLength demo_countdown)
    by by_computation.
  assert (H7 : LogLength demo_countdown < 2 ^ (16 - 1)) by by_computation.
  assert (H8 : - 2 ^ (16 - 1) <= LogTrigger demo_countdown < 0)
    by by_computation.
  assert (H9 : LogTrigger demo_countdown <> OldTrigger demo_countdown)
    by by_computation.
  assert (HA : (4 <= Z.to_nat (- LogTrigger demo_countdown) + 1)%nat)
    by (vm_compute; lia).
  assert (HB : 4 <= Z.of_nat (Z.to_nat (- LogTrigger demo_countdown)) + 1)
    by by_computation.
  assert (HC : 0 <= 2 < 4) by lia.
  split; [exact H9|].
  destruct (countdown_floods_event_log 16 12 4 demo_READY demo_FAULT
              demo_address demo_clock demo_countdown 4 Hb HE Ok H1 H2 H4 H5
              H6 H7 H8 H9)
    as (A & B).
  split; [exact (proj2 (A HA)) | exact (B HB 2 HC)].
Defined.

Lemma UpdateLog_quiet_witness :
  LogTrigger demo_three = 0 /\ OldTrigger demo_three = 0 /\
  LogInit demo_three = 0 /\
  UpdateLog 16 12 4 demo_clock demo_three = demo_three.
Proof.
  assert (H1 : LogTrigger demo_three = 0) by computed.
  assert (H2 : OldTrigger demo_three = 0) by computed.
  assert (H3 : LogInit demo_three = 0) by computed.
  do 3 (split; [assumption|]).
  exact (proj2 (proj2 (proj2 (UpdateLog_quiet 16 12 4 demo_clock
                                demo_three))) H1 H2 H3).
Defined.


(** ** The records in the arrays, on the small platform *)

Lemma demo_event_log_ok : event_log_ok 4 demo_init.
Proof. by_computation. Qed.


Lemma reset_semantics_witness :
  demo_READY <> demo_FAULT /\
  mainState demo_init = demo_READY /\
  let t := ResetFaults 16 4 demo_READY demo_FAULT demo_clock demo_init in
  FaultWord t = 0 /\ mainState t = demo_READY /\
  logged demo_init t = [Logs.stamp demo_clock 0 E_RESET 0 0%Q] /\
  appended 4 [Logs.stamp demo_clock 0 E_RESET 0 0%Q] demo_init t.
Proof.
  assert (H : demo_READY <> demo_FAULT) by by_computation.
  assert (H16 : 16 <= 16) by lia.
  assert (H4 : 0 < 4 < 2 ^ (16 - 1)) by lia.
  assert (Hs : mainState demo_init = demo_READY) by reflexivity.
  split; [exact H|]. split; [exact Hs|]. cbv zeta.
  destruct (reset_semantics 16 4 demo_READY demo_FAULT demo_clock H16 H4
              demo_init H demo_event_log_ok)
    as (HW & _ & _ & Hready).
  split; [exact HW|]. exact (Hready Hs).
Defined.


(** [Fault(F_STALL, 3)] then [Fault(F_STALL, 5)] at start-up, with the
    16-bit [int]: two fault records (code 7) around the change of state
    (code 5), and a fault word that is still 0. *)
Lemma stall_fault_not_latched_witness :
  let s1 := Fault 16 4 demo_FAULT demo_clock F_STALL 3 demo_init in
  let s2 := Fault 16 4 demo_FAULT demo_clock F_STALL 5 s1 in
  FaultWord s2 = FaultWord demo_init /\ FaultWord s2 = 0 /\
  appended 4 [Logs.stamp demo_clock 2 E_FAULT F_STALL 5] s1 s2 /\
  EventCode s2 = [E_FAULT; E_STATE; E_FAULT; 0] /\
  EventData1 s2 = [F_STALL; demo_FAULT; F_STALL; 0] /\
  EventData2 s2 = [3; 0; 5; 0]%Q /\ EventIndex s2 = 3.
Proof.
  cbv zeta.
  assert (H4 : 0 < 4 < 2 ^ (16 - 1)) by lia.
  assert (H16 : 16 <= 16) by lia.
  destruct (stall_fault_not_latched 16 4 demo_FAULT demo_clock H16 H4 3 5
              demo_init eq_refl demo_event_log_ok)
    as (_ & _ & W & _ & A & _).
  split; [exact W|]. split; [computed|]. split; [exact A|].
  repeat split; computed.
Defined.

Lemma fault_deduplication_witness :
  let s := demo_init in
  let s1 := Fault 16 4 demo_FAULT demo_clock F_OVERCURRENT 1 s in
  let s2 := Fault 16 4 demo_FAULT demo_clock F_OVERCURRENT 2 s1 in
  Z.testbit (FaultWord s) F_OVERCURRENT = false /\
  event_log s2 = event_log s1 /\
  count_code E_FAULT (logged s s2) = 1%nat /\
  Z.testbit (FaultWord s2) F_OVERCURRENT = true /\
  EventCode s2 = [E_FAULT; E_STATE; 0; 0].
Proof.
  cbv zeta.
  assert (H4 : 0 < 4 < 2 ^ (16 - 1)) by lia.
  assert (H16 : 16 <= 16) by lia.
  assert (Hc : 0 <= F_OVERCURRENT < 16 - 1) by by_computation.
  assert (Hc' : 0 <= F_OVERSPEED < 16 - 1) by by_computation.
  assert (Hb : Z.testbit (FaultWord demo_init) F_OVERCURRENT = false)
    by reflexivity.
  split; [exact Hb|].
  destruct (fault_deduplication 16 4 demo_FAULT demo_clock H16 H4
              F_OVERCURRENT F_OVERSPEED 1 2 demo_init Hc Hc'
              demo_event_log_ok Hb)
    as (_ & _ & (A & _ & B & C) & _).
  split; [exact A|]. split; [exact B|]. split; [exact C|]. computed.
Defined.

Lemma fault_reasserted_after_reset_witness :
  let t :=
    ResetFaults 16 4 demo_READY demo_FAULT demo_clock
      (Fault 16 4 demo_FAULT demo_clock F_OVERSPEED 1 demo_init) in
  let u := Fault 16 4 demo_FAULT demo_clock F_OVERSPEED 2 t in
  demo_READY <> demo_FAULT /\
  FaultWord t = 0 /\ mainState t = demo_READY /\ PwmEnabled t = false /\
  appended 4
    [Logs.stamp demo_clock 4 E_FAULT F_OVERSPEED 2;
     Logs.stamp demo_clock 5 E_STATE demo_FAULT 0%Q] t u /\
  Z.testbit (FaultWord u) F_OVERSPEED = true /\ mainState u = demo_FAULT.
Proof.
  cbv zeta.
  assert (H : demo_READY <> demo_FAULT) by by_computation.
  assert (Hc : 0 <= F_OVERSPEED < 16 - 1) by by_computation.
  assert (H4 : 0 < 4 < 2 ^ (16 - 1)) by lia.
  assert (H16 : 16 <= 16) by lia.
  assert (HN : 1 < 4) by lia.
  split; [exact H|].
  destruct (fault_reasserted_after_reset 16 4 demo_READY demo_FAULT
              demo_clock H16 H4 F_OVERSPEED 1 2 demo_init Hc H
              demo_event_log_ok)
    as (A & B & C & _ & _ & _ & _ & G & D & E).
  split; [exact A|]. split; [exact B|]. split; [exact C|].
  split; [exact (G HN)|]. split; assumption.
Defined.

End LogsExtra.

